(** * stroke2code: pattern discovery, code synthesis and output validation

    A shallow embedding of the analysis pipeline of the repository:
    the data model (core/types.ts), [Grid] (core/Grid.ts),
    [PatternAnalyzer] (analysis/PatternAnalyzer.ts), [CodeGenerator]
    (codegen/CodeGenerator.ts) and [OutputValidator]
    (verify/OutputValidator.ts), and of the state around it:
    [FrameManager] (core/FrameManager.ts), the frame data of
    [StorageManager] (core/StorageManager.ts) and the grid operations of
    [CanvasManager] (canvas/CanvasManager.ts); followed by the properties
    of the specification that were checked against them and by further
    properties of the code.

    Conventions of the embedding.
    - JavaScript numbers that hold grid indices, dimensions and counts are
      integers ([Z]); the code never leaves the exactly representable range,
      and a statement that prints or compares arbitrary numbers bounds them
      by [JS.MAX_SAFE_INTEGER].
    - JavaScript strings are sequences of code units; the model keeps the
      code units below 256 (Rocq's [ascii]), which covers every string the
      components build.
    - A [Map] whose iteration order is observable is an association list in
      insertion order; a [Set] that is only asked for [size] and [has] is a
      [gset].
    - An operation that can raise a [TypeError] returns a [JS.result]. *)

From Stdlib Require Import ZArith QArith Ascii String DecimalString DecimalZ Lia.
From stdpp Require Import base gmap sets list strings.

Local Open Scope Z_scope.

(* ================================================================== *)
(** * JavaScript primitives used by the sources *)
(* ================================================================== *)

Module JS.

(** Outcome of a call that may raise. *)
Inductive result (A : Type) : Type :=
| Ok (a : A)
| Throw (e : string).
Arguments Ok {A} a.
Arguments Throw {A} e.

(** [Number.MAX_SAFE_INTEGER]: up to it every integer is a number of
    its own and sums, differences and exact quotients of such integers
    are computed exactly. *)
Definition MAX_SAFE_INTEGER : Z := 2 ^ 53 - 1.

(** [Number.prototype.toString] on an integer of the safe range, where
    the method prints every digit (from 10^21 on it switches to the
    exponent notation, which this definition does not follow). *)
Definition toString (n : Z) : string := NilZero.string_of_int (Z.to_int n).

(** [String.prototype.includes]. *)
Fixpoint includes (s sub : string) : bool :=
  String.prefix sub s ||
  match s with
  | EmptyString => false
  | String _ s' => includes s' sub
  end.

(** [Array.prototype.join]. *)
Definition join (l : list string) (sep : string) : string := String.concat sep l.

Definition LF : ascii := ascii_of_nat 10.
Definition TAB : ascii := ascii_of_nat 9.
Definition nl : string := String LF EmptyString.

(** [s.split('\n')]: always at least one piece. *)
Fixpoint split_nl (s : string) : list string :=
  match s with
  | EmptyString => [EmptyString]
  | String ch s' =>
      if Ascii.eqb ch LF then EmptyString :: split_nl s'
      else match split_nl s' with
           | piece :: rest => String ch piece :: rest
           | [] => [String ch EmptyString]
           end
  end.

(** WhiteSpace and LineTerminator code units (ECMAScript, TrimString)
    among the code units of the model: TAB, LF, VT, FF, CR, SP, NBSP. *)
Definition isWhiteSpace (ch : ascii) : bool :=
  let n := nat_of_ascii ch in
  (Nat.eqb n 9 || Nat.eqb n 10 || Nat.eqb n 11 || Nat.eqb n 12 ||
   Nat.eqb n 13 || Nat.eqb n 32 || Nat.eqb n 160)%bool.

(** [String.prototype.trimEnd]: drops the whole trailing run of white
    space. *)
Fixpoint trimEnd (s : string) : string :=
  match s with
  | EmptyString => EmptyString
  | String ch s' =>
      match trimEnd s' with
      | EmptyString => if isWhiteSpace ch then EmptyString else String ch EmptyString
      | t => String ch t
      end
  end.

(** [s[i] ?? d] on a string: the one-unit string at [i], or [d]. *)
Definition charOr (s : string) (i : Z) (d : string) : string :=
  if i <? 0 then d
  else match String.get (Z.to_nat i) s with
       | Some ch => String ch EmptyString
       | None => d
       end.

(** [s.charCodeAt(0)] rendered inside a template literal. *)
Definition charCodeAt0 (s : string) : string :=
  match s with
  | EmptyString => "NaN"
  | String ch _ => toString (Z.of_nat (nat_of_ascii ch))
  end.

(** [for (let i = lo; i < hi; i++)]: the values [i] takes. *)
Definition range (lo hi : Z) : list Z :=
  map (fun k => lo + Z.of_nat k) (seq 0 (Z.to_nat (hi - lo))).

(** [Math.ceil(x / 2)] on an integer [x]. *)
Definition ceil_half (x : Z) : Z := - ((- x) / 2).

(** Sequencing of computations that may raise. *)
Definition bind {A B} (m : result A) (k : A -> result B) : result B :=
  match m with
  | Ok a => k a
  | Throw e => Throw e
  end.

(** A string as a condition: the empty string is falsy. *)
Definition truthy (s : string) : bool :=
  match s with
  | EmptyString => false
  | String _ _ => true
  end.

(** [l.splice(start, 1)], the array that is left: a negative [start]
    counts from the end, a [start] past the end removes nothing. *)
Definition splice1 {A} (l : list A) (start : Z) : list A :=
  let n := Z.of_nat (length l) in
  let from := if start <? 0 then Z.max (n + start) 0 else Z.min start n in
  delete (Z.to_nat from) l.

End JS.

(* ================================================================== *)
(** * Data model (core/types.ts, printed after core/StorageManager.ts) *)
(* ================================================================== *)

(** [interface GridCoord] of core/types.ts: [row] and [col], both
    [number]. *)
Module GridCoord.
Record t := mk { row : Z; col : Z }.

#[global] Instance eq_dec : EqDecision t.
Proof. solve_decision. Defined.
End GridCoord.

(** [interface Cell] of core/types.ts: [char] is [string | null]
    ([None] for [null], the empty cell), [strokeId] and [timestamp] are
    [number]. *)
Module Cell.
Record t := mk { char : option string; strokeId : Z; timestamp : Z }.
End Cell.

(** [interface Predicate] of core/types.ts, field by field. The tag
    [type] is declared as the union [PredicateType] of string literals;
    the model keeps the string the code writes, so that a tag outside
    the union stays visible. [confidence] is a [number] between 0 and 1,
    a rational here. *)
Module Predicate.
Record t := mk {
  type : string;
  char : string;
  expression : string;
  params : list string;
  isScalable : bool;
  confidence : Q
}.
End Predicate.

(** [interface AnalysisResult] of core/types.ts, field by field. *)
Module AnalysisResult.
Record t := mk {
  predicates : list Predicate.t;
  warnings : list string;
  isFullyParametric : bool
}.
End AnalysisResult.

(** [interface GeneratedCode] of core/types.ts, field by field.
    [params] is the [Map<string, number>] in insertion order. *)
Module GeneratedCode.
Record t := mk {
  code : string;
  params : list (string * Z);
  warnings : list string;
  isScalable : bool
}.
End GeneratedCode.

(** [interface Difference] of core/types.ts, field by field. *)
Module Difference.
Record t := mk { row : Z; col : Z; expected : string; actual : string }.
End Difference.

(** [interface ValidationResult] of core/types.ts, field by field. *)
Module ValidationResult.
Record t := mk { valid : bool; differences : list Difference.t }.
End ValidationResult.

(** Insertion-ordered [Map<K, V[]>] with the idiom
    [if (!m.has(k)) m.set(k, []); m.get(k).push(v)]. *)
Fixpoint map_push {K V : Type} (eqb : K -> K -> bool) (k : K) (v : V)
    (m : list (K * list V)) : list (K * list V) :=
  match m with
  | [] => [(k, [v])]
  | (k', vs) :: m' =>
      if eqb k' k then (k', vs ++ [v]) :: m'
      else (k', vs) :: map_push eqb k v m'
  end.

(** [m.get(k)], [None] for [undefined]. *)
Fixpoint map_get {K V : Type} (eqb : K -> K -> bool) (k : K)
    (m : list (K * V)) : option V :=
  match m with
  | [] => None
  | (k', v) :: m' => if eqb k' k then Some v else map_get eqb k m'
  end.

(** The objects [getOccupiedCells] returns. *)
Module OccupiedCell.
Record t := mk { row : Z; col : Z; char : string }.
End OccupiedCell.

(* ================================================================== *)
(** * core/Grid.ts *)
(* ================================================================== *)

Module Grid.

Record t := mk { rows : Z; cols : Z; cells : list (list Cell.t) }.

Definition emptyCell : Cell.t := Cell.mk None (-1) 0.

Definition createEmptyGrid (rows cols : Z) : list (list Cell.t) :=
  repeat (repeat emptyCell (Z.to_nat cols)) (Z.to_nat rows).

(** The constructor. *)
Definition new (rows cols : Z) : t := mk rows cols (createEmptyGrid rows cols).

Definition isValidCoord (g : t) (row col : Z) : bool :=
  (0 <=? row) && (row <? rows g) && (0 <=? col) && (col <? cols g).

(** [this.cells[r][c]]. The reads of [toString] and [getCellsByChar]
    stay inside the [rows] x [cols] array the constructor allocates;
    outside it the model answers the empty cell. *)
Definition at_ (g : t) (r c : Z) : Cell.t :=
  default emptyCell (cells g !! Z.to_nat r ≫= fun line => line !! Z.to_nat c).

Definition getCell (g : t) (row col : Z) : option Cell.t :=
  if isValidCoord g row col then Some (at_ g row col) else None.

(** [setCell] with the clock reading [now] made explicit; returns the
    updated grid and the boolean result. *)
Definition setCell (g : t) (row col : Z) (char : option string)
    (strokeId : Z) (now : Z) : t * bool :=
  if negb (isValidCoord g row col) then (g, false)
  else
    let cell := at_ g row col in
    if (match char with None => true | Some _ => false end)
       || (Cell.strokeId cell <=? strokeId)
    then (mk (rows g) (cols g)
              (alter (fun line => <[Z.to_nat col := Cell.mk char strokeId now]> line)
                     (Z.to_nat row) (cells g)),
          true)
    else (g, false).

(** Get cells grouped by character: the [Map] in insertion order, the
    grid scanned row by row. *)
Definition getCellsByChar (g : t) : list (string * list GridCoord.t) :=
  foldl (fun byChar r =>
    foldl (fun byChar c =>
      match Cell.char (at_ g r c) with
      | Some ch => map_push String.eqb ch (GridCoord.mk r c) byChar
      | None => byChar
      end) byChar (JS.range 0 (cols g)))
    [] (JS.range 0 (rows g)).

(** Convert to string representation (for verification): an empty cell
    is a blank, the rows are joined by newlines. *)
Definition toString (g : t) : string :=
  JS.join
    (map (fun r =>
       foldl (fun line c =>
         line +:+ match Cell.char (at_ g r c) with
                  | Some ch => ch
                  | None => " "
                  end) "" (JS.range 0 (cols g)))
       (JS.range 0 (rows g)))
    JS.nl.

(** Get all occupied cells. *)
Definition getOccupiedCells (g : t) : list OccupiedCell.t :=
  foldl (fun occupied r =>
    foldl (fun occupied c =>
      match Cell.char (at_ g r c) with
      | Some ch => occupied ++ [OccupiedCell.mk r c ch]
      | None => occupied
      end) occupied (JS.range 0 (cols g)))
    [] (JS.range 0 (rows g)).

(** Count occupied cells. *)
Definition getOccupiedCount (g : t) : Z :=
  foldl (fun count r =>
    foldl (fun count c =>
      match Cell.char (at_ g r c) with
      | Some _ => count + 1
      | None => count
      end) count (JS.range 0 (cols g)))
    0 (JS.range 0 (rows g)).

(** Clear all cells. *)
Definition clear (g : t) : t := mk (rows g) (cols g) (createEmptyGrid (rows g) (cols g)).

(** [{ ...cell }]: a copy of the cell. *)
Definition copyCell (cell : Cell.t) : Cell.t :=
  Cell.mk (Cell.char cell) (Cell.strokeId cell) (Cell.timestamp cell).

(** Create a snapshot for undo/redo. *)
Definition snapshot (g : t) : list (list Cell.t) := map (map copyCell) (cells g).

(** Restore from snapshot. *)
Definition restore (g : t) (snapshot : list (list Cell.t)) : t :=
  mk (rows g) (cols g) (map (map copyCell) snapshot).

End Grid.

(* ================================================================== *)
(** * analysis/PatternAnalyzer.ts *)
(* ================================================================== *)

Module PatternAnalyzer.

(** U+26A0 of the overall warning, kept as its UTF-8 bytes. *)
Definition warnSign : string :=
  String (ascii_of_nat 226) (String (ascii_of_nat 154) (String (ascii_of_nat 160) "")).

(** The key [`${row},${col}`] of the string sets. *)
Definition coordKey (row col : Z) : string :=
  JS.toString row +:+ "," +:+ JS.toString col.

Definition cellKey (c : GridCoord.t) : string :=
  coordKey (GridCoord.row c) (GridCoord.col c).

(** [cells.length]. *)
Definition len {A} (l : list A) : Z := Z.of_nat (length l).

(** Convert a literal value to a parametric expression if possible. *)
Definition parameterizeValue (value dimension : Z) (dimName : string) : string :=
  if value =? 0 then "0"
  else if value =? dimension then dimName
  else if value =? dimension - 1 then dimName +:+ "-1"
  else if value =? dimension / 2 then dimName +:+ "/2"
  else if value =? dimension - 2 then dimName +:+ "-2"
  else if (Z.rem dimension 4 =? 0) && (value =? Z.quot dimension 4) then dimName +:+ "/4"
  else if (Z.rem dimension 3 =? 0) && (value =? Z.quot dimension 3) then dimName +:+ "/3"
  else JS.toString value.

Section Analyzer.
(** [this.H = grid.rows], [this.W = grid.cols]. *)
Variables H W : Z.

(** Check if ALL cells are filled. *)
Definition tryFill (cells : list GridCoord.t) (char : string) : option Predicate.t :=
  if negb (len cells =? H * W) then None
  else Some (Predicate.mk "filled_rect" char "true" ["H"; "W"] true 1).

Definition expectedBorder : gset string :=
  let top_bottom :=
    foldl (fun s c => {[coordKey (H - 1) c]} ∪ ({[coordKey 0 c]} ∪ s))
          (∅ : gset string) (JS.range 0 W) in
  foldl (fun s r => {[coordKey r (W - 1)]} ∪ ({[coordKey r 0]} ∪ s))
        top_bottom (JS.range 1 (H - 1)).

(** Check for border pattern. *)
Definition tryBorder (cells : list GridCoord.t) (char : string) : option Predicate.t :=
  let cellSet : gset string := list_to_set (map cellKey cells) in
  if negb (Nat.eqb (size cellSet) (size expectedBorder)) then None
  else if negb (forallb (fun key => bool_decide (key ∈ cellSet)) (elements expectedBorder))
  then None
  else Some (Predicate.mk "border" char
               "r == 0 || r == H-1 || c == 0 || c == W-1" ["H"; "W"] true 1).

(** Check for main diagonal (r == c). *)
Definition tryDiagonal (cells : list GridCoord.t) (char : string) : option Predicate.t :=
  let minDim := Z.min H W in
  if negb (len cells =? minDim) then None
  else if negb (forallb (fun cell => GridCoord.row cell =? GridCoord.col cell) cells)
  then None
  else Some (Predicate.mk "diagonal" char "r == c" ["H"; "W"] true 1).

(** Check for anti-diagonal (r + c == min(H,W) - 1). *)
Definition tryAntiDiagonal (cells : list GridCoord.t) (char : string) : option Predicate.t :=
  let minDim := Z.min H W in
  if negb (len cells =? minDim) then None
  else
    let target := minDim - 1 in
    if negb (forallb (fun cell => GridCoord.row cell + GridCoord.col cell =? target) cells)
    then None
    else
      let expr := if H <=? W then "r + c == H - 1 && c < H"
                  else "r + c == W - 1 && r < W" in
      Some (Predicate.mk "anti_diagonal" char expr ["H"; "W"] true 1).

(** Check for horizontal line. [cells[0].row] raises when [cells] is
    empty. *)
Definition tryHorizontalLine (cells : list GridCoord.t) (char : string)
    : JS.result (option Predicate.t) :=
  if negb (len cells =? W) then JS.Ok None
  else match cells with
       | [] => JS.Throw "TypeError: cells[0] is undefined"
       | c0 :: _ =>
           let row := GridCoord.row c0 in
           if negb (forallb (fun cell => GridCoord.row cell =? row) cells) then JS.Ok None
           else
             let param := parameterizeValue row H "H" in
             JS.Ok (Some (Predicate.mk "horizontal_line" char
                            ("r == " +:+ param)
                            (if JS.includes param "H" then ["H"; "W"] else ["W"])
                            (JS.includes param "H")
                            (if JS.includes param "H" then 1 else (1 # 2))%Q))
       end.

(** Check for vertical line. *)
Definition tryVerticalLine (cells : list GridCoord.t) (char : string)
    : JS.result (option Predicate.t) :=
  if negb (len cells =? H) then JS.Ok None
  else match cells with
       | [] => JS.Throw "TypeError: cells[0] is undefined"
       | c0 :: _ =>
           let col := GridCoord.col c0 in
           if negb (forallb (fun cell => GridCoord.col cell =? col) cells) then JS.Ok None
           else
             let param := parameterizeValue col W "W" in
             JS.Ok (Some (Predicate.mk "vertical_line" char
                            ("c == " +:+ param)
                            (if JS.includes param "W" then ["H"; "W"] else ["H"])
                            (JS.includes param "W")
                            (if JS.includes param "W" then 1 else (1 # 2))%Q))
       end.

(** Check for filled rectangle region. The bounds start at
    [Infinity] and [-Infinity] in the source; after the first cell
    they hold that cell's coordinates, and the list is not empty
    here, so the folds start from the first cell. *)
Definition tryFilledRectangle (cells : list GridCoord.t) (char : string)
    : option Predicate.t :=
  match cells with
  | [] => None
  | c0 :: _ =>
      let minR := foldl (fun m cell => Z.min m (GridCoord.row cell)) (GridCoord.row c0) cells in
      let maxR := foldl (fun m cell => Z.max m (GridCoord.row cell)) (GridCoord.row c0) cells in
      let minC := foldl (fun m cell => Z.min m (GridCoord.col cell)) (GridCoord.col c0) cells in
      let maxC := foldl (fun m cell => Z.max m (GridCoord.col cell)) (GridCoord.col c0) cells in
      let expectedCount := (maxR - minR + 1) * (maxC - minC + 1) in
      if negb (len cells =? expectedCount) then None
      else
        let cellSet : gset string := list_to_set (map cellKey cells) in
        if negb (forallb (fun r =>
                   forallb (fun c => bool_decide (coordKey r c ∈ cellSet))
                           (JS.range minC (maxC + 1)))
                 (JS.range minR (maxR + 1)))
        then None
        else
          let r1 := parameterizeValue minR H "H" in
          let r2 := parameterizeValue (maxR + 1) H "H" in
          let c1 := parameterizeValue minC W "W" in
          let c2 := parameterizeValue (maxC + 1) W "W" in
          let isScalable :=
            JS.includes r1 "H" || JS.includes r2 "H" ||
            JS.includes c1 "W" || JS.includes c2 "W" in
          Some (Predicate.mk "filled_rect" char
                  ("r >= " +:+ r1 +:+ " && r < " +:+ r2 +:+
                   " && c >= " +:+ c1 +:+ " && c < " +:+ c2)
                  ["H"; "W"] isScalable
                  (if isScalable then 1 else (7 # 10))%Q)
  end.

(** Check for checkerboard pattern. *)
Definition tryCheckerboard (cells : list GridCoord.t) (char : string)
    : option Predicate.t :=
  let expectedCount := JS.ceil_half (H * W) in
  if Z.abs (len cells - expectedCount) >? 1 then None
  else
    let '(evenCount, oddCount) :=
      foldl (fun '(e, o) cell =>
               if Z.rem (GridCoord.row cell + GridCoord.col cell) 2 =? 0
               then (e + 1, o) else (e, o + 1))
            (0, 0) cells in
    if evenCount =? len cells then
      Some (Predicate.mk "checkerboard" char "(r + c) % 2 == 0" ["H"; "W"] true 1)
    else if oddCount =? len cells then
      Some (Predicate.mk "checkerboard" char "(r + c) % 2 == 1" ["H"; "W"] true 1)
    else None.

(** Fallback: explicit coordinate set. *)
Definition fallbackCoordinateSet (cells : list GridCoord.t) (char : string)
    : Predicate.t :=
  Predicate.mk "coordinate_set" char
    ("occupied_" +:+ JS.charCodeAt0 char +:+ ".count({r, c})")
    [] false 0.

(** The detector closures, in priority order. *)
Definition detectors (cells : list GridCoord.t) (char : string)
    : list (unit -> JS.result (option Predicate.t)) :=
  [ (fun _ => JS.Ok (tryFill cells char));
    (fun _ => JS.Ok (tryBorder cells char));
    (fun _ => JS.Ok (tryDiagonal cells char));
    (fun _ => JS.Ok (tryAntiDiagonal cells char));
    (fun _ => tryHorizontalLine cells char);
    (fun _ => tryVerticalLine cells char);
    (fun _ => JS.Ok (tryFilledRectangle cells char));
    (fun _ => JS.Ok (tryCheckerboard cells char)) ].

(** [for (const detector of detectors) { ... if (result) return result; }] *)
Fixpoint firstMatch (ds : list (unit -> JS.result (option Predicate.t)))
    : JS.result (option Predicate.t) :=
  match ds with
  | [] => JS.Ok None
  | d :: ds' =>
      match d tt with
      | JS.Ok (Some p) => JS.Ok (Some p)
      | JS.Ok None => firstMatch ds'
      | JS.Throw e => JS.Throw e
      end
  end.

(** Attempt to find the best predicate for a set of cells. *)
Definition discoverPredicate (cells : list GridCoord.t) (char : string)
    : JS.result Predicate.t :=
  match firstMatch (detectors cells char) with
  | JS.Ok (Some p) => JS.Ok p
  | JS.Ok None => JS.Ok (fallbackCoordinateSet cells char)
  | JS.Throw e => JS.Throw e
  end.

End Analyzer.

Definition getCellsByChar (grid : Grid.t) : list (string * list GridCoord.t) :=
  Grid.getCellsByChar grid.

(** One step of the loop of [analyze]. *)
Definition analyzeStep (H W : Z) (acc : JS.result AnalysisResult.t)
    (entry : string * list GridCoord.t) : JS.result AnalysisResult.t :=
  match acc with
  | JS.Throw e => JS.Throw e
  | JS.Ok acc =>
      let '(char, cells) := entry in
      match discoverPredicate H W cells char with
      | JS.Throw e => JS.Throw e
      | JS.Ok predicate =>
          let predicates := AnalysisResult.predicates acc ++ [predicate] in
          if negb (Predicate.isScalable predicate) then
            JS.Ok (AnalysisResult.mk predicates
                     (AnalysisResult.warnings acc ++
                      ["Character '" +:+ char +:+
                       "': Pattern could not be parameterized. " +:+
                       "Using coordinate set (" +:+ JS.toString (len cells) +:+ " points)."])
                     false)
          else
            JS.Ok (AnalysisResult.mk predicates (AnalysisResult.warnings acc)
                     (AnalysisResult.isFullyParametric acc))
      end
  end.

(** Main analysis entry point. *)
Definition analyze (grid : Grid.t) : JS.result AnalysisResult.t :=
  let H := Grid.rows grid in
  let W := Grid.cols grid in
  match foldl (analyzeStep H W) (JS.Ok (AnalysisResult.mk [] [] true))
              (Grid.getCellsByChar grid) with
  | JS.Throw e => JS.Throw e
  | JS.Ok acc =>
      if negb (AnalysisResult.isFullyParametric acc) then
        JS.Ok (AnalysisResult.mk (AnalysisResult.predicates acc)
                 (AnalysisResult.warnings acc ++
                  [JS.nl +:+ warnSign +:+ " WARNING: Some patterns use coordinate sets." +:+ JS.nl +:+
                   "Changing H or W will NOT scale these patterns proportionally."])
                 false)
      else JS.Ok acc
  end.

End PatternAnalyzer.

(* ================================================================== *)
(** * codegen/CodeGenerator.ts *)
(* ================================================================== *)

Module CodeGenerator.

Definition backslash : string := String (ascii_of_nat 92) "".
Definition tab : string := String JS.TAB "".

(** The separator of a wrapped disjunction: [' ||\n'] and sixteen
    blanks. *)
Definition wrapSep : string := " ||" +:+ JS.nl +:+ "                ".

(** Convert character to C++ char literal. *)
Definition charToLiteral (char : string) : string :=
  if String.eqb char backslash then "'" +:+ backslash +:+ backslash +:+ "'"
  else if String.eqb char "'" then "'" +:+ backslash +:+ "''"
  else if String.eqb char JS.nl then "'" +:+ backslash +:+ "n'"
  else if String.eqb char tab then "'" +:+ backslash +:+ "t'"
  else "'" +:+ char +:+ "'".

(** The clause of one entry of [byRow]. *)
Definition rowCondition (entry : Z * list Z) : string :=
  let '(row, cols) := entry in
  match cols with
  | [c0] => "(r==" +:+ JS.toString row +:+ " && c==" +:+ JS.toString c0 +:+ ")"
  | _ =>
      let colChecks := JS.join (map (fun c => "c==" +:+ JS.toString c) cols) " || " in
      "(r==" +:+ JS.toString row +:+ " && (" +:+ colChecks +:+ "))"
  end.

(** The [Map] from row to columns, in insertion order. *)
Definition groupByRow (cells : list GridCoord.t) : list (Z * list Z) :=
  foldl (fun byRow cell => map_push Z.eqb (GridCoord.row cell) (GridCoord.col cell) byRow)
        [] cells.

(** Group coordinates by row for cleaner code. *)
Definition generateGroupedCondition (cells : list GridCoord.t) : string :=
  let byRow := groupByRow cells in
  let rowConditions := map rowCondition byRow in
  JS.join rowConditions wrapSep.

(** The term of one cell in the flat chain. *)
Definition cellCondition (c : GridCoord.t) : string :=
  "(r==" +:+ JS.toString (GridCoord.row c) +:+ " && c==" +:+
  JS.toString (GridCoord.col c) +:+ ")".

(** Generate simple (r==X && c==Y) || ... chain. *)
Definition generateCoordinateCondition (cells : list GridCoord.t) : string :=
  if PatternAnalyzer.len cells =? 0 then "false"
  else if PatternAnalyzer.len cells >? 20 then generateGroupedCondition cells
  else
    let conditions := map cellCondition cells in
    if PatternAnalyzer.len conditions <=? 5 then JS.join conditions " || "
    else JS.join conditions wrapSep.

Section Generator.
Variable predicates : list Predicate.t.
Variables H W : Z.
Variable cellsByChar : list (string * list GridCoord.t).

(** Convert predicate to BASIC C++ condition. *)
Definition predicateToCondition (pred : Predicate.t) : string :=
  if String.eqb (Predicate.type pred) "coordinate_set" then
    let cells := default [] (map_get String.eqb (Predicate.char pred) cellsByChar) in
    generateCoordinateCondition cells
  else Predicate.expression pred.

(** The two lines pushed for the predicate at index [i]. *)
Definition branchLines (i : nat) (pred : Predicate.t) : list string :=
  let condition := predicateToCondition pred in
  let charLiteral := charToLiteral (Predicate.char pred) in
  [ (if Nat.eqb i 0 then "            if (" +:+ condition +:+ ") {"
     else "            } else if (" +:+ condition +:+ ") {");
    "                cout << " +:+ charLiteral +:+ ";" ].

(** Generate simple if-else chain. *)
Definition generateConditions : string :=
  if PatternAnalyzer.len predicates =? 0 then "            cout << ' ';"
  else
    let lines :=
      concat (imap branchLines predicates) ++
      [ "            } else {";
        "                cout << ' ';";
        "            }" ] in
    JS.join lines JS.nl.

Definition buildCode : string :=
  JS.join
    [ "#include <iostream>";
      "using namespace std;";
      "";
      "int main() {";
      "    int H = " +:+ JS.toString H +:+ ";  // Height - change to scale";
      "    int W = " +:+ JS.toString W +:+ ";  // Width - change to scale";
      "";
      "    for (int r = 0; r < H; r++) {";
      "        for (int c = 0; c < W; c++) {";
      generateConditions;
      "        }";
      "        cout << endl;";
      "    }";
      "";
      "    return 0;";
      "}" ]
    JS.nl.

(** Generate complete C++ program. *)
Definition generate : GeneratedCode.t :=
  let params := [("H", H); ("W", W)] in
  let hasCoordinateSets :=
    existsb (fun p => String.eqb (Predicate.type p) "coordinate_set") predicates in
  let isScalable := negb hasCoordinateSets in
  let warnings :=
    if hasCoordinateSets
    then [PatternAnalyzer.warnSign +:+
          " Contains fixed coordinates - will not scale with H/W changes."]
    else [] in
  let code := buildCode in
  GeneratedCode.mk code params warnings isScalable.

End Generator.

End CodeGenerator.

(* ================================================================== *)
(** * verify/OutputValidator.ts *)
(* ================================================================== *)

Module OutputValidator.

(** Format character for display. *)
Definition formatChar (char : string) : string :=
  if String.eqb char " " then "(space)"
  else if String.eqb char CodeGenerator.tab then "(tab)"
  else if String.eqb char JS.nl then "(newline)"
  else "'" +:+ char +:+ "'".

(** The differences found on row [r]. *)
Definition diffRow (expectedLines actualLines : list string) (r : Z)
    : list Difference.t :=
  let expLine := default "" (expectedLines !! Z.to_nat r) in
  let actLine := default "" (actualLines !! Z.to_nat r) in
  let maxCols := Z.max (Z.of_nat (String.length expLine))
                       (Z.of_nat (String.length actLine)) in
  flat_map (fun c =>
    let expChar := JS.charOr expLine c " " in
    let actChar := JS.charOr actLine c " " in
    if negb (String.eqb expChar actChar)
    then [Difference.mk r c (formatChar expChar) (formatChar actChar)]
    else []) (JS.range 0 maxCols).

(** Compute character-level differences. *)
Definition computeDiff (expected actual : string) : list Difference.t :=
  let expectedLines := JS.split_nl expected in
  let actualLines := JS.split_nl actual in
  let maxRows := Z.max (PatternAnalyzer.len expectedLines)
                       (PatternAnalyzer.len actualLines) in
  flat_map (diffRow expectedLines actualLines) (JS.range 0 maxRows).

(** Validate that program output matches the grid exactly. *)
Definition validate (grid : Grid.t) (programOutput : string) : ValidationResult.t :=
  let expected := Grid.toString grid in
  let actual := JS.trimEnd programOutput in
  if String.eqb expected actual then ValidationResult.mk true []
  else ValidationResult.mk false (computeDiff expected actual).

End OutputValidator.

(* ================================================================== *)
(** * core/StorageManager.ts and the export helper of index.ts *)
(* ================================================================== *)

Module SavedFrame.
Record t := mk { r : Z; c : Z; char : string }.
End SavedFrame.

Module StorageManager.

(** The data [savePattern] stores for one grid, the body of
    [grids.map(grid => ...)]: the cells holding a non-empty symbol, row
    by row. *)
Definition frameData (grid : Grid.t) : list SavedFrame.t :=
  foldl (fun data r =>
    foldl (fun data c =>
      match Grid.getCell grid r c with
      | Some cell =>
          match Cell.char cell with
          | Some ch => if JS.truthy ch then data ++ [SavedFrame.mk r c ch] else data
          | None => data
          end
      | None => data
      end) data (JS.range 0 (Grid.cols grid)))
    [] (JS.range 0 (Grid.rows grid)).

(** [const framesData = grids.map(...)] of [savePattern]. *)
Definition framesData (grids : list Grid.t) : list (list SavedFrame.t) :=
  map frameData grids.

End StorageManager.

Module App.

(** Helper for JSON export. *)
Definition gridToData (grid : Grid.t) : list SavedFrame.t :=
  foldl (fun data r =>
    foldl (fun data c =>
      match Grid.getCell grid r c with
      | Some cell =>
          match Cell.char cell with
          | Some ch => if JS.truthy ch then data ++ [SavedFrame.mk r c ch] else data
          | None => data
          end
      | None => data
      end) data (JS.range 0 (Grid.cols grid)))
    [] (JS.range 0 (Grid.rows grid)).

End App.

(* ================================================================== *)
(** * core/FrameManager.ts *)
(* ================================================================== *)

(** [Grid.setCell] reads [Date.now()]. A loop that scans cells and
    writes each scanned cell at most once takes the readings as a
    function of the scanned coordinate; a loop over stored data takes
    them as a function of the position in the data. The calls of
    [notify] are recorded in [notified], with the arguments passed to
    the observer. *)
Module FrameManager.

Record t := mk {
  frames : list Grid.t;
  currentFrameIndex : Z;
  rows : Z;
  cols : Z;
  notified : list (Z * Z)
}.

Definition notify (m : t) : t :=
  mk (frames m) (currentFrameIndex m) (rows m) (cols m)
     (notified m ++ [(currentFrameIndex m, PatternAnalyzer.len (frames m))]).

(** [this.frames[i]], [None] for [undefined]. *)
Definition frameAt (m : t) (i : Z) : option Grid.t :=
  if i <? 0 then None else frames m !! Z.to_nat i.

(** Get current grid for editing. *)
Definition getCurrentGrid (m : t) : option Grid.t := frameAt m (currentFrameIndex m).

Definition getFrame (m : t) (index : Z) : option Grid.t :=
  if (index <? 0) || (index >=? PatternAnalyzer.len (frames m)) then frameAt m 0
  else frameAt m index.

Definition getFrameCount (m : t) : Z := PatternAnalyzer.len (frames m).

Definition getCurrentIndex (m : t) : Z := currentFrameIndex m.

Definition gotoFrame (index : Z) (m : t) : t :=
  if (index >=? 0) && (index <? PatternAnalyzer.len (frames m)) then
    notify (mk (frames m) index (rows m) (cols m) (notified m))
  else m.

Definition nextFrame (m : t) : t :=
  if currentFrameIndex m <? PatternAnalyzer.len (frames m) - 1 then
    notify (mk (frames m) (currentFrameIndex m + 1) (rows m) (cols m) (notified m))
  else m.

Definition prevFrame (m : t) : t :=
  if currentFrameIndex m >? 0 then
    notify (mk (frames m) (currentFrameIndex m - 1) (rows m) (cols m) (notified m))
  else m.

(** The copy loop of [addFrame] and [resize]: the cells of [prev]
    holding a non-empty symbol, scanned over [rowsN] x [colsN], are
    written to [newGrid] at the same coordinate with their stroke
    number. *)
Definition copyCells (clock : Z -> Z -> Z) (prev : Grid.t) (rowsN colsN : Z)
    (newGrid : Grid.t) : Grid.t :=
  foldl (fun newGrid r =>
    foldl (fun newGrid c =>
      match Grid.getCell prev r c with
      | Some cell =>
          match Cell.char cell with
          | Some ch =>
              if JS.truthy ch
              then fst (Grid.setCell newGrid r c (Some ch) (Cell.strokeId cell) (clock r c))
              else newGrid
          | None => newGrid
          end
      | None => newGrid
      end) newGrid (JS.range 0 colsN))
    newGrid (JS.range 0 rowsN).

Definition addFrame (clock : Z -> Z -> Z) (copyPrevious : bool) (m : t) : t :=
  let newGrid :=
    match copyPrevious && (PatternAnalyzer.len (frames m) >? 0), last (frames m) with
    | true, Some prev => copyCells clock prev (rows m) (cols m) (Grid.new (rows m) (cols m))
    | _, _ => Grid.new (rows m) (cols m)
    end in
  let frames' := frames m ++ [newGrid] in
  notify (mk frames' (PatternAnalyzer.len frames' - 1) (rows m) (cols m) (notified m)).

(** The constructor: starts with one frame. No cell is written, so no
    clock is read. *)
Definition new (rows cols : Z) : t :=
  addFrame (fun _ _ => 0) false (mk [] 0 rows cols []).

Definition deleteCurrentFrame (m : t) : JS.result t :=
  if PatternAnalyzer.len (frames m) <=? 1 then
    match frames m with
    | [] => JS.Throw "TypeError: this.frames[0] is undefined"
    | first :: rest =>
        JS.Ok (notify (mk (Grid.clear first :: rest) (currentFrameIndex m)
                          (rows m) (cols m) (notified m)))
    end
  else
    let frames' := JS.splice1 (frames m) (currentFrameIndex m) in
    let index :=
      if currentFrameIndex m >=? PatternAnalyzer.len frames'
      then PatternAnalyzer.len frames' - 1
      else currentFrameIndex m in
    JS.Ok (notify (mk frames' index (rows m) (cols m) (notified m))).

(** Resizing (propagates to all frames); [clock i] serves frame [i]. *)
Definition resize (clock : nat -> Z -> Z -> Z) (rows cols : Z) (m : t) : t :=
  let frames' :=
    imap (fun i oldGrid =>
            copyCells (clock i) oldGrid
              (Z.min rows (Grid.rows oldGrid)) (Z.min cols (Grid.cols oldGrid))
              (Grid.new rows cols))
         (frames m) in
  notify (mk frames' (currentFrameIndex m) rows cols (notified m)).

(** The grid [loadFrames] builds from the data of one frame. *)
Definition loadGrid (clock : nat -> Z) (frameData : list SavedFrame.t) (rows cols : Z)
    : Grid.t :=
  foldl (fun grid entry =>
           let '(cell, now) := entry in
           fst (Grid.setCell grid (SavedFrame.r cell) (SavedFrame.c cell)
                  (Some (SavedFrame.char cell)) 0 now))
        (Grid.new rows cols)
        (imap (fun j cell => (cell, clock j)) frameData).

(** Load from storage; [clock i j] serves entry [j] of frame [i]. *)
Definition loadFrames (clock : nat -> nat -> Z) (framesData : list (list SavedFrame.t))
    (rows cols : Z) (m : t) : t :=
  let frames' := imap (fun i frameData => loadGrid (clock i) frameData rows cols) framesData in
  let loaded := mk frames' (currentFrameIndex m) rows cols (notified m) in
  let filled :=
    if PatternAnalyzer.len frames' =? 0 then addFrame (fun _ _ => 0) false loaded
    else loaded in
  notify (mk (frames filled) 0 rows cols (notified filled)).

Definition getAllFrames (m : t) : list Grid.t := frames m.

End FrameManager.

(* ================================================================== *)
(** * canvas/CanvasManager.ts *)
(* ================================================================== *)

Module Layer.
Inductive t := background | foreground.
Definition eqb (a b : t) : bool :=
  match a, b with
  | background, background | foreground, foreground => true
  | _, _ => false
  end.
End Layer.

Module UndoState.
Record t := mk { layer : Layer.t; frameIdx : Z; snapshot : list (list Cell.t) }.
End UndoState.

(** The fields the transforms, the layers, the resizing and undo/redo
    read and write. The canvas, the snapper and the drawing state are
    left out: the methods below only hand them to [render]. Of [render]
    the model keeps what can stop a method: it reads every cell of the
    background grid and of the current frame, and the read
    [this.cells[r][c]] raises when the cell array has no line [r]. The
    observers ([onGridChange], [onFrameUpdate]) are left out. The cell
    reads of the copy loops are [Grid.getCell], the method on a grid
    whose cell array has the shape the constructor gives. A grid
    returned by [getGrid] or [getFrame] is the object the manager holds,
    so what a method does to it is done to the stored grid. The stacks
    grow at the end: [push] appends, [pop] takes the last element,
    [shift] drops the first. *)
Module CanvasManager.

Record t := mk {
  frameManager : FrameManager.t;
  backgroundGrid : Grid.t;
  activeLayer : Layer.t;
  undoStack : list UndoState.t;
  redoStack : list UndoState.t
}.

(** The constructor. Its [render] reads two grids fresh from their
    constructor. *)
Definition new (rows cols : Z) : t :=
  mk (FrameManager.new rows cols) (Grid.new rows cols) Layer.foreground [] [].

Definition getGrid (cm : t) : option Grid.t :=
  match activeLayer cm with
  | Layer.background => Some (backgroundGrid cm)
  | Layer.foreground => FrameManager.getCurrentGrid (frameManager cm)
  end.

(** [drawGrid] of [render]: the reads [g.getCell(r, c)] for [r] below
    [rows] and [c] below [cols]. *)
Definition drawGrid (g : Grid.t) : JS.result unit :=
  if (0 <? Grid.cols g)
     && existsb (fun r => match Grid.cells g !! Z.to_nat r with
                          | None => true
                          | Some _ => false
                          end) (JS.range 0 (Grid.rows g))
  then JS.Throw "TypeError: this.cells[row] is undefined"
  else JS.Ok tt.

Definition render (cm : t) : JS.result unit :=
  JS.bind (drawGrid (backgroundGrid cm)) (fun _ =>
    match FrameManager.getCurrentGrid (frameManager cm) with
    | None => JS.Throw "TypeError: g is undefined"
    | Some g => drawGrid g
    end).

(** The state, once [render] has read it. *)
Definition rendered (cm : t) : JS.result t := JS.bind (render cm) (fun _ => JS.Ok cm).

(** The frame manager with the frame at [index] replaced. *)
Definition putFrame (m : FrameManager.t) (index : Z) (grid : Grid.t) : FrameManager.t :=
  FrameManager.mk (<[Z.to_nat index := grid]> (FrameManager.frames m))
    (FrameManager.currentFrameIndex m) (FrameManager.rows m) (FrameManager.cols m)
    (FrameManager.notified m).

(** The state after the grid [getGrid] returns was changed into
    [grid]. *)
Definition putGrid (cm : t) (grid : Grid.t) : t :=
  match activeLayer cm with
  | Layer.background =>
      mk (frameManager cm) grid (activeLayer cm) (undoStack cm) (redoStack cm)
  | Layer.foreground =>
      mk (putFrame (frameManager cm) (FrameManager.currentFrameIndex (frameManager cm)) grid)
         (backgroundGrid cm) (activeLayer cm) (undoStack cm) (redoStack cm)
  end.

Definition setActiveLayer (layer : Layer.t) (cm : t) : JS.result t :=
  rendered (mk (frameManager cm) (backgroundGrid cm) layer (undoStack cm) (redoStack cm)).

(** [this.frameManager.gotoFrame(index)]: when the frame manager
    notifies, its observer calls [render]. *)
Definition gotoFrame (index : Z) (cm : t) : JS.result t :=
  if (index >=? 0) && (index <? PatternAnalyzer.len (FrameManager.frames (frameManager cm)))
  then rendered (mk (FrameManager.gotoFrame index (frameManager cm)) (backgroundGrid cm)
                    (activeLayer cm) (undoStack cm) (redoStack cm))
  else JS.Ok cm.

Definition saveUndoState (cm : t) : JS.result t :=
  match getGrid cm with
  | None => JS.Throw "TypeError: this.getGrid() is undefined"
  | Some grid =>
      let pushed :=
        undoStack cm ++
        [UndoState.mk (activeLayer cm) (FrameManager.getCurrentIndex (frameManager cm))
           (Grid.snapshot grid)] in
      let kept := if PatternAnalyzer.len pushed >? 50 then tail pushed else pushed in
      JS.Ok (mk (frameManager cm) (backgroundGrid cm) (activeLayer cm) kept [])
  end.

(** The loop the transforms and [resize] share: the cells of [source]
    holding a non-empty symbol, scanned over [rowsN] x [colsN], are
    written to [destination] at [target r c] with their stroke
    number. *)
Definition moveCells (clock : Z -> Z -> Z) (target : Z -> Z -> Z * Z) (source : Grid.t)
    (rowsN colsN : Z) (destination : Grid.t) : Grid.t :=
  foldl (fun destination r =>
    foldl (fun destination c =>
      match Grid.getCell source r c with
      | Some cell =>
          match Cell.char cell with
          | Some ch =>
              if JS.truthy ch
              then fst (Grid.setCell destination (fst (target r c)) (snd (target r c))
                          (Some ch) (Cell.strokeId cell) (clock r c))
              else destination
          | None => destination
          end
      | None => destination
      end) destination (JS.range 0 colsN))
    destination (JS.range 0 rowsN).

(** The body the three transforms share: the cells are moved to a new
    grid, the grid is cleared, and the new grid is copied back. The
    flips call [render] at the end, the rotation does not. *)
Definition transform (renders : bool) (clock1 clock2 : Z -> Z -> Z)
    (target : Grid.t -> Z -> Z -> Z * Z) (cm : t) : JS.result t :=
  JS.bind (saveUndoState cm) (fun saved =>
    match getGrid saved with
    | None => JS.Throw "TypeError: grid is undefined"
    | Some grid =>
        let newGrid :=
          moveCells clock1 (target grid) grid (Grid.rows grid) (Grid.cols grid)
            (Grid.new (Grid.rows grid) (Grid.cols grid)) in
        let grid' :=
          moveCells clock2 (fun r c => (r, c)) newGrid (Grid.rows grid) (Grid.cols grid)
            (Grid.clear grid) in
        if renders then rendered (putGrid saved grid') else JS.Ok (putGrid saved grid')
    end).

Definition rotateGrid (clock1 clock2 : Z -> Z -> Z) (cm : t) : JS.result t :=
  transform false clock1 clock2
    (fun grid r c => (Z.rem c (Grid.rows grid), Z.rem (Grid.rows grid - 1 - r) (Grid.cols grid)))
    cm.

Definition flipHorizontal (clock1 clock2 : Z -> Z -> Z) (cm : t) : JS.result t :=
  transform true clock1 clock2 (fun grid r c => (r, Grid.cols grid - 1 - c)) cm.

Definition flipVertical (clock1 clock2 : Z -> Z -> Z) (cm : t) : JS.result t :=
  transform true clock1 clock2 (fun grid r c => (Grid.rows grid - 1 - r, c)) cm.

Definition clear (cm : t) : JS.result t :=
  JS.bind (saveUndoState cm) (fun saved =>
    match getGrid saved with
    | None => JS.Throw "TypeError: this.getGrid() is undefined"
    | Some grid => rendered (putGrid saved (Grid.clear grid))
    end).

(** [resize]: the frame manager resizes its frames and notifies, so
    [render] runs once with the old background and once at the end. *)
Definition resize (clockFrames : nat -> Z -> Z -> Z) (clockBackground : Z -> Z -> Z)
    (rows cols : Z) (cm : t) : JS.result t :=
  let frames' := FrameManager.resize clockFrames rows cols (frameManager cm) in
  JS.bind (rendered (mk frames' (backgroundGrid cm) (activeLayer cm)
                        (undoStack cm) (redoStack cm))) (fun cm =>
    let newBg :=
      moveCells clockBackground (fun r c => (r, c)) (backgroundGrid cm)
        (Z.min rows (Grid.rows (backgroundGrid cm)))
        (Z.min cols (Grid.cols (backgroundGrid cm)))
        (Grid.new rows cols) in
    rendered (mk (frameManager cm) newBg (activeLayer cm) (undoStack cm) (redoStack cm))).

(** What [undo] and [redo] do with the state popped from one stack:
    the present cells of the state's grid go to the other stack
    (returned as second component), the layer and the frame of the
    state become the active ones, and the grid is restored from the
    state. *)
Definition revert (state : UndoState.t) (cm : t) : JS.result (t * UndoState.t) :=
  let targetGrid :=
    match UndoState.layer state with
    | Layer.background => Some (backgroundGrid cm)
    | Layer.foreground => FrameManager.getFrame (frameManager cm) (UndoState.frameIdx state)
    end in
  match targetGrid with
  | None => JS.Throw "TypeError: targetGrid is undefined"
  | Some targetGrid =>
      let present :=
        UndoState.mk (UndoState.layer state) (UndoState.frameIdx state)
          (Grid.snapshot targetGrid) in
      JS.bind (if negb (Layer.eqb (activeLayer cm) (UndoState.layer state))
               then setActiveLayer (UndoState.layer state) cm
               else JS.Ok cm) (fun cm =>
      JS.bind (if Layer.eqb (UndoState.layer state) Layer.foreground
                  && negb (FrameManager.getCurrentIndex (frameManager cm)
                           =? UndoState.frameIdx state)
               then gotoFrame (UndoState.frameIdx state) cm
               else JS.Ok cm) (fun cm =>
      let restored := Grid.restore targetGrid (UndoState.snapshot state) in
      let index := UndoState.frameIdx state in
      let held :=
        if (index <? 0)
           || (index >=? PatternAnalyzer.len (FrameManager.frames (frameManager cm)))
        then 0 else index in
      JS.bind (rendered
                 match UndoState.layer state with
                 | Layer.background =>
                     mk (frameManager cm) restored (activeLayer cm)
                        (undoStack cm) (redoStack cm)
                 | Layer.foreground =>
                     mk (putFrame (frameManager cm) held restored) (backgroundGrid cm)
                        (activeLayer cm) (undoStack cm) (redoStack cm)
                 end) (fun cm => JS.Ok (cm, present))))
  end.

Definition undo (cm : t) : JS.result t :=
  match last (undoStack cm) with
  | None => JS.Ok cm
  | Some state =>
      let popped :=
        mk (frameManager cm) (backgroundGrid cm) (activeLayer cm)
           (removelast (undoStack cm)) (redoStack cm) in
      JS.bind (revert state popped) (fun '(cm, present) =>
        JS.Ok (mk (frameManager cm) (backgroundGrid cm) (activeLayer cm)
                  (undoStack cm) (redoStack cm ++ [present])))
  end.

Definition redo (cm : t) : JS.result t :=
  match last (redoStack cm) with
  | None => JS.Ok cm
  | Some state =>
      let popped :=
        mk (frameManager cm) (backgroundGrid cm) (activeLayer cm)
           (undoStack cm) (removelast (redoStack cm)) in
      JS.bind (revert state popped) (fun '(cm, present) =>
        JS.Ok (mk (frameManager cm) (backgroundGrid cm) (activeLayer cm)
                  (undoStack cm ++ [present]) (redoStack cm)))
  end.

End CanvasManager.

(* ================================================================== *)
(** * The emitted conditions and their meaning *)
(* ================================================================== *)

(** The synthesized program is text. To say what a condition evaluates
    to, the fragment of C++ the generator emits is given a syntax tree
    ([Cxx.expr]), a printer ([Cxx.show]) that yields the emitted text
    character for character, and the evaluation C++ prescribes on [int]
    ([Cxx.eval]). A tree is tied to a predicate by [show e = condition]. *)
Module Cxx.

Inductive binop := Add | Sub | Div | Mod | Eq | Lt | Ge | And | Or.

(** How an operator is laid out: [a+b], [a + b], or with a line break
    and sixteen blanks after it. *)
Inductive layout := Tight | Spaced | Wrapped.

Inductive expr :=
| Lit (n : Z)
| Var (x : string)
| BTrue
| BFalse
| Bin (op : binop) (l : layout) (a b : expr)
| Paren (e : expr).

Definition opText (op : binop) : string :=
  match op with
  | Add => "+" | Sub => "-" | Div => "/" | Mod => "%"
  | Eq => "==" | Lt => "<" | Ge => ">="
  | And => "&&" | Or => "||"
  end.

Definition opLayout (op : binop) (l : layout) : string :=
  match l with
  | Tight => opText op
  | Spaced => " " +:+ opText op +:+ " "
  | Wrapped => " " +:+ opText op +:+ JS.nl +:+ "                "
  end.

Fixpoint show (e : expr) : string :=
  match e with
  | Lit n => JS.toString n
  | Var x => x
  | BTrue => "true"
  | BFalse => "false"
  | Bin op l a b => show a +:+ opLayout op l +:+ show b
  | Paren e => "(" +:+ show e +:+ ")"
  end.

(** Binding strength of the C++ operators (all left associative). *)
Definition prec (op : binop) : nat :=
  match op with
  | Or => 1 | And => 2 | Eq => 3 | Lt | Ge => 4
  | Add | Sub => 5 | Div | Mod => 6
  end%nat.

Definition level (e : expr) : nat :=
  match e with
  | Bin op _ _ _ => prec op
  | _ => 7%nat
  end.

(** The tree is the one a C++ parser builds from [show e]: no operand
    binds weaker than its operator, and a right operand binds
    strictly tighter. *)
Fixpoint parsesAs (e : expr) : bool :=
  match e with
  | Bin op _ a b =>
      Nat.leb (prec op) (level a) && Nat.ltb (prec op) (level b) &&
      parsesAs a && parsesAs b
  | Paren e => parsesAs e
  | Lit n => 0 <=? n
  | _ => true
  end.

Record env := mkEnv { r : Z; c : Z; H : Z; W : Z }.

Definition ofBool (b : bool) : Z := if b then 1 else 0.

(** Evaluation on [int]; [None] where C++ leaves the result undefined
    (division by zero) or the name is not declared. *)
Fixpoint eval (rho : env) (e : expr) : option Z :=
  match e with
  | Lit n => Some n
  | Var x =>
      if String.eqb x "r" then Some (r rho)
      else if String.eqb x "c" then Some (c rho)
      else if String.eqb x "H" then Some (H rho)
      else if String.eqb x "W" then Some (W rho)
      else None
  | BTrue => Some 1
  | BFalse => Some 0
  | Paren e => eval rho e
  | Bin op _ a b =>
      match eval rho a, eval rho b with
      | Some x, Some y =>
          match op with
          | Add => Some (x + y)
          | Sub => Some (x - y)
          | Div => if y =? 0 then None else Some (Z.quot x y)
          | Mod => if y =? 0 then None else Some (Z.rem x y)
          | Eq => Some (ofBool (x =? y))
          | Lt => Some (ofBool (x <? y))
          | Ge => Some (ofBool (x >=? y))
          | And => Some (ofBool (negb (x =? 0) && negb (y =? 0)))
          | Or => Some (ofBool (negb (x =? 0) || negb (y =? 0)))
          end
      | _, _ => None
      end
  end.

(** The condition holds at the cell. *)
Definition holds (rho : env) (e : expr) : bool :=
  match eval rho e with
  | Some v => negb (v =? 0)
  | None => false
  end.

(** The if/else-if chain at one cell: the symbol of the first branch
    whose condition holds, a blank when none does. A branch writes the
    character literal of its symbol, which prints that character when
    the symbol is one character of one byte; the literal of a longer
    symbol is an [int] and prints as a number, which this definition
    does not follow: statements about the printed text of arbitrary
    grids ask for one-character symbols ([Spec.printable]). *)
Fixpoint chainAt (branches : list (expr * string)) (rho : env) : string :=
  match branches with
  | [] => " "
  | (cond, symbol) :: rest => if holds rho cond then symbol else chainAt rest rho
  end.

(** The line the inner loop prints for row [row]. *)
Definition line (branches : list (expr * string)) (h w row : Z) : string :=
  foldl (fun out col => out +:+ chainAt branches (mkEnv row col h w)) ""
        (JS.range 0 w).

(** The chain evaluated cell by cell, rows joined by newlines. *)
Definition evaluate (branches : list (expr * string)) (h w : Z) : string :=
  JS.join (map (line branches h w) (JS.range 0 h)) JS.nl.

(** What the emitted program writes: every row is followed by [endl]. *)
Definition stdout (branches : list (expr * string)) (h w : Z) : string :=
  foldl (fun out row => out +:+ line branches h w row +:+ JS.nl) ""
        (JS.range 0 h).

(** The cells of the [h] x [w] grid at which the condition holds. *)
Definition cellsOf (e : expr) (h w : Z) : list GridCoord.t :=
  flat_map (fun row =>
    flat_map (fun col =>
      if holds (mkEnv row col h w) e then [GridCoord.mk row col] else [])
      (JS.range 0 w))
    (JS.range 0 h).

(** Left-nested chain of [op] over a non-empty list of operands. *)
Definition chain (op : binop) (l : layout) (first : expr) (rest : list expr) : expr :=
  foldl (fun acc e => Bin op l acc e) first rest.

End Cxx.

(* ================================================================== *)
(** * Definitions used to state the properties *)
(* ================================================================== *)

Module Spec.

(** The value-to-symbol table as the specification words it: an
    ordered list of clauses, each a test on the value and the text it
    yields; [mod] is the mathematical remainder and [/] the floor
    quotient. *)
Definition valueToSymbolClauses (value D : Z) (name : string) : list (bool * string) :=
  [ (value =? 0, "0");
    (value =? D, name);
    (value =? D - 1, name +:+ "-1");
    (value =? D / 2, name +:+ "/2");
    (value =? D - 2, name +:+ "-2");
    ((D mod 4 =? 0) && (value =? D / 4), name +:+ "/4");
    ((D mod 3 =? 0) && (value =? D / 3), name +:+ "/3") ].

(** The text of the first clause whose test holds, [otherwise] when
    none does. *)
Fixpoint firstApplicable (clauses : list (bool * string)) (otherwise : string) : string :=
  match clauses with
  | [] => otherwise
  | (test, text) :: rest => if test then text else firstApplicable rest otherwise
  end.

(** Reading a decimal literal back. *)
Definition readDecimal (s : string) : option Z :=
  option_map Z.of_int (NilZero.int_of_string s).

Definition coord (rc : Z * Z) : GridCoord.t := GridCoord.mk (fst rc) (snd rc).

(** Writing [symbol] at each listed cell with [setCell] (stroke 0, clock
    reading 0). *)
Definition draw (g : Grid.t) (symbol : string) (at_cells : list (Z * Z)) : Grid.t :=
  foldl (fun g rc => fst (Grid.setCell g (fst rc) (snd rc) (Some symbol) 0 0)) g at_cells.

(** A grid of [h] rows and [w] columns on which [symbol] was drawn at
    the listed cells. *)
Definition gridOf (h w : Z) (symbol : string) (at_cells : list (Z * Z)) : Grid.t :=
  draw (Grid.new h w) symbol at_cells.

(** Every cell of the [h] x [w] grid, in row-major order. *)
Definition allCells (h w : Z) : list GridCoord.t :=
  flat_map (fun r => map (fun c => GridCoord.mk r c) (JS.range 0 w)) (JS.range 0 h).

Definition inBounds (h w : Z) (c : GridCoord.t) : Prop :=
  0 <= GridCoord.row c < h /\ 0 <= GridCoord.col c < w.

(** No geometric tester matches. *)
Definition noTesterMatches (H W : Z) (cells : list GridCoord.t) (char : string) : Prop :=
  PatternAnalyzer.tryFill H W cells char = None /\
  PatternAnalyzer.tryBorder H W cells char = None /\
  PatternAnalyzer.tryDiagonal H W cells char = None /\
  PatternAnalyzer.tryAntiDiagonal H W cells char = None /\
  PatternAnalyzer.tryHorizontalLine H W cells char = JS.Ok None /\
  PatternAnalyzer.tryVerticalLine H W cells char = JS.Ok None /\
  PatternAnalyzer.tryFilledRectangle H W cells char = None /\
  PatternAnalyzer.tryCheckerboard H W cells char = None.

(** The single centre cell of a 5x5 grid. *)
Definition centre5 : list GridCoord.t := [GridCoord.mk 2 2].

(** All sixteen cells of a 4x4 grid. *)
Definition full4 : list GridCoord.t := allCells 4 4.

(** A predicate some run of discovery returned. *)
Definition discovered (p : Predicate.t) : Prop :=
  exists H W cells char, PatternAnalyzer.discoverPredicate H W cells char = JS.Ok p.

(** The 8x3 grid whose row 3 is filled with one symbol, and what
    discovery returns for it. *)
Definition row3Grid : Grid.t := gridOf 8 3 "#" [(3, 0); (3, 1); (3, 2)].

Definition row3Predicate : Predicate.t :=
  Predicate.mk "horizontal_line" "#" "r == 3" ["W"] false (1 # 2).

(** A string made of white space only. *)
Fixpoint allWhiteSpace (s : string) : bool :=
match s with
| EmptyString => true
| String ch s' => JS.isWhiteSpace ch && allWhiteSpace s'
end.

(** The normalization the specification words: one trailing newline,
    when there is one, is stripped and nothing else. *)
Fixpoint stripTrailingNewline (s : string) : string :=
match s with
| EmptyString => EmptyString
| String ch s' =>
    match s' with
    | EmptyString => if Ascii.eqb ch JS.LF then EmptyString else s
    | _ => String ch (stripTrailingNewline s')
    end
end.

(** The verdict under that normalization. *)
Definition validBySpec (grid : Grid.t) (text : string) : bool :=
String.eqb (Grid.toString grid) (stripTrailingNewline text).

(** The distinct values of a list, each at its first occurrence. *)
Fixpoint distinct {K : Type} (eqb : K -> K -> bool) (l : list K) : list K :=
match l with
| [] => []
| x :: l' => x :: List.filter (fun y => negb (eqb y x)) (distinct eqb l')
end.

(** The values paired with key [k], in order. *)
Definition valuesOf {K V : Type} (eqb : K -> K -> bool) (kvs : list (K * V)) (k : K) : list V :=
map snd (List.filter (fun kv => eqb (fst kv) k) kvs).

(** The distinct rows of a coordinate list, in encounter order. *)
Definition distinctRows (cells : list GridCoord.t) : list Z :=
distinct Z.eqb (map GridCoord.row cells).

(** The columns the list holds on row [row], in encounter order. *)
Definition columnsOf (cells : list GridCoord.t) (row : Z) : list Z :=
map GridCoord.col (List.filter (fun c => GridCoord.row c =? row) cells).

(** The outer clause of a row: a single column stays a plain term,
    several columns collapse into one inner disjunction. *)
Definition rowClause (cells : list GridCoord.t) (row : Z) : string :=
match columnsOf cells row with
| [col] => "(r==" +:+ JS.toString row +:+ " && c==" +:+ JS.toString col +:+ ")"
| cols =>
    "(r==" +:+ JS.toString row +:+ " && (" +:+
    JS.join (map (fun col => "c==" +:+ JS.toString col) cols) " || " +:+ "))"
end.

(** The term of one coordinate in the flat disjunction. *)
Definition flatTerm (cell : GridCoord.t) : string :=
"(r==" +:+ JS.toString (GridCoord.row cell) +:+ " && c==" +:+
JS.toString (GridCoord.col cell) +:+ ")".

(** Twenty-five coordinates on rows 0, 2 and 4 of a 5x9 grid. *)
Definition scattered25 : list GridCoord.t :=
map (fun col => GridCoord.mk 0 col) (JS.range 0 9) ++
map (fun col => GridCoord.mk 2 col) (JS.range 0 8) ++
map (fun col => GridCoord.mk 4 col) (JS.range 1 9).

(** The tree of the condition "(r + c) % 2 == 0". *)
Definition evenParity : Cxx.expr :=
Cxx.Bin Cxx.Eq Cxx.Spaced
  (Cxx.Bin Cxx.Mod Cxx.Spaced
     (Cxx.Paren (Cxx.Bin Cxx.Add Cxx.Spaced (Cxx.Var "r") (Cxx.Var "c")))
     (Cxx.Lit 2))
  (Cxx.Lit 0).

(** The tree of the condition "r == c". *)
Definition onDiagonal : Cxx.expr :=
Cxx.Bin Cxx.Eq Cxx.Spaced (Cxx.Var "r") (Cxx.Var "c").

(** Two cells of even parity on a 2x3 grid; the third one, (1,1), is
    left out. *)
Definition partialChecker : list GridCoord.t := map coord [(0, 0); (0, 2)].

Definition partialCheckerGrid : Grid.t := gridOf 2 3 "#" [(0, 0); (0, 2)].

(** The 1x2 grid with a symbol at (0,0): its rendering ends in a blank. *)
Definition trailingBlankGrid : Grid.t := gridOf 1 2 "#" [(0, 0)].

(** The string holds a comma. *)
Fixpoint hasComma (s : string) : bool :=
match s with
| EmptyString => false
| String ch s' => Ascii.eqb ch "," || hasComma s'
end.

(** The tree of the text [parameterizeValue] returns, built by the
    same case analysis. *)
Definition paramExpr (value dimension : Z) (dimName : string) : Cxx.expr :=
if value =? 0 then Cxx.Lit 0
else if value =? dimension then Cxx.Var dimName
else if value =? dimension - 1 then Cxx.Bin Cxx.Sub Cxx.Tight (Cxx.Var dimName) (Cxx.Lit 1)
else if value =? dimension / 2 then Cxx.Bin Cxx.Div Cxx.Tight (Cxx.Var dimName) (Cxx.Lit 2)
else if value =? dimension - 2 then Cxx.Bin Cxx.Sub Cxx.Tight (Cxx.Var dimName) (Cxx.Lit 2)
else if (Z.rem dimension 4 =? 0) && (value =? Z.quot dimension 4)
  then Cxx.Bin Cxx.Div Cxx.Tight (Cxx.Var dimName) (Cxx.Lit 4)
else if (Z.rem dimension 3 =? 0) && (value =? Z.quot dimension 3)
  then Cxx.Bin Cxx.Div Cxx.Tight (Cxx.Var dimName) (Cxx.Lit 3)
else Cxx.Lit value.

Definition eqE (a b : Cxx.expr) : Cxx.expr := Cxx.Bin Cxx.Eq Cxx.Spaced a b.
Definition minus1 (name : string) : Cxx.expr :=
Cxx.Bin Cxx.Sub Cxx.Tight (Cxx.Var name) (Cxx.Lit 1).

(** "r == 0 || r == H-1 || c == 0 || c == W-1" *)
Definition borderExpr : Cxx.expr :=
Cxx.chain Cxx.Or Cxx.Spaced
  (eqE (Cxx.Var "r") (Cxx.Lit 0))
  [ eqE (Cxx.Var "r") (minus1 "H");
    eqE (Cxx.Var "c") (Cxx.Lit 0);
    eqE (Cxx.Var "c") (minus1 "W") ].

(** "r + c == H - 1 && c < H", or its mirror when H > W. *)
Definition antiDiagonalExpr (H W : Z) : Cxx.expr :=
let side (line bound : string) :=
  Cxx.Bin Cxx.And Cxx.Spaced
    (eqE (Cxx.Bin Cxx.Add Cxx.Spaced (Cxx.Var "r") (Cxx.Var "c"))
         (Cxx.Bin Cxx.Sub Cxx.Spaced (Cxx.Var bound) (Cxx.Lit 1)))
    (Cxx.Bin Cxx.Lt Cxx.Spaced (Cxx.Var line) (Cxx.Var bound)) in
if H <=? W then side "c" "H" else side "r" "W".

(** "r == <param>" and "c == <param>". *)
Definition lineExpr (index : string) (value dimension : Z) (dimName : string) : Cxx.expr :=
eqE (Cxx.Var index) (paramExpr value dimension dimName).

(** "r >= r1 && r < r2 && c >= c1 && c < c2" *)
Definition rectExpr (minR maxR minC maxC H W : Z) : Cxx.expr :=
Cxx.chain Cxx.And Cxx.Spaced
  (Cxx.Bin Cxx.Ge Cxx.Spaced (Cxx.Var "r") (paramExpr minR H "H"))
  [ Cxx.Bin Cxx.Lt Cxx.Spaced (Cxx.Var "r") (paramExpr (maxR + 1) H "H");
    Cxx.Bin Cxx.Ge Cxx.Spaced (Cxx.Var "c") (paramExpr minC W "W");
    Cxx.Bin Cxx.Lt Cxx.Spaced (Cxx.Var "c") (paramExpr (maxC + 1) W "W") ].

(** The coordinate list is exactly the set of cells of the [H] x [W]
    grid at which the predicate's expression holds. *)
Definition characterizes (H W : Z) (p : Predicate.t) (cells : list GridCoord.t) : Prop :=
exists e,
  Cxx.show e = Predicate.expression p /\
  Cxx.parsesAs e = true /\
  forall r c, 0 <= r < H -> 0 <= c < W ->
    (Cxx.holds (Cxx.mkEnv r c H W) e = true <-> GridCoord.mk r c ∈ cells).

(** The bounding box the filled-rectangle tester computes, the folds
    starting from the first cell [c0]: (minR, maxR, minC, maxC). *)
Definition boundingBox (cells : list GridCoord.t) (c0 : GridCoord.t) : Z * Z * Z * Z :=
(foldl (fun m cell => Z.min m (GridCoord.row cell)) (GridCoord.row c0) cells,
 foldl (fun m cell => Z.max m (GridCoord.row cell)) (GridCoord.row c0) cells,
 foldl (fun m cell => Z.min m (GridCoord.col cell)) (GridCoord.col c0) cells,
 foldl (fun m cell => Z.max m (GridCoord.col cell)) (GridCoord.col c0) cells).

(** The symbol held at a cell, if any. *)
Definition symbolAt (g : Grid.t) (cell : GridCoord.t) : option string :=
Cell.char (Grid.at_ g (GridCoord.row cell) (GridCoord.col cell)).

(** The symbol of a cell paired with the cell, nothing for an empty
    cell. *)
Definition pairOf (g : Grid.t) (cell : GridCoord.t) : list (string * GridCoord.t) :=
match symbolAt g cell with
| Some ch => [(ch, cell)]
| None => []
end.

(** The occupied cells of the grid with their symbols, in scan order. *)
Definition occupiedPairs (g : Grid.t) : list (string * GridCoord.t) :=
flat_map (pairOf g) (allCells (Grid.rows g) (Grid.cols g)).

(** The predicate is the one discovery returns for the entry. *)
Definition discoveredFor (H W : Z) (entry : string * list GridCoord.t) (p : Predicate.t) : Prop :=
PatternAnalyzer.discoverPredicate H W (snd entry) (fst entry) = JS.Ok p.

(** "r==3": an index compared with a literal, without blanks. *)
Definition litEq (index : string) (v : Z) : Cxx.expr :=
Cxx.Bin Cxx.Eq Cxx.Tight (Cxx.Var index) (Cxx.Lit v).

(** "(r==0 && c==1)" *)
Definition cellTerm (cell : GridCoord.t) : Cxx.expr :=
Cxx.Paren (Cxx.Bin Cxx.And Cxx.Spaced
             (litEq "r" (GridCoord.row cell)) (litEq "c" (GridCoord.col cell))).

(** A disjunction of terms; "false" when there is none. *)
Definition disjunction (l : Cxx.layout) (terms : list Cxx.expr) : Cxx.expr :=
match terms with
| [] => Cxx.BFalse
| t :: ts => Cxx.chain Cxx.Or l t ts
end.

(** "(r==0 && (c==1 || c==2))", or the plain term of a single column. *)
Definition rowExpr (cells : list GridCoord.t) (row : Z) : Cxx.expr :=
match columnsOf cells row with
| [col] => cellTerm (GridCoord.mk row col)
| cols =>
    Cxx.Paren (Cxx.Bin Cxx.And Cxx.Spaced
                 (litEq "r" row)
                 (Cxx.Paren (disjunction Cxx.Spaced (map (litEq "c") cols))))
end.

(** The tree of the text [generateCoordinateCondition] returns. *)
Definition coordinateExpr (cells : list GridCoord.t) : Cxx.expr :=
if PatternAnalyzer.len cells =? 0 then Cxx.BFalse
else if PatternAnalyzer.len cells >? 20
  then disjunction Cxx.Wrapped (map (rowExpr cells) (distinctRows cells))
else if PatternAnalyzer.len cells <=? 5
  then disjunction Cxx.Spaced (map cellTerm cells)
else disjunction Cxx.Wrapped (map cellTerm cells).

(** What follows the first piece of a joined list. *)
Fixpoint tailText (sep : string) (pieces : list string) : string :=
match pieces with
| [] => ""
| x :: rest => sep +:+ x +:+ tailText sep rest
end.



(** The shape the constructor gives the cell array: [rows] lines of
    [cols] cells each. *)
Definition wellFormed (g : Grid.t) : Prop :=
  length (Grid.cells g) = Z.to_nat (Grid.rows g) /\
  Forall (fun line => length line = Z.to_nat (Grid.cols g)) (Grid.cells g).

(** The main diagonal of a 3x3 grid. *)
Definition diag3 : list GridCoord.t := map coord [(0, 0); (1, 1); (2, 2)].

(** A 4x4 grid with a 2x2 block of one symbol and two scattered cells of
    another. *)
Definition blockAndDots : Grid.t :=
  draw (gridOf 4 4 "#" [(1, 1); (1, 2); (2, 1); (2, 2)]) "x" [(0, 0); (3, 3)].

(** The value has one of the dimension-relative forms of
    [parameterizeValue], zero excluded. *)
Definition dimensionRelative (value D : Z) : Prop :=
  value <> 0 /\
  (value = D \/ value = D - 1 \/ value = D / 2 \/ value = D - 2 \/
   (D mod 4 = 0 /\ value = D / 4) \/ (D mod 3 = 0 /\ value = D / 3)).

(** The predicates that are not scalable. *)
Definition nonScalable (ps : list Predicate.t) : list Predicate.t :=
  List.filter (fun p => negb (Predicate.isScalable p)) ps.

(** The cells of the grid holding the symbol [ch], in scan order. *)
Definition cellsHolding (g : Grid.t) (ch : string) : list GridCoord.t :=
  List.filter (fun cell =>
                 match symbolAt g cell with
                 | Some s => String.eqb s ch
                 | None => false
                 end)
              (allCells (Grid.rows g) (Grid.cols g)).

(** The symbols met by the scan of the grid, empty cells skipped. *)
Definition scanSymbols (g : Grid.t) : list string := map fst (occupiedPairs g).

(** The tree of the condition "(r + c) % 2 == 1". *)
Definition oddParity : Cxx.expr :=
  Cxx.Bin Cxx.Eq Cxx.Spaced
    (Cxx.Bin Cxx.Mod Cxx.Spaced
       (Cxx.Paren (Cxx.Bin Cxx.Add Cxx.Spaced (Cxx.Var "r") (Cxx.Var "c")))
       (Cxx.Lit 2))
    (Cxx.Lit 1).

(** The string holds a newline. *)
Fixpoint hasNewline (s : string) : bool :=
match s with
| EmptyString => false
| String ch s' => Ascii.eqb ch JS.LF || hasNewline s'
end.

(** The character a text shows at line [r], column [c], a blank where
    the text has none: the way [computeDiff] reads both texts. *)
Definition glyphAt (text : string) (r c : Z) : string :=
JS.charOr (default "" (JS.split_nl text !! Z.to_nat r)) c " ".

(** The total of a list of numbers. *)
Definition total (l : list Z) : Z := foldr Z.add 0 l.

(** One write of a copy loop: the target coordinate, the symbol, the
    stroke number and the clock reading. *)
Record write := mkWrite {
  writeRow : Z; writeCol : Z; writeChar : string; writeStroke : Z; writeTime : Z
}.

Definition applyWrite (g : Grid.t) (w : write) : Grid.t :=
fst (Grid.setCell g (writeRow w) (writeCol w) (Some (writeChar w)) (writeStroke w)
       (writeTime w)).

Definition applyWrites (g : Grid.t) (ws : list write) : Grid.t := foldl applyWrite g ws.

(** The write addressed to (r, c), if any. *)
Definition writeTo (ws : list write) (r c : Z) : option write :=
List.find (fun w => (writeRow w =? r) && (writeCol w =? c)) ws.

(** The symbol a copy loop carries over from a cell: a non-empty symbol
    whose stroke number a fresh cell accepts. *)
Definition carried (cell : option Cell.t) : option string :=
match cell with
| Some cell =>
    match Cell.char cell with
    | Some ch => if JS.truthy ch && (-1 <=? Cell.strokeId cell) then Some ch else None
    | None => None
    end
| None => None
end.

(** The symbol [getCell] finds at (r, c); nothing outside the grid. *)
Definition symbolOf (g : Grid.t) (r c : Z) : option string :=
match Grid.getCell g r c with
| Some cell => Cell.char cell
| None => None
end.

(** A grid of the given dimensions with the shape the constructor
    gives. *)
Definition shaped (rows cols : Z) (g : Grid.t) : Prop :=
Grid.rows g = rows /\ Grid.cols g = cols /\ wellFormed g.

(** The operations of the frame manager. *)
Inductive frameOp :=
| GotoFrame (index : Z)
| NextFrame
| PrevFrame
| AddFrame (clock : Z -> Z -> Z) (copyPrevious : bool)
| DeleteCurrentFrame
| Resize (clock : nat -> Z -> Z -> Z) (rows cols : Z)
| LoadFrames (clock : nat -> nat -> Z) (framesData : list (list SavedFrame.t)) (rows cols : Z).

Definition frameStep (m : FrameManager.t) (op : frameOp) : JS.result FrameManager.t :=
match op with
| GotoFrame index => JS.Ok (FrameManager.gotoFrame index m)
| NextFrame => JS.Ok (FrameManager.nextFrame m)
| PrevFrame => JS.Ok (FrameManager.prevFrame m)
| AddFrame clock copyPrevious => JS.Ok (FrameManager.addFrame clock copyPrevious m)
| DeleteCurrentFrame => FrameManager.deleteCurrentFrame m
| Resize clock rows cols => JS.Ok (FrameManager.resize clock rows cols m)
| LoadFrames clock framesData rows cols =>
    JS.Ok (FrameManager.loadFrames clock framesData rows cols m)
end.

(** The operations applied in order, stopping at the first that
    raises. *)
Fixpoint frameRun (ops : list frameOp) (m : FrameManager.t) : JS.result FrameManager.t :=
match ops with
| [] => JS.Ok m
| op :: ops' =>
    match frameStep m op with
    | JS.Ok m' => frameRun ops' m'
    | JS.Throw e => JS.Throw e
    end
end.

(** What the frame manager keeps true: there is a frame, the current
    index points at one, every frame has the manager's dimensions and
    the shape the constructor gives, and every notification carried an
    index below the count it carried. *)
Definition frameInvariant (m : FrameManager.t) : Prop :=
0 <= FrameManager.currentFrameIndex m < PatternAnalyzer.len (FrameManager.frames m) /\
Forall (shaped (FrameManager.rows m) (FrameManager.cols m)) (FrameManager.frames m) /\
Forall (fun n => 0 <= fst n < snd n) (FrameManager.notified m).

(** The writes a scan of [source] issues: every scanned cell holding a
    non-empty symbol is written at [target r c] with its stroke
    number. *)
Definition movedWrite (clock : Z -> Z -> Z) (target : Z -> Z -> Z * Z) (source : Grid.t)
  (cell : GridCoord.t) : list write :=
let r := GridCoord.row cell in
let c := GridCoord.col cell in
match Grid.getCell source r c with
| Some stored =>
    match Cell.char stored with
    | Some ch =>
        if JS.truthy ch
        then [mkWrite (fst (target r c)) (snd (target r c)) ch (Cell.strokeId stored)
                (clock r c)]
        else []
    | None => []
    end
| None => []
end.

(** The writes [loadFrames] issues for the data of one frame. *)
Definition dataWrites (clock : nat -> Z) (frameData : list SavedFrame.t) : list write :=
imap (fun j cell =>
        mkWrite (SavedFrame.r cell) (SavedFrame.c cell) (SavedFrame.char cell) 0 (clock j))
     frameData.

(** The symbol a save keeps: a non-empty one. *)
Definition kept (symbol : option string) : option string :=
match symbol with
| Some ch => if JS.truthy ch then Some ch else None
| None => None
end.

(** No cell of the grid holds the empty string. *)
Definition noEmptySymbol (g : Grid.t) : Prop :=
forall r c, symbolOf g r c <> Some "".

(** The cell a copy loop leaves at a coordinate of a fresh grid, given
    what the source holds at the coordinate it was read from. *)
Definition copied (now : Z) (stored : option Cell.t) : Cell.t :=
match stored with
| Some cell =>
    match Cell.char cell with
    | Some ch =>
        if JS.truthy ch && (-1 <=? Cell.strokeId cell)
        then Cell.mk (Some ch) (Cell.strokeId cell) now
        else Grid.emptyCell
    | None => Grid.emptyCell
    end
| None => Grid.emptyCell
end.

(** The operations of the canvas manager that save an undo state. *)
Inductive canvasEdit :=
| Clear
| RotateGrid (clock1 clock2 : Z -> Z -> Z)
| FlipHorizontal (clock1 clock2 : Z -> Z -> Z)
| FlipVertical (clock1 clock2 : Z -> Z -> Z).

Definition canvasEditStep (cm : CanvasManager.t) (op : canvasEdit)
  : JS.result CanvasManager.t :=
match op with
| Clear => CanvasManager.clear cm
| RotateGrid clock1 clock2 => CanvasManager.rotateGrid clock1 clock2 cm
| FlipHorizontal clock1 clock2 => CanvasManager.flipHorizontal clock1 clock2 cm
| FlipVertical clock1 clock2 => CanvasManager.flipVertical clock1 clock2 cm
end.

(** The entry a save stores for a cell: one for a non-empty symbol. *)
Definition savedEntry (g : Grid.t) (cell : GridCoord.t) : list SavedFrame.t :=
match Grid.getCell g (GridCoord.row cell) (GridCoord.col cell) with
| Some stored =>
    match Cell.char stored with
    | Some ch =>
        if JS.truthy ch then [SavedFrame.mk (GridCoord.row cell) (GridCoord.col cell) ch]
        else []
    | None => []
    end
| None => []
end.

(** What [render] needs: the background grid and the current frame have
    the shape the constructor gives. *)
Definition canvasDrawable (cm : CanvasManager.t) : Prop :=
wellFormed (CanvasManager.backgroundGrid cm) /\
exists g, FrameManager.getCurrentGrid (CanvasManager.frameManager cm) = Some g /\
          wellFormed g.

(** A canvas holding one frame, with an empty background, the
    foreground active and no history. *)
Definition canvasOf (g : Grid.t) : CanvasManager.t :=
CanvasManager.mk (FrameManager.mk [g] 0 (Grid.rows g) (Grid.cols g) [])
  (Grid.new (Grid.rows g) (Grid.cols g)) Layer.foreground [] [].

(** The cell array of a saved state has the shape of a grid of the
    given dimensions. *)
Definition snapshotShaped (rows cols : Z) (state : UndoState.t) : Prop :=
length (UndoState.snapshot state) = Z.to_nat rows /\
Forall (fun line => length line = Z.to_nat cols) (UndoState.snapshot state).

(** What the user can do to the canvas besides drawing: the edits, undo
    and redo, the choice of the layer, and the operations of the frame
    manager, which the buttons call on [canvasManager.frameManager]. *)
Inductive canvasOp :=
| Edit (edit : canvasEdit)
| Undo
| Redo
| SetActiveLayer (layer : Layer.t)
| Frame (op : frameOp).

(** An operation of the frame manager called on the canvas's frame
    manager: when the frame manager notifies, its observer calls
    [render]. *)
Definition canvasFrameStep (cm : CanvasManager.t) (op : frameOp)
  : JS.result CanvasManager.t :=
JS.bind (frameStep (CanvasManager.frameManager cm) op) (fun frames' =>
  let cm' :=
    CanvasManager.mk frames' (CanvasManager.backgroundGrid cm) (CanvasManager.activeLayer cm)
      (CanvasManager.undoStack cm) (CanvasManager.redoStack cm) in
  if PatternAnalyzer.len (FrameManager.notified frames')
     >? PatternAnalyzer.len (FrameManager.notified (CanvasManager.frameManager cm))
  then CanvasManager.rendered cm' else JS.Ok cm').

Definition canvasStep (cm : CanvasManager.t) (op : canvasOp) : JS.result CanvasManager.t :=
match op with
| Edit edit => canvasEditStep cm edit
| Undo => CanvasManager.undo cm
| Redo => CanvasManager.redo cm
| SetActiveLayer layer => CanvasManager.setActiveLayer layer cm
| Frame op => canvasFrameStep cm op
end.

Fixpoint canvasRun (ops : list canvasOp) (cm : CanvasManager.t) : JS.result CanvasManager.t :=
match ops with
| [] => JS.Ok cm
| op :: ops' =>
    match canvasStep cm op with
    | JS.Ok cm' => canvasRun ops' cm'
    | JS.Throw e => JS.Throw e
    end
end.

(** The operation changes the dimensions of the frames. *)
Definition changesSize (op : canvasOp) : bool :=
match op with
| Frame (Resize _ _ _) | Frame (LoadFrames _ _ _ _) => true
| _ => false
end.

(** What the canvas keeps true as long as its size is not changed. *)
Definition canvasInvariant (rows cols : Z) (cm : CanvasManager.t) : Prop :=
FrameManager.rows (CanvasManager.frameManager cm) = rows /\
FrameManager.cols (CanvasManager.frameManager cm) = cols /\
frameInvariant (CanvasManager.frameManager cm) /\
shaped rows cols (CanvasManager.backgroundGrid cm) /\
Forall (snapshotShaped rows cols) (CanvasManager.undoStack cm) /\
Forall (snapshotShaped rows cols) (CanvasManager.redoStack cm) /\
PatternAnalyzer.len (CanvasManager.undoStack cm)
  + PatternAnalyzer.len (CanvasManager.redoStack cm) <= 50.

(** An index or a count: an integer from 0 to [JS.MAX_SAFE_INTEGER], which
    a JavaScript number holds exactly and [toString] prints digit by
    digit. *)
Definition safeIndex (n : Z) : bool := (0 <=? n) && (n <=? JS.MAX_SAFE_INTEGER).

(** A coordinate of two such indices, and a list of them. *)
Definition safeCoord (cell : GridCoord.t) : bool :=
safeIndex (GridCoord.row cell) && safeIndex (GridCoord.col cell).

Definition safeCoords (cells : list GridCoord.t) : bool := forallb safeCoord cells.

(** An integer of the safe range, negative or not. *)
Definition safeInteger (n : Z) : Prop :=
- JS.MAX_SAFE_INTEGER <= n <= JS.MAX_SAFE_INTEGER.

(** The dimensions the further properties range over: up to 2^26, so
    that the product of two dimensions stays below 2^53, an exact
    number, and every sum or difference of indices and dimensions that
    an emitted condition computes is an [int] of 32 bits. *)
Definition maxDim : Z := 2 ^ 26.

(** A grid as the program holds it: of the shape the constructor gives,
    with dimensions up to [maxDim]. *)
Definition sized (g : Grid.t) : Prop :=
wellFormed g /\ Grid.rows g <= maxDim /\ Grid.cols g <= maxDim.



End Spec.

(* ================================================================== *)
(** * Properties *)
(* ================================================================== *)

Section GridShape.

Lemma new_wellFormed (rows cols : Z) : Spec.wellFormed (Grid.new rows cols).
Proof.
  unfold Spec.wellFormed, Grid.new, Grid.createEmptyGrid. simpl. split.
  - apply repeat_length.
  - apply Forall_forall. intros line Hline.
    apply list_elem_of_In, repeat_spec in Hline. subst line. apply repeat_length.
Qed.

Lemma setCell_wellFormed (g : Grid.t) (row col : Z) (char : option string)
    (strokeId now : Z) :
  Spec.wellFormed g -> Spec.wellFormed (fst (Grid.setCell g row col char strokeId now)).
Proof.
  intros [Hrows Hcols]. unfold Grid.setCell.
  destruct (negb (Grid.isValidCoord g row col)); [split; assumption |].
  destruct (_ || _); [| split; assumption].
  unfold Spec.wellFormed. simpl. split.
  - rewrite length_alter. exact Hrows.
  - apply Forall_alter; [exact Hcols |].
    intros line _ Hline. rewrite length_insert. exact Hline.
Qed.

(** On a well-formed grid every read inside the bounds finds a cell:
    [toString] and [getCellsByChar] never read outside the array. *)
Lemma read_in_bounds (g : Grid.t) (r c : Z) :
  Spec.wellFormed g -> Grid.isValidCoord g r c = true ->
  exists cell,
    (Grid.cells g !! Z.to_nat r) ≫= (fun line => line !! Z.to_nat c) = Some cell /\
    Grid.at_ g r c = cell.
Proof.
  intros [Hrows Hcols] Hvalid. unfold Grid.isValidCoord in Hvalid.
  apply andb_prop in Hvalid as [Hvalid Hc2]. apply andb_prop in Hvalid as [Hvalid Hc1].
  apply andb_prop in Hvalid as [Hr1 Hr2].
  apply Z.leb_le in Hr1, Hc1. apply Z.ltb_lt in Hr2, Hc2.
  destruct (lookup_lt_is_Some_2 (Grid.cells g) (Z.to_nat r)) as [line Hline]; [lia |].
  rewrite Forall_forall in Hcols.
  pose proof (Hcols line (list_elem_of_lookup_2 _ _ _ Hline)) as Hlen.
  destruct (lookup_lt_is_Some_2 line (Z.to_nat c)) as [cell Hcell]; [lia |].
  exists cell. unfold Grid.at_. rewrite Hline. simpl. rewrite Hcell. auto.
Qed.

Lemma foldl_invariant {A B} (P : A -> Prop) (f : A -> B -> A) (l : list B) (a : A) :
  P a -> (forall a b, P a -> P (f a b)) -> P (foldl f a l).
Proof.
  intros Ha Hstep. revert a Ha. induction l as [| b l IH]; intros a Ha; simpl; auto.
Qed.

Lemma draw_wellFormed (g : Grid.t) (symbol : string) (cells : list (Z * Z)) :
  Spec.wellFormed g -> Spec.wellFormed (Spec.draw g symbol cells).
Proof.
  intros Hg. unfold Spec.draw. apply foldl_invariant; [exact Hg |].
  intros g' rc Hg'. apply setCell_wellFormed. exact Hg'.
Qed.

Lemma gridOf_wellFormed (h w : Z) (symbol : string) (cells : list (Z * Z)) :
  Spec.wellFormed (Spec.gridOf h w symbol cells).
Proof. unfold Spec.gridOf. apply draw_wellFormed, new_wellFormed. Qed.

Lemma blockAndDots_shaped : Spec.shaped 4 4 Spec.blockAndDots.
Proof.
  split; [reflexivity |]. split; [reflexivity |].
  unfold Spec.blockAndDots, Spec.gridOf. apply draw_wellFormed, draw_wellFormed, new_wellFormed.
Qed.

Lemma blockAndDots_sized : Spec.sized Spec.blockAndDots.
Proof.
  split; [exact (proj2 (proj2 blockAndDots_shaped)) |].
  split; vm_compute; discriminate.
Qed.

End GridShape.

Section ValueToSymbol.
Import PatternAnalyzer.

Lemma rem_zero_iff_mod_zero (D k : Z) :
  0 < k -> (Z.rem D k =? 0) = (D mod k =? 0).
Proof.
  intros Hk.
  destruct (Z.eqb_spec (Z.rem D k) 0) as [Hr | Hr];
    destruct (Z.eqb_spec (D mod k) 0) as [Hm | Hm]; try reflexivity; exfalso.
  - apply Hm. apply Z.mod_divide; [lia |]. apply Z.rem_divide; [lia | exact Hr].
  - apply Hr. apply Z.rem_divide; [lia |]. apply Z.mod_divide; [lia | exact Hm].
Qed.

Lemma quot_exact (D k : Z) :
  0 < k -> D mod k = 0 -> Z.quot D k = D / k.
Proof.
  intros Hk Hm.
  assert (Hd : (k | D)) by (apply Z.mod_divide; [lia | exact Hm]).
  destruct Hd as [q ->].
  rewrite Z.quot_mul by lia. rewrite Z.div_mul by lia. reflexivity.
Qed.

Lemma toString_reads_back (n : Z) :
  Spec.readDecimal (JS.toString n) = Some n.
Proof.
  unfold Spec.readDecimal, JS.toString.
  rewrite NilZero.isi.
  - simpl. f_equal. apply DecimalZ.of_to.
  - destruct n as [| p | p]; simpl; try discriminate.
    intros [= Hp]. exact (DecimalPos.Unsigned.to_uint_nonnil p Hp).
  - destruct n as [| p | p]; simpl; try discriminate.
    intros [= Hp]. exact (DecimalPos.Unsigned.to_uint_nonnil p Hp).
Qed.

(** C8. Value-to-symbol mapping: for a non-negative value and a
    positive dimension [D] named [name], both at most
    [Number.MAX_SAFE_INTEGER] (2^53 - 1, the range in which the numbers
    of the code are the integers of the model and are printed digit by
    digit), [parameterizeValue] answers with the first applicable clause
    of the table 0, D, D-1, D/2 (floor), D-2, D/4 (when 4 divides D),
    D/3 (when 3 divides D), and with the decimal literal of the value
    when no clause applies; that literal reads back as the value. *)
Theorem parameterizeValue_first_applicable (value D : Z) (name : string) :
  0 <= value <= JS.MAX_SAFE_INTEGER -> 0 < D <= JS.MAX_SAFE_INTEGER ->
  parameterizeValue value D name =
    Spec.firstApplicable (Spec.valueToSymbolClauses value D name) (JS.toString value)
  /\ Spec.readDecimal (JS.toString value) = Some value.
Proof.
  intros _ [HD _]. split; [| apply toString_reads_back].
  unfold parameterizeValue, Spec.valueToSymbolClauses, Spec.firstApplicable.
  rewrite !rem_zero_iff_mod_zero by lia.
  repeat match goal with
         | |- context [if ?b then _ else _] =>
             lazymatch b with
             | (_ && _)%bool => fail
             | _ => destruct b; [reflexivity |]
             end
         end.
  destruct (Z.eqb_spec (D mod 4) 0) as [H4 | H4]; simpl.
  - rewrite (quot_exact D 4) by lia.
    destruct (value =? D / 4); [reflexivity |].
    destruct (Z.eqb_spec (D mod 3) 0) as [H3 | H3]; simpl; [| reflexivity].
    rewrite (quot_exact D 3) by lia. reflexivity.
  - destruct (Z.eqb_spec (D mod 3) 0) as [H3 | H3]; simpl; [| reflexivity].
    rewrite (quot_exact D 3) by lia. reflexivity.
Qed.

Lemma parameterizeValue_first_applicable_witness :
  0 <= 3 <= JS.MAX_SAFE_INTEGER /\ 0 < 12 <= JS.MAX_SAFE_INTEGER /\
  parameterizeValue 3 12 "H" = "H/4" /\
  Spec.readDecimal (JS.toString 3) = Some 3.
Proof.
  assert (Hvalue : 0 <= 3 <= JS.MAX_SAFE_INTEGER) by (unfold JS.MAX_SAFE_INTEGER; lia).
  assert (HD : 0 < 12 <= JS.MAX_SAFE_INTEGER) by (unfold JS.MAX_SAFE_INTEGER; lia).
  split; [exact Hvalue |]. split; [exact HD |].
  exact (parameterizeValue_first_applicable 3 12 "H" Hvalue HD).
Defined.

End ValueToSymbol.

Section Discovery.
Import PatternAnalyzer.

Lemma len_nil_iff {A} (l : list A) : len l = 0 <-> l = [].
Proof.
  unfold len. destruct l; simpl; split; intros; try reflexivity; try discriminate; lia.
Qed.

(** On a grid with a positive width the horizontal-line tester never
    reads [cells[0]] of an empty list. *)
Lemma tryHorizontalLine_returns (H W : Z) cells char :
  0 < W -> exists o, tryHorizontalLine H W cells char = JS.Ok o.
Proof.
  intros HW. unfold tryHorizontalLine.
  destruct (Z.eqb_spec (len cells) W) as [Hlen | Hlen]; simpl; [| eauto].
  destruct cells as [| c0 cells'].
  - unfold len in Hlen. simpl in Hlen. lia.
  - destruct (forallb _ _); simpl; eauto.
Qed.

Lemma tryVerticalLine_returns (H W : Z) cells char :
  0 < H -> exists o, tryVerticalLine H W cells char = JS.Ok o.
Proof.
  intros HH. unfold tryVerticalLine.
  destruct (Z.eqb_spec (len cells) H) as [Hlen | Hlen]; simpl; [| eauto].
  destruct cells as [| c0 cells'].
  - unfold len in Hlen. simpl in Hlen. lia.
  - destruct (forallb _ _); simpl; eauto.
Qed.


(** C7. Discovery totality: on positive dimensions [discoverPredicate]
    returns a predicate for every coordinate list and symbol, without
    raising; when none of the eight testers matches, the result is the
    fallback: kind coordinate_set, confidence 0, not scalable, empty
    parameter list. *)
Theorem discoverPredicate_total (H W : Z) (cells : list GridCoord.t) (char : string) :
  0 < H -> 0 < W ->
  exists p,
    discoverPredicate H W cells char = JS.Ok p /\
    (Spec.noTesterMatches H W cells char ->
       p = fallbackCoordinateSet cells char /\
       Predicate.type p = "coordinate_set" /\
       Predicate.confidence p = 0%Q /\
       Predicate.isScalable p = false /\
       Predicate.params p = []).
Proof.
  intros HH HW.
  destruct (tryHorizontalLine_returns H W cells char HW) as [oh Hh].
  destruct (tryVerticalLine_returns H W cells char HH) as [ov Hv].
  unfold discoverPredicate, detectors, firstMatch, Spec.noTesterMatches.
  rewrite Hh, Hv.
  destruct (tryFill H W cells char) as [p |] eqn:E1;
    [exists p; split; [reflexivity | intros (? & _); discriminate] |].
  destruct (tryBorder H W cells char) as [p |] eqn:E2;
    [exists p; split; [reflexivity | intros (_ & ? & _); discriminate] |].
  destruct (tryDiagonal H W cells char) as [p |] eqn:E3;
    [exists p; split; [reflexivity | intros (_ & _ & ? & _); discriminate] |].
  destruct (tryAntiDiagonal H W cells char) as [p |] eqn:E4;
    [exists p; split; [reflexivity | intros (_ & _ & _ & ? & _); discriminate] |].
  destruct oh as [p |];
    [exists p; split; [reflexivity | intros (_ & _ & _ & _ & ? & _); discriminate] |].
  destruct ov as [p |];
    [exists p; split; [reflexivity | intros (_ & _ & _ & _ & _ & ? & _); discriminate] |].
  destruct (tryFilledRectangle H W cells char) as [p |] eqn:E7;
    [exists p; split; [reflexivity | intros (_ & _ & _ & _ & _ & _ & ? & _); discriminate] |].
  destruct (tryCheckerboard H W cells char) as [p |] eqn:E8;
    [exists p; split; [reflexivity | intros (_ & _ & _ & _ & _ & _ & _ & ?); discriminate] |].
  exists (fallbackCoordinateSet cells char). split; [reflexivity |].
  intros _. repeat split; reflexivity.
Qed.

Lemma discoverPredicate_total_witness :
  0 < 4 /\ 0 < 4 /\
  Spec.noTesterMatches 4 4 (map Spec.coord [(0, 0); (3, 1)]) "x" /\
  exists p,
    discoverPredicate 4 4 (map Spec.coord [(0, 0); (3, 1)]) "x" = JS.Ok p /\
    p = fallbackCoordinateSet (map Spec.coord [(0, 0); (3, 1)]) "x" /\
    Predicate.type p = "coordinate_set" /\
    Predicate.confidence p = 0%Q /\
    Predicate.isScalable p = false /\
    Predicate.params p = [].
Proof.
  split; [lia |]. split; [lia |].
  assert (Hnone : Spec.noTesterMatches 4 4 (map Spec.coord [(0, 0); (3, 1)]) "x")
    by (repeat split; vm_compute; reflexivity).
  split; [exact Hnone |].
  destruct (discoverPredicate_total 4 4 (map Spec.coord [(0, 0); (3, 1)]) "x"
              ltac:(lia) ltac:(lia)) as (p & Hp & Hfallback).
  exists p. split; [exact Hp | exact (Hfallback Hnone)].
Defined.

(** The coordinate grouping of the 5x5 grid with one symbol at (2,2). *)
Lemma centre5_grouping :
  Grid.getCellsByChar (Spec.gridOf 5 5 "#" [(2, 2)]) = [("#", Spec.centre5)].
Proof. vm_compute. reflexivity. Qed.

(** C5, as stated, fails: on the 5x5 grid whose only occupied cell is
    (2,2), discovery does not return a diagonal predicate with
    expression "r == c". *)
Lemma centre5_not_diagonal :
  ~ (exists p, discoverPredicate 5 5 Spec.centre5 "#" = JS.Ok p /\
               Predicate.type p = "diagonal" /\
               Predicate.expression p = "r == c").
Proof.
  intros (p & Hp & Htype & _).
  vm_compute in Hp. injection Hp as <-. discriminate Htype.
Qed.

(** C5, amended: on the 5x5 grid whose only occupied cell is (2,2),
    the diagonal and the anti-diagonal testers both reject the single
    cell (either needs min(H,W) = 5 cells), and discovery returns the
    filled-rectangle tester's predicate, tagged filled_rect, with
    expression "r >= H/2 && r < H-2 && c >= W/2 && c < W-2", scalable,
    confidence 1. *)
Theorem centre5_is_filled_rect (char : string) :
  tryDiagonal 5 5 Spec.centre5 char = None /\
  tryAntiDiagonal 5 5 Spec.centre5 char = None /\
  tryFilledRectangle 5 5 Spec.centre5 char =
    Some (Predicate.mk "filled_rect" char
            "r >= H/2 && r < H-2 && c >= W/2 && c < W-2" ["H"; "W"] true 1) /\
  discoverPredicate 5 5 Spec.centre5 char =
    JS.Ok (Predicate.mk "filled_rect" char
             "r >= H/2 && r < H-2 && c >= W/2 && c < W-2" ["H"; "W"] true 1).
Proof.
  split; [vm_compute; reflexivity |].
  split; [vm_compute; reflexivity |].
  split; vm_compute; reflexivity.
Qed.

(** The coordinate grouping of the fully occupied 4x4 grid. *)
Lemma full4_grouping :
  Grid.getCellsByChar
    (Spec.gridOf 4 4 "#"
       [(0, 0); (0, 1); (0, 2); (0, 3); (1, 0); (1, 1); (1, 2); (1, 3);
        (2, 0); (2, 1); (2, 2); (2, 3); (3, 0); (3, 1); (3, 2); (3, 3)])
  = [("#", Spec.full4)].
Proof. vm_compute. reflexivity. Qed.

(** C6, as stated, fails: on the fully occupied 4x4 grid the predicate
    discovery returns does not carry the kind fill. *)
Lemma full4_kind_not_fill :
  ~ (exists p, discoverPredicate 4 4 Spec.full4 "#" = JS.Ok p /\
               Predicate.type p = "fill").
Proof.
  intros (p & Hp & Htype).
  vm_compute in Hp. injection Hp as <-. discriminate Htype.
Qed.

(** C6, amended: on the fully occupied 4x4 grid discovery returns the
    result of the fill tester, which is tried first: a predicate with
    expression "true", scalable, confidence 1, carrying the tag
    filled_rect (the code has no separate fill tag) and not the bounds
    expression the filled-rectangle tester builds for the same cells. *)
Theorem full4_is_fill_result (char : string) :
  discoverPredicate 4 4 Spec.full4 char = JS.Ok (Predicate.mk "filled_rect" char "true" ["H"; "W"] true 1) /\
  tryFill 4 4 Spec.full4 char = Some (Predicate.mk "filled_rect" char "true" ["H"; "W"] true 1) /\
  tryFilledRectangle 4 4 Spec.full4 char =
    Some (Predicate.mk "filled_rect" char
            "r >= 0 && r < H && c >= 0 && c < W" ["H"; "W"] true 1).
Proof.
  split; [vm_compute; reflexivity |].
  split; vm_compute; reflexivity.
Qed.

End Discovery.

Section Synthesis.
Import PatternAnalyzer CodeGenerator.

Ltac tester_inv Hp :=
  repeat (case_match; try discriminate);
  try (injection Hp as <-); simpl in *; try discriminate; try congruence.

(** Only the fallback writes the tag coordinate_set, and it is never
    scalable. *)
Lemma discovered_coordinate_set_not_scalable (p : Predicate.t) :
  Spec.discovered p -> Predicate.type p = "coordinate_set" -> Predicate.isScalable p = false.
Proof.
  intros (H & W & cells & char & Hp) Htype.
  unfold discoverPredicate, detectors, firstMatch in Hp.
  destruct (tryFill H W cells char) as [q |] eqn:E1.
  { injection Hp as <-. unfold tryFill in E1. tester_inv E1. }
  destruct (tryBorder H W cells char) as [q |] eqn:E2.
  { injection Hp as <-. unfold tryBorder in E2. tester_inv E2. }
  destruct (tryDiagonal H W cells char) as [q |] eqn:E3.
  { injection Hp as <-. unfold tryDiagonal in E3. tester_inv E3. }
  destruct (tryAntiDiagonal H W cells char) as [q |] eqn:E4.
  { injection Hp as <-. unfold tryAntiDiagonal in E4. tester_inv E4. }
  destruct (tryHorizontalLine H W cells char) as [[q |] | e] eqn:E5; try discriminate.
  { injection Hp as <-. unfold tryHorizontalLine in E5. tester_inv E5. }
  destruct (tryVerticalLine H W cells char) as [[q |] | e] eqn:E6; try discriminate.
  { injection Hp as <-. unfold tryVerticalLine in E6. tester_inv E6. }
  destruct (tryFilledRectangle H W cells char) as [q |] eqn:E7.
  { injection Hp as <-. unfold tryFilledRectangle in E7. tester_inv E7. }
  destruct (tryCheckerboard H W cells char) as [q |] eqn:E8.
  { injection Hp as <-. unfold tryCheckerboard in E8. tester_inv E8. }
  injection Hp as <-. reflexivity.
Qed.

Lemma row3_analysis :
  exists warnings,
    analyze Spec.row3Grid = JS.Ok (AnalysisResult.mk [Spec.row3Predicate] warnings false).
Proof. eexists. vm_compute. reflexivity. Qed.

(** C3, as stated, fails: the predicate list discovery returns for the
    8x3 grid with row 3 filled holds a non-scalable horizontal_line,
    so the conjunction of the flags is false, yet synthesis reports
    isScalable = true. *)
Lemma row3_scalable_despite_flag :
  (exists warnings,
     analyze Spec.row3Grid = JS.Ok (AnalysisResult.mk [Spec.row3Predicate] warnings false)) /\
  forallb Predicate.isScalable [Spec.row3Predicate] = false /\
  GeneratedCode.isScalable
    (generate [Spec.row3Predicate] 8 3 (Grid.getCellsByChar Spec.row3Grid)) = true.
Proof.
  split; [exact row3_analysis |]. split; vm_compute; reflexivity.
Qed.

(** C3, amended: [GeneratedCode.isScalable] is false exactly when some
    input predicate has kind coordinate_set, and exactly then one
    warning is attached; for predicates returned by discovery, the
    conjunction of the predicates' flags being true implies
    isScalable = true, but not conversely. *)
Theorem generate_isScalable_iff_no_coordinate_set
    (predicates : list Predicate.t) (H W : Z)
    (cellsByChar : list (string * list GridCoord.t)) :
  let g := generate predicates H W cellsByChar in
  (GeneratedCode.isScalable g = false <->
     exists p, p ∈ predicates /\ Predicate.type p = "coordinate_set") /\
  (GeneratedCode.isScalable g = false <-> length (GeneratedCode.warnings g) = 1%nat) /\
  (GeneratedCode.isScalable g = true <-> GeneratedCode.warnings g = []) /\
  (Forall Spec.discovered predicates ->
     forallb Predicate.isScalable predicates = true ->
     GeneratedCode.isScalable g = true).
Proof.
  simpl. unfold generate. simpl.
  set (has := existsb (fun p => String.eqb (Predicate.type p) "coordinate_set") predicates).
  assert (Hhas : has = true <->
            exists p, p ∈ predicates /\ Predicate.type p = "coordinate_set").
  { unfold has. rewrite existsb_exists. split.
    - intros (p & Hin & Heq). exists p. split; [apply list_elem_of_In; exact Hin |].
      apply String.eqb_eq. exact Heq.
    - intros (p & Hin & Heq). exists p. split; [apply list_elem_of_In; exact Hin |].
      apply String.eqb_eq. exact Heq. }
  split; [| split; [| split]].
  - rewrite <- Hhas. destruct has; simpl; split; congruence.
  - destruct has; simpl; split; intros; congruence.
  - destruct has; simpl; split; intros; congruence.
  - intros Hdisc Hall.
    destruct has eqn:E; [| reflexivity]. exfalso.
    destruct (proj1 Hhas eq_refl) as (p & Hin & Htype).
    rewrite Forall_forall in Hdisc.
    pose proof (discovered_coordinate_set_not_scalable p (Hdisc p Hin) Htype) as Hns.
    rewrite forallb_forall in Hall.
    apply list_elem_of_In in Hin. specialize (Hall p Hin). congruence.
Qed.

Lemma generate_isScalable_iff_no_coordinate_set_witness :
  Forall Spec.discovered [Predicate.mk "filled_rect" "#" "true" ["H"; "W"] true 1] /\
  forallb Predicate.isScalable
    [Predicate.mk "filled_rect" "#" "true" ["H"; "W"] true 1] = true /\
  GeneratedCode.isScalable
    (generate [Predicate.mk "filled_rect" "#" "true" ["H"; "W"] true 1] 4 4 []) = true.
Proof.
  assert (Hdisc : Forall Spec.discovered [Predicate.mk "filled_rect" "#" "true" ["H"; "W"] true 1]).
  { repeat constructor. exists 4, 4, Spec.full4, "#". vm_compute. reflexivity. }
  split; [exact Hdisc |]. split; [reflexivity |].
  exact (proj2 (proj2 (proj2 (generate_isScalable_iff_no_coordinate_set
                                [Predicate.mk "filled_rect" "#" "true" ["H"; "W"] true 1]
                                4 4 []))) Hdisc eq_refl).
Defined.

End Synthesis.

Section Verification.
Import OutputValidator.

Lemma trimEnd_allWhiteSpace (w : string) :
  Spec.allWhiteSpace w = true -> JS.trimEnd w = "".
Proof.
  induction w as [| ch w IH]; simpl; [reflexivity |].
  intros Hw. apply andb_prop in Hw as [Hch Hrest].
  rewrite (IH Hrest), Hch. reflexivity.
Qed.

(** [trimEnd] cannot tell a text from the same text followed by any run
    of white space. *)
Lemma trimEnd_app_allWhiteSpace (s w : string) :
  Spec.allWhiteSpace w = true -> JS.trimEnd (s +:+ w) = JS.trimEnd s.
Proof.
  intros Hw. induction s as [| ch s IH]; simpl.
  - apply trimEnd_allWhiteSpace. exact Hw.
  - rewrite IH. reflexivity.
Qed.

(** The 1x1 grid holding one symbol. *)
Lemma single_cell_rendering :
  Grid.toString (Spec.gridOf 1 1 "#" [(0, 0)]) = "#".
Proof. vm_compute. reflexivity. Qed.

(** C4. What the code does where the specification asks for a single
    trailing-newline strip: [validate] gives the same result for a
    candidate text and for that text followed by any run of white space
    (blanks, tabs, any number of newlines), because the candidate goes
    through [trimEnd]. *)
Theorem validate_ignores_trailing_whitespace (grid : Grid.t) (text w : string) :
  Spec.allWhiteSpace w = true ->
  validate grid (text +:+ w) = validate grid text.
Proof.
  intros Hw. unfold validate.
  rewrite (trimEnd_app_allWhiteSpace text w Hw). reflexivity.
Qed.

Lemma validate_ignores_trailing_whitespace_witness :
  Spec.allWhiteSpace (" " +:+ CodeGenerator.tab +:+ JS.nl +:+ JS.nl) = true /\
  validate (Spec.gridOf 1 1 "#" [(0, 0)]) ("#" +:+ " " +:+ CodeGenerator.tab +:+ JS.nl +:+ JS.nl)
    = validate (Spec.gridOf 1 1 "#" [(0, 0)]) "#" /\
  ValidationResult.valid (validate (Spec.gridOf 1 1 "#" [(0, 0)]) "#") = true /\
  Spec.validBySpec (Spec.gridOf 1 1 "#" [(0, 0)]) "#" = true /\
  Spec.validBySpec (Spec.gridOf 1 1 "#" [(0, 0)])
    ("#" +:+ " " +:+ CodeGenerator.tab +:+ JS.nl +:+ JS.nl) = false.
Proof.
  split; [reflexivity |].
  split; [exact (validate_ignores_trailing_whitespace
                   (Spec.gridOf 1 1 "#" [(0, 0)]) "#"
                   (" " +:+ CodeGenerator.tab +:+ JS.nl +:+ JS.nl) eq_refl) |].
  split; [vm_compute; reflexivity |].
  split; vm_compute; reflexivity.
Defined.

(** Candidates that differ only in trailing blanks, in a trailing tab or
    in the number of trailing newlines are all accepted for the 1x1
    grid, where stripping one trailing newline accepts only the first
    two. *)
Lemma validate_trailing_whitespace_cases :
  let g := Spec.gridOf 1 1 "#" [(0, 0)] in
  map (fun t => ValidationResult.valid (validate g t))
      ["#"; "#" +:+ JS.nl; "# "; "#" +:+ CodeGenerator.tab; "#" +:+ JS.nl +:+ JS.nl]
    = [true; true; true; true; true] /\
  map (Spec.validBySpec g)
      ["#"; "#" +:+ JS.nl; "# "; "#" +:+ CodeGenerator.tab; "#" +:+ JS.nl +:+ JS.nl]
    = [true; true; false; false; false].
Proof. split; vm_compute; reflexivity. Qed.

(** C10. [valid] is not equivalent to an empty difference list: for the
    1x2 grid with a symbol at (0,0), whose rendering ends in a blank
    cell, both the candidate with that blank stripped and the rendering
    itself followed by a newline are rejected ([valid = false]) with an
    empty list of differences. *)
Theorem invalid_with_no_differences :
  exists (grid : Grid.t) (stripped printed : string),
    Grid.toString grid = "# " /\
    stripped = "#" /\
    printed = Grid.toString grid +:+ JS.nl /\
    validate grid stripped = ValidationResult.mk false [] /\
    validate grid printed = ValidationResult.mk false [] /\
    JS.trimEnd printed <> Grid.toString grid /\
    computeDiff (Grid.toString grid) (JS.trimEnd printed) = [].
Proof.
  exists (Spec.gridOf 1 2 "#" [(0, 0)]), "#", ("# " +:+ JS.nl).
  repeat split; try (vm_compute; reflexivity).
  vm_compute. discriminate.
Qed.

End Verification.

Section CoordinateConditions.
Import PatternAnalyzer CodeGenerator.

Section PushTable.
Context {K V : Type} `{EqDecision K}.
Variable eqb : K -> K -> bool.
Hypothesis eqb_eq : forall x y, eqb x y = true <-> x = y.

Lemma eqb_refl_true (x : K) : eqb x x = true.
Proof. apply eqb_eq. reflexivity. Qed.

Lemma eqb_neq_false (x y : K) : x <> y -> eqb x y = false.
Proof.
  intros Hne. destruct (eqb x y) eqn:E; [| reflexivity].
  apply eqb_eq in E. contradiction.
Qed.

Lemma distinct_elem_of (l : list K) (x : K) : x ∈ Spec.distinct eqb l <-> x ∈ l.
Proof.
  induction l as [| y l IH]; simpl; [reflexivity |].
  rewrite !elem_of_cons, <- IH.
  rewrite list_elem_of_In, filter_In, <- list_elem_of_In.
  destruct (decide (x = y)) as [-> | Hne].
  - rewrite eqb_refl_true. simpl. intuition congruence.
  - rewrite (eqb_neq_false x y Hne). simpl. intuition congruence.
Qed.

Lemma distinct_NoDup (l : list K) : NoDup (Spec.distinct eqb l).
Proof.
  induction l as [| y l IH]; simpl; constructor.
  - rewrite list_elem_of_In, filter_In. intros [_ Hy].
    rewrite eqb_refl_true in Hy. discriminate.
  - apply NoDup_ListNoDup. apply List.NoDup_filter. apply NoDup_ListNoDup. exact IH.
Qed.

Lemma distinct_snoc (l : list K) (x : K) :
  Spec.distinct eqb (l ++ [x]) =
  if decide (x ∈ l) then Spec.distinct eqb l else Spec.distinct eqb l ++ [x].
Proof.
  induction l as [| y l IH]; simpl.
  - destruct (decide (x ∈ [])) as [Hin | _]; [inversion Hin | reflexivity].
  - rewrite IH. destruct (decide (x ∈ l)) as [Hin | Hnin].
    + destruct (decide (x ∈ y :: l)) as [_ | Hn]; [reflexivity |].
      exfalso. apply Hn. right. exact Hin.
    + rewrite List.filter_app. simpl.
      destruct (decide (x = y)) as [-> | Hne].
      * rewrite eqb_refl_true. simpl.
        destruct (decide (y ∈ y :: l)) as [_ | Hn]; [| exfalso; apply Hn; left].
        rewrite app_nil_r. reflexivity.
      * rewrite (eqb_neq_false x y Hne). simpl.
        destruct (decide (x ∈ y :: l)) as [Hin | _]; [| reflexivity].
        exfalso. apply elem_of_cons in Hin as [-> | Hin]; [apply Hne |]; auto.
Qed.

Lemma valuesOf_snoc (kvs : list (K * V)) (kv : K * V) (k : K) :
  Spec.valuesOf eqb (kvs ++ [kv]) k =
  Spec.valuesOf eqb kvs k ++ (if eqb (fst kv) k then [snd kv] else []).
Proof.
  unfold Spec.valuesOf. rewrite List.filter_app, map_app. simpl.
  destruct (eqb (fst kv) k); reflexivity.
Qed.

Lemma valuesOf_absent (kvs : list (K * V)) (k : K) :
  k ∉ map fst kvs -> Spec.valuesOf eqb kvs k = [].
Proof.
  unfold Spec.valuesOf. induction kvs as [| kv kvs IH]; simpl; [reflexivity |].
  intros Hn. rewrite not_elem_of_cons in Hn. destruct Hn as [Hne Hn].
  rewrite eqb_neq_false by congruence. apply IH. exact Hn.
Qed.

Lemma elem_of_valuesOf (kvs : list (K * V)) (k : K) (v : V) :
  v ∈ Spec.valuesOf eqb kvs k <-> (k, v) ∈ kvs.
Proof.
  unfold Spec.valuesOf. rewrite list_elem_of_fmap. split.
  - intros ([k' v'] & -> & Hin). apply list_elem_of_In, filter_In in Hin as [Hin Hk].
    simpl in *. apply eqb_eq in Hk. subst k'. apply list_elem_of_In. exact Hin.
  - intros Hin. exists (k, v). split; [reflexivity |].
    apply list_elem_of_In, filter_In. split; [apply list_elem_of_In; exact Hin |].
    simpl. apply eqb_refl_true.
Qed.

(** Pushing onto a table whose keys are distinct: the entry of the key
    grows, or a new entry is appended. *)
Lemma map_push_table (keys : list K) (f g : K -> list V) (k : K) (v : V) :
  NoDup keys ->
  (forall key, key ∈ keys -> g key = f key ++ (if eqb k key then [v] else [])) ->
  map_push eqb k v (map (fun key => (key, f key)) keys) =
  if decide (k ∈ keys) then map (fun key => (key, g key)) keys
  else map (fun key => (key, f key)) keys ++ [(k, [v])].
Proof.
  intros Hnd Hg. induction keys as [| key keys IH]; simpl.
  - destruct (decide (k ∈ [])) as [Hin | _]; [inversion Hin | reflexivity].
  - apply NoDup_cons in Hnd as [Hkey Hnd].
    destruct (decide (key = k)) as [-> | Hne].
    + rewrite eqb_refl_true.
      destruct (decide (k ∈ k :: keys)) as [_ | Hn]; [| exfalso; apply Hn; left].
      rewrite (Hg k) by left. rewrite eqb_refl_true. f_equal.
      apply map_ext_in. intros key Hin. apply list_elem_of_In in Hin.
      rewrite (Hg key) by (right; exact Hin).
      rewrite eqb_neq_false by (intros ->; contradiction).
      rewrite app_nil_r. reflexivity.
    + rewrite (eqb_neq_false key k Hne).
      rewrite IH; [| exact Hnd | intros; apply Hg; right; assumption].
      destruct (decide (k ∈ keys)) as [Hin | Hnin].
      * destruct (decide (k ∈ key :: keys)) as [_ | Hn]; [| exfalso; apply Hn; right; exact Hin].
        f_equal. rewrite (Hg key) by left.
        rewrite eqb_neq_false by congruence.
        rewrite app_nil_r. reflexivity.
      * destruct (decide (k ∈ key :: keys)) as [Hin | _]; [| reflexivity].
        exfalso. apply elem_of_cons in Hin as [-> | Hin]; [apply Hne |]; auto.
Qed.

(** The insertion-ordered table built by pushing key/value pairs holds,
    for each distinct key in encounter order, that key's values in
    encounter order. *)
Lemma push_all_table (kvs : list (K * V)) :
  foldl (fun table kv => map_push eqb (fst kv) (snd kv) table) [] kvs =
  map (fun k => (k, Spec.valuesOf eqb kvs k)) (Spec.distinct eqb (map fst kvs)).
Proof.
  induction kvs as [| kv kvs IH] using rev_ind; [reflexivity |].
  rewrite foldl_app. simpl. rewrite IH.
  rewrite map_app. simpl. rewrite distinct_snoc.
  rewrite (map_push_table _ (Spec.valuesOf eqb kvs) (Spec.valuesOf eqb (kvs ++ [kv])));
    [| apply distinct_NoDup
     | intros key _; rewrite valuesOf_snoc; reflexivity].
  destruct (decide (fst kv ∈ map fst kvs)) as [Hin | Hnin].
  - destruct (decide (fst kv ∈ Spec.distinct eqb (map fst kvs)))
      as [_ | Hn]; [reflexivity |].
    exfalso. apply Hn. apply distinct_elem_of. exact Hin.
  - destruct (decide (fst kv ∈ Spec.distinct eqb (map fst kvs)))
      as [Hin | _]; [exfalso; apply Hnin; apply distinct_elem_of; exact Hin |].
    rewrite map_app. simpl. f_equal.
    + apply map_ext_in. intros key Hin. rewrite valuesOf_snoc.
      rewrite eqb_neq_false; [rewrite app_nil_r; reflexivity |].
      intros <-. apply Hnin. apply distinct_elem_of. apply list_elem_of_In. exact Hin.
    + rewrite valuesOf_snoc, eqb_refl_true, (valuesOf_absent kvs _ Hnin). reflexivity.
Qed.

(** Looking a key up in such a table. *)
Lemma map_get_table (keys : list K) (f : K -> list V) (k : K) :
  map_get eqb k (map (fun key => (key, f key)) keys) =
  if decide (k ∈ keys) then Some (f k) else None.
Proof.
  induction keys as [| key keys IH]; simpl.
  - destruct (decide (k ∈ [])) as [Hin | _]; [inversion Hin | reflexivity].
  - destruct (decide (key = k)) as [-> | Hne].
    + rewrite eqb_refl_true.
      destruct (decide (k ∈ k :: keys)) as [_ | Hn]; [reflexivity | exfalso; apply Hn; left].
    + rewrite (eqb_neq_false key k Hne), IH.
      destruct (decide (k ∈ keys)) as [Hin | Hnin];
        destruct (decide (k ∈ key :: keys)) as [Hin' | Hnin']; try reflexivity.
      * exfalso. apply Hnin'. right. exact Hin.
      * exfalso. apply elem_of_cons in Hin' as [-> | Hin']; [apply Hne |]; auto.
Qed.

End PushTable.

Lemma Z_eqb_eq (x y : Z) : (x =? y) = true <-> x = y.
Proof. apply Z.eqb_eq. Qed.

Lemma columnsOf_valuesOf (cells : list GridCoord.t) (row : Z) :
  Spec.valuesOf Z.eqb (map (fun cell => (GridCoord.row cell, GridCoord.col cell)) cells) row =
  Spec.columnsOf cells row.
Proof.
  unfold Spec.valuesOf, Spec.columnsOf.
  induction cells as [| x cells IH]; simpl; [reflexivity |].
  destruct (GridCoord.row x =? row); simpl; rewrite IH; reflexivity.
Qed.

(** The insertion-ordered table the code builds holds, for each distinct
    row in encounter order, that row's columns in encounter order. *)
Lemma groupByRow_table (cells : list GridCoord.t) :
  groupByRow cells =
  map (fun row => (row, Spec.columnsOf cells row)) (Spec.distinctRows cells).
Proof.
  unfold groupByRow, Spec.distinctRows.
  pose proof (push_all_table Z.eqb Z_eqb_eq
                (map (fun cell => (GridCoord.row cell, GridCoord.col cell)) cells)) as Htable.
  rewrite foldl_fmap in Htable. simpl in Htable. rewrite Htable.
  rewrite map_map. simpl.
  apply map_ext. intros row. rewrite columnsOf_valuesOf. reflexivity.
Qed.

Lemma rowCondition_rowClause (cells : list GridCoord.t) (row : Z) :
  rowCondition (row, Spec.columnsOf cells row) = Spec.rowClause cells row.
Proof.
  unfold rowCondition, Spec.rowClause.
  destruct (Spec.columnsOf cells row) as [| c0 [| c1 cols]]; reflexivity.
Qed.

Lemma map_cellCondition (cells : list GridCoord.t) :
  map cellCondition cells = map Spec.flatTerm cells.
Proof. apply map_ext. reflexivity. Qed.

Lemma generateGroupedCondition_clauses (cells : list GridCoord.t) :
  generateGroupedCondition cells =
  JS.join (map (Spec.rowClause cells) (Spec.distinctRows cells)) wrapSep.
Proof.
  unfold generateGroupedCondition. rewrite groupByRow_table, map_map.
  f_equal. apply map_ext. intros row. apply rowCondition_rowClause.
Qed.

Lemma distinctRows_rows (cells : list GridCoord.t) (row : Z) :
  row ∈ Spec.distinctRows cells <->
  exists cell, cell ∈ cells /\ GridCoord.row cell = row.
Proof.
  unfold Spec.distinctRows. rewrite (distinct_elem_of Z.eqb Z_eqb_eq), list_elem_of_fmap.
  split; intros (cell & H1 & H2); exists cell; auto.
Qed.

(** C9. Coordinate-set condition rendering: the condition synthesized
    for a coordinate_set predicate is built from the coordinates
    recorded for its symbol, whose indices are integers from 0 to
    [Number.MAX_SAFE_INTEGER]. With more than 20 coordinates it is the
    wrapped disjunction of one clause per distinct row (rows in
    encounter order, each clause collapsing the columns of its row), so
    25 coordinates on exactly 3 distinct rows give exactly 3 outer
    clauses; with 1 to 5 coordinates it is the one-line disjunction of
    the terms "(r==row && c==col)"; with 6 to 20 it is the same
    disjunction wrapped after every term; the empty disjunction is
    written "false". A wrapped disjunction separates its clauses by
    " ||", a line feed and 16 blanks. *)
Theorem coordinate_set_condition_rendering
    (cellsByChar : list (string * list GridCoord.t)) (pred : Predicate.t) :
  Predicate.type pred = "coordinate_set" ->
  let cells := default [] (map_get String.eqb (Predicate.char pred) cellsByChar) in
  Spec.safeCoords cells = true ->
  let condition := predicateToCondition cellsByChar pred in
  let wrapped := " ||" +:+ String "010"%char "                " in
  (20 < len cells ->
     condition = JS.join (map (Spec.rowClause cells) (Spec.distinctRows cells)) wrapped /\
     NoDup (Spec.distinctRows cells) /\
     (forall row, row ∈ Spec.distinctRows cells <->
                  exists cell, cell ∈ cells /\ GridCoord.row cell = row) /\
     (len cells = 25 -> length (Spec.distinctRows cells) = 3%nat ->
        exists r1 r2 r3,
          Spec.distinctRows cells = [r1; r2; r3] /\
          condition = Spec.rowClause cells r1 +:+ wrapped +:+
                      Spec.rowClause cells r2 +:+ wrapped +:+
                      Spec.rowClause cells r3)) /\
  (0 < len cells <= 5 -> condition = JS.join (map Spec.flatTerm cells) " || ") /\
  (5 < len cells <= 20 -> condition = JS.join (map Spec.flatTerm cells) wrapped) /\
  (len cells = 0 -> condition = "false").
Proof.
  intros Htype cells _ condition wrapped.
  change wrapped with wrapSep. clear wrapped.
  assert (Hcond : condition = generateCoordinateCondition cells).
  { unfold condition, predicateToCondition. rewrite Htype. reflexivity. }
  rewrite Hcond. clear Hcond condition. unfold generateCoordinateCondition.
  rewrite map_cellCondition.
  assert (Hlen : len (map Spec.flatTerm cells) = len cells)
    by (unfold len; rewrite length_map; reflexivity).
  rewrite Hlen, Z.gtb_ltb.
  destruct (Z.eqb_spec (len cells) 0) as [H0 | H0];
    destruct (Z.ltb_spec 20 (len cells)) as [H20 | H20];
    destruct (Z.leb_spec (len cells) 5) as [H5 | H5];
    (split; [| split; [| split]]); intros Hrange; try lia; try reflexivity.
  rewrite generateGroupedCondition_clauses.
  split; [reflexivity |]. split; [apply (distinct_NoDup Z.eqb Z_eqb_eq) |].
  split; [apply distinctRows_rows |].
  intros _ H3.
  destruct (Spec.distinctRows cells) as [| r1 [| r2 [| r3 [| r4 rows]]]];
    try discriminate H3.
  exists r1, r2, r3. split; reflexivity.
Qed.

Lemma coordinate_set_condition_rendering_witness :
  let pred := fallbackCoordinateSet Spec.scattered25 "#" in
  let cellsByChar := [("#", Spec.scattered25)] in
  let two := map Spec.coord [(0, 0); (3, 1)] in
  let six := map Spec.coord [(0, 0); (0, 1); (0, 3); (1, 0); (3, 1); (3, 3)] in
  let wrapped := " ||" +:+ String "010"%char "                " in
  (Predicate.type pred = "coordinate_set" /\
   Spec.safeCoords Spec.scattered25 = true /\
   20 < len Spec.scattered25 /\
   len Spec.scattered25 = 25 /\
   Spec.distinctRows Spec.scattered25 = [0; 2; 4] /\
   predicateToCondition cellsByChar pred =
     "(r==0 && (c==0 || c==1 || c==2 || c==3 || c==4 || c==5 || c==6 || c==7 || c==8))"
       +:+ wrapped +:+
     "(r==2 && (c==0 || c==1 || c==2 || c==3 || c==4 || c==5 || c==6 || c==7))"
       +:+ wrapped +:+
     "(r==4 && (c==1 || c==2 || c==3 || c==4 || c==5 || c==6 || c==7 || c==8))") /\
  (0 < len two <= 5 /\ Spec.safeCoords two = true /\
   predicateToCondition [("x", two)] (fallbackCoordinateSet two "x") =
     "(r==0 && c==0) || (r==3 && c==1)") /\
  (5 < len six <= 20 /\ Spec.safeCoords six = true /\
   predicateToCondition [("x", six)] (fallbackCoordinateSet six "x") =
     "(r==0 && c==0)" +:+ wrapped +:+ "(r==0 && c==1)" +:+ wrapped +:+
     "(r==0 && c==3)" +:+ wrapped +:+ "(r==1 && c==0)" +:+ wrapped +:+
     "(r==3 && c==1)" +:+ wrapped +:+ "(r==3 && c==3)") /\
  (len ([] : list GridCoord.t) = 0 /\
   predicateToCondition [] (fallbackCoordinateSet [] "x") = "false").
Proof.
  intros pred cellsByChar two six wrapped. split; [| split; [| split]].
  - split; [reflexivity |]. split; [vm_compute; reflexivity |].
    split; [vm_compute; reflexivity |].
    split; [vm_compute; reflexivity |]. split; [vm_compute; reflexivity |].
    destruct (coordinate_set_condition_rendering cellsByChar pred eq_refl
                ltac:(vm_compute; reflexivity)) as [Hgrouped _].
    destruct (Hgrouped ltac:(vm_compute; reflexivity)) as (_ & _ & _ & Hthree).
    destruct (Hthree ltac:(vm_compute; reflexivity) ltac:(vm_compute; reflexivity))
      as (r1 & r2 & r3 & Hrows & Hcondition).
    vm_compute in Hrows. injection Hrows as <- <- <-.
    rewrite Hcondition. vm_compute. reflexivity.
  - assert (Hrange : 0 < len two <= 5) by (vm_compute; split; [reflexivity | discriminate]).
    split; [exact Hrange |]. split; [vm_compute; reflexivity |].
    destruct (coordinate_set_condition_rendering
                [("x", two)] (fallbackCoordinateSet two "x") eq_refl
                ltac:(vm_compute; reflexivity)) as (_ & Hflat & _).
    rewrite (Hflat Hrange). vm_compute. reflexivity.
  - assert (Hrange : 5 < len six <= 20) by (vm_compute; split; [reflexivity | discriminate]).
    split; [exact Hrange |]. split; [vm_compute; reflexivity |].
    destruct (coordinate_set_condition_rendering
                [("x", six)] (fallbackCoordinateSet six "x") eq_refl
                ltac:(vm_compute; reflexivity)) as (_ & _ & Hwrapped & _).
    rewrite (Hwrapped Hrange). vm_compute. reflexivity.
  - split; [reflexivity |].
    destruct (coordinate_set_condition_rendering
                [] (fallbackCoordinateSet [] "x") eq_refl
                ltac:(vm_compute; reflexivity)) as (_ & _ & _ & Hempty).
    exact (Hempty eq_refl).
Defined.

(** The flat renderings on concrete lists: two terms on one line, six
    terms wrapped. *)
Lemma flat_conditions_examples :
  generateCoordinateCondition (map Spec.coord [(0, 0); (3, 1)]) =
    "(r==0 && c==0) || (r==3 && c==1)" /\
  generateCoordinateCondition
    (map Spec.coord [(0, 0); (0, 1); (0, 3); (1, 0); (3, 1); (3, 3)]) =
    "(r==0 && c==0)" +:+ wrapSep +:+ "(r==0 && c==1)" +:+ wrapSep +:+
    "(r==0 && c==3)" +:+ wrapSep +:+ "(r==1 && c==0)" +:+ wrapSep +:+
    "(r==3 && c==1)" +:+ wrapSep +:+ "(r==3 && c==3)".
Proof. split; vm_compute; reflexivity. Qed.

End CoordinateConditions.

Section RoundTrip.
Import PatternAnalyzer CodeGenerator OutputValidator.

(** C2. What the checkerboard tester does where the specification asks for an
    exact match: on the 2x3 grid it matches the in-bounds, pairwise
    distinct cells (0,0) and (0,2), and the expression it returns,
    "(r + c) % 2 == 0", holds at (0,0), (0,2) and (1,1): a proper subset
    of the characteristic set is matched. *)
Theorem checkerboard_matches_proper_subset :
  Forall (Spec.inBounds 2 3) Spec.partialChecker /\
  NoDup Spec.partialChecker /\
  tryCheckerboard 2 3 Spec.partialChecker "#" =
    Some (Predicate.mk "checkerboard" "#" "(r + c) % 2 == 0" ["H"; "W"] true 1) /\
  Cxx.show Spec.evenParity = "(r + c) % 2 == 0" /\
  Cxx.parsesAs Spec.evenParity = true /\
  Cxx.cellsOf Spec.evenParity 2 3 = map Spec.coord [(0, 0); (0, 2); (1, 1)] /\
  (GridCoord.mk 1 1 ∉ Spec.partialChecker) /\
  discoverPredicate 2 3 Spec.partialChecker "#" =
    JS.Ok (Predicate.mk "checkerboard" "#" "(r + c) % 2 == 0" ["H"; "W"] true 1).
Proof.
  split; [repeat constructor; simpl; lia |].
  split; [apply (bool_decide_unpack _); vm_compute; exact I |].
  split; [vm_compute; reflexivity |].
  split; [reflexivity |]. split; [reflexivity |].
  split; [vm_compute; reflexivity |].
  split; [| vm_compute; reflexivity].
  apply (bool_decide_unpack _). vm_compute. exact I.
Qed.

(** C1. What the pipeline does on the 2x3 grid with one symbol at (0,0)
    and (0,2): discovery returns the single checkerboard predicate
    "(r + c) % 2 == 0"; the chain evaluated over the grid prints the
    symbol at (1,1) as well, so the evaluation differs from the
    canonical rendering and [validate] rejects the program's output. *)
Theorem round_trip_fails_on_partial_checkerboard :
  let grid := Spec.partialCheckerGrid in
  let pred := Predicate.mk "checkerboard" "#" "(r + c) % 2 == 0" ["H"; "W"] true 1 in
  let branches := [(Spec.evenParity, Predicate.char pred)] in
  analyze grid = JS.Ok (AnalysisResult.mk [pred] [] true) /\
  predicateToCondition (Grid.getCellsByChar grid) pred = Cxx.show Spec.evenParity /\
  Cxx.parsesAs Spec.evenParity = true /\
  Grid.toString grid = "# #" +:+ JS.nl +:+ "   " /\
  Cxx.evaluate branches (Grid.rows grid) (Grid.cols grid) = "# #" +:+ JS.nl +:+ " # " /\
  Cxx.evaluate branches (Grid.rows grid) (Grid.cols grid) <> Grid.toString grid /\
  Cxx.stdout branches (Grid.rows grid) (Grid.cols grid) = "# #" +:+ JS.nl +:+ " # " +:+ JS.nl /\
  validate grid (Cxx.stdout branches (Grid.rows grid) (Grid.cols grid)) =
    ValidationResult.mk false [Difference.mk 1 1 "(space)" "'#'"].
Proof.
  repeat split; try (vm_compute; reflexivity).
  vm_compute. discriminate.
Qed.

(** The second way the round trip fails: on the 1x2 grid with a symbol
    at (0,0) the discovered chain reproduces the rendering exactly, and
    [validate] still rejects what the program prints, because the
    rendering ends in a blank that [trimEnd] removes from the output. *)
Lemma round_trip_rejected_on_trailing_blank :
  let grid := Spec.trailingBlankGrid in
  let pred := Predicate.mk "diagonal" "#" "r == c" ["H"; "W"] true 1 in
  let branches := [(Spec.onDiagonal, Predicate.char pred)] in
  analyze grid = JS.Ok (AnalysisResult.mk [pred] [] true) /\
  predicateToCondition (Grid.getCellsByChar grid) pred = Cxx.show Spec.onDiagonal /\
  Cxx.parsesAs Spec.onDiagonal = true /\
  Cxx.evaluate branches (Grid.rows grid) (Grid.cols grid) = Grid.toString grid /\
  Cxx.stdout branches (Grid.rows grid) (Grid.cols grid) = Grid.toString grid +:+ JS.nl /\
  validate grid (Cxx.stdout branches (Grid.rows grid) (Grid.cols grid)) =
    ValidationResult.mk false [].
Proof. repeat split; vm_compute; reflexivity. Qed.

End RoundTrip.

(* ------------------------------------------------------------------ *)
(** ** Loops, counting and the string keys *)
(* ------------------------------------------------------------------ *)

Section Ranges.

Lemma elem_of_range (lo hi x : Z) : x ∈ JS.range lo hi <-> lo <= x < hi.
Proof.
  unfold JS.range. rewrite list_elem_of_fmap. split.
  - intros (k & -> & Hk). apply elem_of_seq in Hk. lia.
  - intros Hx. exists (Z.to_nat (x - lo)). split; [lia |].
    apply elem_of_seq. lia.
Qed.

Lemma NoDup_range (lo hi : Z) : NoDup (JS.range lo hi).
Proof.
  unfold JS.range. apply NoDup_fmap_2_strong; [| apply NoDup_seq].
  intros a b _ _ Hab. lia.
Qed.

Lemma length_range (lo hi : Z) : length (JS.range lo hi) = Z.to_nat (hi - lo).
Proof. unfold JS.range. rewrite length_map, length_seq. reflexivity. Qed.

(** A duplicate-free list inside a list that is not longer fills it. *)
Lemma filled_by_count {A : Type} (l S : list A) :
  NoDup l -> (forall x, x ∈ l -> x ∈ S) -> (length S <= length l)%nat ->
  forall x, x ∈ S -> x ∈ l.
Proof.
  intros Hnd Hsub Hlen x Hx.
  assert (Hperm : l ≡ₚ S).
  { apply submseteq_length_Permutation; [| exact Hlen].
    apply NoDup_submseteq; assumption. }
  rewrite Hperm. exact Hx.
Qed.

End Ranges.

Section Keys.
Import PatternAnalyzer.

Lemma string_of_uint_no_comma (d : Decimal.uint) :
  Spec.hasComma (NilEmpty.string_of_uint d) = false.
Proof. induction d; simpl; auto. Qed.

Lemma toString_no_comma (n : Z) : Spec.hasComma (JS.toString n) = false.
Proof.
  unfold JS.toString, NilZero.string_of_int, NilZero.string_of_uint.
  destruct (Z.to_int n) as [d | d]; destruct d; simpl;
    auto using string_of_uint_no_comma.
Qed.

Lemma split_at_comma (s1 s2 t1 t2 : string) :
  Spec.hasComma s1 = false -> Spec.hasComma s2 = false ->
  s1 +:+ "," +:+ t1 = s2 +:+ "," +:+ t2 -> s1 = s2 /\ t1 = t2.
Proof.
  revert s2. induction s1 as [| a s1 IH]; intros [| b s2]; simpl; intros H1 H2 Heq.
  - injection Heq as Ht. auto.
  - injection Heq as Hb _. subst b. discriminate H2.
  - injection Heq as Ha _. subst a. discriminate H1.
  - injection Heq as Hab Heq. subst b.
    apply orb_false_elim in H1 as [_ H1]. apply orb_false_elim in H2 as [_ H2].
    destruct (IH s2 H1 H2 Heq) as [Hs Ht]. subst. auto.
Qed.

Lemma toString_inj (a b : Z) : JS.toString a = JS.toString b -> a = b.
Proof.
  intros Heq. pose proof (toString_reads_back a) as Ha.
  rewrite Heq, toString_reads_back in Ha. congruence.
Qed.

(** Distinct coordinates have distinct keys. *)
Lemma coordKey_inj (r c r' c' : Z) :
  coordKey r c = coordKey r' c' -> r = r' /\ c = c'.
Proof.
  unfold coordKey. intros Heq.
  apply split_at_comma in Heq as [Hr Hc]; try apply toString_no_comma.
  split; apply toString_inj; assumption.
Qed.

(** Membership in the key set of a coordinate list. *)
Lemma elem_of_cellSet (cells : list GridCoord.t) (r c : Z) :
  coordKey r c ∈ (list_to_set (map cellKey cells) : gset string) <->
  GridCoord.mk r c ∈ cells.
Proof.
  rewrite elem_of_list_to_set, list_elem_of_fmap. split.
  - intros ([r' c'] & Hkey & Hin). unfold cellKey in Hkey. simpl in Hkey.
    apply coordKey_inj in Hkey as [-> ->]. exact Hin.
  - intros Hin. exists (GridCoord.mk r c). split; [reflexivity | exact Hin].
Qed.

End Keys.

(* ------------------------------------------------------------------ *)
(** ** The testers that match exactly *)
(* ------------------------------------------------------------------ *)

Section ParamExpr.
Import PatternAnalyzer.

Lemma show_paramExpr (value D : Z) (name : string) :
  Cxx.show (Spec.paramExpr value D name) = parameterizeValue value D name.
Proof.
  unfold Spec.paramExpr, parameterizeValue.
  repeat case_match; reflexivity.
Qed.

Lemma parsesAs_paramExpr (value D : Z) (name : string) :
  0 <= value -> Cxx.parsesAs (Spec.paramExpr value D name) = true.
Proof.
  intros Hv. unfold Spec.paramExpr.
  repeat case_match; simpl; try reflexivity. apply Z.leb_le. exact Hv.
Qed.

Lemma level_paramExpr (value D : Z) (name : string) :
  (5 <= Cxx.level (Spec.paramExpr value D name))%nat.
Proof. unfold Spec.paramExpr. repeat case_match; simpl; lia. Qed.

Ltac param_cases :=
  unfold Spec.paramExpr; repeat case_match; simpl;
  repeat match goal with
         | Hb : (_ && _)%bool = true |- _ => apply andb_prop in Hb as [? ?]
         | Hb : (_ =? _) = true |- _ => apply Z.eqb_eq in Hb
         end;
  repeat match goal with
         | Hq : context [Z.quot _ _] |- _ => rewrite Z.quot_div_nonneg in Hq by lia
         end;
  f_equal; try rewrite Z.quot_div_nonneg by lia; try lia.

(** Under C++ evaluation the text stands for the value it was made
    from. *)
Lemma eval_paramExpr_H (rho : Cxx.env) (value : Z) :
  0 <= Cxx.H rho ->
  Cxx.eval rho (Spec.paramExpr value (Cxx.H rho) "H") = Some value.
Proof. intros HD. param_cases. Qed.

Lemma eval_paramExpr_W (rho : Cxx.env) (value : Z) :
  0 <= Cxx.W rho ->
  Cxx.eval rho (Spec.paramExpr value (Cxx.W rho) "W") = Some value.
Proof. intros HD. param_cases. Qed.

End ParamExpr.

Section LineTesters.
Import PatternAnalyzer.

(** The line testers read [cells[0]] after the length test. *)
Lemma tryHorizontalLine_head (H W : Z) (cells : list GridCoord.t) (char : string) :
  tryHorizontalLine H W cells char =
  if negb (len cells =? W) then JS.Ok None
  else match head cells with
       | None => JS.Throw "TypeError: cells[0] is undefined"
       | Some c0 =>
           if negb (forallb (fun cell => GridCoord.row cell =? GridCoord.row c0) cells)
           then JS.Ok None
           else
             let param := parameterizeValue (GridCoord.row c0) H "H" in
             JS.Ok (Some (Predicate.mk "horizontal_line" char ("r == " +:+ param)
                            (if JS.includes param "H" then ["H"; "W"] else ["W"])
                            (JS.includes param "H")
                            (if JS.includes param "H" then 1 else (1 # 2))%Q))
       end.
Proof. unfold tryHorizontalLine. destruct cells; reflexivity. Qed.

Lemma tryVerticalLine_head (H W : Z) (cells : list GridCoord.t) (char : string) :
  tryVerticalLine H W cells char =
  if negb (len cells =? H) then JS.Ok None
  else match head cells with
       | None => JS.Throw "TypeError: cells[0] is undefined"
       | Some c0 =>
           if negb (forallb (fun cell => GridCoord.col cell =? GridCoord.col c0) cells)
           then JS.Ok None
           else
             let param := parameterizeValue (GridCoord.col c0) W "W" in
             JS.Ok (Some (Predicate.mk "vertical_line" char ("c == " +:+ param)
                            (if JS.includes param "W" then ["H"; "W"] else ["H"])
                            (JS.includes param "W")
                            (if JS.includes param "W" then 1 else (1 # 2))%Q))
       end.
Proof. unfold tryVerticalLine. destruct cells; reflexivity. Qed.

Lemma head_elem_of_list {A} (l : list A) (x : A) : head l = Some x -> x ∈ l.
Proof. destruct l; simpl; [discriminate |]. intros [= ->]. left. Qed.

Lemma tryFilledRectangle_head (H W : Z) (cells : list GridCoord.t) (char : string) :
  tryFilledRectangle H W cells char =
  match head cells with
  | None => None
  | Some c0 =>
      let '(minR, maxR, minC, maxC) := Spec.boundingBox cells c0 in
      if negb (len cells =? (maxR - minR + 1) * (maxC - minC + 1)) then None
      else if negb (forallb (fun r =>
                      forallb (fun c =>
                        bool_decide (coordKey r c ∈ (list_to_set (map cellKey cells) : gset string)))
                        (JS.range minC (maxC + 1)))
                    (JS.range minR (maxR + 1)))
      then None
      else Some (Predicate.mk "filled_rect" char
                   ("r >= " +:+ parameterizeValue minR H "H" +:+
                    " && r < " +:+ parameterizeValue (maxR + 1) H "H" +:+
                    " && c >= " +:+ parameterizeValue minC W "W" +:+
                    " && c < " +:+ parameterizeValue (maxC + 1) W "W")
                   ["H"; "W"]
                   (JS.includes (parameterizeValue minR H "H") "H" ||
                    JS.includes (parameterizeValue (maxR + 1) H "H") "H" ||
                    JS.includes (parameterizeValue minC W "W") "W" ||
                    JS.includes (parameterizeValue (maxC + 1) W "W") "W")
                   (if JS.includes (parameterizeValue minR H "H") "H" ||
                       JS.includes (parameterizeValue (maxR + 1) H "H") "H" ||
                       JS.includes (parameterizeValue minC W "W") "W" ||
                       JS.includes (parameterizeValue (maxC + 1) W "W") "W"
                    then 1 else (7 # 10))%Q)
  end.
Proof. unfold tryFilledRectangle. destruct cells; reflexivity. Qed.

Lemma foldl_min_bounds (f : GridCoord.t -> Z) (l : list GridCoord.t) (a lb : Z) :
  let m := foldl (fun m cell => Z.min m (f cell)) a l in
  m <= a /\ (forall x, x ∈ l -> m <= f x) /\
  (lb <= a -> (forall x, x ∈ l -> lb <= f x) -> lb <= m).
Proof.
  revert a. induction l as [| y l IH]; intros a; simpl.
  - split; [lia |]. split; [intros x Hx; inversion Hx | auto].
  - destruct (IH (Z.min a (f y))) as (H1 & H2 & H3). split; [lia |]. split.
    + intros x Hx. apply elem_of_cons in Hx as [-> | Hx]; [lia | auto].
    + intros Ha Hall. apply H3.
      * pose proof (Hall y ltac:(left)). lia.
      * intros x Hx. apply Hall. right. exact Hx.
Qed.

Lemma foldl_max_bounds (f : GridCoord.t -> Z) (l : list GridCoord.t) (a ub : Z) :
  let m := foldl (fun m cell => Z.max m (f cell)) a l in
  a <= m /\ (forall x, x ∈ l -> f x <= m) /\
  (a <= ub -> (forall x, x ∈ l -> f x <= ub) -> m <= ub).
Proof.
  revert a. induction l as [| y l IH]; intros a; simpl.
  - split; [lia |]. split; [intros x Hx; inversion Hx | auto].
  - destruct (IH (Z.max a (f y))) as (H1 & H2 & H3). split; [lia |]. split.
    + intros x Hx. apply elem_of_cons in Hx as [-> | Hx]; [lia | auto].
    + intros Ha Hall. apply H3.
      * pose proof (Hall y ltac:(left)). lia.
      * intros x Hx. apply Hall. right. exact Hx.
Qed.

Lemma append_assoc (a b c : string) : (a +:+ b) +:+ c = a +:+ (b +:+ c).
Proof.
  induction a as [| ch a IH]; [reflexivity |].
  change (String ch ((a +:+ b) +:+ c) = String ch (a +:+ (b +:+ c))).
  f_equal. exact IH.
Qed.

Lemma eval_and (rho : Cxx.env) (a b : Cxx.expr) (x y : bool) :
  Cxx.eval rho a = Some (Cxx.ofBool x) -> Cxx.eval rho b = Some (Cxx.ofBool y) ->
  Cxx.eval rho (Cxx.Bin Cxx.And Cxx.Spaced a b) = Some (Cxx.ofBool (x && y)).
Proof. intros Ha Hb. cbn [Cxx.eval]. rewrite Ha, Hb. destruct x, y; reflexivity. Qed.

Lemma eval_or (rho : Cxx.env) (l : Cxx.layout) (a b : Cxx.expr) (x y : bool) :
  Cxx.eval rho a = Some (Cxx.ofBool x) -> Cxx.eval rho b = Some (Cxx.ofBool y) ->
  Cxx.eval rho (Cxx.Bin Cxx.Or l a b) = Some (Cxx.ofBool (x || y)).
Proof. intros Ha Hb. cbn [Cxx.eval]. rewrite Ha, Hb. destruct x, y; reflexivity. Qed.

Lemma holds_ofBool (rho : Cxx.env) (e : Cxx.expr) (b : bool) :
  Cxx.eval rho e = Some (Cxx.ofBool b) -> Cxx.holds rho e = b.
Proof. intros He. unfold Cxx.holds. rewrite He. destruct b; reflexivity. Qed.

Lemma elem_of_foldl_two (f g : Z -> string) (l : list Z) (s0 : gset string) (key : string) :
  key ∈ foldl (fun s x => {[f x]} ∪ ({[g x]} ∪ s)) s0 l <->
  key ∈ s0 \/ exists x, x ∈ l /\ (key = f x \/ key = g x).
Proof.
  revert s0. induction l as [| y l IH]; intros s0; simpl.
  - split; [auto |]. intros [Hin | (x & Hx & _)]; [exact Hin | inversion Hx].
  - rewrite IH, !elem_of_union, !elem_of_singleton. split.
    + intros [[Hf | [Hg | Hin]] | (x & Hx & Hk)].
      * right. exists y. split; [left | auto].
      * right. exists y. split; [left | auto].
      * left. exact Hin.
      * right. exists x. split; [right; exact Hx | exact Hk].
    + intros [Hin | (x & Hx & Hk)]; [auto |].
      apply elem_of_cons in Hx as [-> | Hx]; [left; tauto |].
      right. exists x. auto.
Qed.

End LineTesters.

Section ExactTesters.
Import PatternAnalyzer.

Variables H W : Z.
Variable cells : list GridCoord.t.
Variable char : string.
Hypothesis H_pos : 0 < H.
Hypothesis W_pos : 0 < W.
Hypothesis cells_inBounds : Forall (Spec.inBounds H W) cells.
Hypothesis cells_NoDup : NoDup cells.

Lemma inBounds_of_elem (x : GridCoord.t) : x ∈ cells -> Spec.inBounds H W x.
Proof. intros Hx. rewrite Forall_forall in cells_inBounds. auto. Qed.

Lemma forallb_elem_of {A} (f : A -> bool) (l : list A) :
  forallb f l = true <-> forall x, x ∈ l -> f x = true.
Proof.
  rewrite forallb_forall. split; intros Hall x Hx; apply Hall;
    apply list_elem_of_In; exact Hx.
Qed.

(** The cells are exactly those of [S] as soon as they lie in [S] and
    are as many. *)
Lemma exact_by_count (S : list GridCoord.t) :
  (forall x, x ∈ cells -> x ∈ S) -> len cells = Z.of_nat (length S) ->
  forall x, x ∈ cells <-> x ∈ S.
Proof.
  intros Hsub Hlen x. split; [apply Hsub |].
  apply filled_by_count; [exact cells_NoDup | exact Hsub |].
  unfold len in Hlen. lia.
Qed.

Lemma elem_of_allCells (r c : Z) :
  GridCoord.mk r c ∈ Spec.allCells H W <-> 0 <= r < H /\ 0 <= c < W.
Proof.
  unfold Spec.allCells. rewrite list_elem_of_In, in_flat_map. split.
  - intros (r' & Hr & Hin). apply list_elem_of_In in Hr, Hin.
    apply list_elem_of_fmap in Hin as (c' & Heq & Hc).
    injection Heq as -> ->. apply elem_of_range in Hr, Hc. lia.
  - intros [Hr Hc]. exists r. split; apply list_elem_of_In.
    + apply elem_of_range. lia.
    + apply list_elem_of_fmap. exists c. split; [reflexivity |].
      apply elem_of_range. lia.
Qed.

Lemma length_allCells : Z.of_nat (length (Spec.allCells H W)) = H * W.
Proof.
  unfold Spec.allCells.
  assert (Hlen : forall l : list Z,
             length (flat_map (fun r => map (fun c => GridCoord.mk r c) (JS.range 0 W)) l)
             = (length l * Z.to_nat W)%nat).
  { induction l as [| r l IH]; simpl; [reflexivity |].
    rewrite length_app, IH, length_map, length_range. f_equal. lia. }
  rewrite Hlen, length_range. lia.
Qed.

(** Fill: a match means every cell of the grid is listed. *)
Lemma tryFill_exact (p : Predicate.t) :
  tryFill H W cells char = Some p -> Spec.characterizes H W p cells.
Proof.
  unfold tryFill. destruct (Z.eqb_spec (len cells) (H * W)) as [Hlen | _]; [| discriminate].
  simpl. intros [= <-]. exists Cxx.BTrue. split; [reflexivity |]. split; [reflexivity |].
  intros r c Hr Hc. split; [intros _ | reflexivity].
  apply (exact_by_count (Spec.allCells H W)).
  - intros [r' c'] Hx. apply elem_of_allCells. exact (inBounds_of_elem _ Hx).
  - rewrite length_allCells. exact Hlen.
  - apply elem_of_allCells. auto.
Qed.

(** The image of a loop under [f]. *)
Lemma elem_of_image (f : Z -> GridCoord.t) (lo hi : Z) (x : GridCoord.t) :
  x ∈ map f (JS.range lo hi) <-> exists i, lo <= i < hi /\ x = f i.
Proof.
  rewrite list_elem_of_fmap. split; intros (i & H1 & H2).
  - exists i. apply elem_of_range in H2. auto.
  - exists i. split; [tauto |]. apply elem_of_range. tauto.
Qed.

Lemma length_image (f : Z -> GridCoord.t) (n : Z) :
  0 <= n -> Z.of_nat (length (map f (JS.range 0 n))) = n.
Proof. intros Hn. rewrite length_map, length_range. lia. Qed.

(** Diagonal: a match means the whole diagonal is listed. *)
Lemma tryDiagonal_exact (p : Predicate.t) :
  tryDiagonal H W cells char = Some p -> Spec.characterizes H W p cells.
Proof.
  unfold tryDiagonal.
  destruct (Z.eqb_spec (len cells) (Z.min H W)) as [Hlen | _]; [| discriminate].
  destruct (forallb _ cells) eqn:Hall; [| discriminate].
  simpl. intros [= <-]. exists Spec.onDiagonal.
  split; [reflexivity |]. split; [reflexivity |].
  rewrite forallb_elem_of in Hall.
  assert (Hex := exact_by_count (map (fun i => GridCoord.mk i i) (JS.range 0 (Z.min H W)))).
  intros r c Hr Hc. rewrite Hex.
  - rewrite elem_of_image. unfold Cxx.holds. simpl.
    destruct (Z.eqb_spec r c) as [-> | Hne]; simpl; split; intros Hh;
      try discriminate; try reflexivity.
    + exists c. split; [lia | reflexivity].
    + destruct Hh as (i & _ & Heq). injection Heq as Hri Hci. lia.
  - intros [r' c'] Hx. apply elem_of_image.
    pose proof (inBounds_of_elem _ Hx) as [Hr' Hc']. simpl in *.
    specialize (Hall _ Hx). simpl in Hall. apply Z.eqb_eq in Hall. subst c'.
    exists r'. split; [lia | reflexivity].
  - rewrite length_image by lia. exact Hlen.
Qed.

(** Anti-diagonal: a match means the whole anti-diagonal is listed. *)
Lemma tryAntiDiagonal_exact (p : Predicate.t) :
  tryAntiDiagonal H W cells char = Some p -> Spec.characterizes H W p cells.
Proof.
  unfold tryAntiDiagonal.
  destruct (Z.eqb_spec (len cells) (Z.min H W)) as [Hlen | _]; [| discriminate].
  destruct (forallb _ cells) eqn:Hall; [| discriminate].
  simpl. intros [= <-]. exists (Spec.antiDiagonalExpr H W).
  rewrite forallb_elem_of in Hall.
  assert (Hex := exact_by_count
                   (map (fun i => GridCoord.mk i (Z.min H W - 1 - i)) (JS.range 0 (Z.min H W)))).
  unfold Spec.antiDiagonalExpr.
  split; [destruct (H <=? W); reflexivity |].
  split; [destruct (H <=? W); reflexivity |].
  intros r c Hr Hc. rewrite Hex.
  - rewrite elem_of_image. unfold Cxx.holds.
    destruct (Z.leb_spec H W) as [Hle | Hgt]; simpl.
    + destruct (Z.eqb_spec (r + c) (H - 1)) as [Heq | Hne];
        destruct (Z.ltb_spec c H) as [Hlt | Hge]; simpl; split; intros Hh;
        try discriminate; try reflexivity;
        try (destruct Hh as (i & Hi & Hxi); injection Hxi as Hri Hci; lia).
      exists r. split; [lia |]. f_equal. lia.
    + destruct (Z.eqb_spec (r + c) (W - 1)) as [Heq | Hne];
        destruct (Z.ltb_spec r W) as [Hlt | Hge]; simpl; split; intros Hh;
        try discriminate; try reflexivity;
        try (destruct Hh as (i & Hi & Hxi); injection Hxi as Hri Hci; lia).
      exists r. split; [lia |]. f_equal. lia.
  - intros [r' c'] Hx. apply elem_of_image.
    pose proof (inBounds_of_elem _ Hx) as [Hr' Hc']. simpl in *.
    specialize (Hall _ Hx). simpl in Hall. apply Z.eqb_eq in Hall.
    exists r'. split; [lia |]. f_equal. lia.
  - rewrite length_image by lia. exact Hlen.
Qed.

(** A comparison of an index with a parameter text. *)
Lemma parsesAs_compare (op : Cxx.binop) (index : string) (value D : Z) (name : string) :
  (Cxx.prec op <= 4)%nat -> 0 <= value ->
  Cxx.parsesAs (Cxx.Bin op Cxx.Spaced (Cxx.Var index) (Spec.paramExpr value D name)) = true.
Proof.
  intros Hop Hv. cbn [Cxx.parsesAs Cxx.level].
  rewrite (parsesAs_paramExpr value D name Hv).
  pose proof (level_paramExpr value D name) as Hl.
  rewrite !andb_true_r. apply andb_true_intro. split.
  - apply Nat.leb_le. lia.
  - apply Nat.ltb_lt. lia.
Qed.

Lemma holds_compare (rho : Cxx.env) (op : Cxx.binop) (a b : Cxx.expr) (x y : Z) :
  Cxx.eval rho a = Some x -> Cxx.eval rho b = Some y ->
  Cxx.eval rho (Cxx.Bin op Cxx.Spaced a b) =
    match op with
    | Cxx.Eq => Some (Cxx.ofBool (x =? y))
    | Cxx.Lt => Some (Cxx.ofBool (x <? y))
    | Cxx.Ge => Some (Cxx.ofBool (x >=? y))
    | _ => Cxx.eval rho (Cxx.Bin op Cxx.Spaced a b)
    end.
Proof. intros Ha Hb. destruct op; try reflexivity; cbn [Cxx.eval]; rewrite Ha, Hb; reflexivity. Qed.

(** Horizontal line: a match means one whole row is listed. *)
Lemma tryHorizontalLine_exact (p : Predicate.t) :
  tryHorizontalLine H W cells char = JS.Ok (Some p) -> Spec.characterizes H W p cells.
Proof.
  rewrite tryHorizontalLine_head.
  destruct (Z.eqb_spec (len cells) W) as [Hlen | _]; [| discriminate]. simpl.
  destruct (head cells) as [c0 |] eqn:Ehead; [| discriminate].
  destruct (forallb _ cells) eqn:Hall; [| discriminate].
  simpl. intros [= <-].
  rewrite forallb_elem_of in Hall.
  assert (Hc0 : c0 ∈ cells) by (apply head_elem_of_list; exact Ehead).
  pose proof (inBounds_of_elem _ Hc0) as [Hrow0 _].
  exists (Spec.lineExpr "r" (GridCoord.row c0) H "H").
  split; [simpl; rewrite show_paramExpr; reflexivity |].
  split; [apply parsesAs_compare; simpl; lia |].
  intros r c Hr Hc.
  assert (Hex := exact_by_count
                   (map (fun i => GridCoord.mk (GridCoord.row c0) i) (JS.range 0 W))).
  rewrite Hex.
  - rewrite elem_of_image. unfold Cxx.holds, Spec.lineExpr, Spec.eqE.
    rewrite (holds_compare _ Cxx.Eq _ _ r (GridCoord.row c0));
      [| reflexivity | apply (eval_paramExpr_H (Cxx.mkEnv r c H W)); simpl; lia].
    destruct (Z.eqb_spec r (GridCoord.row c0)) as [-> | Hne]; simpl; split; intros Hh;
      try discriminate; try reflexivity.
    + exists c. split; [lia | reflexivity].
    + destruct Hh as (i & _ & Hxi). injection Hxi as Hri Hci. lia.
  - intros [r' c'] Hx. apply elem_of_image.
    pose proof (inBounds_of_elem _ Hx) as [Hr' Hc']. simpl in *.
    specialize (Hall _ Hx). simpl in Hall. apply Z.eqb_eq in Hall. subst r'.
    exists c'. split; [lia | reflexivity].
  - rewrite length_image by lia. exact Hlen.
Qed.

(** Vertical line: a match means one whole column is listed. *)
Lemma tryVerticalLine_exact (p : Predicate.t) :
  tryVerticalLine H W cells char = JS.Ok (Some p) -> Spec.characterizes H W p cells.
Proof.
  rewrite tryVerticalLine_head.
  destruct (Z.eqb_spec (len cells) H) as [Hlen | _]; [| discriminate]. simpl.
  destruct (head cells) as [c0 |] eqn:Ehead; [| discriminate].
  destruct (forallb _ cells) eqn:Hall; [| discriminate].
  simpl. intros [= <-].
  rewrite forallb_elem_of in Hall.
  assert (Hc0 : c0 ∈ cells) by (apply head_elem_of_list; exact Ehead).
  pose proof (inBounds_of_elem _ Hc0) as [_ Hcol0].
  exists (Spec.lineExpr "c" (GridCoord.col c0) W "W").
  split; [simpl; rewrite show_paramExpr; reflexivity |].
  split; [apply parsesAs_compare; simpl; lia |].
  intros r c Hr Hc.
  assert (Hex := exact_by_count
                   (map (fun i => GridCoord.mk i (GridCoord.col c0)) (JS.range 0 H))).
  rewrite Hex.
  - rewrite elem_of_image. unfold Cxx.holds, Spec.lineExpr, Spec.eqE.
    rewrite (holds_compare _ Cxx.Eq _ _ c (GridCoord.col c0));
      [| reflexivity | apply (eval_paramExpr_W (Cxx.mkEnv r c H W)); simpl; lia].
    destruct (Z.eqb_spec c (GridCoord.col c0)) as [-> | Hne]; simpl; split; intros Hh;
      try discriminate; try reflexivity.
    + exists r. split; [lia | reflexivity].
    + destruct Hh as (i & _ & Hxi). injection Hxi as Hri Hci. lia.
  - intros [r' c'] Hx. apply elem_of_image.
    pose proof (inBounds_of_elem _ Hx) as [Hr' Hc']. simpl in *.
    specialize (Hall _ Hx). simpl in Hall. apply Z.eqb_eq in Hall. subst c'.
    exists r'. split; [lia | reflexivity].
  - rewrite length_image by lia. exact Hlen.
Qed.

Lemma show_rectExpr (minR maxR minC maxC : Z) :
  Cxx.show (Spec.rectExpr minR maxR minC maxC H W) =
  "r >= " +:+ parameterizeValue minR H "H" +:+
  " && r < " +:+ parameterizeValue (maxR + 1) H "H" +:+
  " && c >= " +:+ parameterizeValue minC W "W" +:+
  " && c < " +:+ parameterizeValue (maxC + 1) W "W".
Proof.
  unfold Spec.rectExpr, Cxx.chain. cbn [foldl Cxx.show].
  rewrite !show_paramExpr.
  change (Cxx.opLayout Cxx.And Cxx.Spaced) with " && ".
  change (Cxx.opLayout Cxx.Ge Cxx.Spaced) with " >= ".
  change (Cxx.opLayout Cxx.Lt Cxx.Spaced) with " < ".
  rewrite !append_assoc. reflexivity.
Qed.

(** Filled rectangle: a match means the listed cells are exactly those
    of their bounding box. *)
Lemma tryFilledRectangle_exact (p : Predicate.t) :
  tryFilledRectangle H W cells char = Some p -> Spec.characterizes H W p cells.
Proof.
  rewrite tryFilledRectangle_head.
  destruct (head cells) as [c0 |] eqn:Ehead; [| discriminate].
  unfold Spec.boundingBox.
  set (minR := foldl (fun m cell => Z.min m (GridCoord.row cell)) (GridCoord.row c0) cells).
  set (maxR := foldl (fun m cell => Z.max m (GridCoord.row cell)) (GridCoord.row c0) cells).
  set (minC := foldl (fun m cell => Z.min m (GridCoord.col cell)) (GridCoord.col c0) cells).
  set (maxC := foldl (fun m cell => Z.max m (GridCoord.col cell)) (GridCoord.col c0) cells).
  destruct (negb (len cells =? _)); [discriminate |].
  destruct (forallb _ (JS.range minR (maxR + 1))) eqn:Hall; [| discriminate].
  simpl. intros [= <-].
  assert (Hc0 : c0 ∈ cells) by (apply head_elem_of_list; exact Ehead).
  pose proof (inBounds_of_elem _ Hc0) as [Hrow0 Hcol0].
  destruct (foldl_min_bounds GridCoord.row cells (GridCoord.row c0) 0) as (HminR1 & HminR2 & HminR3).
  destruct (foldl_max_bounds GridCoord.row cells (GridCoord.row c0) 0) as (HmaxR1 & HmaxR2 & _).
  destruct (foldl_min_bounds GridCoord.col cells (GridCoord.col c0) 0) as (HminC1 & HminC2 & HminC3).
  destruct (foldl_max_bounds GridCoord.col cells (GridCoord.col c0) 0) as (HmaxC1 & HmaxC2 & _).
  fold minR in HminR1, HminR2, HminR3. fold maxR in HmaxR1, HmaxR2.
  fold minC in HminC1, HminC2, HminC3. fold maxC in HmaxC1, HmaxC2.
  assert (HminR0 : 0 <= minR).
  { apply HminR3; [lia |]. intros x Hx. apply (inBounds_of_elem _ Hx). }
  assert (HminC0 : 0 <= minC).
  { apply HminC3; [lia |]. intros x Hx. apply (inBounds_of_elem _ Hx). }
  exists (Spec.rectExpr minR maxR minC maxC H W).
  split; [apply show_rectExpr |].
  split.
  { unfold Spec.rectExpr, Cxx.chain. cbn [foldl].
    cbn [Cxx.parsesAs]. rewrite !parsesAs_paramExpr by lia.
    pose proof (level_paramExpr minR H "H").
    pose proof (level_paramExpr (maxR + 1) H "H").
    pose proof (level_paramExpr minC W "W").
    pose proof (level_paramExpr (maxC + 1) W "W").
    cbn [Cxx.level Cxx.prec]. rewrite !andb_true_r.
    repeat (apply andb_true_intro; split);
      try (apply Nat.leb_le; lia); try (apply Nat.ltb_lt; lia). }
  intros r c Hr Hc.
  set (rho := Cxx.mkEnv r c H W).
  assert (HevH : forall v, Cxx.eval rho (Spec.paramExpr v H "H") = Some v)
    by (intros v; apply (eval_paramExpr_H rho); simpl; lia).
  assert (HevW : forall v, Cxx.eval rho (Spec.paramExpr v W "W") = Some v)
    by (intros v; apply (eval_paramExpr_W rho); simpl; lia).
  rewrite (holds_ofBool rho _ ((r >=? minR) && (r <? maxR + 1) && (c >=? minC) && (c <? maxC + 1))).
  2:{ unfold Spec.rectExpr, Cxx.chain. cbn [foldl].
      repeat apply eval_and.
      - rewrite (holds_compare rho Cxx.Ge _ _ r minR); [reflexivity | reflexivity | apply HevH].
      - rewrite (holds_compare rho Cxx.Lt _ _ r (maxR + 1)); [reflexivity | reflexivity | apply HevH].
      - rewrite (holds_compare rho Cxx.Ge _ _ c minC); [reflexivity | reflexivity | apply HevW].
      - rewrite (holds_compare rho Cxx.Lt _ _ c (maxC + 1)); [reflexivity | reflexivity | apply HevW]. }
  rewrite !andb_true_iff, Z.geb_le, !Z.ltb_lt, Z.geb_le.
  split.
  - intros (((H1 & H2) & H3) & H4).
    rewrite forallb_elem_of in Hall.
    assert (Hrow : r ∈ JS.range minR (maxR + 1)) by (apply elem_of_range; lia).
    specialize (Hall r Hrow). rewrite forallb_elem_of in Hall.
    assert (Hcol : c ∈ JS.range minC (maxC + 1)) by (apply elem_of_range; lia).
    specialize (Hall c Hcol). apply bool_decide_eq_true in Hall.
    apply elem_of_cellSet. exact Hall.
  - intros Hx. specialize (HminR2 _ Hx). specialize (HmaxR2 _ Hx).
    specialize (HminC2 _ Hx). specialize (HmaxC2 _ Hx). simpl in *. lia.
Qed.

Lemma elem_of_expectedBorder (r c : Z) :
  coordKey r c ∈ expectedBorder H W <->
  ((r = 0 \/ r = H - 1) /\ 0 <= c < W) \/ ((c = 0 \/ c = W - 1) /\ 1 <= r < H - 1).
Proof.
  unfold expectedBorder. rewrite !elem_of_foldl_two. split.
  - intros [[Hempty | (x & Hx & Hk)] | (x & Hx & Hk)].
    + exfalso. exact (not_elem_of_empty _ Hempty).
    + apply elem_of_range in Hx. left.
      destruct Hk as [Hk | Hk]; apply coordKey_inj in Hk as [-> ->]; lia.
    + apply elem_of_range in Hx. right.
      destruct Hk as [Hk | Hk]; apply coordKey_inj in Hk as [-> ->]; lia.
  - intros [[Hrow Hcol] | [Hcol Hrow]].
    + left. right. exists c. split; [apply elem_of_range; lia |].
      destruct Hrow as [-> | ->]; auto.
    + right. exists r. split; [apply elem_of_range; lia |].
      destruct Hcol as [-> | ->]; auto.
Qed.

(** Border: a match means the listed cells are exactly the outline. *)
Lemma tryBorder_exact (p : Predicate.t) :
  tryBorder H W cells char = Some p -> Spec.characterizes H W p cells.
Proof.
  unfold tryBorder.
  destruct (Nat.eqb_spec (size (list_to_set (map cellKey cells) : gset string))
                         (size (expectedBorder H W))) as [Hsize | _]; [| discriminate].
  destruct (forallb _ (elements (expectedBorder H W))) eqn:Hall; [| discriminate].
  simpl. intros [= <-].
  assert (Hsets : expectedBorder H W = list_to_set (map cellKey cells)).
  { apply set_subseteq_size_eq; [| lia].
    intros key Hkey. rewrite forallb_elem_of in Hall.
    apply elem_of_elements in Hkey. specialize (Hall key Hkey).
    apply bool_decide_eq_true in Hall. exact Hall. }
  exists Spec.borderExpr. split; [reflexivity |]. split; [reflexivity |].
  intros r c Hr Hc.
  rewrite <- elem_of_cellSet, <- Hsets, elem_of_expectedBorder.
  unfold Cxx.holds. simpl.
  destruct (Z.eqb_spec r 0); destruct (Z.eqb_spec r (H - 1));
    destruct (Z.eqb_spec c 0); destruct (Z.eqb_spec c (W - 1)); simpl;
    split; intros Hh; try reflexivity; try discriminate; lia.
Qed.

End ExactTesters.

(* ------------------------------------------------------------------ *)
(** ** The grouping of the grid and the analysis of its entries *)
(* ------------------------------------------------------------------ *)

Section Grouping.
Import PatternAnalyzer.

Variable g : Grid.t.

Lemma String_eqb_eq (x y : string) : String.eqb x y = true <-> x = y.
Proof. apply String.eqb_eq. Qed.

Lemma scan_rows (step : list (string * list GridCoord.t) -> GridCoord.t ->
                        list (string * list GridCoord.t))
    (w : Z) (rows : list Z) (acc : list (string * list GridCoord.t)) :
  foldl (fun acc r => foldl (fun acc c => step acc (GridCoord.mk r c)) acc (JS.range 0 w))
        acc rows =
  foldl step acc (flat_map (fun r => map (fun c => GridCoord.mk r c) (JS.range 0 w)) rows).
Proof.
  revert acc. induction rows as [| r rows IH]; intros acc; simpl; [reflexivity |].
  rewrite foldl_app, foldl_fmap. apply IH.
Qed.

Lemma scan_pairs (cells : list GridCoord.t) (acc : list (string * list GridCoord.t)) :
  foldl (fun acc cell =>
           match Spec.symbolAt g cell with
           | Some ch => map_push String.eqb ch cell acc
           | None => acc
           end) acc cells =
  foldl (fun table kv => map_push String.eqb (fst kv) (snd kv) table) acc
        (flat_map (Spec.pairOf g) cells).
Proof.
  revert acc. induction cells as [| cell cells IH]; intros acc; simpl; [reflexivity |].
  rewrite foldl_app, IH. unfold Spec.pairOf at 2.
  destruct (Spec.symbolAt g cell); reflexivity.
Qed.

(** [getCellsByChar] lists, for each distinct symbol in scan order, the
    cells holding it in scan order. *)
Lemma getCellsByChar_table :
  Grid.getCellsByChar g =
  map (fun ch => (ch, Spec.valuesOf String.eqb (Spec.occupiedPairs g) ch))
      (Spec.distinct String.eqb (map fst (Spec.occupiedPairs g))).
Proof.
  unfold Grid.getCellsByChar.
  rewrite (scan_rows (fun acc cell =>
             match Spec.symbolAt g cell with
             | Some ch => map_push String.eqb ch cell acc
             | None => acc
             end)).
  fold (Spec.allCells (Grid.rows g) (Grid.cols g)).
  rewrite scan_pairs. apply (push_all_table String.eqb String_eqb_eq).
Qed.

Lemma elem_of_occupiedPairs (ch : string) (cell : GridCoord.t) :
  (ch, cell) ∈ Spec.occupiedPairs g <->
  Spec.inBounds (Grid.rows g) (Grid.cols g) cell /\ Spec.symbolAt g cell = Some ch.
Proof.
  unfold Spec.occupiedPairs. rewrite list_elem_of_In, in_flat_map. split.
  - intros (x & Hx & Hin). apply list_elem_of_In in Hx.
    unfold Spec.pairOf in Hin. destruct (Spec.symbolAt g x) as [ch' |] eqn:E; [| inversion Hin].
    destruct Hin as [[= <- <-] | []]. split; [| exact E].
    destruct x as [r c]. apply elem_of_allCells in Hx. exact Hx.
  - intros [Hb Hs]. exists cell. split.
    + apply list_elem_of_In. destruct cell as [r c]. apply elem_of_allCells. exact Hb.
    + unfold Spec.pairOf. rewrite Hs. left. reflexivity.
Qed.

Lemma NoDup_allCells (h w : Z) : NoDup (Spec.allCells h w).
Proof.
  unfold Spec.allCells.
  assert (Hgen : forall rows, NoDup rows ->
            NoDup (flat_map (fun r => map (fun c => GridCoord.mk r c) (JS.range 0 w)) rows)).
  { induction rows as [| r rows IH]; intros Hnd; simpl; [constructor |].
    apply NoDup_cons in Hnd as [Hr Hnd]. apply NoDup_app. split; [| split].
    - apply NoDup_fmap_2_strong; [| apply NoDup_range]. intros a b _ _ [= ->]. reflexivity.
    - intros x Hx Hin. apply list_elem_of_fmap in Hx as (c & -> & _).
      apply list_elem_of_In, in_flat_map in Hin as (r' & Hr' & Hin).
      apply list_elem_of_In in Hr', Hin.
      apply list_elem_of_fmap in Hin as (c' & [= -> ->] & _). contradiction.
    - apply IH. exact Hnd. }
  apply Hgen. apply NoDup_range.
Qed.

Lemma NoDup_occupied_cells : NoDup (map snd (Spec.occupiedPairs g)).
Proof.
  unfold Spec.occupiedPairs.
  generalize (NoDup_allCells (Grid.rows g) (Grid.cols g)).
  generalize (Spec.allCells (Grid.rows g) (Grid.cols g)) as cells.
  induction cells as [| cell cells IH]; intros Hnd; simpl; [constructor |].
  apply NoDup_cons in Hnd as [Hcell Hnd]. rewrite map_app.
  unfold Spec.pairOf at 1. destruct (Spec.symbolAt g cell); simpl; [| apply IH; exact Hnd].
  constructor; [| apply IH; exact Hnd].
  intros Hin. apply Hcell. apply list_elem_of_fmap in Hin as ([ch x] & -> & Hin).
  simpl. apply list_elem_of_In, in_flat_map in Hin as (y & Hy & Hin).
  unfold Spec.pairOf in Hin. destruct (Spec.symbolAt g y); [| inversion Hin].
  destruct Hin as [[= _ <-] | []]. apply list_elem_of_In. exact Hy.
Qed.

Lemma NoDup_valuesOf (kvs : list (string * GridCoord.t)) (ch : string) :
  NoDup (map snd kvs) -> NoDup (Spec.valuesOf String.eqb kvs ch).
Proof.
  unfold Spec.valuesOf. induction kvs as [| kv kvs IH]; simpl; intros Hnd; [constructor |].
  apply NoDup_cons in Hnd as [Hkv Hnd].
  destruct (String.eqb (fst kv) ch); simpl; [| apply IH; exact Hnd].
  constructor; [| apply IH; exact Hnd].
  intros Hin. apply Hkv. apply list_elem_of_fmap in Hin as (kv' & -> & Hin).
  apply list_elem_of_fmap. exists kv'. split; [reflexivity |].
  apply list_elem_of_In, filter_In in Hin as [Hin _]. apply list_elem_of_In. exact Hin.
Qed.

(** The cells an entry of the grouping lists. *)
Lemma getCellsByChar_entry (ch : string) (cells : list GridCoord.t) :
  (ch, cells) ∈ Grid.getCellsByChar g ->
  NoDup cells /\
  Forall (Spec.inBounds (Grid.rows g) (Grid.cols g)) cells /\
  (forall cell, cell ∈ cells <->
     Spec.inBounds (Grid.rows g) (Grid.cols g) cell /\ Spec.symbolAt g cell = Some ch) /\
  map_get String.eqb ch (Grid.getCellsByChar g) = Some cells.
Proof.
  rewrite getCellsByChar_table. intros Hin.
  apply list_elem_of_fmap in Hin as (ch' & [= -> ->] & Hkey).
  assert (Hmem : forall cell, cell ∈ Spec.valuesOf String.eqb (Spec.occupiedPairs g) ch' <->
            Spec.inBounds (Grid.rows g) (Grid.cols g) cell /\ Spec.symbolAt g cell = Some ch').
  { intros cell. rewrite (elem_of_valuesOf String.eqb String_eqb_eq).
    apply elem_of_occupiedPairs. }
  split; [apply NoDup_valuesOf, NoDup_occupied_cells |].
  split; [apply Forall_forall; intros cell Hc; apply Hmem in Hc; tauto |].
  split; [exact Hmem |].
  rewrite (map_get_table String.eqb String_eqb_eq).
  destruct (decide (ch' ∈ Spec.distinct String.eqb (map fst (Spec.occupiedPairs g))));
    [reflexivity | contradiction].
Qed.


Lemma getCellsByChar_keys_NoDup : NoDup (map fst (Grid.getCellsByChar g)).
Proof.
  rewrite getCellsByChar_table, map_map. simpl. rewrite map_id.
  apply (distinct_NoDup String.eqb String_eqb_eq).
Qed.

End Grouping.

Section Analysis.
Import PatternAnalyzer.

Variables H W : Z.
Hypothesis H_pos : 0 < H.
Hypothesis W_pos : 0 < W.


End Analysis.


Section Classification.
Import PatternAnalyzer.

Ltac tester_tag Hp :=
  repeat (case_match; try discriminate);
  first [injection Hp as <- | idtac]; simpl; auto.

Lemma tryFill_tag (H W : Z) cells ch p :
  tryFill H W cells ch = Some p ->
  Predicate.char p = ch /\ Predicate.type p = "filled_rect".
Proof. intros Hp. unfold tryFill in Hp. tester_tag Hp. Qed.

Lemma tryBorder_tag (H W : Z) cells ch p :
  tryBorder H W cells ch = Some p ->
  Predicate.char p = ch /\ Predicate.type p = "border".
Proof. intros Hp. unfold tryBorder in Hp. tester_tag Hp. Qed.

Lemma tryDiagonal_tag (H W : Z) cells ch p :
  tryDiagonal H W cells ch = Some p ->
  Predicate.char p = ch /\ Predicate.type p = "diagonal".
Proof. intros Hp. unfold tryDiagonal in Hp. tester_tag Hp. Qed.

Lemma tryAntiDiagonal_tag (H W : Z) cells ch p :
  tryAntiDiagonal H W cells ch = Some p ->
  Predicate.char p = ch /\ Predicate.type p = "anti_diagonal".
Proof. intros Hp. unfold tryAntiDiagonal in Hp. tester_tag Hp. Qed.

Lemma tryHorizontalLine_tag (H W : Z) cells ch p :
  tryHorizontalLine H W cells ch = JS.Ok (Some p) ->
  Predicate.char p = ch /\ Predicate.type p = "horizontal_line".
Proof. intros Hp. unfold tryHorizontalLine in Hp. tester_tag Hp. Qed.

Lemma tryVerticalLine_tag (H W : Z) cells ch p :
  tryVerticalLine H W cells ch = JS.Ok (Some p) ->
  Predicate.char p = ch /\ Predicate.type p = "vertical_line".
Proof. intros Hp. unfold tryVerticalLine in Hp. tester_tag Hp. Qed.

Lemma tryFilledRectangle_tag (H W : Z) cells ch p :
  tryFilledRectangle H W cells ch = Some p ->
  Predicate.char p = ch /\ Predicate.type p = "filled_rect".
Proof. intros Hp. unfold tryFilledRectangle in Hp. tester_tag Hp. Qed.

Lemma tryCheckerboard_tag (H W : Z) cells ch p :
  tryCheckerboard H W cells ch = Some p ->
  Predicate.char p = ch /\ Predicate.type p = "checkerboard".
Proof. intros Hp. unfold tryCheckerboard in Hp. tester_tag Hp. Qed.


(** X1. Every geometric tester other than the checkerboard matches only
    the exact set of cells its expression characterizes: for in-bounds,
    pairwise distinct cells on a grid of positive dimensions (up to
    2^26, so that the numbers of the tester and the [int]s of the
    emitted condition are the integers of the model), a match of fill,
    border, diagonal, anti-diagonal, horizontal line, vertical line or
    filled rectangle returns an expression that holds at a cell of the
    grid exactly when the cell is listed. *)
Lemma testers_other_than_checkerboard_exact (H W : Z) (cells : list GridCoord.t)
    (ch : string) (p : Predicate.t) :
  0 < H <= Spec.maxDim -> 0 < W <= Spec.maxDim ->
  Forall (Spec.inBounds H W) cells -> NoDup cells ->
  tryFill H W cells ch = Some p \/ tryBorder H W cells ch = Some p \/
  tryDiagonal H W cells ch = Some p \/ tryAntiDiagonal H W cells ch = Some p \/
  tryHorizontalLine H W cells ch = JS.Ok (Some p) \/
  tryVerticalLine H W cells ch = JS.Ok (Some p) \/
  tryFilledRectangle H W cells ch = Some p ->
  Spec.characterizes H W p cells.
Proof.
  intros [HH _] [HW _] Hin Hnd [Hp | [Hp | [Hp | [Hp | [Hp | [Hp | Hp]]]]]].
  - eapply tryFill_exact; eauto.
  - eapply tryBorder_exact; eauto.
  - eapply tryDiagonal_exact; eauto.
  - eapply tryAntiDiagonal_exact; eauto.
  - eapply tryHorizontalLine_exact; eauto.
  - eapply tryVerticalLine_exact; eauto.
  - eapply tryFilledRectangle_exact; eauto.
Qed.

End Classification.

(* ------------------------------------------------------------------ *)
(** ** The expanded coordinate sets *)
(* ------------------------------------------------------------------ *)

Section CoordinateExpr.
Import PatternAnalyzer CodeGenerator.

Lemma append_nil_r (s : string) : s +:+ "" = s.
Proof.
  induction s as [| ch s IH]; [reflexivity |].
  change (String ch (s +:+ "") = String ch s). f_equal. exact IH.
Qed.

Lemma join_cons (a : string) (l : list string) (sep : string) :
  JS.join (a :: l) sep = a +:+ Spec.tailText sep l.
Proof.
  revert a. induction l as [| x l IH]; intros a.
  - simpl. rewrite append_nil_r. reflexivity.
  - change (JS.join (a :: x :: l) sep) with (a +:+ sep +:+ JS.join (x :: l) sep).
    rewrite IH. reflexivity.
Qed.

Lemma show_chain (op : Cxx.binop) (l : Cxx.layout) (first : Cxx.expr) (rest : list Cxx.expr) :
  Cxx.show (Cxx.chain op l first rest) =
  Cxx.show first +:+ Spec.tailText (Cxx.opLayout op l) (map Cxx.show rest).
Proof.
  revert first. induction rest as [| x rest IH]; intros first.
  - simpl. rewrite append_nil_r. reflexivity.
  - change (Cxx.chain op l first (x :: rest)) with (Cxx.chain op l (Cxx.Bin op l first x) rest).
    rewrite IH. cbn [Cxx.show map Spec.tailText].
    rewrite !append_assoc. reflexivity.
Qed.

Lemma show_disjunction (l : Cxx.layout) (terms : list Cxx.expr) :
  terms <> [] ->
  Cxx.show (Spec.disjunction l terms) = JS.join (map Cxx.show terms) (Cxx.opLayout Cxx.Or l).
Proof.
  destruct terms as [| t ts]; [congruence |]. intros _.
  unfold Spec.disjunction. rewrite show_chain. simpl map. rewrite join_cons. reflexivity.
Qed.

Lemma parsesAs_chain_or (l : Cxx.layout) (first : Cxx.expr) (rest : list Cxx.expr) :
  (1 <= Cxx.level first)%nat -> Cxx.parsesAs first = true ->
  Forall (fun x => (1 < Cxx.level x)%nat /\ Cxx.parsesAs x = true) rest ->
  Cxx.parsesAs (Cxx.chain Cxx.Or l first rest) = true.
Proof.
  revert first. induction rest as [| x rest IH]; intros first Hl Hp Hall; [exact Hp |].
  apply Forall_cons in Hall as [[Hlx Hpx] Hall].
  change (Cxx.chain Cxx.Or l first (x :: rest))
    with (Cxx.chain Cxx.Or l (Cxx.Bin Cxx.Or l first x) rest).
  apply IH; [simpl; lia | | exact Hall].
  cbn [Cxx.parsesAs Cxx.prec]. rewrite Hp, Hpx, !andb_true_r.
  apply andb_true_intro. split; [apply Nat.leb_le | apply Nat.ltb_lt]; lia.
Qed.

Lemma parsesAs_disjunction (l : Cxx.layout) (terms : list Cxx.expr) :
  Forall (fun x => (1 < Cxx.level x)%nat /\ Cxx.parsesAs x = true) terms ->
  Cxx.parsesAs (Spec.disjunction l terms) = true.
Proof.
  destruct terms as [| t ts]; [reflexivity |]. intros Hall.
  apply Forall_cons in Hall as [[Hl Hp] Hall].
  apply parsesAs_chain_or; [lia | exact Hp | exact Hall].
Qed.

Lemma eval_chain_or (rho : Cxx.env) (l : Cxx.layout) (f : Cxx.expr -> bool)
    (first : Cxx.expr) (rest : list Cxx.expr) (b : bool) :
  Cxx.eval rho first = Some (Cxx.ofBool b) ->
  Forall (fun x => Cxx.eval rho x = Some (Cxx.ofBool (f x))) rest ->
  Cxx.eval rho (Cxx.chain Cxx.Or l first rest) = Some (Cxx.ofBool (b || existsb f rest)).
Proof.
  revert first b. induction rest as [| x rest IH]; intros first b Hfirst Hall.
  - simpl. rewrite orb_false_r. exact Hfirst.
  - apply Forall_cons in Hall as [Hx Hall].
    change (Cxx.chain Cxx.Or l first (x :: rest))
      with (Cxx.chain Cxx.Or l (Cxx.Bin Cxx.Or l first x) rest).
    rewrite (IH _ (b || f x)); [| apply eval_or; assumption | exact Hall].
    simpl. rewrite orb_assoc. reflexivity.
Qed.

Lemma eval_disjunction (rho : Cxx.env) (l : Cxx.layout) (f : Cxx.expr -> bool)
    (terms : list Cxx.expr) :
  Forall (fun x => Cxx.eval rho x = Some (Cxx.ofBool (f x))) terms ->
  Cxx.eval rho (Spec.disjunction l terms) = Some (Cxx.ofBool (existsb f terms)).
Proof.
  destruct terms as [| t ts]; [reflexivity |]. intros Hall.
  apply Forall_cons in Hall as [Ht Hall].
  unfold Spec.disjunction. apply eval_chain_or; assumption.
Qed.

Lemma existsb_map {A B} (f : B -> bool) (g : A -> B) (l : list A) :
  existsb f (map g l) = existsb (fun x => f (g x)) l.
Proof. induction l as [| x l IH]; simpl; [reflexivity |]. rewrite IH. reflexivity. Qed.

Lemma existsb_ext {A} (f g : A -> bool) (l : list A) :
  (forall x, f x = g x) -> existsb f l = existsb g l.
Proof.
  intros Hfg. induction l as [| x l IH]; simpl; [reflexivity |].
  rewrite IH, Hfg. reflexivity.
Qed.

Lemma eval_litEq_r (rho : Cxx.env) (v : Z) :
  Cxx.eval rho (Spec.litEq "r" v) = Some (Cxx.ofBool (Cxx.r rho =? v)).
Proof. reflexivity. Qed.

Lemma eval_litEq_c (rho : Cxx.env) (v : Z) :
  Cxx.eval rho (Spec.litEq "c" v) = Some (Cxx.ofBool (Cxx.c rho =? v)).
Proof. reflexivity. Qed.

Lemma eval_cellTerm (rho : Cxx.env) (cell : GridCoord.t) :
  Cxx.eval rho (Spec.cellTerm cell) =
  Some (Cxx.ofBool ((Cxx.r rho =? GridCoord.row cell) && (Cxx.c rho =? GridCoord.col cell))).
Proof.
  unfold Spec.cellTerm. cbn [Cxx.eval].
  apply eval_and; [apply eval_litEq_r | apply eval_litEq_c].
Qed.

Lemma show_cellTerm (cell : GridCoord.t) :
  Cxx.show (Spec.cellTerm cell) = cellCondition cell.
Proof.
  unfold Spec.cellTerm, Spec.litEq, cellCondition. cbn [Cxx.show].
  change (Cxx.opLayout Cxx.And Cxx.Spaced) with " && ".
  change (Cxx.opLayout Cxx.Eq Cxx.Tight) with "==".
  rewrite !append_assoc. reflexivity.
Qed.

Lemma parsesAs_cellTerm (cell : GridCoord.t) :
  0 <= GridCoord.row cell -> 0 <= GridCoord.col cell ->
  Cxx.parsesAs (Spec.cellTerm cell) = true.
Proof.
  intros Hr Hc. unfold Spec.cellTerm, Spec.litEq. simpl.
  apply Z.leb_le in Hr, Hc. rewrite Hr, Hc. reflexivity.
Qed.

Lemma show_litEq_c (col : Z) : Cxx.show (Spec.litEq "c" col) = "c==" +:+ JS.toString col.
Proof. reflexivity. Qed.

Lemma show_rowExpr (cells : list GridCoord.t) (row : Z) :
  Spec.columnsOf cells row <> [] ->
  Cxx.show (Spec.rowExpr cells row) = Spec.rowClause cells row.
Proof.
  unfold Spec.rowExpr, Spec.rowClause.
  destruct (Spec.columnsOf cells row) as [| c0 [| c1 cols]]; [congruence | |]; intros _.
  - rewrite show_cellTerm. reflexivity.
  - cbn [Cxx.show]. rewrite show_disjunction by discriminate.
    rewrite map_map. rewrite (map_ext _ _ show_litEq_c).
    unfold Spec.litEq. cbn [Cxx.show].
    change (Cxx.opLayout Cxx.And Cxx.Spaced) with " && ".
    change (Cxx.opLayout Cxx.Eq Cxx.Tight) with "==".
    change (Cxx.opLayout Cxx.Or Cxx.Spaced) with " || ".
    rewrite !append_assoc. reflexivity.
Qed.

Lemma eval_columns (rho : Cxx.env) (cols : list Z) :
  Cxx.eval rho (Spec.disjunction Cxx.Spaced (map (Spec.litEq "c") cols)) =
  Some (Cxx.ofBool (existsb (fun col => Cxx.c rho =? col) cols)).
Proof.
  rewrite (eval_disjunction rho _ (Cxx.holds rho)).
  - rewrite existsb_map. do 2 f_equal. apply existsb_ext. intros col.
    apply holds_ofBool. apply eval_litEq_c.
  - apply Forall_forall. intros x Hx. apply list_elem_of_fmap in Hx as (col & -> & _).
    rewrite eval_litEq_c. f_equal. f_equal. symmetry. apply holds_ofBool. apply eval_litEq_c.
Qed.

Lemma eval_rowExpr (rho : Cxx.env) (cells : list GridCoord.t) (row : Z) :
  Cxx.eval rho (Spec.rowExpr cells row) =
  Some (Cxx.ofBool ((Cxx.r rho =? row) &&
                    existsb (fun col => Cxx.c rho =? col) (Spec.columnsOf cells row))).
Proof.
  unfold Spec.rowExpr.
  destruct (Spec.columnsOf cells row) as [| c0 [| c1 cols]].
  - cbn [Cxx.eval]. apply eval_and; [apply eval_litEq_r | reflexivity].
  - rewrite eval_cellTerm. simpl. rewrite orb_false_r. reflexivity.
  - cbn [Cxx.eval]. apply eval_and; [apply eval_litEq_r |].
    cbn [Cxx.eval]. apply eval_columns.
Qed.

Lemma parsesAs_rowExpr (cells : list GridCoord.t) (row : Z) :
  0 <= row -> Forall (fun col => 0 <= col) (Spec.columnsOf cells row) ->
  Cxx.parsesAs (Spec.rowExpr cells row) = true.
Proof.
  intros Hrow Hcols. unfold Spec.rowExpr.
  destruct (Spec.columnsOf cells row) as [| c0 [| c1 cols]] eqn:E.
  - simpl. apply Z.leb_le in Hrow. rewrite Hrow. reflexivity.
  - apply parsesAs_cellTerm; simpl; [exact Hrow |].
    apply Forall_cons in Hcols as [Hc0 _]. exact Hc0.
  - cbn [Cxx.parsesAs]. rewrite parsesAs_disjunction.
    + simpl. apply Z.leb_le in Hrow. rewrite Hrow. reflexivity.
    + apply Forall_forall. intros x Hx. apply list_elem_of_fmap in Hx as (col & -> & Hcol).
      rewrite Forall_forall in Hcols. specialize (Hcols col Hcol).
      simpl. split; [lia |]. apply Z.leb_le in Hcols. rewrite Hcols. reflexivity.
Qed.

Lemma level_rowExpr (cells : list GridCoord.t) (row : Z) :
  Cxx.level (Spec.rowExpr cells row) = 7%nat.
Proof.
  unfold Spec.rowExpr. destruct (Spec.columnsOf cells row) as [| c0 [| c1 cols]]; reflexivity.
Qed.

Lemma elem_of_columnsOf (cells : list GridCoord.t) (row col : Z) :
  col ∈ Spec.columnsOf cells row <-> GridCoord.mk row col ∈ cells.
Proof.
  unfold Spec.columnsOf. rewrite list_elem_of_fmap. split.
  - intros ([r c] & -> & Hin). apply list_elem_of_In, filter_In in Hin as [Hin Hr].
    simpl in *. apply Z.eqb_eq in Hr. subst r. apply list_elem_of_In. exact Hin.
  - intros Hin. exists (GridCoord.mk row col). split; [reflexivity |].
    apply list_elem_of_In, filter_In. split; [apply list_elem_of_In; exact Hin |].
    simpl. apply Z.eqb_refl.
Qed.

Lemma existsb_elem_of {A} (f : A -> bool) (l : list A) :
  existsb f l = true <-> exists x, x ∈ l /\ f x = true.
Proof.
  rewrite existsb_exists. split; intros (x & Hx & Hf); exists x; split; auto;
    apply list_elem_of_In; exact Hx.
Qed.

(** The flat disjunction holds exactly at the listed cells. *)
Lemma holds_flat (rho : Cxx.env) (l : Cxx.layout) (cells : list GridCoord.t) :
  Cxx.holds rho (Spec.disjunction l (map Spec.cellTerm cells)) = true <->
  GridCoord.mk (Cxx.r rho) (Cxx.c rho) ∈ cells.
Proof.
  rewrite (holds_ofBool rho _ (existsb (Cxx.holds rho) (map Spec.cellTerm cells))).
  - rewrite existsb_map, existsb_elem_of. split.
    + intros ([row col] & Hin & Hh).
      rewrite (holds_ofBool rho _ _ (eval_cellTerm rho _)) in Hh. simpl in Hh.
      apply andb_prop in Hh as [Hr Hc]. apply Z.eqb_eq in Hr, Hc. rewrite Hr, Hc. exact Hin.
    + intros Hin. exists (GridCoord.mk (Cxx.r rho) (Cxx.c rho)). split; [exact Hin |].
      rewrite (holds_ofBool rho _ _ (eval_cellTerm rho _)). simpl.
      rewrite !Z.eqb_refl. reflexivity.
  - apply eval_disjunction. apply Forall_forall. intros x Hx.
    apply list_elem_of_fmap in Hx as (cell & -> & _).
    rewrite eval_cellTerm. do 2 f_equal. symmetry. apply holds_ofBool, eval_cellTerm.
Qed.

(** The row-grouped disjunction holds exactly at the listed cells. *)
Lemma holds_grouped (rho : Cxx.env) (cells : list GridCoord.t) :
  Cxx.holds rho (Spec.disjunction Cxx.Wrapped
                   (map (Spec.rowExpr cells) (Spec.distinctRows cells))) = true <->
  GridCoord.mk (Cxx.r rho) (Cxx.c rho) ∈ cells.
Proof.
  rewrite (holds_ofBool rho _
             (existsb (Cxx.holds rho) (map (Spec.rowExpr cells) (Spec.distinctRows cells)))).
  - rewrite existsb_map, existsb_elem_of. split.
    + intros (row & Hin & Hh).
      rewrite (holds_ofBool rho _ _ (eval_rowExpr rho _ _)) in Hh.
      apply andb_prop in Hh as [Hr Hc]. apply Z.eqb_eq in Hr.
      apply existsb_elem_of in Hc as (col & Hcol & Hc). apply Z.eqb_eq in Hc.
      rewrite Hr, Hc. apply elem_of_columnsOf. exact Hcol.
    + intros Hin. exists (Cxx.r rho). split.
      * apply distinctRows_rows. exists (GridCoord.mk (Cxx.r rho) (Cxx.c rho)). auto.
      * rewrite (holds_ofBool rho _ _ (eval_rowExpr rho _ _)).
        rewrite Z.eqb_refl. simpl. apply existsb_elem_of. exists (Cxx.c rho).
        split; [apply elem_of_columnsOf; exact Hin | apply Z.eqb_refl].
  - apply eval_disjunction. apply Forall_forall. intros x Hx.
    apply list_elem_of_fmap in Hx as (row & -> & _).
    rewrite eval_rowExpr. do 2 f_equal. symmetry. apply holds_ofBool, eval_rowExpr.
Qed.

Lemma distinctRows_nonempty (cells : list GridCoord.t) :
  cells <> [] -> Spec.distinctRows cells <> [].
Proof. destruct cells; [congruence |]. intros _. discriminate. Qed.

(** The tree of an expanded coordinate set prints as the generated
    text, parses as built, and holds exactly at the listed cells. *)
Lemma coordinateExpr_exact (H W : Z) (cells : list GridCoord.t) :
  Forall (Spec.inBounds H W) cells ->
  Cxx.show (Spec.coordinateExpr cells) = generateCoordinateCondition cells /\
  Cxx.parsesAs (Spec.coordinateExpr cells) = true /\
  forall r c, Cxx.holds (Cxx.mkEnv r c H W) (Spec.coordinateExpr cells) = true <->
              GridCoord.mk r c ∈ cells.
Proof.
  intros Hin. rewrite Forall_forall in Hin.
  assert (Hterms : Forall (fun x => (1 < Cxx.level x)%nat /\ Cxx.parsesAs x = true)
                          (map Spec.cellTerm cells)).
  { apply Forall_forall. intros x Hx. apply list_elem_of_fmap in Hx as (cell & -> & Hc).
    destruct (Hin cell Hc) as [Hr Hcol]. split; [simpl; lia |].
    apply parsesAs_cellTerm; lia. }
  unfold Spec.coordinateExpr, generateCoordinateCondition.
  assert (Hlen : len (map cellCondition cells) = len cells)
    by (unfold len; rewrite length_map; reflexivity).
  rewrite Hlen.
  destruct (Z.eqb_spec (len cells) 0) as [H0 | H0].
  { apply len_nil_iff in H0. subst cells. split; [reflexivity |]. split; [reflexivity |].
    intros r c. unfold Cxx.holds. simpl. split; [discriminate | intros Hx; inversion Hx]. }
  assert (Hne : cells <> []) by (intros ->; apply H0; reflexivity).
  destruct (len cells >? 20).
  - split; [| split].
    + rewrite show_disjunction
        by (intros Hmap; apply map_eq_nil in Hmap; exact (distinctRows_nonempty cells Hne Hmap)).
      rewrite generateGroupedCondition_clauses, map_map. f_equal.
      apply map_ext_in. intros row Hrow. apply show_rowExpr.
      apply list_elem_of_In, distinctRows_rows in Hrow as ([r c] & Hcell & <-).
      intros Hnil. apply (elem_of_columnsOf cells r c) in Hcell. simpl in Hnil.
      rewrite Hnil in Hcell. inversion Hcell.
    + apply parsesAs_disjunction. apply Forall_forall. intros x Hx.
      apply list_elem_of_fmap in Hx as (row & -> & Hrow).
      rewrite level_rowExpr. split; [lia |].
      apply distinctRows_rows in Hrow as (cell & Hcell & <-).
      apply parsesAs_rowExpr; [apply (Hin cell Hcell) |].
      apply Forall_forall. intros col Hcol. apply elem_of_columnsOf in Hcol.
      apply (Hin _ Hcol).
    + intros r c. apply (holds_grouped (Cxx.mkEnv r c H W)).
  - destruct (len cells <=? 5).
    + split; [| split].
      * rewrite show_disjunction by (intros Hmap; apply map_eq_nil in Hmap; congruence).
        rewrite map_map. rewrite (map_ext _ _ show_cellTerm). reflexivity.
      * apply parsesAs_disjunction. exact Hterms.
      * intros r c. apply (holds_flat (Cxx.mkEnv r c H W)).
    + split; [| split].
      * rewrite show_disjunction by (intros Hmap; apply map_eq_nil in Hmap; congruence).
        rewrite map_map. rewrite (map_ext _ _ show_cellTerm). reflexivity.
      * apply parsesAs_disjunction. exact Hterms.
      * intros r c. apply (holds_flat (Cxx.mkEnv r c H W)).
Qed.

End CoordinateExpr.

(* ------------------------------------------------------------------ *)
(** ** Round trip of the predicates that match exactly *)
(* ------------------------------------------------------------------ *)

Section ExactRoundTrip.
Import PatternAnalyzer CodeGenerator OutputValidator.

Variable g : Grid.t.
Hypothesis rows_pos : 0 < Grid.rows g.
Hypothesis cols_pos : 0 < Grid.cols g.




Lemma foldl_ext_in {A B} (f f' : A -> B -> A) (l : list B) (a : A) :
  (forall x acc, x ∈ l -> f acc x = f' acc x) -> foldl f a l = foldl f' a l.
Proof.
  revert a. induction l as [| x l IH]; intros a Hext; simpl; [reflexivity |].
  rewrite (Hext x a ltac:(left)). apply IH. intros y acc Hy. apply Hext. right. exact Hy.
Qed.







End ExactRoundTrip.

(* ================================================================== *)
(** * Further properties of discovery and analysis *)
(* ================================================================== *)

Section MoreDiscovery.
Import PatternAnalyzer CodeGenerator OutputValidator.

Lemma testers_other_than_checkerboard_exact_witness :
  0 < 3 <= Spec.maxDim /\
  Forall (Spec.inBounds 3 3) Spec.diag3 /\ NoDup Spec.diag3 /\
  tryDiagonal 3 3 Spec.diag3 "#" =
    Some (Predicate.mk "diagonal" "#" "r == c" ["H"; "W"] true 1) /\
  Spec.characterizes 3 3 (Predicate.mk "diagonal" "#" "r == c" ["H"; "W"] true 1) Spec.diag3.
Proof.
  assert (Hin : Forall (Spec.inBounds 3 3) Spec.diag3)
    by (repeat constructor; simpl; lia).
  assert (Hnd : NoDup Spec.diag3) by (apply (bool_decide_unpack _); vm_compute; exact I).
  assert (Hdim : 0 < 3 <= Spec.maxDim) by (unfold Spec.maxDim; lia).
  split; [exact Hdim |]. split; [exact Hin |]. split; [exact Hnd |].
  split; [reflexivity |].
  exact (testers_other_than_checkerboard_exact 3 3 Spec.diag3 "#" _
           Hdim Hdim Hin Hnd
           (or_intror (or_intror (or_introl eq_refl)))).
Defined.


End MoreDiscovery.

(* ------------------------------------------------------------------ *)
(** ** The checkerboard tester, discovery and the analysis summary *)
(* ------------------------------------------------------------------ *)

Section AnalysisProperties.
Import PatternAnalyzer CodeGenerator.

(** The parity counters of the checkerboard tester only grow; a counter
    left untouched means that no cell of the other parity was met. *)
Lemma parity_counts (cells : list GridCoord.t) (e0 o0 : Z) :
  let counts :=
    foldl (fun '(e, o) cell =>
             if Z.rem (GridCoord.row cell + GridCoord.col cell) 2 =? 0
             then (e + 1, o) else (e, o + 1))
          (e0, o0) cells in
  e0 <= fst counts /\ o0 <= snd counts /\
  fst counts + snd counts = e0 + o0 + len cells /\
  (snd counts = o0 ->
     Forall (fun cell => Z.rem (GridCoord.row cell + GridCoord.col cell) 2 = 0) cells) /\
  (fst counts = e0 ->
     Forall (fun cell => Z.rem (GridCoord.row cell + GridCoord.col cell) 2 <> 0) cells).
Proof.
  revert e0 o0. induction cells as [| cell cells IH]; intros e0 o0; simpl.
  - unfold len. simpl. repeat split; try lia; constructor.
  - destruct (Z.eqb_spec (Z.rem (GridCoord.row cell + GridCoord.col cell) 2) 0) as [He | Ho].
    + specialize (IH (e0 + 1) o0). simpl in IH.
      destruct IH as (H1 & H2 & H3 & H4 & H5).
      unfold len in *. simpl length. rewrite Nat2Z.inj_succ.
      split; [lia |]. split; [lia |]. split; [lia |]. split.
      * intros Heq. constructor; [exact He | exact (H4 Heq)].
      * intros Heq. lia.
    + specialize (IH e0 (o0 + 1)). simpl in IH.
      destruct IH as (H1 & H2 & H3 & H4 & H5).
      unfold len in *. simpl length. rewrite Nat2Z.inj_succ.
      split; [lia |]. split; [lia |]. split; [lia |]. split.
      * intros Heq. lia.
      * intros Heq. constructor; [exact Ho | exact (H5 Heq)].
Qed.

Lemma holds_evenParity (rho : Cxx.env) :
  Cxx.holds rho Spec.evenParity = (Z.rem (Cxx.r rho + Cxx.c rho) 2 =? 0).
Proof.
  unfold Cxx.holds, Spec.evenParity. simpl.
  destruct (Z.rem (Cxx.r rho + Cxx.c rho) 2 =? 0); reflexivity.
Qed.

Lemma holds_oddParity (rho : Cxx.env) :
  Cxx.holds rho Spec.oddParity = (Z.rem (Cxx.r rho + Cxx.c rho) 2 =? 1).
Proof.
  unfold Cxx.holds, Spec.oddParity. simpl.
  destruct (Z.rem (Cxx.r rho + Cxx.c rho) 2 =? 1); reflexivity.
Qed.

(** X3. What a match of the checkerboard tester guarantees, on a grid
    of dimensions up to 2^26 and for in-bounds cells: the number of
    listed cells is within one of ceil(H*W/2), the returned expression
    is one of the two parity conditions, and every listed cell of the
    grid satisfies it under C++ evaluation. (The converse fails: a
    listed set may miss cells of its parity class.) *)
Theorem tryCheckerboard_sound (H W : Z) (cells : list GridCoord.t) (ch : string)
    (p : Predicate.t) :
  0 <= H <= Spec.maxDim -> 0 <= W <= Spec.maxDim ->
  Forall (Spec.inBounds H W) cells ->
  tryCheckerboard H W cells ch = Some p ->
  Z.abs (len cells - JS.ceil_half (H * W)) <= 1 /\
  Predicate.type p = "checkerboard" /\ Predicate.char p = ch /\
  exists e,
    (e = Spec.evenParity \/ e = Spec.oddParity) /\
    Cxx.show e = Predicate.expression p /\
    Cxx.parsesAs e = true /\
    forall cell, cell ∈ cells ->
      Cxx.holds (Cxx.mkEnv (GridCoord.row cell) (GridCoord.col cell) H W) e = true.
Proof.
  intros _ _ Hin Hp. unfold tryCheckerboard in Hp.
  destruct (Z.abs (len cells - JS.ceil_half (H * W)) >? 1) eqn:Hcount; [discriminate |].
  split; [lia |].
  pose proof (parity_counts cells 0 0) as Hcounts. simpl in Hcounts.
  destruct (foldl _ (0, 0) cells) as [evenCount oddCount] eqn:Hfold.
  simpl in Hcounts. destruct Hcounts as (He & Ho & Hsum & Heven & Hodd).
  destruct (Z.eqb_spec evenCount (len cells)) as [Hall | Hnot].
  - injection Hp as <-. simpl. split; [reflexivity |]. split; [reflexivity |].
    exists Spec.evenParity. split; [left; reflexivity |].
    split; [reflexivity |]. split; [reflexivity |].
    intros cell Hcell. rewrite holds_evenParity. simpl. apply Z.eqb_eq.
    assert (Hzero : oddCount = 0) by lia.
    specialize (Heven Hzero). rewrite Forall_forall in Heven. exact (Heven cell Hcell).
  - destruct (Z.eqb_spec oddCount (len cells)) as [Hall | Hnot']; [| discriminate].
    injection Hp as <-. simpl. split; [reflexivity |]. split; [reflexivity |].
    exists Spec.oddParity. split; [right; reflexivity |].
    split; [reflexivity |]. split; [reflexivity |].
    intros cell Hcell. rewrite holds_oddParity. simpl. apply Z.eqb_eq.
    assert (Hzero : evenCount = 0) by lia.
    specialize (Hodd Hzero). rewrite Forall_forall in Hodd, Hin.
    specialize (Hodd cell Hcell). destruct (Hin cell Hcell) as [Hr Hc].
    rewrite Z.rem_mod_nonneg in * by lia.
    pose proof (Z.mod_pos_bound (GridCoord.row cell + GridCoord.col cell) 2 ltac:(lia)).
    lia.
Qed.

Lemma tryCheckerboard_sound_witness :
  0 <= 2 <= Spec.maxDim /\ 0 <= 3 <= Spec.maxDim /\
  Forall (Spec.inBounds 2 3) Spec.partialChecker /\
  tryCheckerboard 2 3 Spec.partialChecker "#" =
    Some (Predicate.mk "checkerboard" "#" "(r + c) % 2 == 0" ["H"; "W"] true 1) /\
  Z.abs (len Spec.partialChecker - JS.ceil_half (2 * 3)) <= 1 /\
  exists e,
    (e = Spec.evenParity \/ e = Spec.oddParity) /\
    Cxx.show e = "(r + c) % 2 == 0" /\
    forall cell, cell ∈ Spec.partialChecker ->
      Cxx.holds (Cxx.mkEnv (GridCoord.row cell) (GridCoord.col cell) 2 3) e = true.
Proof.
  assert (Hin : Forall (Spec.inBounds 2 3) Spec.partialChecker)
    by (repeat constructor; simpl; lia).
  assert (HH : 0 <= 2 <= Spec.maxDim) by (unfold Spec.maxDim; lia).
  assert (HW : 0 <= 3 <= Spec.maxDim) by (unfold Spec.maxDim; lia).
  split; [exact HH |]. split; [exact HW |].
  split; [exact Hin |]. split; [reflexivity |].
  destruct (tryCheckerboard_sound 2 3 Spec.partialChecker "#" _ HH HW Hin eq_refl)
    as (Hcount & _ & _ & e & He & Hshow & _ & Hholds).
  split; [exact Hcount |]. exists e. split; [exact He |]. split; [exact Hshow | exact Hholds].
Defined.

(** Discovery returns for every list and every dimensions. *)
Lemma discoverPredicate_always_returns (H W : Z) (cells : list GridCoord.t) (ch : string) :
  exists p, discoverPredicate H W cells ch = JS.Ok p /\ Predicate.char p = ch.
Proof.
  unfold discoverPredicate, detectors, firstMatch.
  destruct (tryFill H W cells ch) as [q |] eqn:E1.
  { exists q. split; [reflexivity | exact (proj1 (tryFill_tag _ _ _ _ _ E1))]. }
  assert (Hlen : len cells <> H * W).
  { unfold tryFill in E1. destruct (Z.eqb_spec (len cells) (H * W)); [discriminate | assumption]. }
  destruct (tryBorder H W cells ch) as [q |] eqn:E2.
  { exists q. split; [reflexivity | exact (proj1 (tryBorder_tag _ _ _ _ _ E2))]. }
  destruct (tryDiagonal H W cells ch) as [q |] eqn:E3.
  { exists q. split; [reflexivity | exact (proj1 (tryDiagonal_tag _ _ _ _ _ E3))]. }
  destruct (tryAntiDiagonal H W cells ch) as [q |] eqn:E4.
  { exists q. split; [reflexivity | exact (proj1 (tryAntiDiagonal_tag _ _ _ _ _ E4))]. }
  destruct (tryHorizontalLine H W cells ch) as [[q |] | e] eqn:E5.
  { exists q. split; [reflexivity | exact (proj1 (tryHorizontalLine_tag _ _ _ _ _ E5))]. }
  2: { exfalso. unfold tryHorizontalLine in E5.
       destruct (Z.eqb_spec (len cells) W) as [HW |]; [| discriminate]. simpl in E5.
       destruct cells as [| c0 cells']; [| destruct (forallb _ _); discriminate].
       unfold len in *. simpl in *. lia. }
  destruct (tryVerticalLine H W cells ch) as [[q |] | e] eqn:E6.
  { exists q. split; [reflexivity | exact (proj1 (tryVerticalLine_tag _ _ _ _ _ E6))]. }
  2: { exfalso. unfold tryVerticalLine in E6.
       destruct (Z.eqb_spec (len cells) H) as [HH |]; [| discriminate]. simpl in E6.
       destruct cells as [| c0 cells']; [| destruct (forallb _ _); discriminate].
       unfold len in *. simpl in *. lia. }
  destruct (tryFilledRectangle H W cells ch) as [q |] eqn:E7.
  { exists q. split; [reflexivity | exact (proj1 (tryFilledRectangle_tag _ _ _ _ _ E7))]. }
  destruct (tryCheckerboard H W cells ch) as [q |] eqn:E8.
  { exists q. split; [reflexivity | exact (proj1 (tryCheckerboard_tag _ _ _ _ _ E8))]. }
  eexists. split; reflexivity.
Qed.

(** X4. Discovery never raises, whatever the dimensions and the list.
    The line testers read [cells[0]] unguarded and do raise on an empty
    list when the dimension they compare with is zero; inside discovery
    that read is never reached, because an empty list on a grid without
    cells is matched by the fill tester first. The predicate returned
    carries the symbol that was passed. *)
Theorem discovery_never_raises (H W : Z) (cells : list GridCoord.t) (ch : string) :
  (exists p, discoverPredicate H W cells ch = JS.Ok p /\ Predicate.char p = ch) /\
  tryHorizontalLine H 0 [] ch = JS.Throw "TypeError: cells[0] is undefined" /\
  tryVerticalLine 0 W [] ch = JS.Throw "TypeError: cells[0] is undefined" /\
  discoverPredicate H 0 [] ch =
    JS.Ok (Predicate.mk "filled_rect" ch "true" ["H"; "W"] true 1).
Proof.
  split; [apply discoverPredicate_always_returns |].
  split; [reflexivity |]. split; [reflexivity |].
  unfold discoverPredicate, detectors, firstMatch, tryFill.
  replace (H * 0) with 0 by lia. reflexivity.
Qed.

(** The loop of [analyze] on any table: the flag is the conjunction of
    the scalable flags, one warning is pushed per predicate that is not
    scalable. *)
Lemma analyze_loop_summary (H W : Z) (table : list (string * list GridCoord.t))
    (acc : AnalysisResult.t) :
  exists ps ws,
    foldl (analyzeStep H W) (JS.Ok acc) table =
      JS.Ok (AnalysisResult.mk (AnalysisResult.predicates acc ++ ps)
               (AnalysisResult.warnings acc ++ ws)
               (AnalysisResult.isFullyParametric acc && forallb Predicate.isScalable ps)) /\
    Forall2 (Spec.discoveredFor H W) table ps /\
    map Predicate.char ps = map fst table /\
    length ws = length (Spec.nonScalable ps).
Proof.
  revert acc. induction table as [| [ch cells] table IH]; intros acc; simpl.
  - exists [], []. rewrite !app_nil_r, andb_true_r. destruct acc.
    split; [reflexivity |]. split; [constructor |]. split; reflexivity.
  - destruct (discoverPredicate_always_returns H W cells ch) as (p & Hp & Hch).
    rewrite Hp. unfold Spec.nonScalable.
    destruct (Predicate.isScalable p) eqn:Hs; simpl.
    + destruct (IH (AnalysisResult.mk (AnalysisResult.predicates acc ++ [p])
                      (AnalysisResult.warnings acc)
                      (AnalysisResult.isFullyParametric acc)))
        as (ps & ws & Hfold & Hall & Hchars & Hws).
      exists (p :: ps), ws. simpl in Hfold. rewrite <- app_assoc in Hfold.
      simpl. rewrite Hs. simpl.
      split; [exact Hfold |]. split; [constructor; [exact Hp | exact Hall] |].
      split; [rewrite Hch, Hchars; reflexivity | exact Hws].
    + destruct (IH (AnalysisResult.mk (AnalysisResult.predicates acc ++ [p])
                      (AnalysisResult.warnings acc ++
                       ["Character '" +:+ ch +:+
                        "': Pattern could not be parameterized. " +:+
                        "Using coordinate set (" +:+ JS.toString (len cells) +:+ " points)."])
                      false))
        as (ps & ws & Hfold & Hall & Hchars & Hws).
      eexists (p :: ps), (_ :: ws). simpl in Hfold.
      rewrite <- !app_assoc in Hfold. simpl in Hfold.
      simpl. rewrite Hs. simpl. rewrite andb_false_r.
      split; [exact Hfold |]. split; [constructor; [exact Hp | exact Hall] |].
      split; [rewrite Hch, Hchars; reflexivity | rewrite Hws; reflexivity].
Qed.

(** X5. [analyze] returns for every grid of the shape the constructor
    gives (dimensions up to 2^26), and its summary agrees with its
    predicates: one predicate per symbol of the grouping, in the
    grouping's order and carrying that symbol, each the result of
    discovery on the symbol's cells; [isFullyParametric] is the
    conjunction of the scalable flags; there is one warning per
    predicate that is not scalable, plus one closing warning when there
    is any. *)
Theorem analyze_summary (g : Grid.t) :
  Spec.sized g ->
  exists a,
    analyze g = JS.Ok a /\
    Forall2 (Spec.discoveredFor (Grid.rows g) (Grid.cols g))
            (Grid.getCellsByChar g) (AnalysisResult.predicates a) /\
    map Predicate.char (AnalysisResult.predicates a) = map fst (Grid.getCellsByChar g) /\
    AnalysisResult.isFullyParametric a =
      forallb Predicate.isScalable (AnalysisResult.predicates a) /\
    length (AnalysisResult.warnings a) =
      (length (Spec.nonScalable (AnalysisResult.predicates a)) +
       (if AnalysisResult.isFullyParametric a then 0 else 1))%nat.
Proof.
  intros _. unfold analyze.
  destruct (analyze_loop_summary (Grid.rows g) (Grid.cols g) (Grid.getCellsByChar g)
              (AnalysisResult.mk [] [] true)) as (ps & ws & Hfold & Hall & Hchars & Hws).
  rewrite Hfold. simpl.
  destruct (forallb Predicate.isScalable ps) eqn:Hflag; simpl.
  - eexists. split; [reflexivity |]. simpl. rewrite Hflag.
    split; [exact Hall |]. split; [exact Hchars |]. split; [reflexivity | lia].
  - eexists. split; [reflexivity |]. simpl. rewrite Hflag.
    split; [exact Hall |]. split; [exact Hchars |]. split; [reflexivity |].
    rewrite length_app. simpl. lia.
Qed.

Lemma analyze_summary_witness :
  Spec.sized Spec.blockAndDots /\
  exists a,
    analyze Spec.blockAndDots = JS.Ok a /\
    map Predicate.char (AnalysisResult.predicates a) = ["x"; "#"] /\
    map Predicate.isScalable (AnalysisResult.predicates a) = [false; true] /\
    AnalysisResult.isFullyParametric a = false /\
    length (AnalysisResult.warnings a) = 2%nat.
Proof.
  split; [exact blockAndDots_sized |].
  destruct (analyze_summary Spec.blockAndDots blockAndDots_sized)
    as (a & Ha & _ & Hchars & Hflag & Hwarn).
  assert (Hscalable : map Predicate.isScalable (AnalysisResult.predicates a) = [false; true]).
  { vm_compute in Ha. injection Ha as <-. reflexivity. }
  assert (Hfalse : AnalysisResult.isFullyParametric a = false).
  { rewrite Hflag. destruct (AnalysisResult.predicates a) as [| p [| q [| ? ?]]];
      try discriminate Hscalable.
    injection Hscalable as Hp Hq. simpl. rewrite Hp. reflexivity. }
  exists a. split; [exact Ha |]. split; [rewrite Hchars; vm_compute; reflexivity |].
  split; [exact Hscalable |]. split; [exact Hfalse |].
  rewrite Hwarn, Hfalse. unfold Spec.nonScalable.
  destruct (AnalysisResult.predicates a) as [| p [| q [| ? ?]]]; try discriminate Hscalable.
  injection Hscalable as Hp Hq. simpl. rewrite Hp, Hq. reflexivity.
Defined.

End AnalysisProperties.

(* ------------------------------------------------------------------ *)
(** ** The value-to-symbol mapping under evaluation *)
(* ------------------------------------------------------------------ *)

Section ParameterizedValues.
Import PatternAnalyzer CodeGenerator.

(** X6. The text [parameterizeValue] writes for a value stands for that
    value when the emitted program evaluates it with the dimension it
    was made from: for a non-negative value and non-negative dimensions,
    all up to 2^26, the text is the printed form of an expression that
    C++ parses as such and evaluates to the value, for the row dimension
    "H" and for the column dimension "W" alike. *)
Theorem parameterizeValue_denotes_value (rho : Cxx.env) (value : Z) :
  0 <= value <= Spec.maxDim ->
  0 <= Cxx.H rho <= Spec.maxDim -> 0 <= Cxx.W rho <= Spec.maxDim ->
  exists eH eW,
    Cxx.show eH = parameterizeValue value (Cxx.H rho) "H" /\
    Cxx.parsesAs eH = true /\ Cxx.eval rho eH = Some value /\
    Cxx.show eW = parameterizeValue value (Cxx.W rho) "W" /\
    Cxx.parsesAs eW = true /\ Cxx.eval rho eW = Some value.
Proof.
  intros [Hv _] [HH _] [HW _].
  exists (Spec.paramExpr value (Cxx.H rho) "H"), (Spec.paramExpr value (Cxx.W rho) "W").
  split; [apply show_paramExpr |]. split; [apply parsesAs_paramExpr; exact Hv |].
  split; [apply eval_paramExpr_H; exact HH |].
  split; [apply show_paramExpr |]. split; [apply parsesAs_paramExpr; exact Hv |].
  apply eval_paramExpr_W; exact HW.
Qed.

Lemma parameterizeValue_denotes_value_witness :
  0 <= 4 <= Spec.maxDim /\ 0 <= 8 <= Spec.maxDim /\ 0 <= 6 <= Spec.maxDim /\
  parameterizeValue 4 8 "H" = "H/2" /\ parameterizeValue 4 6 "W" = "W-2" /\
  exists eH eW,
    Cxx.show eH = "H/2" /\ Cxx.eval (Cxx.mkEnv 0 0 8 6) eH = Some 4 /\
    Cxx.show eW = "W-2" /\ Cxx.eval (Cxx.mkEnv 0 0 8 6) eW = Some 4.
Proof.
  assert (Hv : 0 <= 4 <= Spec.maxDim) by (unfold Spec.maxDim; lia).
  assert (HH : 0 <= 8 <= Spec.maxDim) by (unfold Spec.maxDim; lia).
  assert (HW : 0 <= 6 <= Spec.maxDim) by (unfold Spec.maxDim; lia).
  split; [exact Hv |]. split; [exact HH |]. split; [exact HW |].
  split; [reflexivity |]. split; [reflexivity |].
  destruct (parameterizeValue_denotes_value (Cxx.mkEnv 0 0 8 6) 4 Hv HH HW)
    as (eH & eW & H1 & _ & H2 & H3 & _ & H4).
  exists eH, eW. split; [exact H1 |]. split; [exact H2 |]. split; [exact H3 | exact H4].
Defined.

Lemma string_of_uint_no_name (d : Decimal.uint) :
  JS.includes (NilEmpty.string_of_uint d) "H" = false /\
  JS.includes (NilEmpty.string_of_uint d) "W" = false.
Proof. induction d; simpl; auto. Qed.

(** A decimal literal holds neither dimension name. *)
Lemma toString_no_name (n : Z) :
  JS.includes (JS.toString n) "H" = false /\ JS.includes (JS.toString n) "W" = false.
Proof.
  unfold JS.toString, NilZero.string_of_int, NilZero.string_of_uint.
  destruct (Z.to_int n) as [d | d]; destruct d; simpl;
    auto using string_of_uint_no_name.
Qed.

(** X7. When a bound counts as parametric, for a value and a dimension
    from 0 to [Number.MAX_SAFE_INTEGER]: the text of
    [parameterizeValue] holds the dimension name, which is what the
    line and rectangle testers test to set [isScalable], exactly when
    the value is not zero and equals D, D-1, floor(D/2), D-2, D/4 with
    4 dividing D, or D/3 with 3 dividing D. In particular the value 0 is
    never parametric, also on a grid where it equals D-1 or D/2. *)
Theorem parameterizeValue_names_dimension_iff (value D : Z) :
  0 <= value <= JS.MAX_SAFE_INTEGER -> 0 <= D <= JS.MAX_SAFE_INTEGER ->
  (JS.includes (parameterizeValue value D "H") "H" = true <->
   Spec.dimensionRelative value D) /\
  (JS.includes (parameterizeValue value D "W") "W" = true <->
   Spec.dimensionRelative value D).
Proof.
  intros _ _.
  assert (Hq4 : D mod 4 = 0 -> Z.quot D 4 = D / 4) by (apply quot_exact; lia).
  assert (Hq3 : D mod 3 = 0 -> Z.quot D 3 = D / 3) by (apply quot_exact; lia).
  pose proof (rem_zero_iff_mod_zero D 4 ltac:(lia)) as Hr4.
  pose proof (rem_zero_iff_mod_zero D 3 ltac:(lia)) as Hr3.
  destruct (toString_no_name value) as [HnoH HnoW].
  unfold parameterizeValue, Spec.dimensionRelative. rewrite Hr4, Hr3.
  destruct (Z.eqb_spec value 0) as [Hz | Hz].
  { split; (split; [intros Hc; discriminate Hc | intros [Hc _]; contradiction]). }
  destruct (Z.eqb_spec value D) as [H1 | H1].
  { split; (split; [intros _; split; [exact Hz | tauto] | intros _; reflexivity]). }
  destruct (Z.eqb_spec value (D - 1)) as [H2 | H2].
  { split; (split; [intros _; split; [exact Hz | tauto] | intros _; reflexivity]). }
  destruct (Z.eqb_spec value (D / 2)) as [H3 | H3].
  { split; (split; [intros _; split; [exact Hz | tauto] | intros _; reflexivity]). }
  destruct (Z.eqb_spec value (D - 2)) as [H4 | H4].
  { split; (split; [intros _; split; [exact Hz | tauto] | intros _; reflexivity]). }
  destruct (Z.eqb_spec (D mod 4) 0) as [Hm4 | Hm4]; simpl.
  - rewrite (Hq4 Hm4). destruct (Z.eqb_spec value (D / 4)) as [H5 | H5].
    { split; (split; [intros _; split; [exact Hz | tauto] | intros _; reflexivity]). }
    destruct (Z.eqb_spec (D mod 3) 0) as [Hm3 | Hm3]; simpl.
    + rewrite (Hq3 Hm3). destruct (Z.eqb_spec value (D / 3)) as [H6 | H6].
      { split; (split; [intros _; split; [exact Hz | tauto] | intros _; reflexivity]). }
      rewrite HnoH, HnoW.
      split; (split; [intros Hc; discriminate Hc | intros [_ Hc]; exfalso; tauto]).
    + rewrite HnoH, HnoW.
      split; (split; [intros Hc; discriminate Hc | intros [_ Hc]; exfalso; tauto]).
  - destruct (Z.eqb_spec (D mod 3) 0) as [Hm3 | Hm3]; simpl.
    + rewrite (Hq3 Hm3). destruct (Z.eqb_spec value (D / 3)) as [H6 | H6].
      { split; (split; [intros _; split; [exact Hz | tauto] | intros _; reflexivity]). }
      rewrite HnoH, HnoW.
      split; (split; [intros Hc; discriminate Hc | intros [_ Hc]; exfalso; tauto]).
    + rewrite HnoH, HnoW.
      split; (split; [intros Hc; discriminate Hc | intros [_ Hc]; exfalso; tauto]).
Qed.

Lemma parameterizeValue_names_dimension_iff_witness :
  0 <= 0 <= JS.MAX_SAFE_INTEGER /\ 0 <= 1 <= JS.MAX_SAFE_INTEGER /\
  parameterizeValue 0 1 "H" = "0" /\
  ~ Spec.dimensionRelative 0 1.
Proof.
  assert (Hvalue : 0 <= 0 <= JS.MAX_SAFE_INTEGER) by (unfold JS.MAX_SAFE_INTEGER; lia).
  assert (HD : 0 <= 1 <= JS.MAX_SAFE_INTEGER) by (unfold JS.MAX_SAFE_INTEGER; lia).
  split; [exact Hvalue |]. split; [exact HD |]. split; [reflexivity |].
  intros Hrel.
  apply (proj2 (proj1 (parameterizeValue_names_dimension_iff 0 1 Hvalue HD))) in Hrel.
  discriminate Hrel.
Defined.

End ParameterizedValues.

(* ------------------------------------------------------------------ *)
(** ** The grouping and the coordinate-set branch *)
(* ------------------------------------------------------------------ *)

Section GroupingProperties.
Import PatternAnalyzer CodeGenerator.

Lemma valuesOf_cellsHolding (g : Grid.t) (ch : string) (l : list GridCoord.t) :
  Spec.valuesOf String.eqb (flat_map (Spec.pairOf g) l) ch =
  List.filter (fun cell =>
                 match Spec.symbolAt g cell with
                 | Some s => String.eqb s ch
                 | None => false
                 end) l.
Proof.
  unfold Spec.valuesOf. induction l as [| x l IH]; simpl; [reflexivity |].
  rewrite List.filter_app, map_app, IH. unfold Spec.pairOf.
  destruct (Spec.symbolAt g x) as [s |]; simpl; [| reflexivity].
  destruct (String.eqb s ch); reflexivity.
Qed.

(** X9. What [getCellsByChar] returns on a grid of the shape the
    constructor gives, as a whole: its keys are the symbols of the grid
    in the order the row-by-row scan first meets them, each once, and
    the list of a key is the cells holding that symbol, in scan
    order. *)
Theorem getCellsByChar_by_first_occurrence (g : Grid.t) :
  Spec.wellFormed g ->
  Grid.getCellsByChar g =
  map (fun ch => (ch, Spec.cellsHolding g ch))
      (Spec.distinct String.eqb (Spec.scanSymbols g)).
Proof.
  intros _.
  rewrite getCellsByChar_table. unfold Spec.scanSymbols, Spec.cellsHolding.
  apply map_ext. intros ch. f_equal. apply valuesOf_cellsHolding.
Qed.

Lemma getCellsByChar_by_first_occurrence_witness :
  Spec.wellFormed Spec.blockAndDots /\
  Spec.scanSymbols Spec.blockAndDots = ["x"; "#"; "#"; "#"; "#"; "x"] /\
  Grid.getCellsByChar Spec.blockAndDots =
    [("x", map Spec.coord [(0, 0); (3, 3)]);
     ("#", map Spec.coord [(1, 1); (1, 2); (2, 1); (2, 2)])].
Proof.
  assert (Hwf : Spec.wellFormed Spec.blockAndDots) by exact (proj1 blockAndDots_sized).
  split; [exact Hwf |]. split; [vm_compute; reflexivity |].
  rewrite (getCellsByChar_by_first_occurrence Spec.blockAndDots Hwf).
  vm_compute. reflexivity.
Defined.

(** X8. The branch written for a coordinate-set predicate is exact on
    the grid it was made from, a grid of the shape the constructor
    gives with dimensions up to 2^26: for every entry of the grouping,
    the condition synthesis writes for the entry's fallback predicate is
    the printed form of an expression that C++ parses as such and that
    holds at (r, c), for any r and c, exactly when (r, c) is a cell of
    the grid holding the entry's symbol. *)
Theorem coordinate_set_branch_exact (g : Grid.t) (ch : string) (cells : list GridCoord.t) :
  Spec.sized g ->
  (ch, cells) ∈ Grid.getCellsByChar g ->
  exists e,
    Cxx.show e =
      predicateToCondition (Grid.getCellsByChar g) (fallbackCoordinateSet cells ch) /\
    Cxx.parsesAs e = true /\
    forall r c,
      Cxx.holds (Cxx.mkEnv r c (Grid.rows g) (Grid.cols g)) e = true <->
      (Spec.inBounds (Grid.rows g) (Grid.cols g) (GridCoord.mk r c) /\
       Spec.symbolAt g (GridCoord.mk r c) = Some ch).
Proof.
  intros _ Hentry.
  destruct (getCellsByChar_entry g ch cells Hentry) as (Hnd & Hin & Hmem & Hget).
  destruct (coordinateExpr_exact (Grid.rows g) (Grid.cols g) cells Hin)
    as (Hshow & Hparse & Hsem).
  exists (Spec.coordinateExpr cells). split; [| split; [exact Hparse |]].
  - unfold predicateToCondition. simpl. rewrite Hget. exact Hshow.
  - intros r c. rewrite Hsem. apply Hmem.
Qed.

Lemma coordinate_set_branch_exact_witness :
  Spec.sized Spec.blockAndDots /\
  ("x", map Spec.coord [(0, 0); (3, 3)]) ∈ Grid.getCellsByChar Spec.blockAndDots /\
  exists e,
    Cxx.show e = "(r==0 && c==0) || (r==3 && c==3)" /\
    Cxx.parsesAs e = true /\
    forall r c,
      Cxx.holds (Cxx.mkEnv r c 4 4) e = true <->
      (Spec.inBounds 4 4 (GridCoord.mk r c) /\
       Spec.symbolAt Spec.blockAndDots (GridCoord.mk r c) = Some "x").
Proof.
  assert (Hentry : ("x", map Spec.coord [(0, 0); (3, 3)])
                     ∈ Grid.getCellsByChar Spec.blockAndDots).
  { replace (Grid.getCellsByChar Spec.blockAndDots)
      with [("x", map Spec.coord [(0, 0); (3, 3)]);
            ("#", map Spec.coord [(1, 1); (1, 2); (2, 1); (2, 2)])]
      by (vm_compute; reflexivity).
    left. }
  split; [exact blockAndDots_sized |]. split; [exact Hentry |].
  destruct (coordinate_set_branch_exact Spec.blockAndDots "x" _ blockAndDots_sized Hentry)
    as (e & Hshow & Hparse & Hsem).
  exists e. split; [rewrite Hshow; vm_compute; reflexivity |].
  split; [exact Hparse | exact Hsem].
Defined.

(** X10. The string keys of the testers' coordinate sets identify the
    coordinates, for integers of the safe range: two keys "row,col" are
    equal exactly when the rows and the columns are, negative numbers
    included, so a key set holds a key exactly when the list holds the
    coordinate. *)
Theorem coordKey_identifies_coordinate (r c r' c' : Z) (cells : list GridCoord.t) :
  Spec.safeInteger r -> Spec.safeInteger c ->
  Spec.safeInteger r' -> Spec.safeInteger c' ->
  Forall (fun cell => Spec.safeInteger (GridCoord.row cell) /\
                      Spec.safeInteger (GridCoord.col cell)) cells ->
  (coordKey r c = coordKey r' c' <-> r = r' /\ c = c') /\
  (coordKey r c ∈ (list_to_set (map cellKey cells) : gset string) <->
   GridCoord.mk r c ∈ cells).
Proof.
  intros _ _ _ _ _.
  split; [| apply elem_of_cellSet].
  split.
  - apply coordKey_inj.
  - intros [-> ->]. reflexivity.
Qed.

Lemma coordKey_identifies_coordinate_witness :
  Spec.safeInteger (-1) /\ Spec.safeInteger 12 /\
  Spec.safeInteger (-11) /\ Spec.safeInteger 2 /\
  coordKey (-1) 12 = "-1,12" /\ coordKey (-11) 2 = "-11,2" /\
  coordKey (-1) 12 <> coordKey (-11) 2 /\
  coordKey (-1) 12 ∈ (list_to_set (map cellKey [GridCoord.mk (-1) 12]) : gset string).
Proof.
  assert (H1 : Spec.safeInteger (-1)) by (unfold Spec.safeInteger, JS.MAX_SAFE_INTEGER; lia).
  assert (H2 : Spec.safeInteger 12) by (unfold Spec.safeInteger, JS.MAX_SAFE_INTEGER; lia).
  assert (H3 : Spec.safeInteger (-11)) by (unfold Spec.safeInteger, JS.MAX_SAFE_INTEGER; lia).
  assert (H4 : Spec.safeInteger 2) by (unfold Spec.safeInteger, JS.MAX_SAFE_INTEGER; lia).
  assert (Hcells : Forall (fun cell => Spec.safeInteger (GridCoord.row cell) /\
                                       Spec.safeInteger (GridCoord.col cell))
                          [GridCoord.mk (-1) 12]).
  { constructor; [split; [exact H1 | exact H2] | constructor]. }
  destruct (coordKey_identifies_coordinate (-1) 12 (-11) 2 [GridCoord.mk (-1) 12]
              H1 H2 H3 H4 Hcells) as [Hkeys Hmember].
  split; [exact H1 |]. split; [exact H2 |]. split; [exact H3 |]. split; [exact H4 |].
  split; [reflexivity |]. split; [reflexivity |].
  split; [intros Heq; apply Hkeys in Heq; lia |].
  apply Hmember. left.
Defined.

End GroupingProperties.

(* ------------------------------------------------------------------ *)
(** ** The validator *)
(* ------------------------------------------------------------------ *)

Section ValidatorProperties.
Import PatternAnalyzer OutputValidator.

Lemma range_snoc (n : Z) : 0 < n -> JS.range 0 n = JS.range 0 (n - 1) ++ [n - 1].
Proof.
  intros Hn. unfold JS.range.
  replace (Z.to_nat (n - 0)) with (S (Z.to_nat (n - 1 - 0))) by lia.
  rewrite seq_S, map_app. simpl. do 2 f_equal. lia.
Qed.

Lemma join_snoc (l : list string) (x sep : string) :
  exists s, JS.join (l ++ [x]) sep = s +:+ x.
Proof.
  unfold JS.join. induction l as [| y l IH].
  - exists "". reflexivity.
  - destruct IH as [s Hs]. exists (y +:+ sep +:+ s).
    change ((y :: l) ++ [x]) with (y :: (l ++ [x])).
    destruct (l ++ [x]) as [| z rest] eqn:Hl; [destruct l; discriminate |].
    change (String.concat sep (y :: z :: rest))
      with (y +:+ sep +:+ String.concat sep (z :: rest)).
    rewrite Hs, !append_assoc. reflexivity.
Qed.

(** The rendering of a grid whose bottom-right cell is empty ends in a
    blank. *)
Lemma toString_ends_blank (g : Grid.t) :
  0 < Grid.rows g -> 0 < Grid.cols g ->
  Cell.char (Grid.at_ g (Grid.rows g - 1) (Grid.cols g - 1)) = None ->
  exists s, Grid.toString g = s +:+ " ".
Proof.
  intros Hr Hc Hlast. unfold Grid.toString.
  rewrite (range_snoc (Grid.rows g) Hr), map_app. simpl map at 2.
  destruct (join_snoc (map (fun r =>
              foldl (fun line c =>
                line +:+ match Cell.char (Grid.at_ g r c) with
                         | Some ch => ch
                         | None => " "
                         end) "" (JS.range 0 (Grid.cols g)))
              (JS.range 0 (Grid.rows g - 1)))
             (foldl (fun line c =>
                line +:+ match Cell.char (Grid.at_ g (Grid.rows g - 1) c) with
                         | Some ch => ch
                         | None => " "
                         end) "" (JS.range 0 (Grid.cols g)))
             JS.nl) as [s Hs].
  rewrite Hs. rewrite (range_snoc (Grid.cols g) Hc), foldl_app. simpl foldl at 1.
  rewrite Hlast. eexists. rewrite <- append_assoc. reflexivity.
Qed.

(** What [trimEnd] returns does not end in white space. *)
Lemma trimEnd_last (t s : string) (ch : ascii) :
  JS.trimEnd t = s +:+ String ch "" -> JS.isWhiteSpace ch = false.
Proof.
  revert s. induction t as [| a t IH]; intros s Heq.
  - destruct s; discriminate Heq.
  - simpl in Heq. destruct (JS.trimEnd t) as [| b u] eqn:Ht.
    + destruct (JS.isWhiteSpace a) eqn:Hws.
      * destruct s; discriminate Heq.
      * destruct s as [| a' s'].
        -- change ("" +:+ String ch "") with (String ch "") in Heq.
           injection Heq as ->. exact Hws.
        -- change (String a' s' +:+ String ch "") with (String a' (s' +:+ String ch "")) in Heq.
           injection Heq as _ Heq. destruct s'; discriminate Heq.
    + destruct s as [| a' s'].
      * change ("" +:+ String ch "") with (String ch "") in Heq. discriminate Heq.
      * change (String a' s' +:+ String ch "") with (String a' (s' +:+ String ch "")) in Heq.
        injection Heq as _ Heq. exact (IH s' Heq).
Qed.

(** X11. A drawing whose bottom-right cell is empty is never validated,
    whatever the candidate output: on a grid of the shape the
    constructor gives, with at least one cell, its rendering ends in a
    blank, and the candidate is compared after [trimEnd], which cannot
    end in one. *)
Theorem validate_rejects_empty_last_cell (g : Grid.t) (out : string) :
  Spec.wellFormed g ->
  0 < Grid.rows g -> 0 < Grid.cols g ->
  Cell.char (Grid.at_ g (Grid.rows g - 1) (Grid.cols g - 1)) = None ->
  ValidationResult.valid (validate g out) = false.
Proof.
  intros _ Hr Hc Hlast. destruct (toString_ends_blank g Hr Hc Hlast) as [s Hs].
  unfold validate.
  destruct (String.eqb_spec (Grid.toString g) (JS.trimEnd out)) as [Heq | Hne];
    [| reflexivity].
  exfalso. rewrite Hs in Heq. symmetry in Heq.
  apply trimEnd_last in Heq. discriminate Heq.
Qed.

Lemma validate_rejects_empty_last_cell_witness :
  Spec.wellFormed Spec.trailingBlankGrid /\
  0 < Grid.rows Spec.trailingBlankGrid /\ 0 < Grid.cols Spec.trailingBlankGrid /\
  Cell.char (Grid.at_ Spec.trailingBlankGrid
               (Grid.rows Spec.trailingBlankGrid - 1)
               (Grid.cols Spec.trailingBlankGrid - 1)) = None /\
  ValidationResult.valid
    (validate Spec.trailingBlankGrid (Grid.toString Spec.trailingBlankGrid +:+ JS.nl)) = false.
Proof.
  assert (Hwf : Spec.wellFormed Spec.trailingBlankGrid) by apply gridOf_wellFormed.
  split; [exact Hwf |].
  split; [reflexivity |]. split; [reflexivity |]. split; [reflexivity |].
  exact (validate_rejects_empty_last_cell Spec.trailingBlankGrid _ Hwf
           eq_refl eq_refl eq_refl).
Defined.

Lemma get_beyond (s : string) (n : nat) :
  (String.length s <= n)%nat -> String.get n s = None.
Proof.
  revert n. induction s as [| a s IH]; intros n Hn; simpl; [reflexivity |].
  destruct n as [| n]; simpl in *; [lia |]. apply IH. lia.
Qed.

Lemma get_within (s : string) (n : nat) :
  (n < String.length s)%nat -> exists ch, String.get n s = Some ch.
Proof.
  revert n. induction s as [| a s IH]; intros n Hn; simpl in *; [lia |].
  destruct n as [| n]; [eauto |]. apply IH. lia.
Qed.

Lemma flat_map_nil_iff {A B} (f : A -> list B) (l : list A) :
  flat_map f l = [] <-> forall x, x ∈ l -> f x = [].
Proof.
  induction l as [| a l IH]; simpl.
  - split; [intros _ x Hx; inversion Hx | reflexivity].
  - split.
    + intros Happ. apply app_eq_nil in Happ as [Ha Hl]. intros x Hx.
      apply elem_of_cons in Hx as [-> | Hx]; [exact Ha | exact (proj1 IH Hl x Hx)].
    + intros Hall. rewrite (Hall a ltac:(left)). simpl. apply IH.
      intros x Hx. apply Hall. right. exact Hx.
Qed.

(** Past the last line and past the end of a line both texts read as
    blanks. *)
Lemma glyphAt_beyond_rows (text : string) (r c : Z) :
  len (JS.split_nl text) <= r -> Spec.glyphAt text r c = " ".
Proof.
  intros Hr. unfold Spec.glyphAt, PatternAnalyzer.len in *.
  rewrite (lookup_ge_None_2 (JS.split_nl text) (Z.to_nat r)) by lia. simpl.
  unfold JS.charOr. destruct (c <? 0); [reflexivity |].
  destruct (Z.to_nat c); reflexivity.
Qed.

Lemma charOr_beyond (line : string) (c : Z) :
  Z.of_nat (String.length line) <= c -> JS.charOr line c " " = " ".
Proof.
  intros Hc. unfold JS.charOr. destruct (c <? 0); [reflexivity |].
  rewrite get_beyond by lia. reflexivity.
Qed.

(** X12. An empty difference list means that the two texts agree up to
    blank padding, and nothing more: [computeDiff] returns no difference
    exactly when the texts show the same character at every line and
    column, a missing line or a missing column reading as a blank. In
    particular a text has no difference with itself, and texts that
    differ only by trailing blanks or trailing empty lines have none
    either. *)
Theorem computeDiff_empty_iff (expected actual : string) :
  computeDiff expected actual = [] <->
  forall r c, 0 <= r -> 0 <= c -> Spec.glyphAt expected r c = Spec.glyphAt actual r c.
Proof.
  unfold computeDiff. rewrite flat_map_nil_iff. split.
  - intros Hrows r c Hr Hc.
    destruct (Z_lt_le_dec r (Z.max (len (JS.split_nl expected)) (len (JS.split_nl actual))))
      as [Hlt | Hge].
    + assert (Hrin : r ∈ JS.range 0 (Z.max (len (JS.split_nl expected))
                                             (len (JS.split_nl actual))))
        by (apply elem_of_range; lia).
      specialize (Hrows r Hrin).
      unfold diffRow in Hrows. rewrite flat_map_nil_iff in Hrows.
      set (expLine := default "" (JS.split_nl expected !! Z.to_nat r)) in *.
      set (actLine := default "" (JS.split_nl actual !! Z.to_nat r)) in *.
      unfold Spec.glyphAt. fold expLine actLine.
      destruct (Z_lt_le_dec c (Z.max (Z.of_nat (String.length expLine))
                                     (Z.of_nat (String.length actLine)))) as [Hclt | Hcge].
      * assert (Hcin : c ∈ JS.range 0 (Z.max (Z.of_nat (String.length expLine))
                                               (Z.of_nat (String.length actLine))))
          by (apply elem_of_range; lia).
        specialize (Hrows c Hcin). simpl in Hrows.
        destruct (String.eqb_spec (JS.charOr expLine c " ") (JS.charOr actLine c " "))
          as [Heq | Hne]; [exact Heq | discriminate Hrows].
      * rewrite !charOr_beyond by lia. reflexivity.
    + rewrite !glyphAt_beyond_rows by lia. reflexivity.
  - intros Hall r Hr. apply elem_of_range in Hr.
    unfold diffRow. rewrite flat_map_nil_iff. intros c Hc. apply elem_of_range in Hc.
    simpl. specialize (Hall r c ltac:(lia) ltac:(lia)). unfold Spec.glyphAt in Hall.
    rewrite Hall, String.eqb_refl. reflexivity.
Qed.

Lemma split_nl_no_newline (s : string) :
  Forall (fun line => Spec.hasNewline line = false) (JS.split_nl s).
Proof.
  induction s as [| ch s IH]; simpl.
  - repeat constructor.
  - destruct (Ascii.eqb ch JS.LF) eqn:Hch.
    + constructor; [reflexivity | exact IH].
    + destruct (JS.split_nl s) as [| piece rest].
      * repeat constructor. simpl. rewrite Hch. reflexivity.
      * apply Forall_cons in IH as [Hp Hrest]. constructor; [| exact Hrest].
        simpl. rewrite Hch, Hp. reflexivity.
Qed.

Lemma get_no_newline (s : string) (n : nat) (ch : ascii) :
  Spec.hasNewline s = false -> String.get n s = Some ch -> Ascii.eqb ch JS.LF = false.
Proof.
  revert n. induction s as [| a s IH]; intros n Hs Hget; simpl in *; [discriminate |].
  apply orb_false_elim in Hs as [Ha Hs].
  destruct n as [| n]; [injection Hget as <-; exact Ha | exact (IH n Hs Hget)].
Qed.

(** Every character [computeDiff] reads is a single character other
    than the newline. *)
Lemma glyphAt_single (text : string) (r c : Z) :
  exists ch, Spec.glyphAt text r c = String ch "" /\ Ascii.eqb ch JS.LF = false.
Proof.
  unfold Spec.glyphAt, JS.charOr.
  destruct (c <? 0); [exists " "%char; split; reflexivity |].
  destruct (String.get (Z.to_nat c) _) as [ch |] eqn:Hget;
    [| exists " "%char; split; reflexivity].
  exists ch. split; [reflexivity |].
  destruct (JS.split_nl text !! Z.to_nat r) as [line |] eqn:Hline; simpl in Hget.
  - eapply get_no_newline; [| exact Hget].
    pose proof (split_nl_no_newline text) as Hall. rewrite Forall_forall in Hall.
    apply Hall. eapply list_elem_of_lookup_2. exact Hline.
  - destruct (Z.to_nat c); discriminate Hget.
Qed.

Lemma formatChar_single_inj (a b : ascii) :
  formatChar (String a "") = formatChar (String b "") -> a = b.
Proof.
  unfold formatChar.
  destruct (String.eqb_spec (String a "") " ") as [Ha1 | Ha1];
    destruct (String.eqb_spec (String b "") " ") as [Hb1 | Hb1];
    try congruence;
    destruct (String.eqb_spec (String a "") CodeGenerator.tab) as [Ha2 | Ha2];
    destruct (String.eqb_spec (String b "") CodeGenerator.tab) as [Hb2 | Hb2];
    try congruence; try discriminate;
    destruct (String.eqb_spec (String a "") JS.nl) as [Ha3 | Ha3];
    destruct (String.eqb_spec (String b "") JS.nl) as [Hb3 | Hb3];
    try congruence; try discriminate.
  intros Heq. vm_compute in Heq. congruence.
Qed.

(** X13. Every difference [computeDiff] reports is a real one, located
    inside the larger of the two texts: its row is below the larger line
    count, its column is not negative, its two fields are the display
    forms of the characters the texts show there, and they differ. Since
    the texts are split at newlines, the display form "(newline)" is
    never reported. *)
Theorem computeDiff_sound (expected actual : string) (d : Difference.t) :
  d ∈ computeDiff expected actual ->
  0 <= Difference.row d < Z.max (len (JS.split_nl expected)) (len (JS.split_nl actual)) /\
  0 <= Difference.col d /\
  Difference.expected d =
    formatChar (Spec.glyphAt expected (Difference.row d) (Difference.col d)) /\
  Difference.actual d =
    formatChar (Spec.glyphAt actual (Difference.row d) (Difference.col d)) /\
  Difference.expected d <> Difference.actual d /\
  Difference.expected d <> "(newline)" /\ Difference.actual d <> "(newline)".
Proof.
  unfold computeDiff. rewrite list_elem_of_In, in_flat_map.
  intros (r & Hr & Hd). rewrite <- list_elem_of_In in Hr. apply elem_of_range in Hr.
  unfold diffRow in Hd. apply in_flat_map in Hd as (c & Hc & Hd).
  rewrite <- list_elem_of_In in Hc. apply elem_of_range in Hc. simpl in Hd.
  fold (Spec.glyphAt expected r c) in Hd. fold (Spec.glyphAt actual r c) in Hd.
  destruct (String.eqb_spec (Spec.glyphAt expected r c) (Spec.glyphAt actual r c))
    as [Heq | Hne]; simpl in Hd; [contradiction |].
  destruct Hd as [<- | []]. simpl.
  destruct (glyphAt_single expected r c) as (a & Ha & HaLF).
  destruct (glyphAt_single actual r c) as (b & Hb & HbLF).
  split; [lia |]. split; [lia |]. split; [reflexivity |]. split; [reflexivity |].
  rewrite Ha, Hb in *.
  split; [intros Heq; apply formatChar_single_inj in Heq; congruence |].
  assert (Hnl : forall x, Ascii.eqb x JS.LF = false -> formatChar (String x "") <> "(newline)").
  { intros x Hx. unfold formatChar.
    destruct (String.eqb (String x "") " "); [discriminate |].
    destruct (String.eqb (String x "") CodeGenerator.tab); [discriminate |].
    destruct (String.eqb_spec (String x "") JS.nl) as [Hx' | _].
    - injection Hx' as ->. discriminate Hx.
    - intros Hc'. vm_compute in Hc'. discriminate Hc'. }
  split; apply Hnl; assumption.
Qed.

Lemma computeDiff_sound_witness :
  let d := Difference.mk 1 1 "(space)" "'#'" in
  d ∈ computeDiff ("# #" +:+ JS.nl +:+ "   ") ("# #" +:+ JS.nl +:+ " #") /\
  0 <= Difference.row d < 2 /\
  Spec.glyphAt ("# #" +:+ JS.nl +:+ "   ") 1 1 = " " /\
  Spec.glyphAt ("# #" +:+ JS.nl +:+ " #") 1 1 = "#" /\
  Difference.expected d <> Difference.actual d.
Proof.
  assert (Hd : Difference.mk 1 1 "(space)" "'#'"
                 ∈ computeDiff ("# #" +:+ JS.nl +:+ "   ") ("# #" +:+ JS.nl +:+ " #")).
  { replace (computeDiff ("# #" +:+ JS.nl +:+ "   ") ("# #" +:+ JS.nl +:+ " #"))
      with [Difference.mk 1 1 "(space)" "'#'"] by (vm_compute; reflexivity).
    left. }
  split; [exact Hd |].
  destruct (computeDiff_sound _ _ _ Hd) as (Hrow & _ & _ & _ & Hne & _).
  split; [exact Hrow |]. split; [reflexivity |]. split; [reflexivity | exact Hne].
Defined.

End ValidatorProperties.

(* ------------------------------------------------------------------ *)
(** ** The grid *)
(* ------------------------------------------------------------------ *)

Section GridProperties.
Import PatternAnalyzer.

Lemma isValidCoord_spec (g : Grid.t) (r c : Z) :
  Grid.isValidCoord g r c = true <-> 0 <= r < Grid.rows g /\ 0 <= c < Grid.cols g.
Proof.
  unfold Grid.isValidCoord. rewrite !andb_true_iff, !Z.leb_le, !Z.ltb_lt. lia.
Qed.

Lemma setCell_dims (g : Grid.t) (r c : Z) (ch : option string) (strokeId now : Z) :
  Grid.rows (fst (Grid.setCell g r c ch strokeId now)) = Grid.rows g /\
  Grid.cols (fst (Grid.setCell g r c ch strokeId now)) = Grid.cols g.
Proof.
  unfold Grid.setCell. destruct (negb _); [split; reflexivity |].
  destruct (_ || _); split; reflexivity.
Qed.

Lemma setCell_accepted (g : Grid.t) (r c : Z) (ch : option string) (strokeId now : Z) :
  snd (Grid.setCell g r c ch strokeId now) =
    (Grid.isValidCoord g r c &&
     (match ch with None => true | Some _ => false end
      || (Cell.strokeId (Grid.at_ g r c) <=? strokeId))).
Proof.
  unfold Grid.setCell. destruct (Grid.isValidCoord g r c); simpl; [| reflexivity].
  destruct (_ || _); reflexivity.
Qed.

(** Reading after a write. *)
Lemma getCell_setCell (g : Grid.t) (r c : Z) (ch : option string)
    (strokeId now r' c' : Z) :
  Spec.wellFormed g ->
  Grid.getCell (fst (Grid.setCell g r c ch strokeId now)) r' c' =
    (if snd (Grid.setCell g r c ch strokeId now) && (r' =? r) && (c' =? c)
     then Some (Cell.mk ch strokeId now)
     else Grid.getCell g r' c').
Proof.
  intros Hwf. unfold Grid.setCell.
  destruct (Grid.isValidCoord g r c) eqn:Hvalid; simpl; [| reflexivity].
  destruct (match ch with None => true | Some _ => false end
            || (Cell.strokeId (Grid.at_ g r c) <=? strokeId)) eqn:Hacc; simpl;
    [| reflexivity].
  unfold Grid.getCell, Grid.isValidCoord. simpl.
  fold (Grid.isValidCoord g r' c').
  destruct (Grid.isValidCoord g r' c') eqn:Hvalid'.
  2: { destruct (Z.eqb_spec r' r) as [-> |]; [| reflexivity].
       destruct (Z.eqb_spec c' c) as [-> |]; [| reflexivity]. congruence. }
  apply isValidCoord_spec in Hvalid, Hvalid'.
  destruct Hwf as [Hrows Hcols]. rewrite Forall_forall in Hcols.
  unfold Grid.at_. simpl.
  destruct (Z.eqb_spec r' r) as [-> | Hr]; simpl.
  - rewrite list_lookup_alter_eq.
    destruct (lookup_lt_is_Some_2 (Grid.cells g) (Z.to_nat r)) as [line Hline]; [lia |].
    rewrite Hline. simpl.
    pose proof (Hcols line (list_elem_of_lookup_2 _ _ _ Hline)) as Hlen.
    destruct (Z.eqb_spec c' c) as [-> | Hc].
    + rewrite list_lookup_insert_eq by lia. reflexivity.
    + rewrite list_lookup_insert_ne by lia. reflexivity.
  - rewrite list_lookup_alter_ne by lia. reflexivity.
Qed.

(** X14. Writing then reading a cell. On a grid of the shape the
    constructor gives, [setCell] keeps the dimensions and the shape; it
    answers true exactly when the coordinate is valid and the write is
    an erase or carries a stroke number not below the stored one; and
    afterwards [getCell] returns the written cell at the written
    coordinate when the write was accepted, and what it returned before
    everywhere else: a refused write changes nothing. *)
Theorem setCell_then_getCell (g : Grid.t) (r c : Z) (ch : option string)
    (strokeId now r' c' : Z) :
  Spec.wellFormed g ->
  let g' := fst (Grid.setCell g r c ch strokeId now) in
  let accepted := snd (Grid.setCell g r c ch strokeId now) in
  Spec.wellFormed g' /\ Grid.rows g' = Grid.rows g /\ Grid.cols g' = Grid.cols g /\
  accepted =
    (Grid.isValidCoord g r c &&
     (match ch with None => true | Some _ => false end
      || (Cell.strokeId (Grid.at_ g r c) <=? strokeId))) /\
  Grid.getCell g' r' c' =
    (if accepted && (r' =? r) && (c' =? c) then Some (Cell.mk ch strokeId now)
     else Grid.getCell g r' c').
Proof.
  intros Hwf. simpl.
  split; [apply setCell_wellFormed; exact Hwf |].
  split; [apply setCell_dims |]. split; [apply setCell_dims |].
  split; [apply setCell_accepted |].
  apply getCell_setCell. exact Hwf.
Qed.

Lemma setCell_then_getCell_witness :
  Spec.wellFormed (Grid.new 2 2) /\
  Grid.getCell (fst (Grid.setCell (Grid.new 2 2) 1 0 (Some "#") 3 7)) 1 0 =
    Some (Cell.mk (Some "#") 3 7) /\
  Grid.getCell (fst (Grid.setCell (Grid.new 2 2) 1 0 (Some "#") 3 7)) 0 1 =
    Some Grid.emptyCell /\
  Grid.getCell (fst (Grid.setCell (Grid.new 2 2) 1 0 (Some "#") (-2) 7)) 1 0 =
    Some Grid.emptyCell.
Proof.
  split; [apply new_wellFormed |].
  split; [exact (proj2 (proj2 (proj2 (proj2
            (setCell_then_getCell (Grid.new 2 2) 1 0 (Some "#") 3 7 1 0
               (new_wellFormed 2 2)))))) |].
  split; reflexivity.
Defined.

Lemma scan_cells {A} (step : A -> GridCoord.t -> A) (w : Z) (rows : list Z) (acc : A) :
  foldl (fun acc r => foldl (fun acc c => step acc (GridCoord.mk r c)) acc (JS.range 0 w))
        acc rows =
  foldl step acc (flat_map (fun r => map (fun c => GridCoord.mk r c) (JS.range 0 w)) rows).
Proof.
  revert acc. induction rows as [| r rows IH]; intros acc; simpl; [reflexivity |].
  rewrite foldl_app, foldl_fmap. apply IH.
Qed.

Lemma getOccupiedCells_pairs (g : Grid.t) :
  map (fun o => (OccupiedCell.char o,
                 GridCoord.mk (OccupiedCell.row o) (OccupiedCell.col o)))
      (Grid.getOccupiedCells g) = Spec.occupiedPairs g.
Proof.
  unfold Grid.getOccupiedCells, Spec.occupiedPairs.
  rewrite (scan_cells (fun occupied cell =>
             match Spec.symbolAt g cell with
             | Some ch => occupied ++ [OccupiedCell.mk (GridCoord.row cell) (GridCoord.col cell) ch]
             | None => occupied
             end)).
  fold (Spec.allCells (Grid.rows g) (Grid.cols g)).
  assert (Hgen : forall cells acc,
    map (fun o => (OccupiedCell.char o,
                   GridCoord.mk (OccupiedCell.row o) (OccupiedCell.col o)))
        (foldl (fun occupied cell =>
                  match Spec.symbolAt g cell with
                  | Some ch => occupied ++ [OccupiedCell.mk (GridCoord.row cell)
                                              (GridCoord.col cell) ch]
                  | None => occupied
                  end) acc cells) =
    map (fun o => (OccupiedCell.char o,
                   GridCoord.mk (OccupiedCell.row o) (OccupiedCell.col o))) acc
    ++ flat_map (Spec.pairOf g) cells).
  { induction cells as [| cell cells IH]; intros acc; simpl.
    - rewrite app_nil_r. reflexivity.
    - rewrite IH. unfold Spec.pairOf at 2.
      destruct (Spec.symbolAt g cell) as [ch |]; [| reflexivity].
      rewrite map_app, <- app_assoc. simpl. destruct cell. reflexivity. }
  rewrite Hgen. reflexivity.
Qed.

Lemma getOccupiedCount_pairs (g : Grid.t) :
  Grid.getOccupiedCount g = len (Spec.occupiedPairs g).
Proof.
  unfold Grid.getOccupiedCount, Spec.occupiedPairs.
  rewrite (scan_cells (fun count cell =>
             match Spec.symbolAt g cell with
             | Some _ => count + 1
             | None => count
             end)).
  fold (Spec.allCells (Grid.rows g) (Grid.cols g)).
  assert (Hgen : forall cells acc,
    foldl (fun count cell =>
             match Spec.symbolAt g cell with
             | Some _ => count + 1
             | None => count
             end) acc cells = acc + len (flat_map (Spec.pairOf g) cells)).
  { induction cells as [| cell cells IH]; intros acc; simpl.
    - unfold len. simpl. lia.
    - rewrite IH. unfold Spec.pairOf at 2, len.
      destruct (Spec.symbolAt g cell) as [ch |]; simpl; lia. }
  rewrite Hgen. lia.
Qed.

(** The lists of a grouping by key hold every pair once. *)
Lemma total_valuesOf {V} (kvs : list (string * V)) :
  Spec.total (map (fun k => len (Spec.valuesOf String.eqb kvs k))
                  (Spec.distinct String.eqb (map fst kvs))) = len kvs.
Proof.
  remember (length kvs) as n eqn:Hn. revert kvs Hn.
  induction n as [n IH] using lt_wf_ind. intros kvs Hn.
  destruct kvs as [| [k0 v0] kvs]; [reflexivity |].
  simpl map. simpl Spec.distinct. simpl Spec.total.
  set (rest := List.filter (fun kv => negb (String.eqb (fst kv) k0)) kvs).
  assert (Hkeys : List.filter (fun y => negb (String.eqb y k0))
                    (Spec.distinct String.eqb (map fst kvs))
                  = Spec.distinct String.eqb (map fst rest)).
  { subst rest. clear. induction kvs as [| [k v] kvs IHk]; simpl; [reflexivity |].
    destruct (String.eqb k k0) eqn:Hk; simpl.
    - apply String.eqb_eq in Hk. subst k. rewrite <- IHk.
      clear. induction (Spec.distinct String.eqb (map fst kvs)) as [| y l IHl];
        simpl; [reflexivity |].
      destruct (String.eqb y k0) eqn:Hy; simpl; [exact IHl |].
      rewrite Hy. simpl. f_equal. exact IHl.
    - f_equal. rewrite <- IHk.
      clear. induction (Spec.distinct String.eqb (map fst kvs)) as [| y l IHl];
        simpl; [reflexivity |].
      destruct (String.eqb y k) eqn:Hy; destruct (String.eqb y k0) eqn:Hy0; simpl;
        rewrite ?Hy, ?Hy0; simpl; rewrite ?IHl; reflexivity. }
  rewrite Hkeys.
  assert (Hvals : forall k, k ∈ Spec.distinct String.eqb (map fst rest) ->
            Spec.valuesOf String.eqb ((k0, v0) :: kvs) k = Spec.valuesOf String.eqb rest k).
  { intros k Hk. apply (proj1 (distinct_elem_of String.eqb String_eqb_eq _ _)) in Hk.
    apply list_elem_of_fmap in Hk as ([k' v'] & -> & Hin). simpl.
    subst rest. apply list_elem_of_In, filter_In in Hin as [_ Hne]. simpl in Hne.
    unfold Spec.valuesOf. simpl.
    assert (Hk0 : String.eqb k0 k' = false).
    { rewrite String.eqb_sym. destruct (String.eqb k' k0); [discriminate | reflexivity]. }
    rewrite Hk0. f_equal.
    clear -Hne. induction kvs as [| [k v] kvs IHk]; simpl; [reflexivity |].
    destruct (String.eqb k k0) eqn:Hkk; simpl.
    + apply String.eqb_eq in Hkk. subst k.
      destruct (String.eqb k0 k') eqn:Hkk'; [| exact IHk].
      apply String.eqb_eq in Hkk'. subst k'. rewrite String.eqb_refl in Hne. discriminate.
    + destruct (String.eqb k k'); simpl; rewrite IHk; reflexivity. }
  rewrite (map_ext_in _ (fun k => len (Spec.valuesOf String.eqb rest k)));
    [| intros k Hk; rewrite Hvals; [reflexivity | apply list_elem_of_In; exact Hk]].
  assert (Hlen : (length rest < n)%nat).
  { subst n rest. simpl. pose proof (List.filter_length_le
      (fun kv : string * V => negb (String.eqb (fst kv) k0)) kvs). lia. }
  rewrite (IH (length rest) Hlen rest eq_refl).
  unfold Spec.valuesOf, len. simpl. rewrite String.eqb_refl. simpl.
  rewrite !length_map. subst rest.
  pose proof (List.filter_length (fun kv : string * V => String.eqb (fst kv) k0) kvs) as Hsplit.
  rewrite <- Hsplit. lia.
Qed.

(** X15. The three ways the grid counts its occupied cells agree, on a
    grid of the shape the constructor gives: [getOccupiedCount] is the
    number of objects [getOccupiedCells] returns, and it is the total
    length of the lists of [getCellsByChar], so every occupied cell
    falls in exactly one group; the objects of [getOccupiedCells] are
    the occupied cells with their symbols in row-major order. *)
Theorem occupied_counts_agree (g : Grid.t) :
  Spec.wellFormed g ->
  Grid.getOccupiedCount g = len (Grid.getOccupiedCells g) /\
  Grid.getOccupiedCount g =
    Spec.total (map (fun entry => len (snd entry)) (Grid.getCellsByChar g)) /\
  map (fun o => (OccupiedCell.char o,
                 GridCoord.mk (OccupiedCell.row o) (OccupiedCell.col o)))
      (Grid.getOccupiedCells g) = Spec.occupiedPairs g.
Proof.
  intros _.
  pose proof (getOccupiedCells_pairs g) as Hcells.
  split; [| split; [| exact Hcells]].
  - rewrite getOccupiedCount_pairs, <- Hcells. unfold len. rewrite length_map. reflexivity.
  - rewrite getOccupiedCount_pairs, getCellsByChar_table, map_map. simpl.
    symmetry. apply total_valuesOf.
Qed.

Lemma occupied_counts_agree_witness :
  Spec.wellFormed Spec.blockAndDots /\
  Grid.getOccupiedCount Spec.blockAndDots = 6 /\
  map (fun entry => len (snd entry)) (Grid.getCellsByChar Spec.blockAndDots) = [2; 4].
Proof.
  assert (Hwf : Spec.wellFormed Spec.blockAndDots) by exact (proj1 blockAndDots_sized).
  split; [exact Hwf |].
  destruct (occupied_counts_agree Spec.blockAndDots Hwf) as (_ & Htotal & _).
  assert (Hlens : map (fun entry => len (snd entry)) (Grid.getCellsByChar Spec.blockAndDots)
                  = [2; 4]) by (vm_compute; reflexivity).
  split; [rewrite Htotal, Hlens; reflexivity | exact Hlens].
Defined.

End GridProperties.

(* ------------------------------------------------------------------ *)
(** ** The frame manager *)
(* ------------------------------------------------------------------ *)

Section FrameProperties.
Import PatternAnalyzer.


Lemma new_shaped (rows cols : Z) : Spec.shaped rows cols (Grid.new rows cols).
Proof. split; [reflexivity |]. split; [reflexivity | apply new_wellFormed]. Qed.

Lemma clear_shaped (rows cols : Z) (g : Grid.t) :
  Spec.shaped rows cols g -> Spec.shaped rows cols (Grid.clear g).
Proof.
  intros (Hr & Hc & _). split; [exact Hr |]. split; [exact Hc |].
  exact (new_wellFormed (Grid.rows g) (Grid.cols g)).
Qed.

Lemma setCell_shaped (rows cols : Z) (g : Grid.t) (r c : Z) (ch : option string)
    (strokeId now : Z) :
  Spec.shaped rows cols g -> Spec.shaped rows cols (fst (Grid.setCell g r c ch strokeId now)).
Proof.
  intros (Hr & Hc & Hwf). destruct (setCell_dims g r c ch strokeId now) as [Hr' Hc'].
  split; [congruence |]. split; [congruence |]. apply setCell_wellFormed. exact Hwf.
Qed.

Lemma copyCells_shaped (clock : Z -> Z -> Z) (prev : Grid.t) (rowsN colsN rows cols : Z)
    (g : Grid.t) :
  Spec.shaped rows cols g ->
  Spec.shaped rows cols (FrameManager.copyCells clock prev rowsN colsN g).
Proof.
  intros Hg. unfold FrameManager.copyCells.
  apply foldl_invariant; [exact Hg |]. intros g1 r Hg1.
  apply foldl_invariant; [exact Hg1 |]. intros g2 c Hg2.
  destruct (Grid.getCell prev r c) as [cell |]; [| exact Hg2].
  destruct (Cell.char cell) as [ch |]; [| exact Hg2].
  destruct (JS.truthy ch); [| exact Hg2]. apply setCell_shaped. exact Hg2.
Qed.

Lemma loadGrid_shaped (clock : nat -> Z) (frameData : list SavedFrame.t) (rows cols : Z) :
  Spec.shaped rows cols (FrameManager.loadGrid clock frameData rows cols).
Proof.
  unfold FrameManager.loadGrid. apply foldl_invariant; [apply new_shaped |].
  intros g [cell now] Hg. apply setCell_shaped. exact Hg.
Qed.

Lemma notify_invariant (frames : list Grid.t) (index rows cols : Z) (notified : list (Z * Z)) :
  0 <= index < len frames ->
  Forall (Spec.shaped rows cols) frames ->
  Forall (fun n => 0 <= fst n < snd n) notified ->
  Spec.frameInvariant (FrameManager.notify (FrameManager.mk frames index rows cols notified)).
Proof.
  intros Hidx Hframes Hnot. unfold Spec.frameInvariant, FrameManager.notify. simpl.
  split; [exact Hidx |]. split; [exact Hframes |].
  apply Forall_app. split; [exact Hnot |]. repeat constructor; simpl; lia.
Qed.

Lemma addFrame_invariant (clock : Z -> Z -> Z) (copyPrevious : bool) (m : FrameManager.t) :
  Forall (Spec.shaped (FrameManager.rows m) (FrameManager.cols m)) (FrameManager.frames m) ->
  Forall (fun n => 0 <= fst n < snd n) (FrameManager.notified m) ->
  Spec.frameInvariant (FrameManager.addFrame clock copyPrevious m).
Proof.
  intros Hframes Hnot. unfold FrameManager.addFrame.
  apply notify_invariant; [| | exact Hnot].
  - unfold len. rewrite length_app. simpl. lia.
  - apply Forall_app. split; [exact Hframes |]. constructor; [| constructor].
    destruct (copyPrevious && _); [| apply new_shaped].
    destruct (last (FrameManager.frames m)); [| apply new_shaped].
    apply copyCells_shaped, new_shaped.
Qed.

Lemma frameStep_invariant (m : FrameManager.t) (op : Spec.frameOp) :
  Spec.frameInvariant m ->
  exists m', Spec.frameStep m op = JS.Ok m' /\ Spec.frameInvariant m'.
Proof.
  intros Hinv. destruct m as [frames index rows cols notified].
  pose proof Hinv as (Hidx & Hframes & Hnot).
  simpl in Hidx, Hframes, Hnot. destruct op as [i | | | clock copy | | clock rows' cols' | clock data rows' cols'];
    simpl.
  - eexists. split; [reflexivity |]. unfold FrameManager.gotoFrame. simpl.
    destruct (i >=? 0) eqn:H0; simpl; [| exact Hinv].
    destruct (i <? len frames) eqn:H1; [| exact Hinv].
    apply notify_invariant; try assumption. lia.
  - eexists. split; [reflexivity |]. unfold FrameManager.nextFrame. simpl.
    destruct (index <? len frames - 1) eqn:H1; [| exact Hinv].
    apply notify_invariant; try assumption. lia.
  - eexists. split; [reflexivity |]. unfold FrameManager.prevFrame. simpl.
    destruct (index >? 0) eqn:H1; [| exact Hinv].
    apply notify_invariant; try assumption. lia.
  - eexists. split; [reflexivity |]. apply addFrame_invariant; assumption.
  - unfold FrameManager.deleteCurrentFrame. simpl.
    destruct (len frames <=? 1) eqn:Hone.
    + destruct frames as [| first rest]; [unfold len in Hidx; simpl in Hidx; lia |].
      eexists. split; [reflexivity |].
      apply Forall_cons in Hframes as [Hfirst Hrest].
      apply notify_invariant; [| | exact Hnot].
      * unfold len in *. simpl in *. lia.
      * constructor; [apply clear_shaped; exact Hfirst | exact Hrest].
    + eexists. split; [reflexivity |].
      assert (Hsplice : JS.splice1 frames index = delete (Z.to_nat index) frames).
      { unfold JS.splice1. fold (len frames).
        destruct (index <? 0) eqn:Hneg; [lia |]. f_equal. lia. }
      assert (Hlen : len (JS.splice1 frames index) = len frames - 1).
      { rewrite Hsplice. unfold len in *. rewrite length_delete.
        - lia.
        - apply lookup_lt_is_Some_2. lia. }
      apply notify_invariant; [| | exact Hnot].
      * rewrite Hlen.
        destruct (index >=? len frames - 1) eqn:Hlast; lia.
      * rewrite Hsplice. apply Forall_delete. exact Hframes.
  - eexists. split; [reflexivity |]. unfold FrameManager.resize. simpl.
    apply notify_invariant; [| | exact Hnot].
    + unfold len in *. rewrite length_imap. exact Hidx.
    + apply Forall_forall. intros g Hg.
      apply elem_of_lookup_imap_1 in Hg as (i & old & -> & _).
      apply copyCells_shaped, new_shaped.
  - eexists. split; [reflexivity |]. unfold FrameManager.loadFrames. simpl.
    assert (Hloaded : Forall (Spec.shaped rows' cols')
              (imap (fun i frameData => FrameManager.loadGrid (clock i) frameData rows' cols')
                    data)).
    { apply Forall_forall. intros g Hg.
      apply elem_of_lookup_imap_1 in Hg as (i & frameData & -> & _).
      apply loadGrid_shaped. }
    destruct (len (imap _ data) =? 0) eqn:Hempty.
    + pose proof (addFrame_invariant (fun _ _ => 0) false
        (FrameManager.mk (imap (fun i frameData =>
            FrameManager.loadGrid (clock i) frameData rows' cols') data)
          index rows' cols' notified) Hloaded Hnot) as (Hi & Hf & Hn).
      apply notify_invariant; [| exact Hf | exact Hn].
      unfold FrameManager.addFrame, len in *. simpl in *. rewrite length_app in *.
      simpl in *. lia.
    + simpl. apply notify_invariant; [| exact Hloaded | exact Hnot].
      unfold len in *. lia.
Qed.

(** X16. The frame manager never loses its footing: after any sequence
    of navigation, add, copy, delete, resize and load operations on a
    manager made by the constructor, no operation has raised, there is
    at least one frame, the current index points at a frame,
    [getCurrentGrid] returns a grid, every frame has the manager's
    dimensions and the shape the constructor gives, and every
    notification carried an index below the frame count it carried. *)
Theorem frame_manager_invariant (rows cols : Z) (ops : list Spec.frameOp) :
  exists m,
    Spec.frameRun ops (FrameManager.new rows cols) = JS.Ok m /\
    Spec.frameInvariant m /\
    exists g,
      FrameManager.getCurrentGrid m = Some g /\
      Spec.shaped (FrameManager.rows m) (FrameManager.cols m) g.
Proof.
  assert (Hnew : Spec.frameInvariant (FrameManager.new rows cols)).
  { apply addFrame_invariant; constructor. }
  revert Hnew. generalize (FrameManager.new rows cols).
  induction ops as [| op ops IH]; intros m Hinv; simpl.
  - exists m. split; [reflexivity |]. split; [exact Hinv |].
    destruct Hinv as (Hidx & Hframes & _).
    unfold FrameManager.getCurrentGrid, FrameManager.frameAt.
    destruct (FrameManager.currentFrameIndex m <? 0) eqn:Hneg; [lia |].
    destruct (lookup_lt_is_Some_2 (FrameManager.frames m)
                (Z.to_nat (FrameManager.currentFrameIndex m))) as [g Hg];
      [unfold len in Hidx; lia |].
    exists g. split; [exact Hg |].
    rewrite Forall_forall in Hframes. apply Hframes.
    eapply list_elem_of_lookup_2. exact Hg.
  - destruct (frameStep_invariant m op Hinv) as (m' & Hstep & Hinv').
    rewrite Hstep. apply IH. exact Hinv'.
Qed.

End FrameProperties.

(* ------------------------------------------------------------------ *)
(** ** The copy loops *)
(* ------------------------------------------------------------------ *)

Section CopyLoops.
Import PatternAnalyzer.

Lemma applyWrites_wellFormed (g : Grid.t) (ws : list Spec.write) :
  Spec.wellFormed g -> Spec.wellFormed (Spec.applyWrites g ws).
Proof.
  intros Hg. unfold Spec.applyWrites. apply foldl_invariant; [exact Hg |].
  intros g' w Hg'. apply setCell_wellFormed. exact Hg'.
Qed.

Lemma applyWrites_dims (g : Grid.t) (ws : list Spec.write) :
  Grid.rows (Spec.applyWrites g ws) = Grid.rows g /\
  Grid.cols (Spec.applyWrites g ws) = Grid.cols g.
Proof.
  unfold Spec.applyWrites.
  apply (foldl_invariant (fun g' => Grid.rows g' = Grid.rows g /\ Grid.cols g' = Grid.cols g));
    [split; reflexivity |].
  intros g' w [Hr Hc]. unfold Spec.applyWrite.
  destruct (setCell_dims g' (Spec.writeRow w) (Spec.writeCol w) (Some (Spec.writeChar w))
              (Spec.writeStroke w) (Spec.writeTime w)) as [Hr' Hc'].
  split; congruence.
Qed.

Lemma getCell_valid (g : Grid.t) (r c : Z) :
  Grid.getCell g r c = if Grid.isValidCoord g r c then Some (Grid.at_ g r c) else None.
Proof. reflexivity. Qed.

Lemma writeTo_none (ws : list Spec.write) (r c : Z) :
  (r, c) ∉ map (fun w => (Spec.writeRow w, Spec.writeCol w)) ws ->
  Spec.writeTo ws r c = None.
Proof.
  unfold Spec.writeTo. induction ws as [| w ws IH]; simpl; [reflexivity |].
  intros Hnot. apply not_elem_of_cons in Hnot as [Hne Hnot].
  destruct (Z.eqb_spec (Spec.writeRow w) r) as [Hr |]; simpl; [| exact (IH Hnot)].
  destruct (Z.eqb_spec (Spec.writeCol w) c) as [Hc |]; [| exact (IH Hnot)].
  subst. contradiction.
Qed.

(** Reading after a run of writes to pairwise distinct coordinates:
    only the write addressed to the coordinate counts. *)
Lemma getCell_applyWrites (g : Grid.t) (ws : list Spec.write) (r c : Z) :
  Spec.wellFormed g ->
  NoDup (map (fun w => (Spec.writeRow w, Spec.writeCol w)) ws) ->
  Grid.getCell (Spec.applyWrites g ws) r c =
    match Spec.writeTo ws r c with
    | Some w =>
        if Grid.isValidCoord g r c && (Cell.strokeId (Grid.at_ g r c) <=? Spec.writeStroke w)
        then Some (Cell.mk (Some (Spec.writeChar w)) (Spec.writeStroke w) (Spec.writeTime w))
        else Grid.getCell g r c
    | None => Grid.getCell g r c
    end.
Proof.
  revert g. induction ws as [| w ws IH]; intros g Hwf Hnd; [reflexivity |].
  simpl in Hnd. apply NoDup_cons in Hnd as [Hfresh Hnd].
  change (Spec.applyWrites g (w :: ws)) with (Spec.applyWrites (Spec.applyWrite g w) ws).
  rewrite (IH (Spec.applyWrite g w) (setCell_wellFormed _ _ _ _ _ _ Hwf) Hnd).
  unfold Spec.applyWrite.
  pose proof (getCell_setCell g (Spec.writeRow w) (Spec.writeCol w)
                (Some (Spec.writeChar w)) (Spec.writeStroke w) (Spec.writeTime w) r c Hwf)
    as Hget.
  rewrite setCell_accepted in Hget. simpl in Hget.
  unfold Spec.writeTo. simpl. fold (Spec.writeTo ws r c).
  destruct (Z.eqb_spec (Spec.writeRow w) r) as [Hr | Hr]; simpl.
  - destruct (Z.eqb_spec (Spec.writeCol w) c) as [Hc | Hc]; simpl.
    + subst r c. rewrite (writeTo_none ws _ _ Hfresh), Hget, !Z.eqb_refl, !andb_true_r.
      reflexivity.
    + assert (Hsame : Grid.getCell (fst (Grid.setCell g (Spec.writeRow w) (Spec.writeCol w)
                          (Some (Spec.writeChar w)) (Spec.writeStroke w) (Spec.writeTime w)))
                        r c = Grid.getCell g r c).
      { rewrite Hget. destruct (Z.eqb_spec c (Spec.writeCol w)); [congruence |].
        rewrite andb_false_r. reflexivity. }
      rewrite Hsame. rewrite !getCell_valid in Hsame.
      destruct (setCell_dims g (Spec.writeRow w) (Spec.writeCol w) (Some (Spec.writeChar w))
                  (Spec.writeStroke w) (Spec.writeTime w)) as [Hdr Hdc].
      assert (Hv : Grid.isValidCoord (fst (Grid.setCell g (Spec.writeRow w) (Spec.writeCol w)
                     (Some (Spec.writeChar w)) (Spec.writeStroke w) (Spec.writeTime w))) r c
                   = Grid.isValidCoord g r c).
      { unfold Grid.isValidCoord. rewrite Hdr, Hdc. reflexivity. }
      rewrite Hv in *. destruct (Grid.isValidCoord g r c); [| reflexivity].
      injection Hsame as ->. reflexivity.
  - assert (Hsame : Grid.getCell (fst (Grid.setCell g (Spec.writeRow w) (Spec.writeCol w)
                        (Some (Spec.writeChar w)) (Spec.writeStroke w) (Spec.writeTime w)))
                      r c = Grid.getCell g r c).
    { rewrite Hget. destruct (Z.eqb_spec r (Spec.writeRow w)); [congruence |].
      rewrite andb_false_r. reflexivity. }
    rewrite Hsame. rewrite !getCell_valid in Hsame.
    destruct (setCell_dims g (Spec.writeRow w) (Spec.writeCol w) (Some (Spec.writeChar w))
                (Spec.writeStroke w) (Spec.writeTime w)) as [Hdr Hdc].
    assert (Hv : Grid.isValidCoord (fst (Grid.setCell g (Spec.writeRow w) (Spec.writeCol w)
                   (Some (Spec.writeChar w)) (Spec.writeStroke w) (Spec.writeTime w))) r c
                 = Grid.isValidCoord g r c).
    { unfold Grid.isValidCoord. rewrite Hdr, Hdc. reflexivity. }
    rewrite Hv in *. destruct (Grid.isValidCoord g r c); [| reflexivity].
    injection Hsame as ->. reflexivity.
Qed.

Lemma lookup_repeat {A} (x : A) (n i : nat) :
  repeat x n !! i = if (i <? n)%nat then Some x else None.
Proof.
  revert i. induction n as [| n IH]; intros i; simpl; [destruct i; reflexivity |].
  destruct i as [| i]; [reflexivity |]. simpl. rewrite IH.
  change (S i <? S n)%nat with (i <? n)%nat. reflexivity.
Qed.

(** A fresh grid holds the empty cell everywhere. *)
Lemma at_new (rows cols r c : Z) : Grid.at_ (Grid.new rows cols) r c = Grid.emptyCell.
Proof.
  unfold Grid.at_, Grid.new, Grid.createEmptyGrid. simpl.
  rewrite lookup_repeat. destruct (_ <? _)%nat; simpl; [| reflexivity].
  rewrite lookup_repeat. destruct (_ <? _)%nat; reflexivity.
Qed.

Lemma at_clear (g : Grid.t) (r c : Z) : Grid.at_ (Grid.clear g) r c = Grid.emptyCell.
Proof. exact (at_new (Grid.rows g) (Grid.cols g) r c). Qed.

(** The loops of the model are runs of writes. *)
Lemma moveCells_writes (clock : Z -> Z -> Z) (target : Z -> Z -> Z * Z) (source : Grid.t)
    (rowsN colsN : Z) (destination : Grid.t) :
  CanvasManager.moveCells clock target source rowsN colsN destination =
  Spec.applyWrites destination
    (flat_map (Spec.movedWrite clock target source) (Spec.allCells rowsN colsN)).
Proof.
  unfold CanvasManager.moveCells, Spec.allCells.
  generalize (JS.range 0 rowsN) as rows. generalize (JS.range 0 colsN) as cols.
  intros cols rows. revert destination.
  induction rows as [| r rows IH]; intros destination; simpl; [reflexivity |].
  rewrite flat_map_app. unfold Spec.applyWrites at 1. rewrite foldl_app.
  fold (Spec.applyWrites destination
          (flat_map (Spec.movedWrite clock target source)
             (map (fun c => GridCoord.mk r c) cols))).
  rewrite IH. unfold Spec.applyWrites at 2. f_equal.
  clear IH. revert destination.
  induction cols as [| c cols IHc]; intros destination; simpl; [reflexivity |].
  unfold Spec.applyWrites. rewrite foldl_app.
  fold (Spec.applyWrites destination
          (Spec.movedWrite clock target source (GridCoord.mk r c))).
  rewrite IHc. unfold Spec.applyWrites at 1. f_equal.
  unfold Spec.movedWrite. simpl.
  destruct (Grid.getCell source r c) as [cell |]; [| reflexivity].
  destruct (Cell.char cell) as [ch |]; [| reflexivity].
  destruct (JS.truthy ch); reflexivity.
Qed.

Lemma copyCells_moveCells (clock : Z -> Z -> Z) (prev : Grid.t) (rowsN colsN : Z)
    (newGrid : Grid.t) :
  FrameManager.copyCells clock prev rowsN colsN newGrid =
  CanvasManager.moveCells clock (fun r c => (r, c)) prev rowsN colsN newGrid.
Proof. reflexivity. Qed.

(** A scanned cell issues no write, or one write addressed to its
    target. *)
Lemma movedWrite_cases (clock : Z -> Z -> Z) (target : Z -> Z -> Z * Z) (source : Grid.t)
    (cell : GridCoord.t) :
  Spec.movedWrite clock target source cell = [] \/
  exists w, Spec.movedWrite clock target source cell = [w] /\
            (Spec.writeRow w, Spec.writeCol w)
            = target (GridCoord.row cell) (GridCoord.col cell).
Proof.
  unfold Spec.movedWrite.
  destruct (Grid.getCell source _ _) as [stored |]; [| left; reflexivity].
  destruct (Cell.char stored) as [ch |]; [| left; reflexivity].
  destruct (JS.truthy ch); [| left; reflexivity].
  right. eexists. split; [reflexivity |]. simpl. destruct (target _ _); reflexivity.
Qed.

(** The targets of the writes of a scan are pairwise distinct when the
    target map is one-to-one on the scanned cells. *)
Lemma NoDup_moved_targets (clock : Z -> Z -> Z) (target : Z -> Z -> Z * Z) (source : Grid.t)
    (cells : list GridCoord.t) :
  NoDup cells ->
  (forall x y, x ∈ cells -> y ∈ cells ->
     target (GridCoord.row x) (GridCoord.col x) = target (GridCoord.row y) (GridCoord.col y) ->
     x = y) ->
  NoDup (map (fun w => (Spec.writeRow w, Spec.writeCol w))
             (flat_map (Spec.movedWrite clock target source) cells)).
Proof.
  induction cells as [| cell cells IH]; intros Hnd Hinj; simpl; [constructor |].
  apply NoDup_cons in Hnd as [Hfresh Hnd].
  assert (IH' : NoDup (map (fun w => (Spec.writeRow w, Spec.writeCol w))
                         (flat_map (Spec.movedWrite clock target source) cells))).
  { apply IH; [exact Hnd |]. intros x y Hx Hy. apply Hinj; right; assumption. }
  destruct (movedWrite_cases clock target source cell) as [-> | (w & -> & Hw)];
    [exact IH' |].
  simpl. apply NoDup_cons. split; [| exact IH'].
  intros Hin. apply list_elem_of_fmap in Hin as (w' & Heq & Hw').
  apply list_elem_of_In, in_flat_map in Hw' as (cell' & Hcell' & Hw').
  apply list_elem_of_In in Hcell'.
  destruct (movedWrite_cases clock target source cell') as [Hnil | (w'' & Hone & Hw'')].
  - rewrite Hnil in Hw'. contradiction.
  - rewrite Hone in Hw'. destruct Hw' as [<- | []].
    assert (cell = cell').
    { apply Hinj; [left | right; exact Hcell' | congruence]. }
    subst cell'. contradiction.
Qed.

Lemma find_app_first {A} (f : A -> bool) (l1 l2 : list A) :
  List.find f (l1 ++ l2) =
    match List.find f l1 with
    | Some x => Some x
    | None => List.find f l2
    end.
Proof.
  induction l1 as [| x l1 IH]; simpl; [reflexivity |].
  destruct (f x); [reflexivity | exact IH].
Qed.

(** The write a scan addresses to a coordinate comes from the one
    scanned cell the target map sends there. *)
Lemma writeTo_moved (clock : Z -> Z -> Z) (target : Z -> Z -> Z * Z) (source : Grid.t)
    (cells : list GridCoord.t) (r c r0 c0 : Z) :
  (forall cell, cell ∈ cells ->
     (target (GridCoord.row cell) (GridCoord.col cell) = (r, c) <->
      cell = GridCoord.mk r0 c0)) ->
  (GridCoord.mk r0 c0 ∈ cells ->
   Spec.writeTo (flat_map (Spec.movedWrite clock target source) cells) r c =
     head (Spec.movedWrite clock target source (GridCoord.mk r0 c0))) /\
  (GridCoord.mk r0 c0 ∉ cells ->
   Spec.writeTo (flat_map (Spec.movedWrite clock target source) cells) r c = None).
Proof.
  unfold Spec.writeTo.
  induction cells as [| cell cells IH]; intros Hinv; cbn [flat_map].
  - split; [intros Hin; inversion Hin | reflexivity].
  - destruct (IH (fun x Hx => Hinv x ltac:(right; exact Hx))) as [IHin IHout].
    rewrite find_app_first.
    destruct (movedWrite_cases clock target source cell) as [Hnil | (w & Hone & Hw)].
    + rewrite Hnil. cbn [List.find].
      destruct (decide (cell = GridCoord.mk r0 c0)) as [-> | Hne].
      * split; [intros _ | intros Hnot; exfalso; apply Hnot; left].
        rewrite Hnil. cbn [head].
        destruct (decide (GridCoord.mk r0 c0 ∈ cells)) as [Hin | Hnot].
        -- rewrite (IHin Hin), Hnil. reflexivity.
        -- exact (IHout Hnot).
      * split.
        -- intros Hin. apply elem_of_cons in Hin as [Heq | Hin]; [congruence |].
           exact (IHin Hin).
        -- intros Hnot. apply IHout. intros Hin. apply Hnot. right. exact Hin.
    + rewrite Hone. cbn [List.find].
      destruct (decide (cell = GridCoord.mk r0 c0)) as [-> | Hne].
      * pose proof (proj2 (Hinv (GridCoord.mk r0 c0) ltac:(left)) eq_refl) as Ht.
        simpl in Hw, Ht. rewrite Ht in Hw. injection Hw as -> ->.
        rewrite !Z.eqb_refl. simpl.
        split; [intros _; rewrite Hone; reflexivity | intros Hnot; exfalso; apply Hnot; left].
      * assert (Hmiss : (Spec.writeRow w =? r) && (Spec.writeCol w =? c) = false).
        { destruct (Z.eqb_spec (Spec.writeRow w) r) as [Hr |]; [| reflexivity].
          destruct (Z.eqb_spec (Spec.writeCol w) c) as [Hc |]; [| reflexivity].
          exfalso. apply Hne. apply (Hinv cell ltac:(left)). rewrite <- Hw. congruence. }
        rewrite Hmiss. split.
        -- intros Hin. apply elem_of_cons in Hin as [Heq | Hin]; [congruence |].
           exact (IHin Hin).
        -- intros Hnot. apply IHout. intros Hin. apply Hnot. right. exact Hin.
Qed.

Lemma getCell_new (rows cols r c : Z) :
  Grid.getCell (Grid.new rows cols) r c =
    if (0 <=? r) && (r <? rows) && (0 <=? c) && (c <? cols) then Some Grid.emptyCell else None.
Proof.
  unfold Grid.getCell, Grid.isValidCoord. simpl. rewrite at_new. reflexivity.
Qed.

(** What a scan leaves on a fresh grid: at a valid coordinate that the
    target map reaches from one scanned cell, the cell carried over from
    the source; the empty cell at the other valid coordinates. *)
Lemma getCell_moved_fresh (clock : Z -> Z -> Z) (target : Z -> Z -> Z * Z) (source : Grid.t)
    (rowsN colsN rows cols r c r0 c0 : Z) (fresh : Grid.t) :
  fresh = Grid.new rows cols \/ (exists g, fresh = Grid.clear g /\ Grid.rows g = rows /\ Grid.cols g = cols) ->
  (forall x y, x ∈ Spec.allCells rowsN colsN -> y ∈ Spec.allCells rowsN colsN ->
     target (GridCoord.row x) (GridCoord.col x) = target (GridCoord.row y) (GridCoord.col y) ->
     x = y) ->
  (forall cell, cell ∈ Spec.allCells rowsN colsN ->
     (target (GridCoord.row cell) (GridCoord.col cell) = (r, c) <->
      cell = GridCoord.mk r0 c0)) ->
  Grid.getCell (CanvasManager.moveCells clock target source rowsN colsN fresh) r c =
    if (0 <=? r) && (r <? rows) && (0 <=? c) && (c <? cols) then
      Some (if decide (0 <= r0 < rowsN /\ 0 <= c0 < colsN)
            then Spec.copied (clock r0 c0) (Grid.getCell source r0 c0)
            else Grid.emptyCell)
    else None.
Proof.
  intros Hfresh Hinj Hinv.
  assert (Hwf : Spec.wellFormed fresh).
  { destruct Hfresh as [-> | (g & -> & _ & _)]; apply new_wellFormed. }
  assert (Hat : Grid.at_ fresh r c = Grid.emptyCell).
  { destruct Hfresh as [-> | (g & -> & _ & _)]; [apply at_new | apply at_clear]. }
  assert (Hvalid : Grid.isValidCoord fresh r c
                   = (0 <=? r) && (r <? rows) && (0 <=? c) && (c <? cols)).
  { destruct Hfresh as [-> | (g & -> & <- & <-)]; reflexivity. }
  rewrite moveCells_writes.
  rewrite getCell_applyWrites;
    [| exact Hwf | apply NoDup_moved_targets; [apply NoDup_allCells | exact Hinj]].
  destruct (writeTo_moved clock target source _ r c r0 c0 Hinv) as [Hto Hnone].
  rewrite getCell_valid, Hat, Hvalid.
  destruct (decide (GridCoord.mk r0 c0 ∈ Spec.allCells rowsN colsN)) as [Hin | Hnot].
  - rewrite (Hto Hin). apply elem_of_allCells in Hin.
    destruct (decide (0 <= r0 < rowsN /\ 0 <= c0 < colsN)) as [_ | Hno]; [| contradiction].
    unfold Spec.movedWrite, Spec.copied. simpl.
    destruct (Grid.getCell source r0 c0) as [stored |]; simpl; [| reflexivity].
    destruct (Cell.char stored) as [ch |]; simpl; [| reflexivity].
    destruct (JS.truthy ch); simpl; [| reflexivity].
    destruct ((0 <=? r) && (r <? rows) && (0 <=? c) && (c <? cols)); simpl; [| reflexivity].
    destruct (-1 <=? Cell.strokeId stored); reflexivity.
  - rewrite (Hnone Hnot).
    destruct (decide (0 <= r0 < rowsN /\ 0 <= c0 < colsN)) as [Hyes | _]; [| reflexivity].
    exfalso. apply Hnot. apply elem_of_allCells. exact Hyes.
Qed.

End CopyLoops.

(* ------------------------------------------------------------------ *)
(** ** Copying, resizing, saving and loading frames *)
(* ------------------------------------------------------------------ *)

Section FrameCopies.
Import PatternAnalyzer.

(** What the copy loop leaves on a fresh grid of the given dimensions. *)
Lemma getCell_copyCells (clock : Z -> Z -> Z) (prev : Grid.t) (rowsN colsN rows cols r c : Z) :
  Grid.getCell (FrameManager.copyCells clock prev rowsN colsN (Grid.new rows cols)) r c =
    if (0 <=? r) && (r <? rows) && (0 <=? c) && (c <? cols) then
      Some (if decide (0 <= r < rowsN /\ 0 <= c < colsN)
            then Spec.copied (clock r c) (Grid.getCell prev r c)
            else Grid.emptyCell)
    else None.
Proof.
  rewrite copyCells_moveCells.
  apply (getCell_moved_fresh clock (fun r c => (r, c)) prev rowsN colsN rows cols r c r c).
  - left. reflexivity.
  - intros [xr xc] [yr yc] _ _ Heq. simpl in Heq. congruence.
  - intros [xr xc] _. simpl. split; congruence.
Qed.

(** X17. [addFrame(true)] copies the last frame of the list, whichever
    frame is current, when that frame has the shape the constructor
    gives: the new frame is appended and becomes the current one, it has
    the manager's dimensions, and at every coordinate of the manager's
    dimensions it holds what the last frame holds there, with the same
    stroke number, when that is a non-empty symbol with a stroke number
    of at least -1, and is empty otherwise; outside those dimensions
    [getCell] finds nothing. *)
Theorem addFrame_copies_last_frame (clock : Z -> Z -> Z) (m : FrameManager.t)
    (prev : Grid.t) :
  Spec.wellFormed prev ->
  last (FrameManager.frames m) = Some prev ->
  exists copy,
    FrameManager.frames (FrameManager.addFrame clock true m)
      = FrameManager.frames m ++ [copy] /\
    FrameManager.getCurrentGrid (FrameManager.addFrame clock true m) = Some copy /\
    Spec.shaped (FrameManager.rows m) (FrameManager.cols m) copy /\
    forall r c,
      Grid.getCell copy r c =
        if Grid.isValidCoord (Grid.new (FrameManager.rows m) (FrameManager.cols m)) r c
        then Some (Spec.copied (clock r c) (Grid.getCell prev r c))
        else None.
Proof.
  intros _ Hlast.
  assert (Hlen : (len (FrameManager.frames m) >? 0) = true).
  { apply last_Some in Hlast as [l Hl]. rewrite Hl. unfold len. rewrite length_app. simpl.
    apply Z.gtb_lt. lia. }
  exists (FrameManager.copyCells clock prev (FrameManager.rows m) (FrameManager.cols m)
            (Grid.new (FrameManager.rows m) (FrameManager.cols m))).
  unfold FrameManager.addFrame. rewrite Hlen, Hlast. simpl.
  split; [reflexivity |]. split; [| split].
  - unfold FrameManager.getCurrentGrid, FrameManager.frameAt. simpl.
    unfold len. rewrite length_app. simpl.
    destruct (_ <? 0) eqn:Hneg; [apply Z.ltb_lt in Hneg; lia |].
    replace (Z.to_nat (Z.of_nat (length (FrameManager.frames m) + 1) - 1))
      with (length (FrameManager.frames m)) by lia.
    apply list_lookup_middle. reflexivity.
  - apply copyCells_shaped, new_shaped.
  - intros r c. rewrite getCell_copyCells. unfold Grid.isValidCoord. simpl.
    destruct ((0 <=? r) && (r <? FrameManager.rows m) && (0 <=? c)
              && (c <? FrameManager.cols m)) eqn:Hvalid; [| reflexivity].
    destruct (decide _) as [_ | Hno]; [reflexivity |].
    exfalso. apply Hno. rewrite !andb_true_iff, !Z.leb_le, !Z.ltb_lt in Hvalid. lia.
Qed.

Lemma addFrame_copies_last_frame_witness :
  let m := FrameManager.addFrame (fun _ _ => 0) false
             (FrameManager.mk [Spec.blockAndDots] 0 4 4 []) in
  Spec.wellFormed (Grid.new 4 4) /\
  last (FrameManager.frames m) = Some (Grid.new 4 4) /\
  FrameManager.currentFrameIndex (FrameManager.gotoFrame 0 m) = 0 /\
  exists copy,
    FrameManager.getCurrentGrid
      (FrameManager.addFrame (fun _ _ => 5) true (FrameManager.gotoFrame 0 m)) = Some copy /\
    forall r c,
      Grid.getCell copy r c =
        if Grid.isValidCoord (Grid.new 4 4) r c
        then Some (Spec.copied 5 (Grid.getCell (Grid.new 4 4) r c))
        else None.
Proof.
  simpl. split; [apply new_wellFormed |]. split; [reflexivity |]. split; [reflexivity |].
  destruct (addFrame_copies_last_frame (fun _ _ => 5)
              (FrameManager.gotoFrame 0
                 (FrameManager.addFrame (fun _ _ => 0) false
                    (FrameManager.mk [Spec.blockAndDots] 0 4 4 [])))
              (Grid.new 4 4) (new_wellFormed 4 4) eq_refl) as (copy & _ & Hcur & _ & Hcells).
  exists copy. split; [exact Hcur | exact Hcells].
Defined.

(** X18. [resize] keeps what fits. When the frames have the shape the
    constructor gives, the manager takes the new dimensions, the number
    of frames and the current index stay, and every frame is replaced by
    a grid of the new dimensions that holds, at each of its coordinates,
    what the old frame held there (a non-empty symbol with a stroke
    number of at least -1, with that stroke number) and nothing where
    the old frame had no cell. Cells of the old frame outside the new
    dimensions are dropped. *)
Theorem resize_keeps_overlap (clock : nat -> Z -> Z -> Z) (rows cols : Z)
    (m : FrameManager.t) :
  Forall Spec.wellFormed (FrameManager.frames m) ->
  let m' := FrameManager.resize clock rows cols m in
  FrameManager.rows m' = rows /\ FrameManager.cols m' = cols /\
  FrameManager.currentFrameIndex m' = FrameManager.currentFrameIndex m /\
  length (FrameManager.frames m') = length (FrameManager.frames m) /\
  forall i old, FrameManager.frames m !! i = Some old ->
    exists new,
      FrameManager.frames m' !! i = Some new /\
      Spec.shaped rows cols new /\
      forall r c,
        Grid.getCell new r c =
          if Grid.isValidCoord (Grid.new rows cols) r c
          then Some (Spec.copied (clock i r c) (Grid.getCell old r c))
          else None.
Proof.
  intros _.
  simpl. split; [reflexivity |]. split; [reflexivity |]. split; [reflexivity |].
  split; [apply length_imap |].
  intros i old Hold. eexists. split; [| split].
  - rewrite list_lookup_imap, Hold. reflexivity.
  - apply copyCells_shaped, new_shaped.
  - intros r c. rewrite getCell_copyCells. unfold Grid.isValidCoord. simpl.
    destruct ((0 <=? r) && (r <? rows) && (0 <=? c) && (c <? cols)) eqn:Hvalid;
      [| reflexivity].
    destruct (decide _) as [_ | Hno]; [reflexivity |].
    f_equal. unfold Grid.getCell, Grid.isValidCoord.
    destruct ((0 <=? r) && (r <? Grid.rows old) && (0 <=? c) && (c <? Grid.cols old))
      eqn:Hold_valid; [| reflexivity].
    exfalso. apply Hno.
    rewrite !andb_true_iff, !Z.leb_le, !Z.ltb_lt in Hvalid, Hold_valid. lia.
Qed.

Lemma resize_keeps_overlap_witness :
  let m := FrameManager.mk [Spec.blockAndDots] 0 4 4 [] in
  Forall Spec.wellFormed (FrameManager.frames m) /\
  exists new,
    FrameManager.frames (FrameManager.resize (fun _ _ _ => 7) 2 6 m) = [new] /\
    Grid.rows new = 2 /\ Grid.cols new = 6 /\
    Grid.getCell new 1 2 = Some (Cell.mk (Some "#") 0 7) /\
    Grid.getCell new 1 5 = Some Grid.emptyCell /\
    Grid.getCell new 2 1 = None.
Proof.
  cbv zeta.
  assert (Hwf : Forall Spec.wellFormed
                  (FrameManager.frames (FrameManager.mk [Spec.blockAndDots] 0 4 4 []))).
  { constructor; [exact (proj1 blockAndDots_sized) | constructor]. }
  split; [exact Hwf |].
  destruct (resize_keeps_overlap (fun _ _ _ => 7) 2 6
              (FrameManager.mk [Spec.blockAndDots] 0 4 4 []) Hwf)
    as (_ & _ & _ & Hlen & Hframes).
  destruct (Hframes 0%nat Spec.blockAndDots eq_refl) as (new & Hnew & Hshape & Hcells).
  exists new. split.
  - destruct (FrameManager.frames (FrameManager.resize (fun _ _ _ => 7) 2 6
                (FrameManager.mk [Spec.blockAndDots] 0 4 4 []))) as [| x [| y l]];
      try discriminate Hlen.
    simpl in Hnew. injection Hnew as ->. reflexivity.
  - split; [exact (proj1 Hshape) |]. split; [exact (proj1 (proj2 Hshape)) |].
    split; [rewrite Hcells; reflexivity |].
    split; rewrite Hcells; reflexivity.
Defined.

End FrameCopies.

Section SaveAndLoad.
Import PatternAnalyzer.

Lemma frameData_entries (g : Grid.t) :
  StorageManager.frameData g =
  flat_map (Spec.savedEntry g) (Spec.allCells (Grid.rows g) (Grid.cols g)).
Proof.
  unfold StorageManager.frameData, Spec.allCells.
  generalize (JS.range 0 (Grid.rows g)) as rows. generalize (JS.range 0 (Grid.cols g)) as cols.
  intros cols rows.
  assert (Hgen : forall acc,
    foldl (fun data r =>
      foldl (fun data c =>
        match Grid.getCell g r c with
        | Some cell =>
            match Cell.char cell with
            | Some ch => if JS.truthy ch then data ++ [SavedFrame.mk r c ch] else data
            | None => data
            end
        | None => data
        end) data cols) acc rows =
    acc ++ flat_map (Spec.savedEntry g)
             (flat_map (fun r => map (fun c => GridCoord.mk r c) cols) rows)).
  { induction rows as [| r rows IH]; intros acc; simpl; [rewrite app_nil_r; reflexivity |].
    rewrite IH, flat_map_app, app_assoc. f_equal.
    clear IH. revert acc. induction cols as [| c cols IHc]; intros acc; simpl;
      [rewrite app_nil_r; reflexivity |].
    rewrite IHc, app_assoc. f_equal. unfold Spec.savedEntry. simpl.
    destruct (Grid.getCell g r c) as [cell |]; [| rewrite app_nil_r; reflexivity].
    destruct (Cell.char cell) as [ch |]; [| rewrite app_nil_r; reflexivity].
    destruct (JS.truthy ch); [reflexivity | rewrite app_nil_r; reflexivity]. }
  apply (Hgen []).
Qed.

Lemma gridToData_frameData (g : Grid.t) : App.gridToData g = StorageManager.frameData g.
Proof. reflexivity. Qed.

(** The entries of a save: one per cell holding a non-empty symbol, at
    that cell's coordinate. *)
Lemma elem_of_frameData (g : Grid.t) (r c : Z) (ch : string) :
  SavedFrame.mk r c ch ∈ StorageManager.frameData g <->
  Spec.kept (Spec.symbolOf g r c) = Some ch.
Proof.
  rewrite frameData_entries, list_elem_of_In, in_flat_map. unfold Spec.kept, Spec.symbolOf.
  split.
  - intros ([r' c'] & _ & Hin). unfold Spec.savedEntry in Hin. simpl in Hin.
    destruct (Grid.getCell g r' c') as [cell |] eqn:Hcell; [| contradiction].
    destruct (Cell.char cell) as [ch' |] eqn:Hch; [| contradiction].
    destruct (JS.truthy ch') eqn:Ht; [| contradiction].
    destruct Hin as [Heq | []]. injection Heq as -> -> ->.
    rewrite Hcell, Hch, Ht. reflexivity.
  - intros Hkept.
    destruct (Grid.getCell g r c) as [cell |] eqn:Hcell; [| discriminate].
    destruct (Cell.char cell) as [ch' |] eqn:Hch; [| discriminate].
    destruct (JS.truthy ch') eqn:Ht; [| discriminate]. injection Hkept as ->.
    exists (GridCoord.mk r c). split.
    + apply list_elem_of_In, elem_of_allCells.
      unfold Grid.getCell in Hcell.
      destruct (Grid.isValidCoord g r c) eqn:Hv; [| discriminate].
      apply isValidCoord_spec in Hv. exact Hv.
    + unfold Spec.savedEntry. simpl. rewrite Hcell, Hch, Ht. left. reflexivity.
Qed.

Lemma NoDup_frameData_coords (g : Grid.t) :
  NoDup (map (fun e => (SavedFrame.r e, SavedFrame.c e)) (StorageManager.frameData g)).
Proof.
  rewrite frameData_entries.
  pose proof (NoDup_allCells (Grid.rows g) (Grid.cols g)) as Hnd.
  induction (Spec.allCells (Grid.rows g) (Grid.cols g)) as [| cell cells IH]; simpl;
    [constructor |].
  apply NoDup_cons in Hnd as [Hfresh Hnd]. specialize (IH Hnd).
  unfold Spec.savedEntry at 1.
  destruct (Grid.getCell g _ _) as [stored |]; [| exact IH].
  destruct (Cell.char stored) as [ch |]; [| exact IH].
  destruct (JS.truthy ch); [| exact IH].
  simpl. apply NoDup_cons. split; [| exact IH].
  intros Hin. apply list_elem_of_fmap in Hin as (e & Heq & He).
  apply list_elem_of_In, in_flat_map in He as (cell' & Hcell' & He).
  unfold Spec.savedEntry in He.
  destruct (Grid.getCell g _ _) as [stored' |]; [| contradiction].
  destruct (Cell.char stored') as [ch' |]; [| contradiction].
  destruct (JS.truthy ch'); [| contradiction].
  destruct He as [<- | []]. simpl in Heq.
  apply Hfresh. apply list_elem_of_In in Hcell'.
  destruct cell, cell'. simpl in Heq. injection Heq as -> ->. exact Hcell'.
Qed.

(** [loadGrid] is a run of writes on a fresh grid. *)
Lemma loadGrid_writes (clock : nat -> Z) (frameData : list SavedFrame.t) (rows cols : Z) :
  FrameManager.loadGrid clock frameData rows cols =
  Spec.applyWrites (Grid.new rows cols) (Spec.dataWrites clock frameData).
Proof.
  unfold FrameManager.loadGrid, Spec.applyWrites, Spec.dataWrites.
  generalize (Grid.new rows cols) as g. revert clock.
  induction frameData as [| cell frameData IH]; intros clock g; [reflexivity |].
  rewrite !imap_cons. simpl. apply IH.
Qed.

Lemma dataWrites_coords (clock : nat -> Z) (frameData : list SavedFrame.t) :
  map (fun w => (Spec.writeRow w, Spec.writeCol w)) (Spec.dataWrites clock frameData) =
  map (fun e => (SavedFrame.r e, SavedFrame.c e)) frameData.
Proof.
  unfold Spec.dataWrites. revert clock.
  induction frameData as [| cell frameData IH]; intros clock; [reflexivity |].
  rewrite imap_cons. simpl. f_equal. apply IH.
Qed.

(** The write of a load addressed to a coordinate carries the symbol
    stored for it and the stroke number 0. *)
Lemma writeTo_dataWrites (clock : nat -> Z) (frameData : list SavedFrame.t) (r c : Z) :
  NoDup (map (fun e => (SavedFrame.r e, SavedFrame.c e)) frameData) ->
  match Spec.writeTo (Spec.dataWrites clock frameData) r c with
  | Some w =>
      SavedFrame.mk r c (Spec.writeChar w) ∈ frameData /\ Spec.writeStroke w = 0
  | None => forall ch, SavedFrame.mk r c ch ∉ frameData
  end.
Proof.
  unfold Spec.writeTo, Spec.dataWrites. revert clock.
  induction frameData as [| [r' c' ch'] frameData IH]; intros clock Hnd.
  - simpl. intros ch Hin. inversion Hin.
  - rewrite imap_cons. simpl in Hnd. apply NoDup_cons in Hnd as [Hfresh Hnd]. simpl.
    destruct (Z.eqb_spec r' r) as [-> | Hr]; simpl.
    + destruct (Z.eqb_spec c' c) as [-> | Hc]; simpl.
      * split; [left | reflexivity].
      * specialize (IH (clock ∘ S) Hnd). destruct (List.find _ _) as [w |].
        -- destruct IH as [Hin Hs]. split; [right; exact Hin | exact Hs].
        -- intros ch Hin. apply elem_of_cons in Hin as [Heq | Hin];
             [congruence | exact (IH ch Hin)].
    + specialize (IH (clock ∘ S) Hnd). destruct (List.find _ _) as [w |].
      * destruct IH as [Hin Hs]. split; [right; exact Hin | exact Hs].
      * intros ch Hin. apply elem_of_cons in Hin as [Heq | Hin];
          [congruence | exact (IH ch Hin)].
Qed.

(** Loading the data saved from a grid of the same dimensions gives a
    grid with the non-empty symbols of the saved one. *)
Lemma load_saved_grid (clock : nat -> Z) (g : Grid.t) (rows cols : Z) :
  Spec.shaped rows cols g ->
  forall r c,
    Spec.symbolOf (FrameManager.loadGrid clock (StorageManager.frameData g) rows cols) r c
    = Spec.kept (Spec.symbolOf g r c).
Proof.
  intros (Hr & Hc & Hwf) r c. rewrite loadGrid_writes. unfold Spec.symbolOf at 1.
  rewrite getCell_applyWrites;
    [| apply new_wellFormed | rewrite dataWrites_coords; apply NoDup_frameData_coords].
  pose proof (writeTo_dataWrites clock (StorageManager.frameData g) r c
                (NoDup_frameData_coords g)) as Hw.
  rewrite at_new, getCell_new.
  destruct (Spec.writeTo _ r c) as [w |].
  - destruct Hw as [Hin Hs]. apply elem_of_frameData in Hin. rewrite Hin, Hs. simpl.
    assert (Hvalid : (0 <=? r) && (r <? rows) && (0 <=? c) && (c <? cols) = true).
    { unfold Spec.kept, Spec.symbolOf, Grid.getCell in Hin.
      destruct (Grid.isValidCoord g r c) eqn:Hv; [| discriminate].
      unfold Grid.isValidCoord in Hv. rewrite Hr, Hc in Hv. exact Hv. }
    unfold Grid.isValidCoord. simpl. rewrite Hvalid. reflexivity.
  - destruct (Spec.kept (Spec.symbolOf g r c)) as [ch |] eqn:Hkept.
    + exfalso. apply (Hw ch). apply elem_of_frameData. exact Hkept.
    + destruct ((0 <=? r) && (r <? rows) && (0 <=? c) && (c <? cols)); reflexivity.
Qed.

(** Two grids of the same dimensions holding the same symbols have the
    same rendering and the same grouping. *)
Lemma same_symbols_same_drawing (g g' : Grid.t) :
  Grid.rows g' = Grid.rows g -> Grid.cols g' = Grid.cols g ->
  (forall r c, Spec.symbolOf g' r c = Spec.symbolOf g r c) ->
  Grid.toString g' = Grid.toString g /\ Grid.getCellsByChar g' = Grid.getCellsByChar g.
Proof.
  intros Hr Hc Hsym.
  assert (Hchar : forall r c, r ∈ JS.range 0 (Grid.rows g) -> c ∈ JS.range 0 (Grid.cols g) ->
            Cell.char (Grid.at_ g' r c) = Cell.char (Grid.at_ g r c)).
  { intros r c Hrin Hcin. apply elem_of_range in Hrin, Hcin.
    specialize (Hsym r c). unfold Spec.symbolOf, Grid.getCell in Hsym.
    assert (Hv : Grid.isValidCoord g r c = true) by (apply isValidCoord_spec; lia).
    assert (Hv' : Grid.isValidCoord g' r c = true)
      by (apply isValidCoord_spec; rewrite Hr, Hc; lia).
    rewrite Hv, Hv' in Hsym. exact Hsym. }
  split.
  - unfold Grid.toString. rewrite Hr, Hc. f_equal.
    apply map_ext_in. intros r Hrin. apply list_elem_of_In in Hrin.
    apply foldl_ext_in. intros c line Hcin. rewrite (Hchar r c Hrin Hcin). reflexivity.
  - unfold Grid.getCellsByChar. rewrite Hr, Hc.
    apply foldl_ext_in. intros r byChar Hrin.
    apply foldl_ext_in. intros c byChar' Hcin. rewrite (Hchar r c Hrin Hcin). reflexivity.
Qed.

(** X19. Saving and loading give the drawing back. The data the save
    stores for a list of frames of the manager's shape (the same data
    the JSON export makes), loaded with the same dimensions, yields one
    frame per saved frame, of that shape, holding at every coordinate
    the symbol the saved frame held there unless it was the empty
    string; a frame without empty-string symbols comes back with the
    same rendering and the same grouping by symbol. The current index
    is 0, and an empty list of frames loads as one empty frame. *)
Theorem load_restores_saved_frames (clock : nat -> nat -> Z) (grids : list Grid.t)
    (rows cols : Z) (m : FrameManager.t) :
  Forall (Spec.shaped rows cols) grids ->
  let m' := FrameManager.loadFrames clock (StorageManager.framesData grids) rows cols m in
  StorageManager.framesData grids = map App.gridToData grids /\
  FrameManager.currentFrameIndex m' = 0 /\
  FrameManager.rows m' = rows /\ FrameManager.cols m' = cols /\
  exists loaded,
    FrameManager.frames m' = (if len grids =? 0 then [Grid.new rows cols] else loaded) /\
    Forall2 (fun g g' =>
               Spec.shaped rows cols g' /\
               (forall r c, Spec.symbolOf g' r c = Spec.kept (Spec.symbolOf g r c)) /\
               (Spec.noEmptySymbol g ->
                  Grid.toString g' = Grid.toString g /\
                  Grid.getCellsByChar g' = Grid.getCellsByChar g))
            grids loaded.
Proof.
  intros Hshaped. simpl.
  split; [reflexivity |]. split; [reflexivity |]. split; [reflexivity |].
  split; [reflexivity |].
  exists (imap (fun i frameData => FrameManager.loadGrid (clock i) frameData rows cols)
               (StorageManager.framesData grids)).
  split.
  - unfold FrameManager.loadFrames. simpl. unfold len.
    rewrite length_imap. unfold StorageManager.framesData. rewrite length_map.
    destruct grids as [| g grids]; reflexivity.
  - unfold StorageManager.framesData. revert clock.
    induction Hshaped as [| g grids Hg Hrest IH]; intros clock; [constructor |].
    simpl. constructor; [| apply (IH (clock ∘ S))].
    pose proof (load_saved_grid (clock 0%nat) g rows cols Hg) as Hsym.
    split; [apply loadGrid_shaped |]. split; [exact Hsym |].
    intros Hnone. destruct Hg as (Hr & Hc & _).
    destruct (loadGrid_shaped (clock 0%nat) (StorageManager.frameData g) rows cols)
      as (Hr' & Hc' & _).
    apply same_symbols_same_drawing; [congruence | congruence |].
    intros r c. rewrite Hsym. unfold Spec.kept.
    destruct (Spec.symbolOf g r c) as [ch |] eqn:Hch; [| reflexivity].
    destruct ch as [| a ch]; [exfalso; exact (Hnone r c Hch) | reflexivity].
Qed.



Lemma load_restores_saved_frames_witness :
  Forall (Spec.shaped 4 4) [Spec.blockAndDots] /\
  exists loaded,
    FrameManager.frames
      (FrameManager.loadFrames (fun _ _ => 9) (StorageManager.framesData [Spec.blockAndDots])
         4 4 (FrameManager.new 2 2)) = loaded /\
    Forall2 (fun g g' => forall r c, Spec.symbolOf g' r c = Spec.kept (Spec.symbolOf g r c))
            [Spec.blockAndDots] loaded.
Proof.
  assert (Hshaped : Forall (Spec.shaped 4 4) [Spec.blockAndDots])
    by (repeat constructor; apply blockAndDots_shaped).
  split; [exact Hshaped |].
  destruct (load_restores_saved_frames (fun _ _ => 9) [Spec.blockAndDots] 4 4
              (FrameManager.new 2 2) Hshaped) as (_ & _ & _ & _ & loaded & Hframes & Hall).
  exists loaded. split; [exact Hframes |].
  eapply Forall2_impl; [exact Hall |]. intros g g' (_ & Hsym & _). exact Hsym.
Defined.

End SaveAndLoad.

(* ------------------------------------------------------------------ *)
(** ** The canvas manager: transforms and history *)
(* ------------------------------------------------------------------ *)

Section CanvasProperties.
Import PatternAnalyzer.

Lemma drawGrid_wellFormed (g : Grid.t) :
  Spec.wellFormed g -> CanvasManager.drawGrid g = JS.Ok tt.
Proof.
  intros [Hrows _]. unfold CanvasManager.drawGrid.
  assert (Hnone : existsb (fun r => match Grid.cells g !! Z.to_nat r with
                                    | None => true
                                    | Some _ => false
                                    end) (JS.range 0 (Grid.rows g)) = false).
  { apply not_true_is_false. intros Hex. apply existsb_exists in Hex as (r & Hr & Hmiss).
    apply list_elem_of_In, elem_of_range in Hr.
    destruct (lookup_lt_is_Some_2 (Grid.cells g) (Z.to_nat r)) as [line Hline]; [lia |].
    rewrite Hline in Hmiss. discriminate. }
  rewrite Hnone, andb_false_r. reflexivity.
Qed.

Lemma render_drawable (cm : CanvasManager.t) :
  Spec.canvasDrawable cm -> CanvasManager.rendered cm = JS.Ok cm.
Proof.
  intros (Hbg & g & Hcur & Hg). unfold CanvasManager.rendered, CanvasManager.render.
  rewrite (drawGrid_wellFormed _ Hbg). simpl. rewrite Hcur, (drawGrid_wellFormed _ Hg).
  reflexivity.
Qed.

(** The grid [getGrid] returns is drawable. *)
Lemma getGrid_wellFormed (cm : CanvasManager.t) (g : Grid.t) :
  Spec.canvasDrawable cm -> CanvasManager.getGrid cm = Some g -> Spec.wellFormed g.
Proof.
  intros (Hbg & cur & Hcur & Hwf) Hg. unfold CanvasManager.getGrid in Hg.
  destruct (CanvasManager.activeLayer cm); [congruence |].
  rewrite Hcur in Hg. congruence.
Qed.

Lemma frameAt_Some (m : FrameManager.t) (i : Z) (g : Grid.t) :
  FrameManager.frameAt m i = Some g ->
  0 <= i < len (FrameManager.frames m) /\ FrameManager.frames m !! Z.to_nat i = Some g.
Proof.
  unfold FrameManager.frameAt. destruct (Z.ltb_spec i 0) as [| Hi]; [discriminate |].
  intros Hg. split; [| exact Hg]. apply lookup_lt_Some in Hg. unfold len. lia.
Qed.

(** Storing a grid where [getGrid] reads: [getGrid] returns it. *)
Lemma getGrid_putGrid (cm : CanvasManager.t) (g g' : Grid.t) :
  CanvasManager.getGrid cm = Some g ->
  CanvasManager.getGrid (CanvasManager.putGrid cm g') = Some g'.
Proof.
  destruct cm as [fm bg layer undos redos].
  unfold CanvasManager.getGrid, CanvasManager.putGrid. simpl.
  destruct layer; simpl; [reflexivity |].
  unfold FrameManager.getCurrentGrid. intros Hg. apply frameAt_Some in Hg as [Hi Hg].
  unfold FrameManager.frameAt, CanvasManager.putFrame. simpl.
  destruct (Z.ltb_spec (FrameManager.currentFrameIndex fm) 0); [lia |].
  apply list_lookup_insert_eq. unfold len in Hi. lia.
Qed.

Lemma putGrid_drawable (cm : CanvasManager.t) (g g' : Grid.t) :
  Spec.canvasDrawable cm -> CanvasManager.getGrid cm = Some g -> Spec.wellFormed g' ->
  Spec.canvasDrawable (CanvasManager.putGrid cm g').
Proof.
  destruct cm as [fm bg layer undos redos].
  intros (Hbg & cur & Hcur & Hwf) Hg Hg'. unfold CanvasManager.putGrid.
  unfold CanvasManager.getGrid in Hg. simpl in *.
  destruct layer.
  - split; [exact Hg' |]. exists cur. split; [exact Hcur | exact Hwf].
  - split; [exact Hbg |]. exists g'. split; [| exact Hg']. simpl.
    unfold FrameManager.getCurrentGrid in *. apply frameAt_Some in Hcur as [Hi Hcur].
    unfold FrameManager.frameAt, CanvasManager.putFrame. simpl.
    destruct (Z.ltb_spec (FrameManager.currentFrameIndex fm) 0); [lia |].
    apply list_lookup_insert_eq. unfold len in Hi. lia.
Qed.

(** [saveUndoState] changes the stacks only; the state it pushes is the
    last of the undo stack. *)
Lemma saveUndoState_spec (cm : CanvasManager.t) (g : Grid.t) :
  CanvasManager.getGrid cm = Some g ->
  exists older,
    CanvasManager.saveUndoState cm =
      JS.Ok (CanvasManager.mk (CanvasManager.frameManager cm)
               (CanvasManager.backgroundGrid cm) (CanvasManager.activeLayer cm)
               (older ++ [UndoState.mk (CanvasManager.activeLayer cm)
                            (FrameManager.currentFrameIndex (CanvasManager.frameManager cm))
                            (Grid.snapshot g)])
               []) /\
    (len (CanvasManager.undoStack cm) <= 50 -> len older < 50) /\
    (forall s, s ∈ older -> s ∈ CanvasManager.undoStack cm).
Proof.
  intros Hg. unfold CanvasManager.saveUndoState. rewrite Hg.
  set (state := UndoState.mk _ _ _).
  destruct (Z.gtb_spec (len (CanvasManager.undoStack cm ++ [state])) 50) as [Hbig | Hsmall].
  - destruct (CanvasManager.undoStack cm) as [| s0 stack] eqn:Hstack.
    + unfold len in Hbig. simpl in Hbig. lia.
    + exists stack. split; [reflexivity |]. unfold len in *. simpl in *. split; [lia |].
      intros s Hs. right. exact Hs.
  - exists (CanvasManager.undoStack cm). split; [reflexivity |].
    unfold len in *. rewrite length_app in *. simpl in *. split; [lia | auto].
Qed.

Lemma copied_copied (t1 t2 : Z) (stored : option Cell.t) :
  Spec.copied t2 (Some (Spec.copied t1 stored)) = Spec.copied t2 stored.
Proof.
  unfold Spec.copied. destruct stored as [cell |]; [| reflexivity].
  destruct (Cell.char cell) as [ch |]; [| reflexivity].
  destruct (JS.truthy ch) eqn:Ht; simpl; [| reflexivity].
  destruct (-1 <=? Cell.strokeId cell) eqn:Hs; simpl; [| reflexivity].
  rewrite Ht, Hs. reflexivity.
Qed.

(** What a transform leaves in the grid, for a target map that sends
    the cells of the grid one-to-one onto themselves: [source r c] is
    the coordinate whose cell arrives at (r, c). *)
Lemma transform_cells (renders : bool) (clock1 clock2 : Z -> Z -> Z)
    (target : Grid.t -> Z -> Z -> Z * Z) (source : Z -> Z -> Z * Z)
    (cm : CanvasManager.t) (g : Grid.t) :
  Spec.canvasDrawable cm -> CanvasManager.getGrid cm = Some g ->
  (forall r c, 0 <= r < Grid.rows g -> 0 <= c < Grid.cols g ->
     0 <= fst (source r c) < Grid.rows g /\ 0 <= snd (source r c) < Grid.cols g) ->
  (forall r c r0 c0, 0 <= r0 < Grid.rows g -> 0 <= c0 < Grid.cols g ->
     0 <= r < Grid.rows g -> 0 <= c < Grid.cols g ->
     (target g r0 c0 = (r, c) <-> (r0, c0) = source r c)) ->
  (forall r0 c0, 0 <= r0 < Grid.rows g -> 0 <= c0 < Grid.cols g ->
     0 <= fst (target g r0 c0) < Grid.rows g /\ 0 <= snd (target g r0 c0) < Grid.cols g) ->
  exists saved g',
    CanvasManager.saveUndoState cm = JS.Ok saved /\
    CanvasManager.transform renders clock1 clock2 target cm
      = JS.Ok (CanvasManager.putGrid saved g') /\
    Spec.shaped (Grid.rows g) (Grid.cols g) g' /\
    forall r c,
      Grid.getCell g' r c =
        if Grid.isValidCoord g r c
        then Some (Spec.copied (clock2 r c)
                     (Grid.getCell g (fst (source r c)) (snd (source r c))))
        else None.
Proof.
  intros Hdraw Hg Hsource Hinv Hinto.
  destruct (saveUndoState_spec cm g Hg) as (older & Hsave & _ & _).
  set (saved := CanvasManager.mk _ _ _ _ _) in Hsave.
  assert (Hg' : CanvasManager.getGrid saved = Some g) by exact Hg.
  assert (Hdraw' : Spec.canvasDrawable saved) by exact Hdraw.
  set (newGrid := CanvasManager.moveCells clock1 (target g) g (Grid.rows g) (Grid.cols g)
                    (Grid.new (Grid.rows g) (Grid.cols g))).
  set (g' := CanvasManager.moveCells clock2 (fun r c => (r, c)) newGrid
               (Grid.rows g) (Grid.cols g) (Grid.clear g)).
  assert (Hshaped : Spec.shaped (Grid.rows g) (Grid.cols g) g').
  { subst g'. rewrite <- copyCells_moveCells. apply copyCells_shaped.
    apply clear_shaped. split; [reflexivity |]. split; [reflexivity |].
    exact (getGrid_wellFormed cm g Hdraw Hg). }
  exists saved, g'. split; [exact Hsave |]. split; [| split; [exact Hshaped |]].
  - unfold CanvasManager.transform. rewrite Hsave. simpl JS.bind. rewrite Hg'.
    fold newGrid. fold g'. destruct renders; [| reflexivity].
    apply render_drawable. eapply putGrid_drawable; [exact Hdraw' | exact Hg' |].
    exact (proj2 (proj2 Hshaped)).
  - intros r c.
    assert (Hback : Grid.getCell g' r c =
              if (0 <=? r) && (r <? Grid.rows g) && (0 <=? c) && (c <? Grid.cols g) then
                Some (if decide (0 <= r < Grid.rows g /\ 0 <= c < Grid.cols g)
                      then Spec.copied (clock2 r c) (Grid.getCell newGrid r c)
                      else Grid.emptyCell)
              else None).
    { apply (getCell_moved_fresh clock2 (fun r c => (r, c)) newGrid
               (Grid.rows g) (Grid.cols g) (Grid.rows g) (Grid.cols g) r c r c).
      - right. exists g. auto.
      - intros [xr xc] [yr yc] _ _ Heq. simpl in Heq. congruence.
      - intros [xr xc] _. simpl. split; congruence. }
    rewrite Hback. unfold Grid.isValidCoord.
    destruct ((0 <=? r) && (r <? Grid.rows g) && (0 <=? c) && (c <? Grid.cols g))
      eqn:Hvalid; [| reflexivity].
    assert (Hrc : 0 <= r < Grid.rows g /\ 0 <= c < Grid.cols g).
    { rewrite !andb_true_iff, !Z.leb_le, !Z.ltb_lt in Hvalid. lia. }
    destruct (decide _) as [_ | Hno]; [| contradiction].
    destruct (Hsource r c (proj1 Hrc) (proj2 Hrc)) as [Hsr Hsc].
    assert (Hnew : Grid.getCell newGrid r c =
              if (0 <=? r) && (r <? Grid.rows g) && (0 <=? c) && (c <? Grid.cols g) then
                Some (if decide (0 <= fst (source r c) < Grid.rows g /\
                                 0 <= snd (source r c) < Grid.cols g)
                      then Spec.copied (clock1 (fst (source r c)) (snd (source r c)))
                             (Grid.getCell g (fst (source r c)) (snd (source r c)))
                      else Grid.emptyCell)
              else None).
    { apply (getCell_moved_fresh clock1 (target g) g
               (Grid.rows g) (Grid.cols g) (Grid.rows g) (Grid.cols g) r c
               (fst (source r c)) (snd (source r c))).
      - left. reflexivity.
      - intros [xr xc] [yr yc] Hx Hy Heq. simpl in Heq.
        apply elem_of_allCells in Hx, Hy.
        destruct (Hinto xr xc (proj1 Hx) (proj2 Hx)) as [Hir Hic].
        pose proof (proj1 (Hinv (fst (target g xr xc)) (snd (target g xr xc)) xr xc
                             (proj1 Hx) (proj2 Hx) Hir Hic)
                      ltac:(destruct (target g xr xc); reflexivity)) as H1.
        pose proof (proj1 (Hinv (fst (target g xr xc)) (snd (target g xr xc)) yr yc
                             (proj1 Hy) (proj2 Hy) Hir Hic)
                      ltac:(rewrite <- Heq; destruct (target g xr xc); reflexivity)) as H2.
        congruence.
      - intros [xr xc] Hx. simpl. apply elem_of_allCells in Hx.
        rewrite (Hinv r c xr xc (proj1 Hx) (proj2 Hx) (proj1 Hrc) (proj2 Hrc)).
        destruct (source r c) as [sr sc]. simpl. split; congruence. }
    rewrite Hnew, Hvalid.
    destruct (decide _) as [_ | Hno]; [| exfalso; apply Hno; split; assumption].
    rewrite copied_copied. reflexivity.
Qed.

End CanvasProperties.

Section CanvasTransforms.
Import PatternAnalyzer.

Lemma canvasOf_drawable (g : Grid.t) :
  Spec.wellFormed g ->
  Spec.canvasDrawable (Spec.canvasOf g) /\ CanvasManager.getGrid (Spec.canvasOf g) = Some g.
Proof.
  intros Hg. split; [| reflexivity].
  split; [apply new_wellFormed |]. exists g. split; [reflexivity | exact Hg].
Qed.

(** X20. The flips mirror the active grid. On a canvas whose grids have
    the constructor's shape, [flipHorizontal] and [flipVertical] return
    without raising and leave in the active grid, at every coordinate,
    what the grid held at the mirrored coordinate (column cols-1-c, or
    row rows-1-r): the symbol with its stroke number when it is a
    non-empty symbol with a stroke number of at least -1, and an empty
    cell otherwise. The dimensions and the shape stay. *)
Theorem flips_mirror_the_grid (clock1 clock2 : Z -> Z -> Z) (cm : CanvasManager.t)
    (g : Grid.t) :
  Spec.canvasDrawable cm -> CanvasManager.getGrid cm = Some g ->
  exists cmH gH cmV gV,
    CanvasManager.flipHorizontal clock1 clock2 cm = JS.Ok cmH /\
    CanvasManager.getGrid cmH = Some gH /\
    Spec.shaped (Grid.rows g) (Grid.cols g) gH /\
    (forall r c,
       Grid.getCell gH r c =
         if Grid.isValidCoord g r c
         then Some (Spec.copied (clock2 r c) (Grid.getCell g r (Grid.cols g - 1 - c)))
         else None) /\
    CanvasManager.flipVertical clock1 clock2 cm = JS.Ok cmV /\
    CanvasManager.getGrid cmV = Some gV /\
    Spec.shaped (Grid.rows g) (Grid.cols g) gV /\
    (forall r c,
       Grid.getCell gV r c =
         if Grid.isValidCoord g r c
         then Some (Spec.copied (clock2 r c) (Grid.getCell g (Grid.rows g - 1 - r) c))
         else None).
Proof.
  intros Hdraw Hg.
  destruct (transform_cells true clock1 clock2
              (fun grid r c => (r, Grid.cols grid - 1 - c))
              (fun r c => (r, Grid.cols g - 1 - c)) cm g Hdraw Hg)
    as (savedH & gH & HsaveH & HflipH & HshapedH & HcellsH).
  { intros r c Hr Hc. simpl. lia. }
  { intros r c r0 c0 _ _ _ _. split; intros [= ? ?]; f_equal; lia. }
  { intros r0 c0 Hr Hc. simpl. lia. }
  destruct (transform_cells true clock1 clock2
              (fun grid r c => (Grid.rows grid - 1 - r, c))
              (fun r c => (Grid.rows g - 1 - r, c)) cm g Hdraw Hg)
    as (savedV & gV & HsaveV & HflipV & HshapedV & HcellsV).
  { intros r c Hr Hc. simpl. lia. }
  { intros r c r0 c0 _ _ _ _. split; intros [= ? ?]; f_equal; lia. }
  { intros r0 c0 Hr Hc. simpl. lia. }
  assert (HgetH : CanvasManager.getGrid savedH = Some g).
  { destruct (saveUndoState_spec cm g Hg) as (older & Hsave & _).
    rewrite Hsave in HsaveH. injection HsaveH as <-. exact Hg. }
  assert (HgetV : CanvasManager.getGrid savedV = Some g).
  { destruct (saveUndoState_spec cm g Hg) as (older & Hsave & _).
    rewrite Hsave in HsaveV. injection HsaveV as <-. exact Hg. }
  exists (CanvasManager.putGrid savedH gH), gH, (CanvasManager.putGrid savedV gV), gV.
  split; [exact HflipH |]. split; [exact (getGrid_putGrid _ _ _ HgetH) |].
  split; [exact HshapedH |]. split; [exact HcellsH |].
  split; [exact HflipV |]. split; [exact (getGrid_putGrid _ _ _ HgetV) |].
  split; [exact HshapedV | exact HcellsV].
Qed.

Lemma flips_mirror_the_grid_witness :
  Spec.canvasDrawable (Spec.canvasOf Spec.blockAndDots) /\
  CanvasManager.getGrid (Spec.canvasOf Spec.blockAndDots) = Some Spec.blockAndDots /\
  exists cmH gH,
    CanvasManager.flipHorizontal (fun _ _ => 1) (fun _ _ => 2) (Spec.canvasOf Spec.blockAndDots)
      = JS.Ok cmH /\
    CanvasManager.getGrid cmH = Some gH /\
    forall r c,
      Grid.getCell gH r c =
        if Grid.isValidCoord Spec.blockAndDots r c
        then Some (Spec.copied 2 (Grid.getCell Spec.blockAndDots r (4 - 1 - c)))
        else None.
Proof.
  destruct (canvasOf_drawable Spec.blockAndDots (proj2 (proj2 blockAndDots_shaped)))
    as [Hdraw Hg].
  split; [exact Hdraw |]. split; [exact Hg |].
  destruct (flips_mirror_the_grid (fun _ _ => 1) (fun _ _ => 2)
              (Spec.canvasOf Spec.blockAndDots) Spec.blockAndDots Hdraw Hg)
    as (cmH & gH & _ & _ & Hflip & HgetH & _ & Hcells & _).
  exists cmH, gH. split; [exact Hflip |]. split; [exact HgetH | exact Hcells].
Defined.

(** The state an edit leaves is drawable and shows the edited grid. *)
Lemma edited_state (cm saved : CanvasManager.t) (g g' : Grid.t) :
  Spec.canvasDrawable cm -> CanvasManager.getGrid cm = Some g ->
  CanvasManager.saveUndoState cm = JS.Ok saved -> Spec.wellFormed g' ->
  Spec.canvasDrawable (CanvasManager.putGrid saved g') /\
  CanvasManager.getGrid (CanvasManager.putGrid saved g') = Some g'.
Proof.
  intros Hdraw Hg Hsave Hg'.
  destruct (saveUndoState_spec cm g Hg) as (older & Hsave' & _).
  rewrite Hsave' in Hsave. injection Hsave as <-.
  split.
  - eapply putGrid_drawable; [exact Hdraw | exact Hg | exact Hg'].
  - eapply getGrid_putGrid. exact Hg.
Qed.

(** X21. Flipping twice gives the drawing back: after two horizontal
    flips, or two vertical flips, the active grid holds at every
    coordinate what it held there before (the symbol with its stroke
    number, for a non-empty symbol with a stroke number of at least
    -1). *)
Theorem flipping_twice_restores (clock1 clock2 clock3 clock4 : Z -> Z -> Z)
    (cm : CanvasManager.t) (g : Grid.t) :
  Spec.canvasDrawable cm -> CanvasManager.getGrid cm = Some g ->
  exists cmH cmHH gHH cmV cmVV gVV,
    CanvasManager.flipHorizontal clock1 clock2 cm = JS.Ok cmH /\
    CanvasManager.flipHorizontal clock3 clock4 cmH = JS.Ok cmHH /\
    CanvasManager.getGrid cmHH = Some gHH /\
    (forall r c,
       Grid.getCell gHH r c =
         if Grid.isValidCoord g r c
         then Some (Spec.copied (clock4 r c) (Grid.getCell g r c))
         else None) /\
    CanvasManager.flipVertical clock1 clock2 cm = JS.Ok cmV /\
    CanvasManager.flipVertical clock3 clock4 cmV = JS.Ok cmVV /\
    CanvasManager.getGrid cmVV = Some gVV /\
    (forall r c,
       Grid.getCell gVV r c =
         if Grid.isValidCoord g r c
         then Some (Spec.copied (clock4 r c) (Grid.getCell g r c))
         else None).
Proof.
  intros Hdraw Hg.
  (* horizontal *)
  destruct (transform_cells true clock1 clock2
              (fun grid r c => (r, Grid.cols grid - 1 - c))
              (fun r c => (r, Grid.cols g - 1 - c)) cm g Hdraw Hg)
    as (savedH & gH & HsaveH & HflipH & (HrH & HcH & HwfH) & HcellsH).
  { intros r c Hr Hc. simpl. lia. }
  { intros r c r0 c0 _ _ _ _. split; intros [= ? ?]; f_equal; lia. }
  { intros r0 c0 Hr Hc. simpl. lia. }
  destruct (edited_state cm savedH g gH Hdraw Hg HsaveH HwfH) as [HdrawH HgetH].
  destruct (transform_cells true clock3 clock4
              (fun grid r c => (r, Grid.cols grid - 1 - c))
              (fun r c => (r, Grid.cols gH - 1 - c)) _ gH HdrawH HgetH)
    as (savedHH & gHH & HsaveHH & HflipHH & (_ & _ & HwfHH) & HcellsHH).
  { intros r c Hr Hc. simpl. lia. }
  { intros r c r0 c0 _ _ _ _. split; intros [= ? ?]; f_equal; lia. }
  { intros r0 c0 Hr Hc. simpl. lia. }
  destruct (edited_state _ savedHH gH gHH HdrawH HgetH HsaveHH HwfHH) as [_ HgetHH].
  (* vertical *)
  destruct (transform_cells true clock1 clock2
              (fun grid r c => (Grid.rows grid - 1 - r, c))
              (fun r c => (Grid.rows g - 1 - r, c)) cm g Hdraw Hg)
    as (savedV & gV & HsaveV & HflipV & (HrV & HcV & HwfV) & HcellsV).
  { intros r c Hr Hc. simpl. lia. }
  { intros r c r0 c0 _ _ _ _. split; intros [= ? ?]; f_equal; lia. }
  { intros r0 c0 Hr Hc. simpl. lia. }
  destruct (edited_state cm savedV g gV Hdraw Hg HsaveV HwfV) as [HdrawV HgetV].
  destruct (transform_cells true clock3 clock4
              (fun grid r c => (Grid.rows grid - 1 - r, c))
              (fun r c => (Grid.rows gV - 1 - r, c)) _ gV HdrawV HgetV)
    as (savedVV & gVV & HsaveVV & HflipVV & (_ & _ & HwfVV) & HcellsVV).
  { intros r c Hr Hc. simpl. lia. }
  { intros r c r0 c0 _ _ _ _. split; intros [= ? ?]; f_equal; lia. }
  { intros r0 c0 Hr Hc. simpl. lia. }
  destruct (edited_state _ savedVV gV gVV HdrawV HgetV HsaveVV HwfVV) as [_ HgetVV].
  eexists _, _, gHH, _, _, gVV.
  split; [exact HflipH |]. split; [exact HflipHH |]. split; [exact HgetHH |].
  split; [| split; [exact HflipV |]; split; [exact HflipVV |]; split; [exact HgetVV |]].
  - intros r c. rewrite HcellsHH. simpl.
    assert (Hvalid : Grid.isValidCoord gH r c = Grid.isValidCoord g r c)
      by (unfold Grid.isValidCoord; rewrite HrH, HcH; reflexivity).
    rewrite Hvalid. destruct (Grid.isValidCoord g r c) eqn:Hv; [| reflexivity].
    rewrite HcellsH. simpl.
    apply isValidCoord_spec in Hv.
    assert (Hv' : Grid.isValidCoord g r (Grid.cols gH - 1 - c) = true)
      by (apply isValidCoord_spec; lia).
    rewrite Hv', copied_copied. do 3 f_equal. lia.
  - intros r c. rewrite HcellsVV. simpl.
    assert (Hvalid : Grid.isValidCoord gV r c = Grid.isValidCoord g r c)
      by (unfold Grid.isValidCoord; rewrite HrV, HcV; reflexivity).
    rewrite Hvalid. destruct (Grid.isValidCoord g r c) eqn:Hv; [| reflexivity].
    rewrite HcellsV. simpl.
    apply isValidCoord_spec in Hv.
    assert (Hv' : Grid.isValidCoord g (Grid.rows gV - 1 - r) c = true)
      by (apply isValidCoord_spec; lia).
    rewrite Hv', copied_copied. do 3 f_equal. lia.
Qed.

Lemma flipping_twice_restores_witness :
  Spec.canvasDrawable (Spec.canvasOf Spec.blockAndDots) /\
  exists cmH cmHH gHH,
    CanvasManager.flipHorizontal (fun _ _ => 1) (fun _ _ => 2) (Spec.canvasOf Spec.blockAndDots)
      = JS.Ok cmH /\
    CanvasManager.flipHorizontal (fun _ _ => 3) (fun _ _ => 4) cmH = JS.Ok cmHH /\
    CanvasManager.getGrid cmHH = Some gHH /\
    forall r c,
      Grid.getCell gHH r c =
        if Grid.isValidCoord Spec.blockAndDots r c
        then Some (Spec.copied 4 (Grid.getCell Spec.blockAndDots r c))
        else None.
Proof.
  destruct (canvasOf_drawable Spec.blockAndDots (proj2 (proj2 blockAndDots_shaped)))
    as [Hdraw Hg].
  split; [exact Hdraw |].
  destruct (flipping_twice_restores (fun _ _ => 1) (fun _ _ => 2) (fun _ _ => 3) (fun _ _ => 4)
              (Spec.canvasOf Spec.blockAndDots) Spec.blockAndDots Hdraw Hg)
    as (cmH & cmHH & gHH & _ & _ & _ & H1 & H2 & H3 & H4 & _).
  exists cmH, cmHH, gHH. split; [exact H1 |]. split; [exact H2 |]. split; [exact H3 | exact H4].
Defined.

(** X22. On a square grid [rotateGrid] is the quarter turn that takes
    the cell at (r, c) to (c, n-1-r): afterwards the active grid holds
    at (r, c) what it held at (n-1-c, r), for a non-empty symbol with a
    stroke number of at least -1, with that stroke number. *)
Theorem rotateGrid_quarter_turn (clock1 clock2 : Z -> Z -> Z) (cm : CanvasManager.t)
    (g : Grid.t) :
  Spec.canvasDrawable cm -> CanvasManager.getGrid cm = Some g ->
  Grid.rows g = Grid.cols g ->
  exists cm' g',
    CanvasManager.rotateGrid clock1 clock2 cm = JS.Ok cm' /\
    CanvasManager.getGrid cm' = Some g' /\
    Spec.shaped (Grid.rows g) (Grid.cols g) g' /\
    forall r c,
      Grid.getCell g' r c =
        if Grid.isValidCoord g r c
        then Some (Spec.copied (clock2 r c) (Grid.getCell g (Grid.rows g - 1 - c) r))
        else None.
Proof.
  intros Hdraw Hg Hsquare.
  destruct (transform_cells false clock1 clock2
              (fun grid r c => (Z.rem c (Grid.rows grid),
                                Z.rem (Grid.rows grid - 1 - r) (Grid.cols grid)))
              (fun r c => (Grid.rows g - 1 - c, r)) cm g Hdraw Hg)
    as (saved & g' & Hsave & Hrot & Hshaped & Hcells).
  { intros r c Hr Hc. simpl. lia. }
  { intros r c r0 c0 Hr0 Hc0 Hr Hc.
    rewrite (Z.rem_small c0) by lia. rewrite (Z.rem_small (Grid.rows g - 1 - r0)) by lia.
    split; intros [= ? ?]; f_equal; lia. }
  { intros r0 c0 Hr0 Hc0. simpl.
    rewrite (Z.rem_small c0) by lia. rewrite (Z.rem_small (Grid.rows g - 1 - r0)) by lia.
    lia. }
  destruct (edited_state cm saved g g' Hdraw Hg Hsave (proj2 (proj2 Hshaped))) as [_ Hget].
  exists (CanvasManager.putGrid saved g'), g'.
  split; [exact Hrot |]. split; [exact Hget |]. split; [exact Hshaped | exact Hcells].
Qed.

Lemma rotateGrid_quarter_turn_witness :
  Spec.canvasDrawable (Spec.canvasOf Spec.blockAndDots) /\
  Grid.rows Spec.blockAndDots = Grid.cols Spec.blockAndDots /\
  exists cm' g',
    CanvasManager.rotateGrid (fun _ _ => 1) (fun _ _ => 2) (Spec.canvasOf Spec.blockAndDots)
      = JS.Ok cm' /\
    CanvasManager.getGrid cm' = Some g' /\
    forall r c,
      Grid.getCell g' r c =
        if Grid.isValidCoord Spec.blockAndDots r c
        then Some (Spec.copied 2 (Grid.getCell Spec.blockAndDots (4 - 1 - c) r))
        else None.
Proof.
  destruct (canvasOf_drawable Spec.blockAndDots (proj2 (proj2 blockAndDots_shaped)))
    as [Hdraw Hg].
  split; [exact Hdraw |]. split; [reflexivity |].
  destruct (rotateGrid_quarter_turn (fun _ _ => 1) (fun _ _ => 2)
              (Spec.canvasOf Spec.blockAndDots) Spec.blockAndDots Hdraw Hg eq_refl)
    as (cm' & g' & Hrot & Hget & _ & Hcells).
  exists cm', g'. split; [exact Hrot |]. split; [exact Hget | exact Hcells].
Defined.

End CanvasTransforms.

Section CanvasHistory.
Import PatternAnalyzer.

Lemma copyCell_id (cell : Cell.t) : Grid.copyCell cell = cell.
Proof. destruct cell. reflexivity. Qed.

Lemma copy_lines (lines : list (list Cell.t)) : map (map Grid.copyCell) lines = lines.
Proof.
  induction lines as [| line lines IH]; simpl; [reflexivity |].
  rewrite IH. f_equal. induction line as [| cell line IHl]; simpl; [reflexivity |].
  rewrite IHl, copyCell_id. reflexivity.
Qed.

(** Restoring a snapshot of a grid into a grid of the same dimensions
    gives the grid the snapshot was taken from. *)
Lemma restore_snapshot (target g : Grid.t) :
  Grid.rows target = Grid.rows g -> Grid.cols target = Grid.cols g ->
  Grid.restore target (Grid.snapshot g) = g.
Proof.
  intros Hr Hc. unfold Grid.restore, Grid.snapshot. rewrite !copy_lines, Hr, Hc.
  destruct g. reflexivity.
Qed.

(** An edit saves the state and leaves a grid of the same shape. *)
Lemma edit_result (cm : CanvasManager.t) (g : Grid.t) (op : Spec.canvasEdit) :
  Spec.canvasDrawable cm -> CanvasManager.getGrid cm = Some g ->
  exists saved g',
    CanvasManager.saveUndoState cm = JS.Ok saved /\
    Spec.canvasEditStep cm op = JS.Ok (CanvasManager.putGrid saved g') /\
    Spec.shaped (Grid.rows g) (Grid.cols g) g'.
Proof.
  intros Hdraw Hg.
  destruct (saveUndoState_spec cm g Hg) as (older & Hsave & _ & _).
  set (saved := CanvasManager.mk _ _ _ _ _) in Hsave.
  assert (Hg' : CanvasManager.getGrid saved = Some g) by exact Hg.
  assert (Hwf : Spec.wellFormed g) by exact (getGrid_wellFormed cm g Hdraw Hg).
  assert (Hself : Spec.shaped (Grid.rows g) (Grid.cols g) g)
    by (split; [reflexivity |]; split; [reflexivity | exact Hwf]).
  assert (Htransform : forall renders clock1 clock2 target,
    exists g',
      CanvasManager.transform renders clock1 clock2 target cm
        = JS.Ok (CanvasManager.putGrid saved g') /\
      Spec.shaped (Grid.rows g) (Grid.cols g) g').
  { intros renders clock1 clock2 target. eexists. split.
    - unfold CanvasManager.transform. rewrite Hsave. simpl JS.bind. rewrite Hg'.
      destruct renders; [| reflexivity].
      apply render_drawable. eapply putGrid_drawable; [exact Hdraw | exact Hg' |].
      rewrite <- copyCells_moveCells.
      exact (proj2 (proj2 (copyCells_shaped _ _ _ _ _ _ _ (clear_shaped _ _ _ Hself)))).
    - rewrite <- copyCells_moveCells. apply copyCells_shaped, clear_shaped, Hself. }
  destruct op as [| clock1 clock2 | clock1 clock2 | clock1 clock2]; simpl.
  - exists saved, (Grid.clear g). split; [exact Hsave |]. split; [| apply clear_shaped, Hself].
    unfold CanvasManager.clear. rewrite Hsave. simpl JS.bind. rewrite Hg'.
    apply render_drawable. eapply putGrid_drawable; [exact Hdraw | exact Hg' |].
    exact (proj2 (proj2 (clear_shaped _ _ _ Hself))).
  - destruct (Htransform false clock1 clock2
                (fun grid r c => (Z.rem c (Grid.rows grid),
                                  Z.rem (Grid.rows grid - 1 - r) (Grid.cols grid))))
      as (g' & Hop & Hshape).
    exists saved, g'. split; [exact Hsave |]. split; [exact Hop | exact Hshape].
  - destruct (Htransform true clock1 clock2 (fun grid r c => (r, Grid.cols grid - 1 - c)))
      as (g' & Hop & Hshape).
    exists saved, g'. split; [exact Hsave |]. split; [exact Hop | exact Hshape].
  - destruct (Htransform true clock1 clock2 (fun grid r c => (Grid.rows grid - 1 - r, c)))
      as (g' & Hop & Hshape).
    exists saved, g'. split; [exact Hsave |]. split; [exact Hop | exact Hshape].
Qed.

Lemma layer_eqb_refl (l : Layer.t) : Layer.eqb l l = true.
Proof. destruct l; reflexivity. Qed.

(** X23. Undo takes an edit back and redo brings it again. After
    [clear], a flip or [rotateGrid] on a canvas whose grids have the
    constructor's shape, [undo] returns without raising and leaves the
    frames, the background and the active layer exactly as they were
    before the edit, cell for cell, stroke numbers and times included;
    [redo] then gives back the very state the edit had left, history
    included. *)
Theorem undo_then_redo_round_trip (cm : CanvasManager.t) (g : Grid.t)
    (op : Spec.canvasEdit) :
  Spec.canvasDrawable cm -> CanvasManager.getGrid cm = Some g ->
  exists cm1 cm2,
    Spec.canvasEditStep cm op = JS.Ok cm1 /\
    CanvasManager.undo cm1 = JS.Ok cm2 /\
    CanvasManager.frameManager cm2 = CanvasManager.frameManager cm /\
    CanvasManager.backgroundGrid cm2 = CanvasManager.backgroundGrid cm /\
    CanvasManager.activeLayer cm2 = CanvasManager.activeLayer cm /\
    CanvasManager.getGrid cm2 = Some g /\
    CanvasManager.redo cm2 = JS.Ok cm1.
Proof.
  intros Hdraw Hg.
  destruct (edit_result cm g op Hdraw Hg) as (saved & gX & Hsave & Hop & HrX & HcX & HwfX).
  destruct (saveUndoState_spec cm g Hg) as (older & Hsave' & _ & _).
  rewrite Hsave' in Hsave. injection Hsave as <-.
  destruct cm as [fm bg layer undos redos]. simpl in *.
  pose proof Hdraw as (Hbg & cur & Hcur & Hcurwf). simpl in Hbg, Hcur.
  destruct layer.
  - (* background *)
    unfold CanvasManager.getGrid in Hg. simpl in Hg. injection Hg as <-.
    eexists _, (CanvasManager.mk fm bg Layer.background older
                  [UndoState.mk Layer.background (FrameManager.currentFrameIndex fm)
                     (Grid.snapshot gX)]).
    split; [exact Hop |]. unfold CanvasManager.putGrid. simpl.
    assert (Hundo : CanvasManager.undo
              (CanvasManager.mk fm gX Layer.background
                 (older ++ [UndoState.mk Layer.background (FrameManager.currentFrameIndex fm)
                              (Grid.snapshot bg)]) [])
            = JS.Ok (CanvasManager.mk fm bg Layer.background older
                       [UndoState.mk Layer.background (FrameManager.currentFrameIndex fm)
                          (Grid.snapshot gX)])).
    { unfold CanvasManager.undo. simpl. rewrite last_snoc, removelast_last.
      unfold CanvasManager.revert. simpl.
      rewrite (restore_snapshot gX bg HrX HcX).
      rewrite (render_drawable (CanvasManager.mk fm bg Layer.background older []));
        [reflexivity |].
      split; [exact Hbg |]. exists cur. split; [exact Hcur | exact Hcurwf]. }
    split; [exact Hundo |].
    split; [reflexivity |]. split; [reflexivity |]. split; [reflexivity |].
    split; [reflexivity |].
    unfold CanvasManager.redo. simpl.
    unfold CanvasManager.revert. simpl.
    rewrite (restore_snapshot bg gX (eq_sym HrX) (eq_sym HcX)).
    rewrite (render_drawable (CanvasManager.mk fm gX Layer.background older []));
      [reflexivity |].
    split; [exact HwfX |]. exists cur. split; [exact Hcur | exact Hcurwf].
  - (* foreground *)
    unfold CanvasManager.getGrid in Hg. simpl in Hg.
    unfold FrameManager.getCurrentGrid in Hg, Hcur.
    pose proof (frameAt_Some _ _ _ Hg) as [Hidx Hlook].
    destruct fm as [frames idx rows cols notified]. simpl in *.
    set (fmX := FrameManager.mk (<[Z.to_nat idx := gX]> frames) idx rows cols notified).
    set (fm := FrameManager.mk frames idx rows cols notified).
    assert (HlenX : len (<[Z.to_nat idx := gX]> frames) = len frames)
      by (unfold len; rewrite length_insert; reflexivity).
    assert (HgetX : FrameManager.getFrame fmX idx = Some gX).
    { unfold FrameManager.getFrame, FrameManager.frameAt. simpl. rewrite HlenX.
      destruct (Z.ltb_spec idx 0); [lia |]. destruct (Z.geb_spec idx (len frames)); [lia |].
      simpl. apply list_lookup_insert_eq. unfold len in Hidx. lia. }
    assert (Hget : FrameManager.getFrame fm idx = Some g).
    { unfold FrameManager.getFrame, FrameManager.frameAt. simpl.
      destruct (Z.ltb_spec idx 0); [lia |]. destruct (Z.geb_spec idx (len frames)); [lia |].
      simpl. exact Hlook. }
    assert (Hheld : forall fs : list Grid.t, len fs = len frames ->
              (if (idx <? 0) || (idx >=? len fs) then 0 else idx) = idx).
    { intros fs Hfs. rewrite Hfs.
      destruct (Z.ltb_spec idx 0); [lia |]. destruct (Z.geb_spec idx (len frames)); [lia |].
      reflexivity. }
    eexists _, (CanvasManager.mk fm bg Layer.foreground older
                  [UndoState.mk Layer.foreground idx (Grid.snapshot gX)]).
    split; [exact Hop |]. unfold CanvasManager.putGrid, CanvasManager.putFrame. simpl.
    fold fmX.
    assert (Hundo : CanvasManager.undo
              (CanvasManager.mk fmX bg Layer.foreground
                 (older ++ [UndoState.mk Layer.foreground idx (Grid.snapshot g)]) [])
            = JS.Ok (CanvasManager.mk fm bg Layer.foreground older
                       [UndoState.mk Layer.foreground idx (Grid.snapshot gX)])).
    { unfold CanvasManager.undo. simpl. rewrite last_snoc, removelast_last.
      unfold CanvasManager.revert. simpl. rewrite HgetX. simpl.
      rewrite Z.eqb_refl. simpl.
      rewrite (Hheld _ HlenX).
      rewrite (restore_snapshot gX g HrX HcX).
      unfold CanvasManager.putFrame. simpl.
      rewrite list_insert_insert_eq, (list_insert_id _ _ _ Hlook). fold fm.
      rewrite (render_drawable (CanvasManager.mk fm bg Layer.foreground older []));
        [reflexivity |].
      split; [exact Hbg |]. exists cur. split; [exact Hcur | exact Hcurwf]. }
    split; [exact Hundo |].
    split; [reflexivity |]. split; [reflexivity |]. split; [reflexivity |].
    split; [exact Hg |].
    unfold CanvasManager.redo. simpl.
    unfold CanvasManager.revert. simpl. rewrite Hget. simpl.
    rewrite Z.eqb_refl. simpl.
    rewrite (Hheld _ eq_refl).
    rewrite (restore_snapshot g gX (eq_sym HrX) (eq_sym HcX)).
    unfold CanvasManager.putFrame. simpl. fold fmX.
    rewrite (render_drawable (CanvasManager.mk fmX bg Layer.foreground older []));
      [reflexivity |].
    split; [exact Hbg |]. exists gX. split; [| exact HwfX].
    unfold FrameManager.getCurrentGrid, FrameManager.frameAt. simpl.
    destruct (Z.ltb_spec idx 0); [lia |].
    apply list_lookup_insert_eq. unfold len in Hidx. lia.
Qed.

Lemma undo_then_redo_round_trip_witness :
  Spec.canvasDrawable (Spec.canvasOf Spec.blockAndDots) /\
  exists cm1 cm2,
    CanvasManager.clear (Spec.canvasOf Spec.blockAndDots) = JS.Ok cm1 /\
    CanvasManager.undo cm1 = JS.Ok cm2 /\
    CanvasManager.getGrid cm2 = Some Spec.blockAndDots /\
    CanvasManager.redo cm2 = JS.Ok cm1.
Proof.
  destruct (canvasOf_drawable Spec.blockAndDots (proj2 (proj2 blockAndDots_shaped)))
    as [Hdraw Hg].
  split; [exact Hdraw |].
  destruct (undo_then_redo_round_trip (Spec.canvasOf Spec.blockAndDots) Spec.blockAndDots
              Spec.Clear Hdraw Hg) as (cm1 & cm2 & H1 & H2 & _ & _ & _ & H3 & H4).
  exists cm1, cm2. split; [exact H1 |]. split; [exact H2 |]. split; [exact H3 | exact H4].
Defined.

Lemma resize_frame_shaped (clock : nat -> Z -> Z -> Z) (rows cols : Z) (m : FrameManager.t)
    (i : nat) (old : Grid.t) :
  FrameManager.frames m !! i = Some old ->
  exists new,
    FrameManager.frames (FrameManager.resize clock rows cols m) !! i = Some new /\
    Spec.shaped rows cols new.
Proof.
  intros Hold. eexists. split.
  - simpl. rewrite list_lookup_imap, Hold. reflexivity.
  - apply copyCells_shaped, new_shaped.
Qed.

Lemma drawGrid_missing_line (g : Grid.t) (r : Z) :
  0 < Grid.cols g -> 0 <= r < Grid.rows g -> Grid.cells g !! Z.to_nat r = None ->
  CanvasManager.drawGrid g = JS.Throw "TypeError: this.cells[row] is undefined".
Proof.
  intros Hc Hr Hnone. unfold CanvasManager.drawGrid.
  assert (Hex : existsb (fun r => match Grid.cells g !! Z.to_nat r with
                                  | None => true
                                  | Some _ => false
                                  end) (JS.range 0 (Grid.rows g)) = true).
  { apply existsb_exists. exists r. split.
    - apply list_elem_of_In, elem_of_range. lia.
    - rewrite Hnone. reflexivity. }
  rewrite Hex. destruct (Z.ltb_spec 0 (Grid.cols g)); [reflexivity | lia].
Qed.

(** X24. [undo] after a resize that adds rows raises. [resize] replaces
    every grid by one of the new dimensions and leaves the history as it
    is; [undo] then restores, into a grid of the new dimensions, the
    cell array saved before the resize, which has fewer lines than the
    grid has rows, and the [render] that ends [undo] reads a line that
    is not there. Stated for any canvas whose grids (the background and
    every frame) have the constructor's shape, any edit that saves a
    state, and any resize to more rows than the edited grid has and at
    least one column. *)
Theorem undo_after_enlarging_resize_raises (cm : CanvasManager.t) (g : Grid.t)
    (op : Spec.canvasEdit) (clockFrames : nat -> Z -> Z -> Z) (clockBackground : Z -> Z -> Z)
    (rows cols : Z) :
  Forall Spec.wellFormed (FrameManager.frames (CanvasManager.frameManager cm)) ->
  Spec.canvasDrawable cm -> CanvasManager.getGrid cm = Some g ->
  0 <= Grid.rows g < rows -> 0 < cols ->
  exists cm1 cm2,
    Spec.canvasEditStep cm op = JS.Ok cm1 /\
    CanvasManager.resize clockFrames clockBackground rows cols cm1 = JS.Ok cm2 /\
    CanvasManager.undo cm2 = JS.Throw "TypeError: this.cells[row] is undefined".
Proof.
  intros _ Hdraw Hg Hrows Hcols.
  destruct (edit_result cm g op Hdraw Hg) as (saved & gX & Hsave & Hop & HrX & HcX & HwfX).
  destruct (saveUndoState_spec cm g Hg) as (older & Hsave' & _ & _).
  rewrite Hsave' in Hsave. injection Hsave as <-.
  pose proof (getGrid_wellFormed cm g Hdraw Hg) as [Hlines _].
  assert (Hmissing : forall target, Grid.rows target = rows -> Grid.cols target = cols ->
            CanvasManager.drawGrid (Grid.restore target (Grid.snapshot g))
            = JS.Throw "TypeError: this.cells[row] is undefined").
  { intros target Hr Hc. apply (drawGrid_missing_line _ (Grid.rows g)).
    - simpl. lia.
    - simpl. lia.
    - unfold Grid.restore, Grid.snapshot. simpl. rewrite !copy_lines.
      apply lookup_ge_None_2. lia. }
  destruct cm as [fm bg layer undos redos]. simpl in *.
  pose proof Hdraw as (Hbg & cur & Hcur & Hcurwf). simpl in Hbg, Hcur.
  destruct layer.
  - (* background *)
    unfold CanvasManager.getGrid in Hg. simpl in Hg. injection Hg as <-.
    unfold CanvasManager.putGrid in Hop. simpl in Hop.
    set (state := UndoState.mk Layer.background (FrameManager.currentFrameIndex fm)
                    (Grid.snapshot bg)) in *.
    set (fm2 := FrameManager.resize clockFrames rows cols fm).
    set (newBg := CanvasManager.moveCells clockBackground (fun r c => (r, c)) gX
                    (Z.min rows (Grid.rows gX)) (Z.min cols (Grid.cols gX))
                    (Grid.new rows cols)).
    assert (HnewBg : Spec.shaped rows cols newBg).
    { subst newBg. rewrite <- copyCells_moveCells. apply copyCells_shaped, new_shaped. }
    assert (Hcur2 : exists cur2, FrameManager.getCurrentGrid fm2 = Some cur2 /\
                                 Spec.shaped rows cols cur2).
    { unfold FrameManager.getCurrentGrid in *. apply frameAt_Some in Hcur as [Hidx Hlook].
      destruct (resize_frame_shaped clockFrames rows cols fm _ _ Hlook)
        as (new & Hnew & Hshape).
      exists new. split; [| exact Hshape].
      unfold FrameManager.frameAt. simpl.
      destruct (Z.ltb_spec (FrameManager.currentFrameIndex fm) 0); [lia | exact Hnew]. }
    destruct Hcur2 as (cur2 & Hcur2 & Hshape2).
    eexists _, (CanvasManager.mk fm2 newBg Layer.background (older ++ [state]) []).
    split; [exact Hop |]. split.
    + unfold CanvasManager.resize. simpl. fold fm2.
      rewrite (render_drawable (CanvasManager.mk fm2 gX Layer.background _ _)).
      2: { split; [exact HwfX |]. exists cur2. split; [exact Hcur2 | apply Hshape2]. }
      simpl. fold newBg. apply render_drawable.
      split; [apply HnewBg |]. exists cur2. split; [exact Hcur2 | apply Hshape2].
    + unfold CanvasManager.undo. simpl. rewrite last_snoc, removelast_last.
      unfold CanvasManager.revert. simpl.
      unfold CanvasManager.rendered, CanvasManager.render. simpl.
      rewrite (Hmissing newBg (proj1 HnewBg) (proj1 (proj2 HnewBg))). reflexivity.
  - (* foreground *)
    unfold CanvasManager.getGrid in Hg. simpl in Hg.
    unfold FrameManager.getCurrentGrid in Hg, Hcur.
    pose proof (frameAt_Some _ _ _ Hg) as [Hidx Hlook].
    destruct fm as [frames idx frows fcols notified]. simpl in *.
    unfold CanvasManager.putGrid, CanvasManager.putFrame in Hop. simpl in Hop.
    set (state := UndoState.mk Layer.foreground idx (Grid.snapshot g)) in *.
    set (fmX := FrameManager.mk (<[Z.to_nat idx := gX]> frames) idx frows fcols notified) in *.
    set (fm2 := FrameManager.resize clockFrames rows cols fmX).
    set (newBg := CanvasManager.moveCells clockBackground (fun r c => (r, c)) bg
                    (Z.min rows (Grid.rows bg)) (Z.min cols (Grid.cols bg))
                    (Grid.new rows cols)).
    assert (HnewBg : Spec.shaped rows cols newBg).
    { subst newBg. rewrite <- copyCells_moveCells. apply copyCells_shaped, new_shaped. }
    assert (HlookX : FrameManager.frames fmX !! Z.to_nat idx = Some gX).
    { simpl. apply list_lookup_insert_eq. unfold len in Hidx. lia. }
    destruct (resize_frame_shaped clockFrames rows cols fmX _ _ HlookX)
      as (cur2 & Hlook2 & Hshape2).
    fold fm2 in Hlook2.
    assert (Hlen2 : len (FrameManager.frames fm2) = len frames).
    { subst fm2. simpl. unfold len. rewrite length_imap, length_insert. reflexivity. }
    assert (Hcur2 : FrameManager.getCurrentGrid fm2 = Some cur2).
    { unfold FrameManager.getCurrentGrid, FrameManager.frameAt.
      change (FrameManager.currentFrameIndex fm2) with idx.
      destruct (Z.ltb_spec idx 0); [lia | exact Hlook2]. }
    eexists _, (CanvasManager.mk fm2 newBg Layer.foreground (older ++ [state]) []).
    split; [exact Hop |]. split.
    + unfold CanvasManager.resize. simpl. fold fm2.
      rewrite (render_drawable (CanvasManager.mk fm2 bg Layer.foreground _ _)).
      2: { split; [exact Hbg |]. exists cur2. split; [exact Hcur2 | apply Hshape2]. }
      simpl. fold newBg. apply render_drawable.
      split; [apply HnewBg |]. exists cur2. split; [exact Hcur2 | apply Hshape2].
    + unfold CanvasManager.undo. simpl. rewrite last_snoc, removelast_last.
      unfold CanvasManager.revert. simpl.
      assert (Hget2 : FrameManager.getFrame fm2 idx = Some cur2).
      { unfold FrameManager.getFrame, FrameManager.frameAt. rewrite Hlen2.
        destruct (Z.ltb_spec idx 0); [lia |].
        destruct (Z.geb_spec idx (len frames)); [lia |]. simpl. exact Hlook2. }
      fold fmX. fold fm2. rewrite Hget2. simpl.
      change (FrameManager.getCurrentIndex fm2) with idx. rewrite Z.eqb_refl. simpl.
      change (len (imap _ (<[Z.to_nat idx:=gX]> frames))) with (len (FrameManager.frames fm2)).
      rewrite Hlen2.
      destruct (Z.ltb_spec idx 0); [lia |].
      destruct (Z.geb_spec idx (len frames)); [lia |]. simpl.
      unfold CanvasManager.rendered, CanvasManager.render. simpl.
      rewrite (drawGrid_wellFormed newBg (proj2 (proj2 HnewBg))). simpl.
      unfold FrameManager.getCurrentGrid, FrameManager.frameAt, CanvasManager.putFrame.
      simpl. destruct (Z.ltb_spec idx 0); [lia |].
      rewrite list_lookup_insert_eq.
      2: { rewrite length_imap, length_insert. unfold len in Hidx. lia. }
      rewrite (Hmissing cur2 (proj1 Hshape2) (proj1 (proj2 Hshape2))). reflexivity.
Qed.

Lemma undo_after_enlarging_resize_raises_witness :
  Forall Spec.wellFormed
    (FrameManager.frames (CanvasManager.frameManager (Spec.canvasOf Spec.blockAndDots))) /\
  Spec.canvasDrawable (Spec.canvasOf Spec.blockAndDots) /\
  0 <= Grid.rows Spec.blockAndDots < 6 /\
  exists cm1 cm2,
    CanvasManager.clear (Spec.canvasOf Spec.blockAndDots) = JS.Ok cm1 /\
    CanvasManager.resize (fun _ _ _ => 1) (fun _ _ => 2) 6 4 cm1 = JS.Ok cm2 /\
    CanvasManager.undo cm2 = JS.Throw "TypeError: this.cells[row] is undefined".
Proof.
  destruct (canvasOf_drawable Spec.blockAndDots (proj2 (proj2 blockAndDots_shaped)))
    as [Hdraw Hg].
  assert (Hframes : Forall Spec.wellFormed
                      (FrameManager.frames
                         (CanvasManager.frameManager (Spec.canvasOf Spec.blockAndDots)))).
  { constructor; [exact (proj1 blockAndDots_sized) | constructor]. }
  split; [exact Hframes |]. split; [exact Hdraw |]. split; [simpl; lia |].
  exact (undo_after_enlarging_resize_raises (Spec.canvasOf Spec.blockAndDots)
           Spec.blockAndDots Spec.Clear (fun _ _ _ => 1) (fun _ _ => 2) 6 4 Hframes Hdraw Hg
           ltac:(simpl; lia) ltac:(lia)).
Defined.

End CanvasHistory.

Section CanvasSafety.
Import PatternAnalyzer.

Lemma frameInvariant_current (m : FrameManager.t) :
  Spec.frameInvariant m ->
  exists g, FrameManager.getCurrentGrid m = Some g /\
            Spec.shaped (FrameManager.rows m) (FrameManager.cols m) g.
Proof.
  intros (Hidx & Hframes & _).
  unfold FrameManager.getCurrentGrid, FrameManager.frameAt.
  destruct (Z.ltb_spec (FrameManager.currentFrameIndex m) 0); [lia |].
  destruct (lookup_lt_is_Some_2 (FrameManager.frames m)
              (Z.to_nat (FrameManager.currentFrameIndex m))) as [g Hg];
    [unfold len in Hidx; lia |].
  exists g. split; [exact Hg |].
  rewrite Forall_forall in Hframes. apply Hframes. eapply list_elem_of_lookup_2. exact Hg.
Qed.

Lemma frameInvariant_getFrame (m : FrameManager.t) (index : Z) :
  Spec.frameInvariant m ->
  exists g,
    FrameManager.getFrame m index = Some g /\
    Spec.shaped (FrameManager.rows m) (FrameManager.cols m) g /\
    0 <= (if (index <? 0) || (index >=? len (FrameManager.frames m)) then 0 else index)
      < len (FrameManager.frames m).
Proof.
  intros (Hidx & Hframes & _). unfold FrameManager.getFrame, FrameManager.frameAt.
  rewrite Forall_forall in Hframes.
  destruct ((index <? 0) || (index >=? len (FrameManager.frames m))) eqn:Hout.
  - simpl. destruct (lookup_lt_is_Some_2 (FrameManager.frames m) 0) as [g Hg];
      [unfold len in Hidx; lia |].
    exists g. split; [exact Hg |]. split; [| lia].
    apply Hframes. eapply list_elem_of_lookup_2. exact Hg.
  - apply orb_false_elim in Hout as [Hneg Hbig]. rewrite Hneg.
    apply Z.ltb_ge in Hneg. rewrite Z.geb_leb in Hbig. apply Z.leb_gt in Hbig.
    destruct (lookup_lt_is_Some_2 (FrameManager.frames m) (Z.to_nat index)) as [g Hg];
      [unfold len in Hbig; lia |].
    exists g. split; [exact Hg |]. split; [| lia].
    apply Hframes. eapply list_elem_of_lookup_2. exact Hg.
Qed.

Lemma invariant_drawable (rows cols : Z) (cm : CanvasManager.t) :
  Spec.canvasInvariant rows cols cm -> Spec.canvasDrawable cm.
Proof.
  intros (_ & _ & Hfm & (_ & _ & Hbg) & _).
  split; [exact Hbg |].
  destruct (frameInvariant_current _ Hfm) as (g & Hg & _ & _ & Hwf).
  exists g. split; [exact Hg | exact Hwf].
Qed.

Lemma invariant_getGrid (rows cols : Z) (cm : CanvasManager.t) :
  Spec.canvasInvariant rows cols cm ->
  exists g, CanvasManager.getGrid cm = Some g /\ Spec.shaped rows cols g.
Proof.
  intros (Hr & Hc & Hfm & Hbg & _). unfold CanvasManager.getGrid.
  destruct (CanvasManager.activeLayer cm).
  - exists (CanvasManager.backgroundGrid cm). split; [reflexivity | exact Hbg].
  - destruct (frameInvariant_current _ Hfm) as (g & Hg & Hshape).
    exists g. split; [exact Hg |]. rewrite Hr, Hc in Hshape. exact Hshape.
Qed.

Lemma snapshot_shaped (rows cols : Z) (g : Grid.t) (layer : Layer.t) (index : Z) :
  Spec.shaped rows cols g ->
  Spec.snapshotShaped rows cols (UndoState.mk layer index (Grid.snapshot g)).
Proof.
  intros (Hr & Hc & Hlen & Hlines). unfold Spec.snapshotShaped, Grid.snapshot. simpl.
  rewrite copy_lines, <- Hr, <- Hc. split; assumption.
Qed.

Lemma restore_shaped (rows cols : Z) (target : Grid.t) (state : UndoState.t) :
  Spec.shaped rows cols target -> Spec.snapshotShaped rows cols state ->
  Spec.shaped rows cols (Grid.restore target (UndoState.snapshot state)).
Proof.
  intros (Hr & Hc & _) [Hlen Hlines]. unfold Grid.restore.
  split; [exact Hr |]. split; [exact Hc |].
  unfold Spec.wellFormed. simpl. rewrite copy_lines, Hr, Hc. split; assumption.
Qed.

(** The grids of the canvas: what the invariant says of them. *)
Lemma putFrame_invariant (m : FrameManager.t) (index : Z) (g : Grid.t) :
  Spec.frameInvariant m ->
  Spec.shaped (FrameManager.rows m) (FrameManager.cols m) g ->
  Spec.frameInvariant (CanvasManager.putFrame m index g).
Proof.
  intros (Hidx & Hframes & Hnot) Hg. unfold Spec.frameInvariant, CanvasManager.putFrame.
  simpl. unfold len in *. rewrite length_insert.
  split; [exact Hidx |]. split; [| exact Hnot].
  apply Forall_insert; assumption.
Qed.

Lemma edit_invariant (rows cols : Z) (cm : CanvasManager.t) (edit : Spec.canvasEdit) :
  Spec.canvasInvariant rows cols cm ->
  exists cm', Spec.canvasEditStep cm edit = JS.Ok cm' /\ Spec.canvasInvariant rows cols cm'.
Proof.
  intros Hinv. pose proof (invariant_drawable _ _ _ Hinv) as Hdraw.
  destruct (invariant_getGrid _ _ _ Hinv) as (g & Hg & Hshape).
  destruct (edit_result cm g edit Hdraw Hg) as (saved & gX & Hsave & Hop & HshapeX).
  destruct (saveUndoState_spec cm g Hg) as (older & Hsave' & Hlen & Hold).
  rewrite Hsave' in Hsave. injection Hsave as <-.
  exists (CanvasManager.putGrid
            (CanvasManager.mk (CanvasManager.frameManager cm) (CanvasManager.backgroundGrid cm)
               (CanvasManager.activeLayer cm)
               (older ++ [UndoState.mk (CanvasManager.activeLayer cm)
                            (FrameManager.currentFrameIndex (CanvasManager.frameManager cm))
                            (Grid.snapshot g)]) []) gX).
  split; [exact Hop |].
  destruct Hinv as (Hr & Hc & Hfm & Hbg & Hundo & Hredo & Hsum).
  destruct Hshape as (Hgr & Hgc & Hgwf). rewrite Hgr, Hgc in HshapeX.
  assert (Hstack : Forall (Spec.snapshotShaped rows cols)
            (older ++ [UndoState.mk (CanvasManager.activeLayer cm)
                         (FrameManager.currentFrameIndex (CanvasManager.frameManager cm))
                         (Grid.snapshot g)])).
  { apply Forall_app. split.
    - apply Forall_forall. intros s Hs. rewrite Forall_forall in Hundo. auto.
    - constructor; [| constructor]. apply snapshot_shaped.
      split; [exact Hgr | split; [exact Hgc | exact Hgwf]]. }
  assert (Hcount : len (older ++ [UndoState.mk (CanvasManager.activeLayer cm)
                         (FrameManager.currentFrameIndex (CanvasManager.frameManager cm))
                         (Grid.snapshot g)]) + len ([] : list UndoState.t) <= 50).
  { unfold len in *. rewrite length_app. simpl. lia. }
  unfold CanvasManager.putGrid. simpl.
  destruct (CanvasManager.activeLayer cm); simpl.
  - split; [exact Hr |]. split; [exact Hc |]. split; [exact Hfm |].
    split; [exact HshapeX |]. split; [exact Hstack |]. split; [constructor | exact Hcount].
  - split; [exact Hr |]. split; [exact Hc |].
    split; [apply putFrame_invariant; [exact Hfm | rewrite Hr, Hc; exact HshapeX] |].
    split; [exact Hbg |]. split; [exact Hstack |]. split; [constructor | exact Hcount].
Qed.

Lemma drawable_parts (m : FrameManager.t) (bg : Grid.t) (layer : Layer.t)
    (undos redos : list UndoState.t) :
  Spec.frameInvariant m -> Spec.wellFormed bg ->
  Spec.canvasDrawable (CanvasManager.mk m bg layer undos redos).
Proof.
  intros Hm Hbg. split; [exact Hbg |].
  destruct (frameInvariant_current m Hm) as (g & Hg & _ & _ & Hwf).
  exists g. split; [exact Hg | exact Hwf].
Qed.

Lemma gotoFrame_invariant (index : Z) (m : FrameManager.t) :
  Spec.frameInvariant m ->
  Spec.frameInvariant (FrameManager.gotoFrame index m) /\
  FrameManager.frames (FrameManager.gotoFrame index m) = FrameManager.frames m /\
  FrameManager.rows (FrameManager.gotoFrame index m) = FrameManager.rows m /\
  FrameManager.cols (FrameManager.gotoFrame index m) = FrameManager.cols m.
Proof.
  intros Hm. split.
  - destruct (frameStep_invariant m (Spec.GotoFrame index) Hm) as (m' & Hstep & Hm').
    simpl in Hstep. injection Hstep as <-. exact Hm'.
  - unfold FrameManager.gotoFrame. destruct (_ && _); repeat split; reflexivity.
Qed.

(** What [undo] and [redo] do with a state keeps the grids in shape,
    and the cells they set aside are in shape too. *)
Lemma revert_invariant (rows cols : Z) (state : UndoState.t) (cm : CanvasManager.t) :
  FrameManager.rows (CanvasManager.frameManager cm) = rows ->
  FrameManager.cols (CanvasManager.frameManager cm) = cols ->
  Spec.frameInvariant (CanvasManager.frameManager cm) ->
  Spec.shaped rows cols (CanvasManager.backgroundGrid cm) ->
  Spec.snapshotShaped rows cols state ->
  exists cm' present,
    CanvasManager.revert state cm = JS.Ok (cm', present) /\
    FrameManager.rows (CanvasManager.frameManager cm') = rows /\
    FrameManager.cols (CanvasManager.frameManager cm') = cols /\
    Spec.frameInvariant (CanvasManager.frameManager cm') /\
    Spec.shaped rows cols (CanvasManager.backgroundGrid cm') /\
    Spec.snapshotShaped rows cols present /\
    CanvasManager.undoStack cm' = CanvasManager.undoStack cm /\
    CanvasManager.redoStack cm' = CanvasManager.redoStack cm.
Proof.
  intros Hr Hc Hfm Hbg Hstate.
  destruct cm as [fm bg layer undos redos]. destruct state as [slayer sidx snap].
  simpl in *. unfold CanvasManager.revert. simpl.
  assert (Hlayer : (if negb (Layer.eqb layer slayer)
                    then CanvasManager.setActiveLayer slayer
                           (CanvasManager.mk fm bg layer undos redos)
                    else JS.Ok (CanvasManager.mk fm bg layer undos redos))
                   = JS.Ok (CanvasManager.mk fm bg slayer undos redos)).
  { destruct layer, slayer; simpl; try reflexivity;
      unfold CanvasManager.setActiveLayer; simpl;
      apply render_drawable, drawable_parts; [exact Hfm | apply Hbg | exact Hfm | apply Hbg]. }
  destruct slayer.
  - (* background *)
    rewrite Hlayer. simpl.
    pose proof (restore_shaped rows cols bg (UndoState.mk Layer.background sidx snap)
                  Hbg Hstate) as Hrestored. simpl in Hrestored.
    rewrite (render_drawable (CanvasManager.mk fm (Grid.restore bg snap) Layer.background
                                undos redos));
      [| apply drawable_parts; [exact Hfm | apply Hrestored]].
    simpl. eexists _, _. split; [reflexivity |]. simpl.
    split; [exact Hr |]. split; [exact Hc |]. split; [exact Hfm |].
    split; [exact Hrestored |]. split; [apply snapshot_shaped; exact Hbg |].
    split; reflexivity.
  - (* foreground *)
    destruct (frameInvariant_getFrame fm sidx Hfm) as (target & Htarget & Hshape & Hheld).
    rewrite Hr, Hc in Hshape. rewrite Htarget, Hlayer. simpl.
    destruct (gotoFrame_invariant sidx fm Hfm) as (Hgoto & Hframes & Hgr & Hgc).
    assert (Hmove : exists fm',
              (if negb (FrameManager.getCurrentIndex fm =? sidx)
               then CanvasManager.gotoFrame sidx
                      (CanvasManager.mk fm bg Layer.foreground undos redos)
               else JS.Ok (CanvasManager.mk fm bg Layer.foreground undos redos))
              = JS.Ok (CanvasManager.mk fm' bg Layer.foreground undos redos) /\
              Spec.frameInvariant fm' /\
              FrameManager.frames fm' = FrameManager.frames fm /\
              FrameManager.rows fm' = rows /\ FrameManager.cols fm' = cols).
    { destruct (negb (FrameManager.getCurrentIndex fm =? sidx)).
      - unfold CanvasManager.gotoFrame.
        cbn [CanvasManager.frameManager CanvasManager.backgroundGrid
             CanvasManager.activeLayer CanvasManager.undoStack CanvasManager.redoStack].
        destruct ((sidx >=? 0) && (sidx <? len (FrameManager.frames fm))).
        + exists (FrameManager.gotoFrame sidx fm). split.
          * apply render_drawable, drawable_parts; [exact Hgoto | apply Hbg].
          * split; [exact Hgoto |]. split; [exact Hframes |]. split; congruence.
        + exists fm. split; [reflexivity |]. split; [exact Hfm |].
          split; [reflexivity |]. split; assumption.
      - exists fm. split; [reflexivity |]. split; [exact Hfm |].
        split; [reflexivity |]. split; assumption. }
    destruct Hmove as (fm' & Hmove & Hfm' & Hframes' & Hr' & Hc').
    rewrite Hmove. simpl. rewrite Hframes'.
    set (held := if (sidx <? 0) || (sidx >=? len (FrameManager.frames fm)) then 0 else sidx)
      in *.
    pose proof (restore_shaped rows cols target (UndoState.mk Layer.foreground sidx snap)
                  Hshape Hstate) as Hrestored. simpl in Hrestored.
    assert (Hput : Spec.frameInvariant
                     (CanvasManager.putFrame fm' held (Grid.restore target snap))).
    { apply putFrame_invariant; [exact Hfm' |]. rewrite Hr', Hc'. exact Hrestored. }
    rewrite (render_drawable
               (CanvasManager.mk (CanvasManager.putFrame fm' held (Grid.restore target snap))
                  bg Layer.foreground undos redos));
      [| apply drawable_parts; [exact Hput | apply Hbg]].
    simpl. eexists _, _. split; [reflexivity |]. simpl.
    split; [exact Hr' |]. split; [exact Hc' |]. split; [exact Hput |].
    split; [exact Hbg |]. split; [apply snapshot_shaped; exact Hshape |].
    split; reflexivity.
Qed.

Lemma last_removelast {A} (l : list A) (x : A) :
  last l = Some x -> l = removelast l ++ [x].
Proof.
  intros Hlast. apply last_Some in Hlast as [l' ->]. rewrite removelast_last. reflexivity.
Qed.

Lemma undo_invariant (rows cols : Z) (cm : CanvasManager.t) :
  Spec.canvasInvariant rows cols cm ->
  exists cm', CanvasManager.undo cm = JS.Ok cm' /\ Spec.canvasInvariant rows cols cm'.
Proof.
  intros Hinv. pose proof Hinv as (Hr & Hc & Hfm & Hbg & Hundo & Hredo & Hsum).
  unfold CanvasManager.undo.
  destruct (last (CanvasManager.undoStack cm)) as [state |] eqn:Hlast;
    [| exists cm; split; [reflexivity | exact Hinv]].
  apply last_removelast in Hlast. rewrite Hlast in Hundo, Hsum.
  apply Forall_app in Hundo as [Hrest Hstate]. apply Forall_cons in Hstate as [Hstate _].
  destruct (revert_invariant rows cols state
              (CanvasManager.mk (CanvasManager.frameManager cm)
                 (CanvasManager.backgroundGrid cm) (CanvasManager.activeLayer cm)
                 (removelast (CanvasManager.undoStack cm)) (CanvasManager.redoStack cm))
              Hr Hc Hfm Hbg Hstate)
    as (cm' & present & Hrev & Hr' & Hc' & Hfm' & Hbg' & Hpresent & Hu & Hd).
  rewrite Hrev. simpl. eexists. split; [reflexivity |].
  simpl in Hu, Hd. unfold Spec.canvasInvariant. simpl. rewrite Hu, Hd.
  split; [exact Hr' |]. split; [exact Hc' |]. split; [exact Hfm' |]. split; [exact Hbg' |].
  split; [exact Hrest |].
  split; [apply Forall_app; split; [exact Hredo | constructor; [exact Hpresent | constructor]] |].
  unfold len in *. rewrite length_app in *. simpl in *. lia.
Qed.

Lemma redo_invariant (rows cols : Z) (cm : CanvasManager.t) :
  Spec.canvasInvariant rows cols cm ->
  exists cm', CanvasManager.redo cm = JS.Ok cm' /\ Spec.canvasInvariant rows cols cm'.
Proof.
  intros Hinv. pose proof Hinv as (Hr & Hc & Hfm & Hbg & Hundo & Hredo & Hsum).
  unfold CanvasManager.redo.
  destruct (last (CanvasManager.redoStack cm)) as [state |] eqn:Hlast;
    [| exists cm; split; [reflexivity | exact Hinv]].
  apply last_removelast in Hlast. rewrite Hlast in Hredo, Hsum.
  apply Forall_app in Hredo as [Hrest Hstate]. apply Forall_cons in Hstate as [Hstate _].
  destruct (revert_invariant rows cols state
              (CanvasManager.mk (CanvasManager.frameManager cm)
                 (CanvasManager.backgroundGrid cm) (CanvasManager.activeLayer cm)
                 (CanvasManager.undoStack cm) (removelast (CanvasManager.redoStack cm)))
              Hr Hc Hfm Hbg Hstate)
    as (cm' & present & Hrev & Hr' & Hc' & Hfm' & Hbg' & Hpresent & Hu & Hd).
  rewrite Hrev. simpl. eexists. split; [reflexivity |].
  simpl in Hu, Hd. unfold Spec.canvasInvariant. simpl. rewrite Hu, Hd.
  split; [exact Hr' |]. split; [exact Hc' |]. split; [exact Hfm' |]. split; [exact Hbg' |].
  split; [apply Forall_app; split; [exact Hundo | constructor; [exact Hpresent | constructor]] |].
  split; [exact Hrest |].
  unfold len in *. rewrite length_app in *. simpl in *. lia.
Qed.

(** The operations of the frame manager other than [resize] and
    [loadFrames] keep the manager's dimensions. *)
Lemma frameStep_same_size (m m' : FrameManager.t) (op : Spec.frameOp) :
  Spec.changesSize (Spec.Frame op) = false ->
  Spec.frameStep m op = JS.Ok m' ->
  FrameManager.rows m' = FrameManager.rows m /\ FrameManager.cols m' = FrameManager.cols m.
Proof.
  destruct op as [i | | | clock copy | | clock rows' cols' | clock data rows' cols'];
    simpl; intros Hsize Hstep; try discriminate.
  - injection Hstep as <-. unfold FrameManager.gotoFrame.
    destruct (_ && _); split; reflexivity.
  - injection Hstep as <-. unfold FrameManager.nextFrame.
    destruct (_ <? _); split; reflexivity.
  - injection Hstep as <-. unfold FrameManager.prevFrame.
    destruct (_ >? _); split; reflexivity.
  - injection Hstep as <-. split; reflexivity.
  - unfold FrameManager.deleteCurrentFrame in Hstep.
    destruct (_ <=? 1).
    + destruct (FrameManager.frames m); [discriminate |].
      injection Hstep as <-. split; reflexivity.
    + injection Hstep as <-. split; reflexivity.
Qed.

Lemma canvasStep_invariant (rows cols : Z) (cm : CanvasManager.t) (op : Spec.canvasOp) :
  Spec.changesSize op = false ->
  Spec.canvasInvariant rows cols cm ->
  exists cm', Spec.canvasStep cm op = JS.Ok cm' /\ Spec.canvasInvariant rows cols cm'.
Proof.
  intros Hsize Hinv. destruct op as [edit | | | layer | fop]; simpl.
  - apply edit_invariant. exact Hinv.
  - apply undo_invariant. exact Hinv.
  - apply redo_invariant. exact Hinv.
  - destruct Hinv as (Hr & Hc & Hfm & Hbg & Hundo & Hredo & Hsum).
    unfold CanvasManager.setActiveLayer. eexists. split.
    + apply render_drawable, drawable_parts; [exact Hfm | apply Hbg].
    + unfold Spec.canvasInvariant. simpl.
      split; [exact Hr |]. split; [exact Hc |]. split; [exact Hfm |].
      split; [exact Hbg |]. split; [exact Hundo |]. split; [exact Hredo | exact Hsum].
  - destruct Hinv as (Hr & Hc & Hfm & Hbg & Hundo & Hredo & Hsum).
    destruct (frameStep_invariant (CanvasManager.frameManager cm) fop Hfm)
      as (fm' & Hstep & Hfm').
    destruct (frameStep_same_size _ _ _ Hsize Hstep) as [Hr' Hc'].
    unfold Spec.canvasFrameStep. rewrite Hstep. simpl.
    exists (CanvasManager.mk fm' (CanvasManager.backgroundGrid cm)
              (CanvasManager.activeLayer cm) (CanvasManager.undoStack cm)
              (CanvasManager.redoStack cm)).
    split.
    + destruct (_ >? _); [| reflexivity].
      apply render_drawable, drawable_parts; [exact Hfm' | apply Hbg].
    + unfold Spec.canvasInvariant. simpl.
      split; [congruence |]. split; [congruence |]. split; [exact Hfm' |].
      split; [exact Hbg |]. split; [exact Hundo |]. split; [exact Hredo | exact Hsum].
Qed.

Lemma new_canvas_invariant (rows cols : Z) :
  Spec.canvasInvariant rows cols (CanvasManager.new rows cols).
Proof.
  unfold CanvasManager.new, Spec.canvasInvariant. simpl.
  split; [reflexivity |]. split; [reflexivity |].
  split; [apply addFrame_invariant; constructor |].
  split; [apply new_shaped |]. split; [constructor |]. split; [constructor |].
  unfold len. simpl. lia.
Qed.

(** X25. As long as the size is not changed, the canvas is safe:
    starting from the constructor, any sequence of edits ([clear],
    flips, rotation), undo, redo, layer changes and frame operations
    (navigation, add, copy, delete) returns without raising, every
    [render] on the way included; afterwards the frame manager still
    has a current frame, every frame, the background and every saved
    cell array have the shape of the canvas's dimensions, and the two
    history stacks hold at most 50 states together. *)
Theorem canvas_safe_without_resize (rows cols : Z) (ops : list Spec.canvasOp) :
  forallb (fun op => negb (Spec.changesSize op)) ops = true ->
  exists cm,
    Spec.canvasRun ops (CanvasManager.new rows cols) = JS.Ok cm /\
    Spec.canvasInvariant rows cols cm /\
    CanvasManager.render cm = JS.Ok tt.
Proof.
  intros Hops. pose proof (new_canvas_invariant rows cols) as Hinv.
  revert Hinv. generalize (CanvasManager.new rows cols).
  induction ops as [| op ops IH]; intros cm Hinv; simpl.
  - exists cm. split; [reflexivity |]. split; [exact Hinv |].
    pose proof (render_drawable cm (invariant_drawable _ _ _ Hinv)) as Hrender.
    unfold CanvasManager.rendered in Hrender.
    destruct (CanvasManager.render cm) as [[] | e]; [reflexivity | discriminate].
  - simpl in Hops. apply andb_prop in Hops as [Hop Hops].
    apply negb_true_iff in Hop.
    destruct (canvasStep_invariant rows cols cm op Hop Hinv) as (cm' & Hstep & Hinv').
    rewrite Hstep. apply IH; assumption.
Qed.

Lemma canvas_safe_without_resize_witness :
  let ops := [Spec.Edit Spec.Clear; Spec.Frame (Spec.AddFrame (fun _ _ => 0) true);
              Spec.Edit (Spec.FlipHorizontal (fun _ _ => 1) (fun _ _ => 2));
              Spec.Frame Spec.DeleteCurrentFrame; Spec.Undo; Spec.Undo; Spec.Redo] in
  forallb (fun op => negb (Spec.changesSize op)) ops = true /\
  exists cm,
    Spec.canvasRun ops (CanvasManager.new 3 4) = JS.Ok cm /\
    Spec.canvasInvariant 3 4 cm.
Proof.
  cbv zeta. split; [reflexivity |].
  destruct (canvas_safe_without_resize 3 4
              [Spec.Edit Spec.Clear; Spec.Frame (Spec.AddFrame (fun _ _ => 0) true);
               Spec.Edit (Spec.FlipHorizontal (fun _ _ => 1) (fun _ _ => 2));
               Spec.Frame Spec.DeleteCurrentFrame; Spec.Undo; Spec.Undo; Spec.Redo]
              eq_refl) as (cm & Hrun & Hinv & _).
  exists cm. split; [exact Hrun | exact Hinv].
Defined.

End CanvasSafety.
